(** * A shallow embedding of the segregated-list allocator of [mm.c]

    The heap is an array of 4-byte words addressed by byte addresses; all
    accesses made by [mm.c] are word-aligned, so the memory is modelled as a
    function from (word-aligned) byte addresses to signed 32-bit words
    ([word_t] is [int32_t]).  Pointers are integers, [NULL] is [0].
    [size_t] values are 64-bit unsigned integers whose wrap-around is written
    out with [wrap64]; values stored in a word are truncated with [sint32]. *)

From Stdlib Require Import ZArith List Bool Lia.
Import ListNotations.
Local Open Scope Z_scope.

(** ** Machine arithmetic *)

(** Conversion to [size_t] (64-bit unsigned). *)
Definition wrap64 (x : Z) : Z := x mod 2 ^ 64.

(** Conversion to [word_t] = [int32_t] (what a 4-byte store keeps). *)
Definition sint32 (x : Z) : Z := (x + 2 ^ 31) mod 2 ^ 32 - 2 ^ 31.

(** ** Constants and macros *)

(** Modelled from the spec: [ALIGNMENT] is declared in [mm.h], which is not
    part of the sources; the spec fixes it to 16 bytes. *)
Definition ALIGNMENT : Z := 16.

Definition WSIZE : Z := 4.
Definition NUM_LIST : Z := 9.

(** [bt_flags] *)
Definition FREE : Z := 0.
Definition USED : Z := 1.
Definition PREVFREE : Z := 2.

Definition PACK (size alloc : Z) : Z := Z.lor size alloc.

(** ** Program state *)

(** The globals of [mm.c], the heap memory and the state of the sbrk
    provider.  [segregated_list] is the table of 9 bucket heads; it lives at
    the bottom of the sbrk region, below the prologue, and is never reached
    through a block pointer, so it is kept as a table of its own indexed by
    the bucket number: the 72 bytes of the table are the entries of this
    field and are not shown in [mem], and the pointer to the table is not
    part of the state.  [sbrk_log] records every call made to the provider
    (requested byte count, success). *)
Record state : Type := mkState {
  mem : Z -> Z;
  heap_start : Z;
  heap_end : Z;
  last : Z;
  segregated_list : Z -> Z;
  free_list_start : Z;
  last_free : Z;
  mem_brk : Z;
  mem_max_addr : Z;
  sbrk_log : list (Z * bool)
}.

Definition upd (f : Z -> Z) (a v : Z) : Z -> Z :=
  fun x => if x =? a then v else f x.

Definition set_mem (s : state) (m : Z -> Z) : state :=
  mkState m (heap_start s) (heap_end s) (last s) (segregated_list s)
          (free_list_start s) (last_free s) (mem_brk s) (mem_max_addr s)
          (sbrk_log s).

Definition set_heap_start (s : state) (v : Z) : state :=
  mkState (mem s) v (heap_end s) (last s) (segregated_list s)
          (free_list_start s) (last_free s) (mem_brk s) (mem_max_addr s)
          (sbrk_log s).

Definition set_heap_end (s : state) (v : Z) : state :=
  mkState (mem s) (heap_start s) v (last s) (segregated_list s)
          (free_list_start s) (last_free s) (mem_brk s) (mem_max_addr s)
          (sbrk_log s).

Definition set_last (s : state) (v : Z) : state :=
  mkState (mem s) (heap_start s) (heap_end s) v (segregated_list s)
          (free_list_start s) (last_free s) (mem_brk s) (mem_max_addr s)
          (sbrk_log s).

Definition set_seg (s : state) (index v : Z) : state :=
  mkState (mem s) (heap_start s) (heap_end s) (last s)
          (upd (segregated_list s) index v)
          (free_list_start s) (last_free s) (mem_brk s) (mem_max_addr s)
          (sbrk_log s).

Definition set_free_list_start (s : state) (v : Z) : state :=
  mkState (mem s) (heap_start s) (heap_end s) (last s) (segregated_list s)
          v (last_free s) (mem_brk s) (mem_max_addr s) (sbrk_log s).

Definition set_last_free (s : state) (v : Z) : state :=
  mkState (mem s) (heap_start s) (heap_end s) (last s) (segregated_list s)
          (free_list_start s) v (mem_brk s) (mem_max_addr s) (sbrk_log s).

(** [PUT(p, val)]: a 4-byte store. *)
Definition PUT (s : state) (p val : Z) : state :=
  set_mem s (upd (mem s) p (sint32 val)).

(** ** The sbrk provider *)

(** Modelled from the spec: [mem_sbrk] belongs to [memlib.c], which is not
    part of the sources.  The spec describes it as a monotonic heap extender
    [grow(n) -> base | fail] that never shrinks: a request that fits below the
    capacity [mem_max_addr] moves the break and returns the old break, any
    other request fails and moves nothing.  Each call is logged. *)
Definition mem_sbrk (s : state) (incr : Z) : option Z * state :=
  if mem_brk s + incr <=? mem_max_addr s then
    (Some (mem_brk s),
     mkState (mem s) (heap_start s) (heap_end s) (last s) (segregated_list s)
             (free_list_start s) (last_free s) (mem_brk s + incr)
             (mem_max_addr s) ((incr, true) :: sbrk_log s))
  else
    (None,
     mkState (mem s) (heap_start s) (heap_end s) (last s) (segregated_list s)
             (free_list_start s) (last_free s) (mem_brk s)
             (mem_max_addr s) ((incr, false) :: sbrk_log s)).

(** ** Boundary tag handling *)

Definition bt_size (s : state) (bt : Z) : Z :=
  wrap64 (Z.land (mem s bt) (Z.lnot (Z.lor USED PREVFREE))).

Definition bt_used (s : state) (bt : Z) : Z := Z.land (mem s bt) USED.

Definition bt_free (s : state) (bt : Z) : bool :=
  Z.land (mem s bt) USED =? 0.

Definition bt_get_prevfree (s : state) (bt : Z) : Z :=
  Z.land (mem s bt) PREVFREE.

Definition bt_clr_prevfree (s : state) (bt : Z) : state :=
  if bt =? 0 then s
  else set_mem s (upd (mem s) bt (Z.land (mem s bt) (Z.lnot PREVFREE))).

Definition bt_set_prevfree (s : state) (bt : Z) : state :=
  set_mem s (upd (mem s) bt (Z.lor (mem s bt) PREVFREE)).

(** ** Block handling *)

Definition bt_footer (s : state) (bt : Z) : Z := bt + bt_size s bt - 4.

Definition bt_header (ptr : Z) : Z := ptr - 4.

Definition bt_payload (bt : Z) : Z := bt + 4.

Definition bt_next (s : state) (block_ptr : Z) : Z :=
  let next := block_ptr + bt_size s block_ptr in
  if next <=? heap_end s then next else 0.

Definition bt_prev (s : state) (block_ptr : Z) : Z :=
  let prev := block_ptr - bt_size s (block_ptr - 4) in
  if heap_start s <=? prev then prev else 0.

Definition bt_make (s : state) (bt size flags : Z) : state :=
  let s1 := PUT s bt (PACK size flags) in
  if negb (bt_used s1 bt =? 0) then
    if negb (bt_next s1 bt =? 0) then bt_clr_prevfree s1 (bt_next s1 bt)
    else s1
  else
    let s2 := if negb (bt_next s1 bt =? 0)
              then bt_set_prevfree s1 (bt_next s1 bt) else s1 in
    PUT s2 (bt_footer s2 bt) (PACK size flags).

Definition round_up (size : Z) : Z :=
  Z.land (wrap64 (size + ALIGNMENT - 1)) (wrap64 (- ALIGNMENT)).

(** ** Explicit free lists: links are word offsets from [heap_start] *)

Definition get_free_next (s : state) (block_ptr : Z) : Z :=
  let next := mem s (block_ptr + 4) in
  if next <? 0 then 0 else heap_start s + 4 * next.

Definition get_free_prev (s : state) (block_ptr : Z) : Z :=
  let prev := mem s (block_ptr + 8) in
  if prev <? 0 then 0 else heap_start s + 4 * prev.

Definition set_free_next (s : state) (block_ptr next_block : Z) : state :=
  set_mem s (upd (mem s) (block_ptr + 4)
                 (sint32 ((next_block - heap_start s) / 4))).

Definition set_free_prev (s : state) (block_ptr prev_block : Z) : state :=
  set_mem s (upd (mem s) (block_ptr + 8)
                 (sint32 ((prev_block - heap_start s) / 4))).

Definition free_list_append (s : state) (block_ptr index : Z) : state :=
  let s1 := set_free_prev s block_ptr (heap_start s - 4) in
  let s2 :=
    if segregated_list s1 index =? 0 then
      set_free_next s1 block_ptr (heap_start s1 - 4)
    else
      let s2 := set_free_prev s1 (segregated_list s1 index) block_ptr in
      set_free_next s2 block_ptr (segregated_list s2 index) in
  set_seg s2 index block_ptr.

Definition free_list_delete (s : state) (block_ptr index : Z) : state :=
  if (segregated_list s index =? block_ptr)
     && (get_free_next s block_ptr =? 0) then
    set_seg s index 0
  else if segregated_list s index =? block_ptr then
    let s1 := set_free_prev s (get_free_next s block_ptr) (heap_start s - 4) in
    set_seg s1 index (get_free_next s1 block_ptr)
  else if negb (segregated_list s index =? block_ptr)
          && negb (get_free_next s block_ptr =? 0) then
    let s1 := set_free_next s (get_free_prev s block_ptr)
                            (get_free_next s block_ptr) in
    set_free_prev s1 (get_free_next s1 block_ptr) (get_free_prev s1 block_ptr)
  else
    let s1 := set_free_next s (get_free_prev s block_ptr) (heap_start s - 4) in
    set_last_free s1 (get_free_prev s1 block_ptr).

(** ** Segregated list *)

Definition get_index (size : Z) : Z :=
  if size <=? 512 then
    if size <=? 64 then
      if size =? 16 then 0
      else if size =? 32 then 1
      else 2
    else if size <=? 256 then
      if size <=? 128 then 3 else 4
    else 5
  else if size <=? 2048 then
    if size <=? 1024 then 6 else 7
  else 8.

(** ** libc block operations on the word memory *)

(** [memcpy(dst, src, n)] for non-overlapping regions.  Every call in [mm.c]
    passes word-aligned pointers and a byte count that is a multiple of 4
    (a sum of [bt_size] values minus [WSIZE]), so whole words are copied. *)
Definition memcpy (s : state) (dst src n : Z) : state :=
  set_mem s (fun a => if (dst <=? a) && (a <? dst + n)
                      then mem s (src + (a - dst)) else mem s a).

(** [memset(p, c, n)] on a word-aligned [p].  A trailing partial word keeps
    its high-order bytes (little-endian layout, as on x86-64). *)
Definition memset (s : state) (p c n : Z) : state :=
  let pat := (c mod 256) * 16843009 in
  set_mem s (fun a =>
    if (p <=? a) && (a <? p + n) then
      if a + 4 <=? p + n then sint32 pat
      else
        let k := 8 * (p + n - a) in
        sint32 (Z.lor (Z.ldiff (mem s a) (Z.ones k)) (Z.land pat (Z.ones k)))
    else mem s a).

(** ** Initialisation *)

(** The loop [for (i = 0; i < NUM_LIST; i++) segregated_list[i] = NULL]; the
    nine null pointers it stores are entries of the table. *)
Fixpoint clear_lists (n : nat) (i : Z) (s : state) : state :=
  match n with
  | O => s
  | S n' => clear_lists n' (i + 1) (set_seg s i 0)
  end.

(** [mm_init]; the result is the returned [int] and the new state.  When
    the second [mem_sbrk] fails, [heap_start] has already been assigned the
    failure value [(void * )-1] and the table has been cleared.  When the
    first one fails, the code leaves [(void * )-1] in the pointer to the
    table, which the state does not hold: the entries of the table mean
    nothing then. *)
Definition mm_init (s : state) : Z * state :=
  match mem_sbrk s (8 * NUM_LIST) with
  | (None, s1) => (-1, s1)
  | (Some _, s1) =>
    let s2 := clear_lists (Z.to_nat NUM_LIST) 0 s1 in
    match mem_sbrk s2 (2 * ALIGNMENT) with
    | (None, s3) => (-1, set_heap_start s3 (-1))
    | (Some p, s3) =>
      let s4 := set_heap_start s3 p in
      let s5 := PUT s4 (heap_start s4) 0 in
      let s6 := bt_make s5 (heap_start s5) 20 USED in
      let s7 := PUT s6 (heap_start s6 + 4 * 5) (PACK 0 USED) in
      let s8 := set_heap_start s7 (heap_start s7 + 4 * 5) in
      let s9 := set_heap_end s8 (heap_start s8) in
      let s10 := set_last s9 0 in
      let s11 := set_free_list_start s10 0 in
      (0, set_last_free s11 0)
    end
  end.

(** ** Heap extension *)

Definition extend_heap (s : state) (size : Z) : Z * state :=
  match mem_sbrk s size with
  | (None, s1) => (0, s1)
  | (Some _, s1) =>
    let '(block_ptr, size, s2) :=
      if negb (last s1 =? 0) && bt_free s1 (last s1) then
        let s2 := free_list_delete s1 (last s1)
                                   (get_index (bt_size s1 (last s1))) in
        (last s1, wrap64 (size + bt_size s2 (last s2)), s2)
      else (heap_end s1, size, s1) in
    let s3 := bt_make s2 block_ptr size USED in
    let s4 := PUT s3 (block_ptr + size) (PACK 0 USED) in
    let s5 := set_last s4 block_ptr in
    (block_ptr, set_heap_end s5 (block_ptr + size))
  end.

(** ** Placement *)

Definition place (s : state) (block_ptr asize : Z) : state :=
  let fsize := bt_size s block_ptr in
  let s1 := free_list_delete s block_ptr (get_index fsize) in
  if ALIGNMENT <=? wrap64 (fsize - asize) then
    let s2 := bt_make s1 block_ptr asize
                      (Z.lor USED (bt_get_prevfree s1 block_ptr)) in
    let bp := bt_next s2 block_ptr in
    let s3 := bt_make s2 bp (wrap64 (fsize - asize)) FREE in
    let s4 := free_list_append s3 bp (get_index (wrap64 (fsize - asize))) in
    if last s4 <? bp then set_last s4 bp else s4
  else
    bt_make s1 block_ptr fsize (Z.lor USED (bt_get_prevfree s1 block_ptr)).

(** ** Fit search *)

(** The inner [for] loop of [find_fit] over one bucket list, started at [ptr]
    with the best fit found so far.  The list is followed through the heap
    memory, so the loop is given fuel; [None] means the fuel ran out. *)
Fixpoint scan_list (fuel : nat) (s : state) (asize ptr best_fit : Z)
  : option Z :=
  match fuel with
  | O => None
  | S fuel' =>
    if ptr =? 0 then Some best_fit
    else
      let best_fit' :=
        if asize <=? bt_size s ptr then
          if (best_fit =? 0) || (bt_size s ptr <? bt_size s best_fit)
          then ptr else best_fit
        else best_fit in
      scan_list fuel' s asize (get_free_next s ptr) best_fit'
  end.

(** The outer [while (index < NUM_LIST)] loop; [n] counts the buckets left. *)
Fixpoint find_fit_loop (n : nat) (fuel : nat) (s : state) (asize index : Z)
  : option Z :=
  match n with
  | O => Some 0
  | S n' =>
    match scan_list fuel s asize (segregated_list s index) 0 with
    | None => None
    | Some best_fit =>
      if negb (best_fit =? 0) then Some best_fit
      else find_fit_loop n' fuel s asize (index + 1)
    end
  end.

Definition find_fit (fuel : nat) (s : state) (asize : Z) : option Z :=
  let index := get_index asize in
  find_fit_loop (Z.to_nat (NUM_LIST - index)) fuel s asize index.

(** ** malloc *)

Definition malloc (fuel : nat) (s : state) (size : Z) : option (Z * state) :=
  if size =? 0 then Some (0, s)
  else
    let asize := round_up (wrap64 (size + WSIZE)) in
    match find_fit fuel s asize with
    | None => None
    | Some block_ptr =>
      if negb (block_ptr =? 0) then
        Some (bt_payload block_ptr, place s block_ptr asize)
      else
        let extend_size :=
          if negb (last s =? 0) && bt_free s (last s)
          then wrap64 (asize - bt_size s (last s)) else asize in
        let '(block_ptr, s1) := extend_heap s extend_size in
        if block_ptr =? 0 then Some (0, s1)
        else Some (bt_payload block_ptr, s1)
    end.

(** ** free and coalesce *)

Definition coalesce (s : state) (block_ptr : Z) : Z * state :=
  let prev_block := bt_prev s block_ptr in
  let next_block := bt_next s block_ptr in
  let size := sint32 (bt_size s block_ptr) in
  let prev_free := bt_get_prevfree s block_ptr in
  let next_free := bt_free s next_block in
  let change_last :=
    (block_ptr =? last s) || ((next_block =? last s) && next_free) in
  let '(size, s1) :=
    if next_free then
      (sint32 (wrap64 (wrap64 size + bt_size s next_block)),
       free_list_delete s next_block (get_index (bt_size s next_block)))
    else (size, s) in
  let '(size, block_ptr, s2) :=
    if negb (prev_free =? 0) then
      (sint32 (wrap64 (wrap64 size + bt_size s1 prev_block)),
       prev_block,
       free_list_delete s1 prev_block (get_index (bt_size s1 prev_block)))
    else (size, block_ptr, s1) in
  let s3 := bt_make s2 block_ptr (wrap64 size) FREE in
  let s4 := free_list_append s3 block_ptr (get_index (wrap64 size)) in
  let s5 := if change_last then set_last s4 block_ptr else s4 in
  (block_ptr, s5).

Definition free (s : state) (ptr : Z) : state :=
  if ptr =? 0 then s
  else
    let block_ptr := bt_header ptr in
    let s1 := bt_make s block_ptr (bt_size s block_ptr)
                      (Z.lor FREE (bt_get_prevfree s block_ptr)) in
    if negb (bt_get_prevfree s1 block_ptr =? 0)
       || bt_free s1 (bt_next s1 block_ptr)
    then snd (coalesce s1 block_ptr)
    else free_list_append s1 block_ptr (get_index (bt_size s1 block_ptr)).

(** ** realloc *)

Definition realloc (fuel : nat) (s : state) (ptr size : Z)
  : option (Z * state) :=
  if ptr =? 0 then malloc fuel s size
  else if size =? 0 then Some (0, free s ptr)
  else
    let block_ptr := bt_header ptr in
    let next := bt_next s block_ptr in
    let asize := round_up (wrap64 (size + WSIZE)) in
    let next_free := bt_free s next in
    let free_size :=
      if next_free then wrap64 (bt_size s block_ptr + bt_size s next)
      else bt_size s block_ptr in
    let change_last :=
      (block_ptr =? last s) || ((next =? last s) && next_free) in
    if free_size <? asize then
      if change_last then
        let '(r, s1) := extend_heap s (wrap64 (asize - free_size)) in
        if r =? 0 then Some (0, s1)
        else
          let s2 := bt_make s1 block_ptr asize USED in
          Some (ptr, set_last s2 block_ptr)
      else
        match malloc fuel s size with
        | None => None
        | Some (new_ptr, s1) =>
          if new_ptr =? 0 then Some (0, s1)
          else
            let s2 := memcpy s1 new_ptr ptr (wrap64 (free_size - WSIZE)) in
            Some (new_ptr, free s2 ptr)
        end
    else
      let s1 :=
        if next_free
        then free_list_delete s next (get_index (bt_size s next)) else s in
      let '(bp, s2) :=
        if ALIGNMENT <=? wrap64 (free_size - asize) then
          let s2 := bt_make s1 block_ptr asize
                            (Z.lor USED (bt_get_prevfree s1 block_ptr)) in
          let bp := bt_next s2 block_ptr in
          let s3 := bt_make s2 bp (wrap64 (free_size - asize)) FREE in
          (bp, free_list_append s3 bp (get_index (wrap64 (free_size - asize))))
        else
          (block_ptr,
           bt_make s1 block_ptr free_size
                   (Z.lor USED (bt_get_prevfree s1 block_ptr))) in
      Some (ptr, if change_last then set_last s2 bp else s2).

(** ** calloc *)

Definition calloc (fuel : nat) (s : state) (nmemb size : Z)
  : option (Z * state) :=
  let bytes := wrap64 (nmemb * size) in
  match malloc fuel s bytes with
  | None => None
  | Some (new_ptr, s1) =>
    if negb (new_ptr =? 0) then Some (new_ptr, memset s1 new_ptr 0 bytes)
    else Some (new_ptr, s1)
  end.

(** ** The physical walk of [mm_checkheap] *)

(** The loop [for (bt = heap_start; bt && bt_size(bt) > 0; bt = bt_next(bt))]
    of [mm_checkheap], returning the headers it visits.  Each step advances
    by at least one word and stops past [heap_end], so the fuel chosen in
    [heap_blocks] is never exhausted. *)
Fixpoint walk (fuel : nat) (s : state) (bt : Z) : list Z :=
  match fuel with
  | O => []
  | S fuel' =>
    if (bt =? 0) || (bt_size s bt =? 0) then []
    else bt :: walk fuel' s (bt_next s bt)
  end.

Definition heap_blocks (s : state) : list Z :=
  walk (Z.to_nat ((heap_end s - heap_start s) / 4) + 2) s (heap_start s).

(** A payload pointer the client may pass to [free] or [realloc]: the payload
    of a block of the heap that is marked used. *)
Definition allocated (s : state) (ptr : Z) : bool :=
  existsb (fun bt => (bt =? bt_header ptr) && negb (bt_free s bt))
          (heap_blocks s).

(** ** The invariants I3 and I4 of the spec as checks on the walk *)

(** I3 on a run of blocks: [pf] tells whether the block before [l] is free. *)
Fixpoint prevfree_matches (s : state) (pf : bool) (l : list Z) : bool :=
  match l with
  | [] => true
  | bt :: l' =>
    Bool.eqb (negb (bt_get_prevfree s bt =? 0)) pf
    && prevfree_matches s (bt_free s bt) l'
  end.

(** I3: the first block follows the allocated prologue. *)
Definition prevfree_ok (s : state) : bool :=
  prevfree_matches s false (heap_blocks s).

(** I4 on a run of blocks. *)
Fixpoint no_adjacent_free_from (s : state) (pf : bool) (l : list Z) : bool :=
  match l with
  | [] => true
  | bt :: l' =>
    negb (pf && bt_free s bt) && no_adjacent_free_from s (bt_free s bt) l'
  end.

Definition no_adjacent_free (s : state) : bool :=
  no_adjacent_free_from s false (heap_blocks s).

(** ** Public calls *)

Inductive call : Type :=
| Malloc (size : Z)
| Free (ptr : Z)
| Realloc (ptr size : Z)
| Calloc (nmemb size : Z).

(** One public call: the returned pointer ([0] for [free]) and the new state;
    [None] when the fuel of the list scan ran out. *)
Definition do_call (fuel : nat) (s : state) (c : call) : option (Z * state) :=
  match c with
  | Malloc size => malloc fuel s size
  | Free ptr => Some (0, free s ptr)
  | Realloc ptr size => realloc fuel s ptr size
  | Calloc nmemb size => calloc fuel s nmemb size
  end.

(** The state after a call, for runs on concrete heaps. *)
Definition after (s : state) (c : call) : state :=
  match do_call 64 s c with
  | Some (_, s') => s'
  | None => s
  end.

Definition result (s : state) (c : call) : Z :=
  match do_call 64 s c with
  | Some (p, _) => p
  | None => -1
  end.

(** ** Bucket lists as they are laid out in the heap *)

(** [chain s ptr l]: following [get_free_next] from [ptr] visits exactly the
    blocks [l] and then reaches [NULL]. *)
Fixpoint chain (s : state) (ptr : Z) (l : list Z) : Prop :=
  match l with
  | [] => ptr = 0
  | b :: l' => ptr = b /\ b <> 0 /\ chain s (get_free_next s b) l'
  end.

(** All fields of the state but the log of provider calls. *)
Definition same_heap (s s' : state) : Prop :=
  mem s' = mem s /\ heap_start s' = heap_start s /\ heap_end s' = heap_end s
  /\ last s' = last s /\ segregated_list s' = segregated_list s
  /\ free_list_start s' = free_list_start s /\ last_free s' = last_free s
  /\ mem_brk s' = mem_brk s /\ mem_max_addr s' = mem_max_addr s.

(** ** Concrete heaps used in the examples *)

(** A fresh provider: zeroed memory, a 16-aligned base and 1 MiB capacity. *)
Definition fresh_heap : state :=
  mkState (fun _ => 0) 0 0 0 (fun _ => 0) 0 0 4096 (4096 + 1048576) [].

Definition heap0 : state := snd (mm_init fresh_heap).

(** Two blocks of 32 bytes, [a] at payload 4192 and [b] at payload 4224,
    then [a] freed: [b] is the last block and its left neighbour is free. *)
Definition heap_ab : state :=
  after (after (after heap0 (Malloc 24)) (Malloc 24)) (Free 4192).

(** [b] grown at the heap end. *)
Definition heap_ab_grown : state := after heap_ab (Realloc 4224 100).

(** ... and then freed. *)
Definition heap_ab_freed : state := after heap_ab_grown (Free 4224).

(** Four blocks of 32 bytes at payloads 4192, 4224, 4256, 4288, the third
    one freed. *)
Definition heap_abcd : state :=
  after (after (after (after (after heap0 (Malloc 24)) (Malloc 24))
                      (Malloc 24)) (Malloc 24)) (Free 4256).

(** The second block moved by [realloc] to a 200-byte payload. *)
Definition heap_abcd_moved : state := after heap_abcd (Realloc 4224 200).

(** One block of 32 bytes, freed: the last block is free. *)
Definition heap_tail_free : state :=
  after (after heap0 (Malloc 24)) (Free 4192).

(** Three free blocks of 64, 48 and 80 bytes linked in this order on
    bucket 2, written with the allocator's own primitives. *)
Definition heap_s4 : state :=
  let s := mkState (fun _ => 0) 1004 1196 1116 (fun _ => 0) 0 0 1208 4096 [] in
  let s := PUT s 1196 (PACK 0 USED) in
  let s := bt_make s 1004 64 FREE in
  let s := bt_make s 1068 48 FREE in
  let s := bt_make s 1116 80 FREE in
  let s := free_list_append s 1116 2 in
  let s := free_list_append s 1068 2 in
  free_list_append s 1004 2.

(** A provider with room for the initial heap and one 32-byte block only;
    the heap after that block was allocated has no capacity left. *)
Definition small_heap : state :=
  mkState (fun _ => 0) 0 0 0 (fun _ => 0) 0 0 4096 (4096 + 136) [].

Definition heap_full : state := after (snd (mm_init small_heap)) (Malloc 24).

(** A word stored by the client. *)
Definition client_store (s : state) (a v : Z) : state :=
  set_mem s (upd (mem s) a v).

(** One block of 64 bytes, freed. *)
Definition heap_free64 : state := after (after heap0 (Malloc 60)) (Free 4192).

(** ... then a request of [2^64 - 4] bytes, whose adjusted size wraps around
    to 0: [malloc] returns the payload 4192 of the block, which stays free
    and on its bucket list. *)
Definition heap_wrapped : state := after heap_free64 (Malloc (2 ^ 64 - 4)).

(** ... then four words written by the client through that pointer: they
    overwrite the next link of the block and lay out, 8 bytes into it, what
    reads as a free block of 48 bytes with no successor and the block as
    predecessor. *)
Definition heap_scribbled : state :=
  client_store
    (client_store (client_store (client_store heap_wrapped 4192 2) 4196 48)
                  4200 (-1))
    4204 0.

(** One block of 32 bytes, a request of [2^64 - 4] bytes, which extends the
    heap by 0 bytes and leaves [last] at the epilogue, and the block freed:
    the physically last block is free and [last] does not point at it. *)
Definition heap_stale : state :=
  after (after (after heap0 (Malloc 24)) (Malloc (2 ^ 64 - 4))) (Free 4192).

(** * The heap invariant *)

(** ** Ghost description of the heap

    A heap is described by the list of its blocks in address order.  Besides
    the two states a block has between public calls (allocated, or free and
    linked on its bucket list), two transient states describe a block in the
    middle of an operation: free but not linked on any list, and a raw run of
    bytes whose header is not meaningful yet. *)
Inductive status : Type := Used | OnList | Unlinked | Raw.

Record block : Type := mkBlock { baddr : Z; bsize : Z; bst : status }.

(** The blocks [bl] tile the addresses from [a] to [e]. *)
Fixpoint tiles (a : Z) (bl : list block) (e : Z) : Prop :=
  match bl with
  | [] => a = e
  | b :: bl' =>
    baddr b = a /\ 16 <= bsize b /\ bsize b mod 16 = 0
    /\ tiles (a + bsize b) bl' e
  end.

(** Header (and footer, for a free block) of a block agree with its
    description (I1, and the size part of I2). *)
Definition hdr_ok (s : state) (b : block) : Prop :=
  match bst b with
  | Raw => True
  | Used => bt_size s (baddr b) = bsize b /\ bt_free s (baddr b) = false
  | _ =>
    bt_size s (baddr b) = bsize b /\ bt_free s (baddr b) = true
    /\ bt_size s (baddr b + bsize b - 4) = bsize b
  end.

(** PREVFREE is sound: a block that carries it does not follow an allocated
    block.  [prev] is the state of the block before [bl]. *)
Fixpoint pf_ok (s : state) (prev : status) (bl : list block) : Prop :=
  match bl with
  | [] => True
  | b :: bl' =>
    (bst b <> Raw -> bt_get_prevfree s (baddr b) <> 0 -> prev <> Used)
    /\ pf_ok s (bst b) bl'
  end.

(** A segment of a doubly linked bucket list: from [ptr], whose predecessor
    is [prev], through the blocks [l], to [e]. *)
Fixpoint lseg (s : state) (prev ptr : Z) (l : list Z) (e : Z) : Prop :=
  match l with
  | [] => ptr = e
  | a :: l' =>
    ptr = a /\ get_free_prev s a = prev
    /\ lseg s a (get_free_next s a) l' e
  end.

Definition dll (s : state) (head : Z) (l : list Z) : Prop :=
  lseg s 0 head l 0.

(** Every bucket is a well-formed list without repetition of exactly the
    linked free blocks of its size class (I5, I6, P6). *)
Definition lists_ok (s : state) (bl : list block) (fl : Z -> list Z) : Prop :=
  forall i, 0 <= i < NUM_LIST ->
    dll s (segregated_list s i) (fl i)
    /\ NoDup (fl i)
    /\ forall a, In a (fl i) <->
                 exists sz, In (mkBlock a sz OnList) bl /\ get_index sz = i.

(** The epilogue (I8). *)
Definition epilogue_ok (s : state) : Prop :=
  bt_size s (heap_end s) = 0 /\ bt_free s (heap_end s) = false.

(** Placement of the heap: headers sit 12 bytes past a 16-byte boundary, the
    heap lies below the break, and the provider's capacity keeps every
    offset within a signed word. *)
Definition bounds_ok (s : state) : Prop :=
  0 < heap_start s /\ heap_start s mod 16 = 12
  /\ heap_end s <= mem_brk s /\ mem_brk s <= mem_max_addr s
  /\ mem_max_addr s - heap_start s < 2 ^ 31.

Record core (s : state) (bl : list block) (fl : Z -> list Z) : Prop :=
  mkCore {
    c_bounds : bounds_ok s;
    c_tiles : tiles (heap_start s) bl (heap_end s);
    c_hdr : Forall (hdr_ok s) bl;
    c_pf : pf_ok s Used bl;
    c_epi : epilogue_ok s;
    c_lists : lists_ok s bl fl
  }.

(** Between public calls every block is allocated or on its list. *)
Definition public (bl : list block) : Prop :=
  Forall (fun b => bst b = Used \/ bst b = OnList) bl.

(** The address of the last block, null for the empty heap. *)
Definition last_block (bl : list block) : Z := List.last (map baddr bl) 0.

(** [last] is the physically last block, or null on an empty heap (I7); it
    is the epilogue itself after a zero-byte extension. *)
Definition last_ok (s : state) (bl : list block) : Prop :=
  last s = heap_end s \/ last s = last_block bl.

Definition inv (s : state) (bl : list block) (fl : Z -> list Z) : Prop :=
  core s bl fl /\ public bl /\ last_ok s bl.

Definition heap_ok (s : state) : Prop := exists bl fl, inv s bl fl.

(** Allocated blocks stay where they are. *)
Definition keeps_used (bl bl' : list block) : Prop :=
  forall x sz, In (mkBlock x sz Used) bl -> In (mkBlock x sz Used) bl'.

(** The payload words of the allocated blocks of [U] are the same in [s']
    as in [s]. *)
Definition keeps_payload (U : list block) (s s' : state) : Prop :=
  forall x sz y,
    In (mkBlock x sz Used) U -> x < y < x + sz -> mem s' y = mem s y.

(** Only link words of linked free blocks differ between [s] and [s']. *)
Definition link_frame (bl : list block) (s s' : state) : Prop :=
  forall y,
    (forall x sz, In (mkBlock x sz OnList) bl -> y <> x + 4 /\ y <> x + 8) ->
    mem s' y = mem s y.

(** The heap keeps its start and grows by what the provider granted. *)
Definition grows (s s' : state) : Prop :=
  heap_start s' = heap_start s /\ mem_max_addr s' = mem_max_addr s
  /\ heap_end s <= heap_end s'
  /\ mem_brk s' - mem_brk s = heap_end s' - heap_end s.

(** The headers [l] visited from [a] lie end to end and stop at [e]. *)
Fixpoint covers (s : state) (a : Z) (l : list Z) (e : Z) : Prop :=
  match l with
  | [] => a = e
  | bt :: l' => bt = a /\ covers s (a + bt_size s bt) l' e
  end.

(** The invariant with the bucket lists left implicit. *)
Definition hcore (s : state) (bl : list block) : Prop :=
  exists fl, core s bl fl.

(** The heap bounds and the provider are the same; [last] may differ. *)
Definition same_anchors_but_last (s s' : state) : Prop :=
  heap_start s' = heap_start s /\ heap_end s' = heap_end s
  /\ mem_brk s' = mem_brk s /\ mem_max_addr s' = mem_max_addr s.

(** The block at [a] of size [sz] has been freed between [s] and [s']: it
    lies inside a linked free block, the other blocks [U] are what they
    were, and the heap has not moved. *)
Definition freed (s s' : state) (U : list block) (a sz : Z) : Prop :=
  exists pre' post' fa fsz,
    hcore s' (pre' ++ mkBlock fa fsz OnList :: post')
    /\ public (pre' ++ mkBlock fa fsz OnList :: post')
    /\ last_ok s' (pre' ++ mkBlock fa fsz OnList :: post')
    /\ keeps_used U (pre' ++ post') /\ keeps_used (pre' ++ post') U
    /\ keeps_payload U s s'
    /\ fa <= a /\ a + sz <= fa + fsz
    /\ heap_start s' = heap_start s /\ heap_end s' = heap_end s
    /\ mem_brk s' = mem_brk s /\ mem_max_addr s' = mem_max_addr s.

(** [freed] with the extent of the resulting free block made explicit. *)
Definition freed_at (s s' : state) (U : list block) (a sz fa fsz : Z)
  : Prop :=
  exists pre' post',
    hcore s' (pre' ++ mkBlock fa fsz OnList :: post')
    /\ public (pre' ++ mkBlock fa fsz OnList :: post')
    /\ last_ok s' (pre' ++ mkBlock fa fsz OnList :: post')
    /\ keeps_used U (pre' ++ post') /\ keeps_used (pre' ++ post') U
    /\ keeps_payload U s s'
    /\ fa <= a /\ a + sz <= fa + fsz
    /\ heap_start s' = heap_start s /\ heap_end s' = heap_end s
    /\ mem_brk s' = mem_brk s /\ mem_max_addr s' = mem_max_addr s.

(** The block at [a] of size [sz] has been resized to [asize] bytes (and
    less than 16 more) between [s] and [s'] and now starts at [b]: the
    other blocks [U] are what they were, no other block became allocated,
    and the payload is kept up to the smaller of the two sizes. *)
Definition resized (s s' : state) (U : list block) (a sz asize b : Z)
  : Prop :=
  exists bl',
    hcore s' bl' /\ public bl' /\ last_ok s' bl'
    /\ keeps_used U bl' /\ keeps_payload U s s'
    /\ (forall x szx, In (mkBlock x szx Used) bl' ->
                      In (mkBlock x szx Used) U \/ x = b)
    /\ (asize <> 0 ->
        (exists sz', In (mkBlock b sz' Used) bl'
                     /\ asize <= sz' < asize + 16)
        /\ forall k, 0 <= k < sz - 4 -> k < asize - 4 ->
                     mem s' (b + 4 + k) = mem s (a + 4 + k)).

(** Fuel that lets the scan reach the end of every bucket list. *)
Definition enough_fuel (fl : Z -> list Z) : nat :=
  S (length (fl 0) + length (fl 1) + length (fl 2) + length (fl 3)
     + length (fl 4) + length (fl 5) + length (fl 6) + length (fl 7)
     + length (fl 8)).


(** ** Runs of the allocator *)

(** A provider on which [mm_init] may be called: a positive 16-aligned
    break and less than 2 GiB of capacity left. *)
Definition fresh (s0 : state) : Prop :=
  0 < mem_brk s0 /\ mem_brk s0 mod 16 = 0
  /\ mem_max_addr s0 - mem_brk s0 < 2 ^ 31.

(** What the client may ask: pointers passed back are null or payloads of
    allocated blocks; [calloc] is asked for a byte count whose adjusted size
    does not wrap around (it zeroes that many bytes). *)
Definition valid_call (s : state) (c : call) : Prop :=
  match c with
  | Malloc size => 0 <= size < 2 ^ 64
  | Free ptr => ptr = 0 \/ allocated s ptr = true
  | Realloc ptr size =>
    (ptr = 0 \/ allocated s ptr = true) /\ 0 <= size < 2 ^ 64
  | Calloc nmemb size =>
    0 <= nmemb < 2 ^ 64 /\ 0 <= size < 2 ^ 64
    /\ wrap64 (nmemb * size) <= 2 ^ 64 - 20
  end.

(** The states reached from a successful [mm_init] by public calls and by
    the client writing words into the payload of its allocated blocks. *)
Inductive reachable : state -> Prop :=
| reach_init (s0 s : state) :
    fresh s0 -> mm_init s0 = (0, s) -> reachable s
| reach_call (s : state) (c : call) (fuel : nat) (r : Z) (s' : state) :
    reachable s -> valid_call s c -> do_call fuel s c = Some (r, s') ->
    reachable s'
| reach_store (s : state) (ptr a v : Z) :
    reachable s -> allocated s ptr = true ->
    ptr <= a < ptr + bt_size s (bt_header ptr) - 4 ->
    (a - ptr) mod 4 = 0 ->
    reachable (set_mem s (upd (mem s) a v)).

(** The globals the invariant speaks of are unchanged. *)
Definition same_fields (s s' : state) : Prop :=
  heap_start s' = heap_start s /\ heap_end s' = heap_end s
  /\ last s' = last s /\ segregated_list s' = segregated_list s
  /\ mem_brk s' = mem_brk s /\ mem_max_addr s' = mem_max_addr s.

(** The state of the last block of [l], or [p] when [l] is empty. *)
Fixpoint last_st (p : status) (l : list block) : status :=
  match l with
  | [] => p
  | b :: l' => last_st (bst b) l'
  end.

(** The heap anchors and the provider's break are unchanged. *)
Definition same_anchors (s s' : state) : Prop :=
  heap_start s' = heap_start s /\ heap_end s' = heap_end s
  /\ last s' = last s
  /\ mem_brk s' = mem_brk s /\ mem_max_addr s' = mem_max_addr s.

(** [x] is the address of a block of [bl]. *)
Definition is_block (bl : list block) (x : Z) : Prop :=
  exists sz st, In (mkBlock x sz st) bl.

(** * Words, flags and stores *)

Lemma wrap64_small (x : Z) : 0 <= x < 2 ^ 64 -> wrap64 x = x.
Proof. intros H. unfold wrap64. apply Z.mod_small. exact H. Qed.

Lemma wrap64_range (x : Z) : 0 <= wrap64 x < 2 ^ 64.
Proof. unfold wrap64. apply Z.mod_pos_bound. reflexivity. Qed.

Lemma sint32_small (x : Z) : - 2 ^ 31 <= x < 2 ^ 31 -> sint32 x = x.
Proof.
  intros H. unfold sint32. rewrite Z.mod_small; lia.
Qed.

Lemma sint32_range (x : Z) : - 2 ^ 31 <= sint32 x < 2 ^ 31.
Proof.
  unfold sint32.
  pose proof (Z.mod_pos_bound (x + 2 ^ 31) (2 ^ 32) eq_refl). lia.
Qed.

(** The masks of [mm.c] in arithmetic form. *)
Lemma land_size_mask (w : Z) :
  Z.land w (Z.lnot (Z.lor USED PREVFREE)) = w - w mod 4.
Proof.
  change (Z.lor USED PREVFREE) with (Z.ones 2).
  rewrite <- Z.ldiff_land, Z.ldiff_ones_r by lia.
  rewrite Z.shiftl_mul_pow2, Z.shiftr_div_pow2 by lia.
  change (2 ^ 2) with 4.
  pose proof (Z.div_mod w 4). lia.
Qed.

Lemma land_used (w : Z) : Z.land w USED = w mod 2.
Proof.
  change USED with (Z.ones 1). rewrite Z.land_ones by lia. reflexivity.
Qed.

Lemma land_low2 (w : Z) : Z.land w 3 = w mod 4.
Proof.
  change 3 with (Z.ones 2). rewrite Z.land_ones by lia. reflexivity.
Qed.

Lemma land_prevfree (w : Z) : Z.land w PREVFREE = w mod 4 - w mod 2.
Proof.
  unfold PREVFREE.
  change 2 with (Z.land 3 2) at 1.
  rewrite Z.land_assoc, land_low2.
  pose proof (Z.mod_pos_bound w 4 eq_refl) as H4.
  assert (E : w mod 2 = (w mod 4) mod 2).
  { symmetry. apply Z.mod_mod_divide. exists 2; reflexivity. }
  rewrite E.
  assert (C : w mod 4 = 0 \/ w mod 4 = 1 \/ w mod 4 = 2 \/ w mod 4 = 3)
    by lia.
  destruct C as [-> | [-> | [-> | ->]]]; reflexivity.
Qed.

Lemma land_clr_prevfree (w : Z) :
  Z.land w (Z.lnot PREVFREE) = w - Z.land w PREVFREE.
Proof.
  rewrite <- Z.ldiff_land.
  symmetry. rewrite Z.sub_nocarry_ldiff.
  - apply Z.bits_inj'. intros n Hn.
    rewrite !Z.ldiff_spec, Z.land_spec.
    destruct (Z.testbit w n), (Z.testbit PREVFREE n); reflexivity.
  - apply Z.bits_inj'. intros n Hn.
    rewrite Z.ldiff_spec, Z.land_spec, Z.bits_0.
    destruct (Z.testbit w n), (Z.testbit PREVFREE n); reflexivity.
Qed.

Lemma lor_set_prevfree (w : Z) :
  Z.lor w PREVFREE = w + 2 - Z.land w PREVFREE.
Proof.
  assert (E : Z.lor w PREVFREE
              = Z.lor (Z.land w (Z.lnot PREVFREE)) PREVFREE).
  { apply Z.bits_inj'. intros n Hn.
    rewrite !Z.lor_spec, Z.land_spec, Z.lnot_spec by lia.
    destruct (Z.testbit w n), (Z.testbit PREVFREE n); reflexivity. }
  rewrite E, <- Z.lxor_lor, <- Z.add_nocarry_lxor.
  - rewrite land_clr_prevfree. unfold PREVFREE at 2. lia.
  - apply Z.bits_inj'. intros n Hn.
    rewrite !Z.land_spec, Z.lnot_spec, Z.bits_0 by lia.
    destruct (Z.testbit w n), (Z.testbit PREVFREE n); reflexivity.
  - apply Z.bits_inj'. intros n Hn.
    rewrite !Z.land_spec, Z.lnot_spec, Z.bits_0 by lia.
    destruct (Z.testbit w n), (Z.testbit PREVFREE n); reflexivity.
Qed.

Lemma PACK_add (size flags : Z) :
  size mod 4 = 0 -> 0 <= flags < 4 -> PACK size flags = size + flags.
Proof.
  intros Hs Hf. unfold PACK.
  rewrite <- Z.lxor_lor, <- Z.add_nocarry_lxor; try reflexivity.
  - assert (E : flags = Z.land 3 flags).
    { rewrite Z.land_comm, land_low2. symmetry. apply Z.mod_small. lia. }
    rewrite E, Z.land_assoc, land_low2, Hs. reflexivity.
  - assert (E : flags = Z.land 3 flags).
    { rewrite Z.land_comm, land_low2. symmetry. apply Z.mod_small. lia. }
    rewrite E, Z.land_assoc, land_low2, Hs. reflexivity.
Qed.

Lemma round_up_spec (x : Z) :
  0 <= x < 2 ^ 64 ->
  round_up x = wrap64 (x + 15) - wrap64 (x + 15) mod 16.
Proof.
  intros Hx. unfold round_up, ALIGNMENT.
  replace (x + 16 - 1) with (x + 15) by lia.
  change (wrap64 (- (16))) with (Z.land (Z.ones 64) (Z.lnot (Z.ones 4))).
  rewrite Z.land_assoc, Z.land_ones by lia.
  fold (wrap64 (wrap64 (x + 15))).
  rewrite (wrap64_small (wrap64 (x + 15))) by apply wrap64_range.
  rewrite <- Z.ldiff_land, Z.ldiff_ones_r by lia.
  rewrite Z.shiftl_mul_pow2, Z.shiftr_div_pow2 by lia.
  change (2 ^ 4) with 16.
  pose proof (Z.div_mod (wrap64 (x + 15)) 16). lia.
Qed.

(** * Size classes *)

Lemma get_index_range (size : Z) : 0 <= get_index size < NUM_LIST.
Proof.
  unfold get_index, NUM_LIST.
  repeat match goal with |- context [if ?c then _ else _] => destruct c end;
    lia.
Qed.

Ltac case_get_index :=
  unfold get_index;
  repeat match goal with
         | |- context [?a <=? ?b] => destruct (Z.leb_spec a b)
         | |- context [?a =? ?b] => destruct (Z.eqb_spec a b)
         end.

(** Monotonicity of [get_index] from a size that is 16 or at least 32. *)
Lemma get_index_mono (s1 s2 : Z) :
  s1 = 16 \/ 32 <= s1 -> s1 <= s2 -> get_index s1 <= get_index s2.
Proof.
  intros Hs1 Hle. case_get_index; lia.
Qed.

(** A block that belongs to a smaller class than a request is too small. *)
Lemma get_index_lt_size (asize size : Z) :
  asize = 16 \/ 32 <= asize ->
  get_index size < get_index asize -> size < asize.
Proof.
  intros Ha Hlt.
  destruct (Z.lt_ge_cases size asize) as [|Hge]; [assumption|].
  pose proof (get_index_mono asize size Ha Hge). lia.
Qed.


(** * Reading after writing *)

Ltac simpl_state :=
  cbn [mem heap_start heap_end last segregated_list mem_brk mem_max_addr
       sbrk_log free_list_start last_free set_mem set_seg set_last
       set_heap_end set_heap_start set_last_free set_free_list_start] in *.

Lemma upd_eq (f : Z -> Z) (a v : Z) : upd f a v a = v.
Proof. unfold upd. rewrite Z.eqb_refl. reflexivity. Qed.

Lemma upd_neq (f : Z -> Z) (a v x : Z) : x <> a -> upd f a v x = f x.
Proof.
  intros H. unfold upd. destruct (Z.eqb_spec x a); [contradiction|reflexivity].
Qed.

Lemma same_fields_refl (s : state) : same_fields s s.
Proof. repeat split. Qed.

Lemma same_fields_trans (s1 s2 s3 : state) :
  same_fields s1 s2 -> same_fields s2 s3 -> same_fields s1 s3.
Proof.
  unfold same_fields. intros (A1 & A2 & A3 & A4 & A5 & A6)
                             (B1 & B2 & B3 & B4 & B5 & B6).
  repeat split; congruence.
Qed.

Lemma sf_hs (s s' : state) :
  same_fields s s' -> heap_start s' = heap_start s.
Proof. intros H. apply H. Qed.

Lemma sf_he (s s' : state) :
  same_fields s s' -> heap_end s' = heap_end s.
Proof. intros H. apply H. Qed.

Lemma sf_last (s s' : state) : same_fields s s' -> last s' = last s.
Proof. intros H. apply H. Qed.

Lemma sf_seg (s s' : state) (i : Z) :
  same_fields s s' -> segregated_list s' i = segregated_list s i.
Proof. intros (_ & _ & _ & E & _). rewrite E. reflexivity. Qed.

Lemma same_fields_set_mem (s : state) (m : Z -> Z) :
  same_fields s (set_mem s m).
Proof. repeat split. Qed.

(** The accessors read one word each. *)
Lemma bt_size_frame (s s' : state) (a : Z) :
  mem s' a = mem s a -> bt_size s' a = bt_size s a.
Proof. intros H. unfold bt_size. rewrite H. reflexivity. Qed.

Lemma bt_free_frame (s s' : state) (a : Z) :
  mem s' a = mem s a -> bt_free s' a = bt_free s a.
Proof. intros H. unfold bt_free. rewrite H. reflexivity. Qed.

Lemma bt_get_prevfree_frame (s s' : state) (a : Z) :
  mem s' a = mem s a -> bt_get_prevfree s' a = bt_get_prevfree s a.
Proof. intros H. unfold bt_get_prevfree. rewrite H. reflexivity. Qed.

Lemma get_free_next_frame (s s' : state) (a : Z) :
  heap_start s' = heap_start s -> mem s' (a + 4) = mem s (a + 4) ->
  get_free_next s' a = get_free_next s a.
Proof. intros H1 H2. unfold get_free_next. rewrite H1, H2. reflexivity. Qed.

Lemma get_free_prev_frame (s s' : state) (a : Z) :
  heap_start s' = heap_start s -> mem s' (a + 8) = mem s (a + 8) ->
  get_free_prev s' a = get_free_prev s a.
Proof. intros H1 H2. unfold get_free_prev. rewrite H1, H2. reflexivity. Qed.

(** Accessors in arithmetic form. *)
Lemma bt_size_word (s : state) (a : Z) :
  bt_size s a = wrap64 (mem s a - mem s a mod 4).
Proof. unfold bt_size. rewrite land_size_mask. reflexivity. Qed.

Lemma bt_free_word (s : state) (a : Z) :
  bt_free s a = (mem s a mod 2 =? 0).
Proof. unfold bt_free. rewrite land_used. reflexivity. Qed.

Lemma bt_used_word (s : state) (a : Z) : bt_used s a = mem s a mod 2.
Proof. unfold bt_used. apply land_used. Qed.

Lemma bt_get_prevfree_word (s : state) (a : Z) :
  bt_get_prevfree s a = mem s a mod 4 - mem s a mod 2.
Proof. unfold bt_get_prevfree. apply land_prevfree. Qed.

Ltac zmod := Z.div_mod_to_equations; lia.

Lemma bt_get_prevfree_cases (s : state) (a : Z) :
  bt_get_prevfree s a = 0 \/ bt_get_prevfree s a = 2.
Proof. rewrite bt_get_prevfree_word. zmod. Qed.

(** A header word [size + flags]. *)
Lemma header_word (size flags : Z) :
  0 <= size < 2 ^ 31 - 3 -> size mod 4 = 0 -> 0 <= flags < 4 ->
  sint32 (PACK size flags) = size + flags.
Proof.
  intros Hs Hm Hf. rewrite PACK_add by assumption. apply sint32_small. lia.
Qed.

Lemma header_word_size (size flags : Z) :
  0 <= size < 2 ^ 31 - 3 -> size mod 4 = 0 -> 0 <= flags < 4 ->
  wrap64 (size + flags - (size + flags) mod 4) = size.
Proof.
  intros Hs Hm Hf.
  assert (E : (size + flags) mod 4 = flags) by zmod.
  rewrite E. replace (size + flags - flags) with size by lia.
  apply wrap64_small. lia.
Qed.

Lemma header_word_mod2 (size flags : Z) :
  size mod 4 = 0 -> (size + flags) mod 2 = flags mod 2.
Proof. intros Hm. zmod. Qed.

Lemma header_word_mod4 (size flags : Z) :
  size mod 4 = 0 -> 0 <= flags < 4 -> (size + flags) mod 4 = flags.
Proof. intros Hm Hf. zmod. Qed.

(** Setting or clearing PREVFREE in a word keeps its size and used bit. *)
Lemma word_pf_size (w p : Z) :
  p = w mod 4 - w mod 2 ->
  (w - p) - (w - p) mod 4 = w - w mod 4
  /\ (w + 2 - p) - (w + 2 - p) mod 4 = w - w mod 4.
Proof. intros ->. split; zmod. Qed.

Lemma word_pf_mod2 (w p : Z) :
  p = w mod 4 - w mod 2 ->
  (w - p) mod 2 = w mod 2 /\ (w + 2 - p) mod 2 = w mod 2.
Proof. intros ->. split; zmod. Qed.

Lemma word_pf_mod4 (w p : Z) :
  p = w mod 4 - w mod 2 ->
  (w - p) mod 4 - (w - p) mod 2 = 0
  /\ (w + 2 - p) mod 4 - (w + 2 - p) mod 2 = 2.
Proof. intros ->. split; zmod. Qed.

(** * What the boundary-tag primitives do *)

Lemma bt_set_prevfree_spec (s : state) (x : Z) :
  same_fields s (bt_set_prevfree s x)
  /\ (forall y, y <> x -> mem (bt_set_prevfree s x) y = mem s y)
  /\ bt_size (bt_set_prevfree s x) x = bt_size s x
  /\ bt_free (bt_set_prevfree s x) x = bt_free s x
  /\ bt_get_prevfree (bt_set_prevfree s x) x = 2.
Proof.
  unfold bt_set_prevfree.
  split; [apply same_fields_set_mem|].
  split; [intros y Hy; simpl_state; apply upd_neq; exact Hy|].
  rewrite !bt_size_word, !bt_free_word, bt_get_prevfree_word. simpl_state.
  rewrite upd_eq, lor_set_prevfree, land_prevfree.
  destruct (word_pf_size (mem s x) _ eq_refl) as (_ & E1).
  destruct (word_pf_mod2 (mem s x) _ eq_refl) as (_ & E2).
  destruct (word_pf_mod4 (mem s x) _ eq_refl) as (_ & E3).
  split; [rewrite E1; reflexivity|].
  split; [rewrite E2; reflexivity|exact E3].
Qed.

Lemma bt_clr_prevfree_spec (s : state) (x : Z) :
  x <> 0 ->
  same_fields s (bt_clr_prevfree s x)
  /\ (forall y, y <> x -> mem (bt_clr_prevfree s x) y = mem s y)
  /\ bt_size (bt_clr_prevfree s x) x = bt_size s x
  /\ bt_free (bt_clr_prevfree s x) x = bt_free s x
  /\ bt_get_prevfree (bt_clr_prevfree s x) x = 0.
Proof.
  intros Hx. unfold bt_clr_prevfree.
  destruct (Z.eqb_spec x 0) as [|_]; [contradiction|].
  split; [apply same_fields_set_mem|].
  split; [intros y Hy; simpl_state; apply upd_neq; exact Hy|].
  rewrite !bt_size_word, !bt_free_word, bt_get_prevfree_word. simpl_state.
  rewrite upd_eq, land_clr_prevfree, land_prevfree.
  destruct (word_pf_size (mem s x) _ eq_refl) as (E1 & _).
  destruct (word_pf_mod2 (mem s x) _ eq_refl) as (E2 & _).
  destruct (word_pf_mod4 (mem s x) _ eq_refl) as (E3 & _).
  split; [rewrite E1; reflexivity|].
  split; [rewrite E2; reflexivity|exact E3].
Qed.

Lemma PUT_spec (s : state) (x v : Z) :
  same_fields s (PUT s x v)
  /\ (forall y, y <> x -> mem (PUT s x v) y = mem s y)
  /\ mem (PUT s x v) x = sint32 v.
Proof.
  unfold PUT. split; [apply same_fields_set_mem|].
  split; [intros y Hy; simpl_state; apply upd_neq; exact Hy|].
  simpl_state. apply upd_eq.
Qed.

(** A header store of [size + flags]. *)
Lemma PUT_header (s : state) (x size flags : Z) :
  0 <= size < 2 ^ 31 - 3 -> size mod 4 = 0 -> 0 <= flags < 4 ->
  bt_size (PUT s x (PACK size flags)) x = size
  /\ bt_free (PUT s x (PACK size flags)) x = (flags mod 2 =? 0)
  /\ bt_used (PUT s x (PACK size flags)) x = flags mod 2
  /\ bt_get_prevfree (PUT s x (PACK size flags)) x = flags - flags mod 2.
Proof.
  intros Hs Hm Hf.
  destruct (PUT_spec s x (PACK size flags)) as (_ & _ & E).
  rewrite bt_size_word, bt_free_word, bt_used_word, bt_get_prevfree_word, E.
  rewrite (header_word size flags Hs Hm Hf).
  rewrite (header_word_size size flags Hs Hm Hf).
  rewrite (header_word_mod2 size flags Hm).
  rewrite (header_word_mod4 size flags Hm Hf).
  repeat split.
Qed.

(** [bt_make] with the USED flag: the header is written and PREVFREE is
    cleared in the header that follows, when there is one. *)
Lemma bt_make_used_spec (s : state) (a size flags : Z) :
  0 < a -> 16 <= size < 2 ^ 31 - 3 -> size mod 4 = 0 ->
  flags = 1 \/ flags = 3 ->
  let s' := bt_make s a size flags in
  same_fields s s'
  /\ (forall y, y <> a -> y <> a + size -> mem s' y = mem s y)
  /\ (heap_end s < a + size -> forall y, y <> a -> mem s' y = mem s y)
  /\ bt_size s' a = size /\ bt_free s' a = false
  /\ bt_get_prevfree s' a = flags - 1
  /\ bt_size s' (a + size) = bt_size s (a + size)
  /\ bt_free s' (a + size) = bt_free s (a + size)
  /\ (a + size <= heap_end s -> bt_get_prevfree s' (a + size) = 0).
Proof.
  intros Ha Hs Hm Hf s'. subst s'. unfold bt_make.
  destruct (PUT_spec s a (PACK size flags)) as (F1 & M1 & _).
  destruct (PUT_header s a size flags ltac:(lia) Hm ltac:(lia))
    as (Z1 & R1 & U1 & P1).
  set (s1 := PUT s a (PACK size flags)) in *.
  assert (Hfm : flags mod 2 = 1) by (destruct Hf as [-> | ->]; reflexivity).
  rewrite U1, Hfm. cbn [Z.eqb negb].
  assert (Hn : bt_next s1 a = if a + size <=? heap_end s then a + size else 0).
  { unfold bt_next. rewrite Z1. destruct F1 as (_ & -> & _). reflexivity. }
  rewrite Hn.
  assert (Hs1a : forall y, y <> a -> mem s1 y = mem s y) by exact M1.
  destruct (Z.leb_spec (a + size) (heap_end s)) as [Hle|Hgt].
  - destruct (Z.eqb_spec (a + size) 0) as [|_]; [lia|]. cbn [negb].
    destruct (bt_clr_prevfree_spec s1 (a + size) ltac:(lia))
      as (F2 & M2 & Z2 & R2 & P2).
    set (s2 := bt_clr_prevfree s1 (a + size)) in *.
    split; [exact (same_fields_trans _ _ _ F1 F2)|].
    split; [intros y Hy1 Hy2; rewrite M2, M1 by assumption; reflexivity|].
    split; [lia|].
    assert (Ea : mem s2 a = mem s1 a) by (apply M2; lia).
    assert (Eb : mem s1 (a + size) = mem s (a + size)) by (apply M1; lia).
    rewrite (bt_size_frame s1 s2 a Ea), (bt_free_frame s1 s2 a Ea),
      (bt_get_prevfree_frame s1 s2 a Ea).
    rewrite Z1, R1, P1, Hfm, Z2, R2.
    rewrite (bt_size_frame s s1 _ Eb), (bt_free_frame s s1 _ Eb).
    repeat split. intros _. exact P2.
  - cbn [Z.eqb negb].
    split; [exact F1|].
    split; [intros y Hy1 Hy2; apply M1; assumption|].
    split; [intros _ y Hy; apply M1; assumption|].
    assert (Eb : mem s1 (a + size) = mem s (a + size)) by (apply M1; lia).
    rewrite Z1, R1, P1, Hfm.
    rewrite (bt_size_frame s s1 _ Eb), (bt_free_frame s s1 _ Eb).
    repeat split. lia.
Qed.

(** [bt_make] without the USED flag: header and footer are written and
    PREVFREE is set in the header that follows, when there is one. *)
Lemma bt_make_free_spec (s : state) (a size flags : Z) :
  0 < a -> 16 <= size < 2 ^ 31 - 3 -> size mod 4 = 0 ->
  flags = 0 \/ flags = 2 ->
  let s' := bt_make s a size flags in
  same_fields s s'
  /\ (forall y, y <> a -> y <> a + size -> y <> a + size - 4 ->
                mem s' y = mem s y)
  /\ (heap_end s < a + size ->
      forall y, y <> a -> y <> a + size - 4 -> mem s' y = mem s y)
  /\ bt_size s' a = size /\ bt_free s' a = true
  /\ bt_get_prevfree s' a = flags
  /\ bt_size s' (a + size - 4) = size
  /\ bt_size s' (a + size) = bt_size s (a + size)
  /\ bt_free s' (a + size) = bt_free s (a + size)
  /\ (a + size <= heap_end s -> bt_get_prevfree s' (a + size) = 2).
Proof.
  intros Ha Hs Hm Hf s'. subst s'. unfold bt_make.
  destruct (PUT_spec s a (PACK size flags)) as (F1 & M1 & _).
  destruct (PUT_header s a size flags ltac:(lia) Hm ltac:(lia))
    as (Z1 & R1 & U1 & P1).
  set (s1 := PUT s a (PACK size flags)) in *.
  assert (Hfm : flags mod 2 = 0) by (destruct Hf as [-> | ->]; reflexivity).
  rewrite U1, Hfm. cbn [Z.eqb negb].
  assert (Hn : bt_next s1 a = if a + size <=? heap_end s then a + size else 0).
  { unfold bt_next. rewrite Z1. destruct F1 as (_ & -> & _). reflexivity. }
  rewrite Hn.
  assert (Eb : mem s1 (a + size) = mem s (a + size)) by (apply M1; lia).
  destruct (Z.leb_spec (a + size) (heap_end s)) as [Hle|Hgt].
  - destruct (Z.eqb_spec (a + size) 0) as [|_]; [lia|]. cbn [negb].
    destruct (bt_set_prevfree_spec s1 (a + size))
      as (F2 & M2 & Z2 & R2 & P2).
    set (s2 := bt_set_prevfree s1 (a + size)) in *.
    assert (Ea : mem s2 a = mem s1 a) by (apply M2; lia).
    assert (Hft : bt_footer s2 a = a + size - 4).
    { unfold bt_footer. rewrite (bt_size_frame s1 s2 a Ea), Z1. reflexivity. }
    rewrite Hft.
    destruct (PUT_spec s2 (a + size - 4) (PACK size flags)) as (F3 & M3 & _).
    destruct (PUT_header s2 (a + size - 4) size flags ltac:(lia) Hm ltac:(lia))
      as (Z3 & R3 & U3 & P3).
    set (s3 := PUT s2 (a + size - 4) (PACK size flags)) in *.
    assert (Ea3 : mem s3 a = mem s1 a) by (rewrite M3 by lia; exact Ea).
    assert (Eb3 : mem s3 (a + size) = mem s2 (a + size)) by (apply M3; lia).
    split; [exact (same_fields_trans _ _ _ (same_fields_trans _ _ _ F1 F2) F3)|].
    split; [intros y Hy1 Hy2 Hy3; rewrite M3, M2, M1 by assumption; reflexivity|].
    split; [lia|].
    rewrite (bt_size_frame s1 s3 a Ea3), (bt_free_frame s1 s3 a Ea3),
      (bt_get_prevfree_frame s1 s3 a Ea3).
    rewrite (bt_size_frame s2 s3 _ Eb3), (bt_free_frame s2 s3 _ Eb3),
      (bt_get_prevfree_frame s2 s3 _ Eb3).
    rewrite Z1, R1, P1, Hfm, Z2, R2, Z3.
    rewrite (bt_size_frame s s1 _ Eb), (bt_free_frame s s1 _ Eb).
    repeat split; [lia|]. intros _. exact P2.
  - cbn [Z.eqb negb].
    assert (Hft : bt_footer s1 a = a + size - 4).
    { unfold bt_footer. rewrite Z1. reflexivity. }
    rewrite Hft.
    destruct (PUT_spec s1 (a + size - 4) (PACK size flags)) as (F3 & M3 & _).
    destruct (PUT_header s1 (a + size - 4) size flags ltac:(lia) Hm ltac:(lia))
      as (Z3 & R3 & U3 & P3).
    set (s3 := PUT s1 (a + size - 4) (PACK size flags)) in *.
    assert (Ea3 : mem s3 a = mem s1 a) by (apply M3; lia).
    assert (Eb3 : mem s3 (a + size) = mem s1 (a + size)) by (apply M3; lia).
    split; [exact (same_fields_trans _ _ _ F1 F3)|].
    split; [intros y Hy1 Hy2 Hy3; rewrite M3, M1 by assumption; reflexivity|].
    split; [intros _ y Hy1 Hy3; rewrite M3, M1 by assumption; reflexivity|].
    rewrite (bt_size_frame s1 s3 a Ea3), (bt_free_frame s1 s3 a Ea3),
      (bt_get_prevfree_frame s1 s3 a Ea3).
    rewrite (bt_size_frame s1 s3 _ Eb3), (bt_free_frame s1 s3 _ Eb3).
    rewrite Z1, R1, P1, Hfm, Z3.
    rewrite (bt_size_frame s s1 _ Eb), (bt_free_frame s s1 _ Eb).
    repeat split; lia.
Qed.

(** * Tilings *)

Lemma tiles_app (l1 l2 : list block) :
  forall a e,
    tiles a (l1 ++ l2) e <-> exists m, tiles a l1 m /\ tiles m l2 e.
Proof.
  induction l1 as [|b l1 IH]; intros a e; simpl.
  - split.
    + intros H. exists a. split; [reflexivity|exact H].
    + intros (m & -> & H). exact H.
  - split.
    + intros (Ha & H16 & Hm & H). apply IH in H. destruct H as (m & H1 & H2).
      exists m. repeat split; assumption.
    + intros (m & (Ha & H16 & Hm & H1) & H2).
      repeat split; try assumption. apply IH. exists m. split; assumption.
Qed.

Lemma tiles_le (bl : list block) : forall a e, tiles a bl e -> a <= e.
Proof.
  induction bl as [|b bl IH]; intros a e; simpl.
  - lia.
  - intros (_ & H16 & _ & H). apply IH in H. lia.
Qed.

Lemma tiles_end_unique (bl : list block) :
  forall a e e', tiles a bl e -> tiles a bl e' -> e = e'.
Proof.
  induction bl as [|b bl IH]; intros a e e'; simpl.
  - lia.
  - intros (_ & _ & _ & H) (_ & _ & _ & H'). eapply IH; eassumption.
Qed.

Lemma tiles_in (bl : list block) :
  forall a e b,
    tiles a bl e -> In b bl ->
    a <= baddr b /\ baddr b + bsize b <= e
    /\ 16 <= bsize b /\ bsize b mod 16 = 0.
Proof.
  induction bl as [|b0 bl IH]; intros a e b; simpl.
  - intros _ [].
  - intros (Ha & H16 & Hm & H) [<-|Hin].
    + apply tiles_le in H. lia.
    + destruct (IH _ _ _ H Hin) as (? & ? & ? & ?). lia.
Qed.

Lemma tiles_mod (bl : list block) :
  forall a e,
    tiles a bl e -> a mod 16 = 12 ->
    e mod 16 = 12 /\ forall b, In b bl -> baddr b mod 16 = 12.
Proof.
  induction bl as [|b0 bl IH]; intros a e; simpl.
  - intros <- Ha. split; [exact Ha|intros ? []].
  - intros (Ha & H16 & Hm & H) Hmod.
    assert (Hmod' : (a + bsize b0) mod 16 = 12) by zmod.
    destruct (IH _ _ H Hmod') as (He & Hall).
    split; [exact He|].
    intros b [<-|Hin]; [congruence|apply Hall; exact Hin].
Qed.

(** Split a tiling at one of its blocks. *)
Lemma tiles_split (pre post : list block) (b : block) (a e : Z) :
  tiles a (pre ++ b :: post) e ->
  tiles a pre (baddr b) /\ tiles (baddr b + bsize b) post e
  /\ 16 <= bsize b /\ bsize b mod 16 = 0.
Proof.
  intros H. apply tiles_app in H. destruct H as (m & H1 & H2).
  simpl in H2. destruct H2 as (Hb & H16 & Hm & H2).
  rewrite Hb. repeat split; assumption.
Qed.

(** Two blocks of a tiling are the same or lie apart. *)
Lemma tiles_apart (bl : list block) :
  forall a e b1 b2,
    tiles a bl e -> In b1 bl -> In b2 bl ->
    b1 = b2 \/ baddr b1 + bsize b1 <= baddr b2
    \/ baddr b2 + bsize b2 <= baddr b1.
Proof.
  induction bl as [|b0 bl IH]; intros a e b1 b2; simpl.
  - intros _ [].
  - intros (Ha & H16 & Hm & H) [<-|H1] [<-|H2].
    + now left.
    + right; left. destruct (tiles_in _ _ _ _ H H2). lia.
    + right; right. destruct (tiles_in _ _ _ _ H H1). lia.
    + eapply IH; eassumption.
Qed.

Lemma tiles_addr_inj (bl : list block) (a e : Z) (b1 b2 : block) :
  tiles a bl e -> In b1 bl -> In b2 bl -> baddr b1 = baddr b2 -> b1 = b2.
Proof.
  intros H H1 H2 E.
  destruct (tiles_apart _ _ _ _ _ H H1 H2) as [?|[?|?]]; [assumption| |];
    destruct (tiles_in _ _ _ _ H H1) as (_ & _ & ? & _);
    destruct (tiles_in _ _ _ _ H H2) as (_ & _ & ? & _); lia.
Qed.

(** Block addresses are the same or at least 16 bytes apart. *)
Lemma is_block_apart (bl : list block) (a e x y : Z) :
  tiles a bl e -> is_block bl x -> is_block bl y ->
  x = y \/ x + 16 <= y \/ y + 16 <= x.
Proof.
  intros H (sx & tx & Hx) (sy & ty & Hy).
  destruct (tiles_apart _ _ _ _ _ H Hx Hy) as [E|[E|E]];
    destruct (tiles_in _ _ _ _ H Hx) as (_ & _ & ? & _);
    destruct (tiles_in _ _ _ _ H Hy) as (_ & _ & ? & _); simpl in *.
  - left. congruence.
  - right; left. lia.
  - right; right. lia.
Qed.

Lemma is_block_range (bl : list block) (a e x : Z) :
  tiles a bl e -> is_block bl x -> a <= x /\ x + 16 <= e.
Proof.
  intros H (sx & tx & Hx).
  destruct (tiles_in _ _ _ _ H Hx) as (? & ? & ? & _). simpl in *. lia.
Qed.

(** A link word is neither a header, nor a footer, nor the epilogue. *)
Lemma link_not_header (bl : list block) (a e x k : Z) (b : block) :
  tiles a bl e -> is_block bl x -> k = 4 \/ k = 8 -> In b bl ->
  baddr b <> x + k /\ baddr b + bsize b - 4 <> x + k /\ e <> x + k.
Proof.
  intros H Hx Hk Hb.
  destruct (is_block_range _ _ _ _ H Hx) as (Hx1 & Hx2).
  destruct Hx as (sx & tx & Hx).
  destruct (tiles_apart _ _ _ _ _ H Hx Hb) as [E|[E|E]];
    destruct (tiles_in _ _ _ _ H Hx) as (_ & _ & ? & ?);
    destruct (tiles_in _ _ _ _ H Hb) as (_ & _ & ? & ?); simpl in *.
  - subst b. simpl in *. repeat split; lia.
  - repeat split; lia.
  - repeat split; lia.
Qed.

(** * PREVFREE soundness along a list of blocks *)

Lemma pf_ok_app (s : state) (l1 l2 : list block) :
  forall p,
    pf_ok s p (l1 ++ l2) <-> pf_ok s p l1 /\ pf_ok s (last_st p l1) l2.
Proof.
  induction l1 as [|b l1 IH]; intros p; simpl.
  - tauto.
  - rewrite IH. tauto.
Qed.

Lemma pf_ok_frame (s s' : state) (l : list block) :
  (forall b, In b l -> bst b <> Raw ->
             bt_get_prevfree s' (baddr b) = bt_get_prevfree s (baddr b)) ->
  forall p, pf_ok s p l -> pf_ok s' p l.
Proof.
  induction l as [|b l IH]; intros Hf p; simpl; [trivial|].
  intros (H1 & H2). split.
  - intros Hr. rewrite Hf by (simpl; auto). apply H1; assumption.
  - apply IH; [|exact H2]. intros b' Hin. apply Hf. now right.
Qed.

Lemma pf_ok_prev (s : state) (l : list block) (p p' : status) :
  (p' = Used -> p = Used) -> pf_ok s p l -> pf_ok s p' l.
Proof.
  destruct l as [|b l]; simpl; [trivial|].
  intros Hp (H1 & H2). split; [|exact H2].
  intros Hr Hpf E. apply (H1 Hr Hpf). apply Hp. exact E.
Qed.

Lemma last_st_app (l1 l2 : list block) :
  forall p, last_st p (l1 ++ l2) = last_st (last_st p l1) l2.
Proof.
  induction l1 as [|b l1 IH]; intros p; simpl; [reflexivity|apply IH].
Qed.

(** * Bucket lists *)

Lemma NoDup_app_disjoint {A : Type} (l1 l2 : list A) :
  NoDup (l1 ++ l2) -> forall x, In x l1 -> In x l2 -> False.
Proof.
  induction l1 as [|a l1 IH]; intros Hnd x H1 H2; [destruct H1|].
  simpl in Hnd. apply NoDup_cons_iff in Hnd. destruct Hnd as (Ha & Hnd).
  destruct H1 as [->|H1].
  - apply Ha. apply in_or_app. now right.
  - exact (IH Hnd x H1 H2).
Qed.

Lemma lseg_frame (s s' : state) (l : list Z) :
  heap_start s' = heap_start s ->
  (forall a, In a l -> mem s' (a + 4) = mem s (a + 4)
                       /\ mem s' (a + 8) = mem s (a + 8)) ->
  forall p x e, lseg s p x l e -> lseg s' p x l e.
Proof.
  intros Hs.
  induction l as [|a l IH]; intros Hf p x e; simpl; [trivial|].
  intros (-> & Hp & H).
  destruct (Hf a (or_introl eq_refl)) as (E4 & E8).
  split; [reflexivity|].
  split; [rewrite (get_free_prev_frame s s' a Hs E8); exact Hp|].
  rewrite (get_free_next_frame s s' a Hs E4).
  apply IH; [|exact H]. intros a' Hin. apply Hf. now right.
Qed.

Lemma last_cons (l : list Z) :
  forall a d, List.last (a :: l) d = List.last l a.
Proof.
  induction l as [|b l IH]; intros a d; [reflexivity|].
  change (List.last (a :: b :: l) d) with (List.last (b :: l) d).
  rewrite (IH b d), (IH b a). reflexivity.
Qed.

Lemma lseg_app (s : state) (l1 l2 : list Z) :
  forall p x e,
    lseg s p x (l1 ++ l2) e <->
    exists m, lseg s p x l1 m /\ lseg s (List.last l1 p) m l2 e.
Proof.
  induction l1 as [|a l1 IH]; intros p x e.
  - simpl. split.
    + intros H. exists x. split; [reflexivity|exact H].
    + intros (m & -> & H). exact H.
  - change ((a :: l1) ++ l2) with (a :: (l1 ++ l2)).
    rewrite last_cons. cbn [lseg]. split.
    + intros (-> & Hp & H). apply IH in H. destruct H as (m & H1 & H2).
      exists m. repeat split; assumption.
    + intros (m & (-> & Hp & H1) & H2).
      repeat split; try assumption. apply IH. exists m. split; assumption.
Qed.

Lemma lseg_chain (s : state) (l : list Z) :
  (forall a, In a l -> a <> 0) ->
  forall p x, lseg s p x l 0 -> chain s x l.
Proof.
  induction l as [|a l IH]; intros Hnz p x; simpl; [trivial|].
  intros (-> & _ & H). split; [reflexivity|].
  split; [apply Hnz; now left|].
  eapply IH; [|exact H]. intros a' Hin. apply Hnz. now right.
Qed.

(** * Link words *)

Lemma set_free_next_spec (s : state) (p n : Z) :
  let s' := set_free_next s p n in
  same_fields s s'
  /\ (forall y, y <> p + 4 -> mem s' y = mem s y)
  /\ ((n - heap_start s) mod 4 = 0 -> 0 <= n - heap_start s < 2 ^ 31 ->
      get_free_next s' p = n)
  /\ (n = heap_start s - 4 -> get_free_next s' p = 0).
Proof.
  cbv zeta. unfold set_free_next.
  split; [apply same_fields_set_mem|].
  split; [intros y Hy; simpl_state; apply upd_neq; exact Hy|].
  unfold get_free_next. simpl_state. rewrite upd_eq. split.
  - intros Hm Hr.
    rewrite sint32_small by zmod.
    destruct (Z.ltb_spec ((n - heap_start s) / 4) 0); zmod.
  - intros ->.
    replace (heap_start s - 4 - heap_start s) with (-4) by lia.
    reflexivity.
Qed.

Lemma set_free_prev_spec (s : state) (p n : Z) :
  let s' := set_free_prev s p n in
  same_fields s s'
  /\ (forall y, y <> p + 8 -> mem s' y = mem s y)
  /\ ((n - heap_start s) mod 4 = 0 -> 0 <= n - heap_start s < 2 ^ 31 ->
      get_free_prev s' p = n)
  /\ (n = heap_start s - 4 -> get_free_prev s' p = 0).
Proof.
  cbv zeta. unfold set_free_prev.
  split; [apply same_fields_set_mem|].
  split; [intros y Hy; simpl_state; apply upd_neq; exact Hy|].
  unfold get_free_prev. simpl_state. rewrite upd_eq. split.
  - intros Hm Hr.
    rewrite sint32_small by zmod.
    destruct (Z.ltb_spec ((n - heap_start s) / 4) 0); zmod.
  - intros ->.
    replace (heap_start s - 4 - heap_start s) with (-4) by lia.
    reflexivity.
Qed.

(** * Facts read off the invariant *)

Lemma core_block_facts (s : state) (bl : list block) (fl : Z -> list Z)
      (x : Z) :
  core s bl fl -> is_block bl x ->
  0 < x /\ (x - heap_start s) mod 4 = 0
  /\ 0 <= x - heap_start s < 2 ^ 31 /\ x + 16 <= heap_end s
  /\ x mod 16 = 12.
Proof.
  intros C Hx.
  destruct (c_bounds _ _ _ C) as (B1 & B2 & B3 & B4 & B5).
  pose proof (c_tiles _ _ _ C) as T.
  destruct (is_block_range _ _ _ _ T Hx) as (R1 & R2).
  destruct Hx as (sx & tx & Hx).
  destruct (tiles_mod _ _ _ T B2) as (_ & Hall).
  specialize (Hall _ Hx). simpl in Hall.
  repeat split; try lia; zmod.
Qed.

Lemma core_fl_block (s : state) (bl : list block) (fl : Z -> list Z)
      (i x : Z) :
  core s bl fl -> 0 <= i < NUM_LIST -> In x (fl i) ->
  exists sz, In (mkBlock x sz OnList) bl /\ get_index sz = i.
Proof.
  intros C Hi Hx. destruct (c_lists _ _ _ C i Hi) as (_ & _ & Hm).
  apply Hm. exact Hx.
Qed.

Lemma core_fl_is_block (s : state) (bl : list block) (fl : Z -> list Z)
      (i x : Z) :
  core s bl fl -> 0 <= i < NUM_LIST -> In x (fl i) -> is_block bl x.
Proof.
  intros C Hi Hx. destruct (core_fl_block _ _ _ _ _ C Hi Hx) as (sz & H & _).
  exists sz, OnList. exact H.
Qed.

(** Headers, footers and the epilogue do not depend on link words. *)
Lemma headers_frame (s s' : state) (bl : list block) (p : status) :
  tiles (heap_start s) bl (heap_end s) ->
  heap_end s' = heap_end s ->
  (forall y, (forall b, In b bl -> y <> baddr b + 4 /\ y <> baddr b + 8) ->
             mem s' y = mem s y) ->
  Forall (hdr_ok s) bl -> pf_ok s p bl -> epilogue_ok s ->
  Forall (hdr_ok s') bl /\ pf_ok s' p bl /\ epilogue_ok s'.
Proof.
  intros T He Hf Hh Hp (E1 & E2).
  assert (Hhdr : forall b, In b bl ->
                           mem s' (baddr b) = mem s (baddr b)
                           /\ mem s' (baddr b + bsize b - 4)
                              = mem s (baddr b + bsize b - 4)).
  { intros b Hb. split; apply Hf; intros b' Hb';
      assert (Hx : is_block bl (baddr b'))
        by (exists (bsize b'), (bst b'); destruct b'; exact Hb');
      destruct (link_not_header _ _ _ _ 4 b T Hx (or_introl eq_refl) Hb)
        as (? & ? & _);
      destruct (link_not_header _ _ _ _ 8 b T Hx (or_intror eq_refl) Hb)
        as (? & ? & _); split; congruence. }
  assert (Hepi : mem s' (heap_end s) = mem s (heap_end s)).
  { apply Hf. intros b' Hb'.
    assert (Hx : is_block bl (baddr b'))
      by (exists (bsize b'), (bst b'); destruct b'; exact Hb').
    destruct (link_not_header _ _ _ _ 4 b' T Hx (or_introl eq_refl) Hb')
      as (_ & _ & ?).
    destruct (link_not_header _ _ _ _ 8 b' T Hx (or_intror eq_refl) Hb')
      as (_ & _ & ?). split; congruence. }
  split; [|split].
  - rewrite Forall_forall in *. intros b Hb. specialize (Hh b Hb).
    destruct (Hhdr b Hb) as (Ea & Eb).
    unfold hdr_ok in *.
    rewrite (bt_size_frame s s' _ Ea), (bt_free_frame s s' _ Ea),
      (bt_size_frame s s' _ Eb). exact Hh.
  - apply (pf_ok_frame s s'); [|exact Hp].
    intros b Hb _. apply bt_get_prevfree_frame. apply Hhdr. exact Hb.
  - unfold epilogue_ok. rewrite He.
    rewrite (bt_size_frame s s' _ Hepi), (bt_free_frame s s' _ Hepi).
    split; assumption.
Qed.

(** Changing the state of one block between linked and unlinked. *)
Lemma relink_blocks (s s' : state) (pre post : list block) (a sz : Z)
      (st st' : status) :
  (st = OnList \/ st = Unlinked) -> (st' = OnList \/ st' = Unlinked) ->
  tiles (heap_start s) (pre ++ mkBlock a sz st :: post) (heap_end s) ->
  heap_start s' = heap_start s -> heap_end s' = heap_end s ->
  (forall y, (forall b, In b (pre ++ mkBlock a sz st :: post) ->
                        y <> baddr b + 4 /\ y <> baddr b + 8) ->
             mem s' y = mem s y) ->
  Forall (hdr_ok s) (pre ++ mkBlock a sz st :: post) ->
  pf_ok s Used (pre ++ mkBlock a sz st :: post) ->
  epilogue_ok s ->
  tiles (heap_start s') (pre ++ mkBlock a sz st' :: post) (heap_end s')
  /\ Forall (hdr_ok s') (pre ++ mkBlock a sz st' :: post)
  /\ pf_ok s' Used (pre ++ mkBlock a sz st' :: post)
  /\ epilogue_ok s'.
Proof.
  intros Hst Hst' T Hs He Hf Hh Hp Hepi.
  destruct (headers_frame s s' _ Used T He Hf Hh Hp Hepi) as (Hh' & Hp' & Hepi').
  split; [|split; [|split]].
  - rewrite Hs, He. apply tiles_app. apply tiles_app in T.
    destruct T as (m & T1 & T2). exists m. split; [exact T1|exact T2].
  - apply Forall_app in Hh'. destruct Hh' as (H1 & H2).
    apply Forall_app. split; [exact H1|].
    inversion H2 as [|? ? Hb H3]; subst. constructor; [|exact H3].
    unfold hdr_ok in *. simpl in *.
    destruct Hst as [-> | ->], Hst' as [-> | ->]; exact Hb.
  - apply pf_ok_app in Hp'. destruct Hp' as (P1 & P2).
    apply pf_ok_app. split; [exact P1|].
    simpl in *. destruct P2 as (P2 & P3). split.
    + intros _. apply P2. destruct Hst as [-> | ->]; discriminate.
    + apply (pf_ok_prev s' post st st'); [|exact P3].
      destruct Hst' as [-> | ->]; discriminate.
  - exact Hepi'.
Qed.

Lemma same_anchors_refl (s : state) : same_anchors s s.
Proof. repeat split. Qed.

Lemma same_anchors_trans (s1 s2 s3 : state) :
  same_anchors s1 s2 -> same_anchors s2 s3 -> same_anchors s1 s3.
Proof.
  unfold same_anchors. intros (A1 & A2 & A3 & A4 & A5) (B1 & B2 & B3 & B4 & B5).
  repeat split; congruence.
Qed.

Lemma same_fields_anchors (s s' : state) :
  same_fields s s' -> same_anchors s s'.
Proof.
  unfold same_fields, same_anchors. intros (A1 & A2 & A3 & A4 & A5 & A6).
  repeat split; assumption.
Qed.

Lemma bounds_ok_anchors (s s' : state) :
  same_anchors s s' -> bounds_ok s -> bounds_ok s'.
Proof.
  unfold same_anchors, bounds_ok.
  intros (A1 & A2 & A3 & A4 & A5). rewrite A1, A2, A4, A5. trivial.
Qed.

(** The linked blocks of a heap description, before and after one block
    changes between linked and unlinked. *)
Lemma onlist_relinked (pre post : list block) (a sz x szx : Z) (h e : Z) :
  tiles h (pre ++ mkBlock a sz OnList :: post) e ->
  In (mkBlock x szx OnList) (pre ++ mkBlock a sz OnList :: post) <->
  (x = a /\ szx = sz)
  \/ In (mkBlock x szx OnList) (pre ++ mkBlock a sz Unlinked :: post).
Proof.
  intros T. rewrite !in_app_iff. simpl. split.
  - intros [H|[H|H]].
    + right. now left.
    + left. inversion H. split; reflexivity.
    + right. right. now right.
  - intros [(-> & ->)|[H|[H|H]]].
    + right. now left.
    + now left.
    + discriminate H.
    + right. now right.
Qed.

Lemma onlist_unlinked_not (pre post : list block) (a sz szx : Z) (h e : Z) :
  tiles h (pre ++ mkBlock a sz OnList :: post) e ->
  ~ In (mkBlock a szx OnList) (pre ++ mkBlock a sz Unlinked :: post).
Proof.
  intros T H.
  assert (H' : In (mkBlock a szx OnList) (pre ++ mkBlock a sz OnList :: post)).
  { rewrite in_app_iff in *. simpl in *.
    destruct H as [H|[H|H]]; [now left|discriminate H|right; now right]. }
  assert (Hmid : In (mkBlock a sz OnList) (pre ++ mkBlock a sz OnList :: post)).
  { rewrite in_app_iff. right. now left. }
  pose proof (tiles_addr_inj _ _ _ _ _ T H' Hmid eq_refl) as E.
  inversion E; subst szx.
  (* the block occurs once *)
  apply tiles_app in T. destruct T as (m & T1 & T2). simpl in T2.
  destruct T2 as (Ha & H16 & _ & T2). simpl in *.
  rewrite in_app_iff in H. simpl in H. destruct H as [H|[H|H]].
  - destruct (tiles_in _ _ _ _ T1 H) as (_ & ? & ? & _). simpl in *. lia.
  - discriminate H.
  - destruct (tiles_in _ _ _ _ T2 H) as (? & _ & ? & _). simpl in *. lia.
Qed.

Lemma delete_finish_core (s s' : state) (pre post : list block)
      (fl : Z -> list Z) (a sz : Z) (l1 l2 : list Z) :
  core s (pre ++ mkBlock a sz OnList :: post) fl ->
  fl (get_index sz) = l1 ++ a :: l2 ->
  same_anchors s s' ->
  (forall i, i <> get_index sz ->
             segregated_list s' i = segregated_list s i) ->
  (forall y, (forall x, In x (l1 ++ l2) -> y <> x + 4 /\ y <> x + 8) ->
             mem s' y = mem s y) ->
  dll s' (segregated_list s' (get_index sz)) (l1 ++ l2) ->
  core s' (pre ++ mkBlock a sz Unlinked :: post)
       (fun i => if i =? get_index sz then l1 ++ l2 else fl i).
Proof.
  intros C Hfl An Hseg Hmem Hdll.
  set (bl := pre ++ mkBlock a sz OnList :: post) in *.
  pose proof (get_index_range sz) as Hi0.
  pose proof (c_tiles _ _ _ C) as T.
  destruct An as (A1 & A2 & A3 & A4 & A5).
  assert (Hsub : forall x, In x (l1 ++ l2) -> In x (fl (get_index sz))).
  { intros x Hx. rewrite Hfl. rewrite in_app_iff in *. simpl. tauto. }
  assert (Hf : forall y,
             (forall b, In b bl -> y <> baddr b + 4 /\ y <> baddr b + 8) ->
             mem s' y = mem s y).
  { intros y Hy. apply Hmem. intros x Hx.
    destruct (core_fl_block _ _ _ _ _ C Hi0 (Hsub x Hx)) as (szx & Hb & _).
    apply (Hy _ Hb). }
  destruct (relink_blocks s s' pre post a sz OnList Unlinked
              (or_introl eq_refl) (or_intror eq_refl) T A1 A2 Hf
              (c_hdr _ _ _ C) (c_pf _ _ _ C) (c_epi _ _ _ C))
    as (T' & Hh' & Hp' & He').
  constructor; try assumption.
  - apply (bounds_ok_anchors s s'); [repeat split; assumption|].
    exact (c_bounds _ _ _ C).
  - intros i Hi. destruct (c_lists _ _ _ C i Hi) as (Hd & Hnd & Hm).
    destruct (Z.eqb_spec i (get_index sz)) as [->|Hne].
    + split; [exact Hdll|]. split.
      * rewrite Hfl in Hnd. apply NoDup_remove_1 in Hnd. exact Hnd.
      * intros x. split.
        -- intros Hx.
           destruct (proj1 (Hm x) (Hsub x Hx)) as (szx & Hb & Hgi).
           exists szx. split; [|exact Hgi].
           apply (onlist_relinked pre post a sz x szx _ _ T) in Hb.
           destruct Hb as [(-> & ->)|Hb]; [|exact Hb].
           exfalso. rewrite Hfl in Hnd. apply NoDup_remove_2 in Hnd.
           contradiction.
        -- intros (szx & Hb & Hgi).
           assert (Hb' : In (mkBlock x szx OnList) bl).
           { apply (onlist_relinked pre post a sz x szx _ _ T). now right. }
           assert (Hx : In x (fl (get_index sz))).
           { apply Hm. exists szx. split; assumption. }
           rewrite Hfl in Hx. apply in_app_or in Hx. simpl in Hx.
           apply in_or_app.
           destruct Hx as [Hx|[Hx|Hx]]; [now left| |now right].
           subst x. exfalso.
           exact (onlist_unlinked_not pre post a sz szx _ _ T Hb).
    + split; [|split; [exact Hnd|]].
      * rewrite (Hseg i Hne). unfold dll in *.
        apply (lseg_frame s s'); [exact A1| |exact Hd].
        intros z Hz.
        assert (Hzb : is_block bl z)
          by (eapply core_fl_is_block; eassumption).
        split; apply Hmem; intros x Hx;
          assert (Hxb : is_block bl x)
            by (eapply core_fl_is_block; [exact C|exact Hi0|apply Hsub; exact Hx]);
          destruct (is_block_apart _ _ _ _ _ T Hzb Hxb) as [E|[E|E]];
          try (split; lia);
          subst z; exfalso;
          destruct (core_fl_block _ _ _ _ _ C Hi Hz) as (s1 & B1 & G1);
          destruct (core_fl_block _ _ _ _ _ C Hi0 (Hsub x Hx)) as (s2 & B2 & G2);
          pose proof (tiles_addr_inj _ _ _ _ _ T B1 B2 eq_refl) as E;
          inversion E; congruence.
      * intros x. rewrite (Hm x). split.
        -- intros (szx & Hb & Hgi). exists szx. split; [|exact Hgi].
           apply (onlist_relinked pre post a sz x szx _ _ T) in Hb.
           destruct Hb as [(-> & ->)|Hb]; [congruence|exact Hb].
        -- intros (szx & Hb & Hgi). exists szx. split; [|exact Hgi].
           apply (onlist_relinked pre post a sz x szx _ _ T). now right.
Qed.

Lemma delete_finish (s s' : state) (pre post : list block)
      (fl : Z -> list Z) (a sz : Z) (l1 l2 : list Z) :
  core s (pre ++ mkBlock a sz OnList :: post) fl ->
  fl (get_index sz) = l1 ++ a :: l2 ->
  same_anchors s s' ->
  (forall i, i <> get_index sz ->
             segregated_list s' i = segregated_list s i) ->
  (forall y, (forall x, In x (l1 ++ l2) -> y <> x + 4 /\ y <> x + 8) ->
             mem s' y = mem s y) ->
  dll s' (segregated_list s' (get_index sz)) (l1 ++ l2) ->
  core s' (pre ++ mkBlock a sz Unlinked :: post)
       (fun i => if i =? get_index sz then l1 ++ l2 else fl i)
  /\ link_frame (pre ++ mkBlock a sz OnList :: post) s s'.
Proof.
  intros C Hfl An Hseg Hmem Hdll.
  split; [exact (delete_finish_core _ _ _ _ _ _ _ _ _ C Hfl An Hseg Hmem Hdll)|].
  intros y Hy. apply Hmem. intros x Hx.
  assert (Hx' : In x (fl (get_index sz))).
  { rewrite Hfl. rewrite in_app_iff in *. simpl. tauto. }
  destruct (core_fl_block _ _ _ _ _ C (get_index_range sz) Hx')
    as (szx & Hb & _).
  exact (Hy _ _ Hb).
Qed.

Lemma set_seg_fields (s : state) (i v : Z) :
  same_anchors s (set_seg s i v)
  /\ mem (set_seg s i v) = mem s
  /\ segregated_list (set_seg s i v) i = v
  /\ forall j, j <> i ->
               segregated_list (set_seg s i v) j = segregated_list s j.
Proof.
  split; [repeat split|]. split; [reflexivity|].
  simpl_state. split; [apply upd_eq|intros j Hj; apply upd_neq; exact Hj].
Qed.

Lemma lseg_set_seg (s : state) (i v : Z) (l : list Z) :
  forall p x e, lseg s p x l e -> lseg (set_seg s i v) p x l e.
Proof.
  apply lseg_frame; [reflexivity|]. intros a _. split; reflexivity.
Qed.

(** Unlinking a block from its bucket list. *)
Lemma free_list_delete_core (s : state) (pre post : list block)
      (fl : Z -> list Z) (a sz : Z) :
  core s (pre ++ mkBlock a sz OnList :: post) fl ->
  same_anchors s (free_list_delete s a (get_index sz))
  /\ exists fl',
      core (free_list_delete s a (get_index sz))
           (pre ++ mkBlock a sz Unlinked :: post) fl'
      /\ link_frame (pre ++ mkBlock a sz OnList :: post) s
                    (free_list_delete s a (get_index sz)).
Proof.
  intros C.
  set (bl := pre ++ mkBlock a sz OnList :: post) in *.
  set (i0 := get_index sz).
  pose proof (get_index_range sz) as Hi0. fold i0 in Hi0.
  pose proof (c_tiles _ _ _ C) as T.
  destruct (c_lists _ _ _ C i0 Hi0) as (Hd & Hnd & Hm).
  assert (Ha : In a (fl i0)).
  { apply Hm. exists sz. split; [|reflexivity].
    unfold bl. apply in_or_app. right. now left. }
  apply in_split in Ha. destruct Ha as (l1 & l2 & Hfl).
  rewrite Hfl in Hd, Hnd.
  assert (Hblk : forall x, In x (l1 ++ a :: l2) -> is_block bl x).
  { intros x Hx. apply (core_fl_is_block s bl fl i0); try assumption.
    rewrite Hfl. exact Hx. }
  assert (Hfacts : forall x, In x (l1 ++ a :: l2) ->
             0 < x /\ (x - heap_start s) mod 4 = 0
             /\ 0 <= x - heap_start s < 2 ^ 31).
  { intros x Hx.
    destruct (core_block_facts _ _ _ x C (Hblk x Hx)) as (? & ? & ? & _).
    auto. }
  assert (Hap : forall x y, In x (l1 ++ a :: l2) -> In y (l1 ++ a :: l2) ->
                            x = y \/ x + 16 <= y \/ y + 16 <= x).
  { intros x y Hx Hy.
    apply (is_block_apart bl _ _ x y T); apply Hblk; assumption. }
  pose proof (NoDup_remove_2 _ _ _ Hnd) as Hnotin.
  unfold dll in Hd. apply lseg_app in Hd.
  destruct Hd as (m & Hd1 & Hd2). cbn [lseg] in Hd2.
  destruct Hd2 as (-> & Hprev & Hd2).
  assert (Hina : In a (l1 ++ a :: l2)) by (apply in_or_app; right; now left).
  unfold free_list_delete. fold i0.
  destruct l1 as [|x0 l1r].
  - (* [a] is the head *)
    cbn [lseg] in Hd1. rewrite Hd1, Z.eqb_refl. cbn [andb negb].
    destruct l2 as [|n l2].
    + (* the only block *)
      cbn [lseg] in Hd2. rewrite Hd2. cbn [Z.eqb].
      destruct (set_seg_fields s i0 0) as (An & Mm & Sv & So).
      split; [exact An|]. eexists.
      apply (delete_finish s _ pre post fl a sz [] [] C Hfl An So).
      * intros y _. rewrite Mm. reflexivity.
      * unfold dll. cbn [app lseg]. fold i0. exact Sv.
    + (* a successor becomes the head *)
      cbn [lseg] in Hd2. destruct Hd2 as (Hn & Hnp & Hd2).
      rewrite Hn.
      assert (Hinn : In n ([] ++ a :: n :: l2)) by (simpl; auto).
      destruct (Hfacts n Hinn) as (Hn0 & Hnm & Hnr).
      destruct (Z.eqb_spec n 0) as [|_]; [lia|].
      destruct (set_free_prev_spec s n (heap_start s - 4))
        as (F1 & M1 & _ & P1).
      specialize (P1 eq_refl).
      set (s1 := set_free_prev s n (heap_start s - 4)) in *.
      assert (Hna : n <> a).
      { intros ->. apply Hnotin. simpl. now left. }
      assert (Hnext1 : get_free_next s1 a = n).
      { rewrite (get_free_next_frame s s1 a); [exact Hn|apply (sf_hs _ _ F1)|].
        apply M1. destruct (Hap n a Hinn Hina) as [?|[?|?]]; lia. }
      rewrite Hnext1.
      destruct (set_seg_fields s1 i0 n) as (An & Mm & Sv & So).
      split.
      { eapply same_anchors_trans; [apply same_fields_anchors; exact F1|exact An]. }
      eexists.
      apply (delete_finish s _ pre post fl a sz [] (n :: l2) C Hfl).
      * eapply same_anchors_trans; [apply same_fields_anchors; exact F1|exact An].
      * intros i Hi. rewrite (So i Hi). apply sf_seg. exact F1.
      * intros y Hy. rewrite Mm. apply M1.
        apply (Hy n). simpl. now left.
      * unfold dll. cbn [app]. fold i0. rewrite Sv. cbn [lseg].
        split; [reflexivity|]. split; [exact P1|].
        apply lseg_set_seg.
        change (lseg s1 n (get_free_next s1 n) l2 0).
        assert (En : get_free_next s1 n = get_free_next s n).
        { apply get_free_next_frame; [apply (sf_hs _ _ F1)|apply M1; lia]. }
        rewrite En.
        apply (lseg_frame s s1); [apply (sf_hs _ _ F1)| |exact Hd2].
        intros z Hz.
        assert (Hinz : In z ([] ++ a :: n :: l2)) by (simpl; auto).
        assert (Hzn : z <> n).
        { intros ->. simpl in Hnd. inversion Hnd as [|? ? _ Hnd']; subst.
          inversion Hnd' as [|? ? Hnn _]; subst. contradiction. }
        destruct (Hap z n Hinz Hinn) as [?|[?|?]]; [contradiction| |];
          split; apply M1; lia.
  - (* [a] has a predecessor *)
    cbn [lseg] in Hd1. destruct Hd1 as (Hh & _ & _).
    assert (Hx0a : x0 <> a).
    { intros ->. apply Hnotin. simpl. now left. }
    rewrite Hh. destruct (Z.eqb_spec x0 a) as [|_]; [contradiction|].
    cbn [andb negb].
    destruct (exists_last (l := x0 :: l1r) ltac:(discriminate))
      as (l1' & p & El1).
    rewrite El1 in *. clear El1 Hh Hx0a x0 l1r.
    rewrite last_last in Hprev.
    assert (Hinp : In p ((l1' ++ [p]) ++ a :: l2)).
    { apply in_or_app. left. apply in_or_app. right. now left. }
    destruct (Hfacts p Hinp) as (Hp0 & Hpm & Hpr).
    assert (Hpa : p <> a).
    { intros ->. apply Hnotin. apply in_or_app. left.
      apply in_or_app. right. now left. }
    assert (Hapa : p + 16 <= a \/ a + 16 <= p).
    { destruct (Hap p a Hinp Hina) as [?|?]; [contradiction|assumption]. }
    rewrite Hprev.
    (* the segment up to [p], and [p] itself *)
    pose proof (c_lists _ _ _ C i0 Hi0) as (Hd & _ & _).
    rewrite Hfl in Hd. unfold dll in Hd.
    rewrite <- app_assoc in Hd. apply lseg_app in Hd.
    destruct Hd as (m & Hs1 & Hs2). cbn [app lseg] in Hs2.
    destruct Hs2 as (-> & Hpp & _).
    destruct l2 as [|n l2].
    + (* the last block of the list *)
      cbn [lseg] in Hd2. rewrite Hd2. cbn [Z.eqb andb negb].
      destruct (set_free_next_spec s p (heap_start s - 4))
        as (F1 & M1 & _ & P1).
      specialize (P1 eq_refl).
      set (s1 := set_free_next s p (heap_start s - 4)) in *.
      split.
      { eapply same_anchors_trans; [apply same_fields_anchors; exact F1|].
        repeat split. }
      eexists.
      apply (delete_finish s _ pre post fl a sz (l1' ++ [p]) [] C Hfl).
      * eapply same_anchors_trans; [apply same_fields_anchors; exact F1|].
        repeat split.
      * intros i Hi. simpl_state. apply sf_seg. exact F1.
      * intros y Hy. simpl_state. apply M1.
        apply (Hy p). rewrite app_nil_r. apply in_or_app. right. now left.
      * rewrite app_nil_r. unfold dll.
        assert (Es : segregated_list (set_last_free s1 (get_free_prev s1 a)) i0
                     = segregated_list s i0).
        { simpl_state. apply sf_seg. exact F1. }
        fold i0. rewrite Es.
        apply (lseg_frame s1 (set_last_free s1 (get_free_prev s1 a)));
          [reflexivity|intros; split; reflexivity|].
        apply lseg_app. exists p. split.
        -- apply (lseg_frame s s1); [apply (sf_hs _ _ F1)| |exact Hs1].
           intros z Hz.
           assert (Hinz : In z ((l1' ++ [p]) ++ [a])).
           { apply in_or_app. left. apply in_or_app. now left. }
           assert (Hzp : z <> p).
           { intros ->. rewrite <- app_assoc in Hnd.
             apply NoDup_remove_2 in Hnd. apply Hnd.
             apply in_or_app. now left. }
           destruct (Hap z p Hinz Hinp) as [?|[?|?]]; [contradiction| |];
             split; apply M1; lia.
        -- cbn [lseg]. split; [reflexivity|]. split; [|exact P1].
           rewrite (get_free_prev_frame s s1 p); [exact Hpp|apply (sf_hs _ _ F1)|].
           apply M1. lia.
    + (* a block in the middle of the list *)
      cbn [lseg] in Hd2. destruct Hd2 as (Hn & Hnp & Hd2).
      rewrite Hn.
      assert (Hinn : In n ((l1' ++ [p]) ++ a :: n :: l2)).
      { apply in_or_app. right. simpl. auto. }
      destruct (Hfacts n Hinn) as (Hn0 & Hnm & Hnr).
      destruct (Z.eqb_spec n 0) as [|_]; [lia|]. cbn [andb negb].
      assert (Hna : n <> a).
      { intros ->. apply Hnotin. apply in_or_app. right. now left. }
      assert (Hnp' : n <> p).
      { intros ->. rewrite <- app_assoc in Hnd.
        apply NoDup_remove_2 in Hnd. apply Hnd.
        apply in_or_app. right. simpl. auto. }
      assert (Hapn : n + 16 <= a \/ a + 16 <= n).
      { destruct (Hap n a Hinn Hina) as [?|?]; [contradiction|assumption]. }
      assert (Hapnp : n + 16 <= p \/ p + 16 <= n).
      { destruct (Hap n p Hinn Hinp) as [?|?]; [contradiction|assumption]. }
      destruct (set_free_next_spec s p n) as (F1 & M1 & P1 & _).
      specialize (P1 Hnm Hnr).
      set (s1 := set_free_next s p n) in *.
      assert (E1n : get_free_next s1 a = n).
      { rewrite (get_free_next_frame s s1 a); [exact Hn|apply (sf_hs _ _ F1)|].
        apply M1. lia. }
      assert (E1p : get_free_prev s1 a = p).
      { rewrite (get_free_prev_frame s s1 a); [exact Hprev|apply (sf_hs _ _ F1)|].
        apply M1. lia. }
      rewrite E1n, E1p.
      assert (Hhs1 : heap_start s1 = heap_start s) by apply (sf_hs _ _ F1).
      destruct (set_free_prev_spec s1 n p) as (F2 & M2 & P2 & _).
      rewrite Hhs1 in P2. specialize (P2 Hpm Hpr).
      set (s2 := set_free_prev s1 n p) in *.
      assert (An : same_anchors s s2).
      { eapply same_anchors_trans; apply same_fields_anchors; eassumption. }
      split; [exact An|]. eexists.
      apply (delete_finish s _ pre post fl a sz (l1' ++ [p]) (n :: l2) C Hfl An).
      * intros i Hi. rewrite (sf_seg _ _ i F2). apply sf_seg. exact F1.
      * intros y Hy. rewrite M2, M1; [reflexivity| |].
        -- apply (Hy p). apply in_or_app. left. apply in_or_app. right. now left.
        -- apply (Hy n). apply in_or_app. right. now left.
      * unfold dll.
        assert (Es : segregated_list s2 i0 = segregated_list s i0).
        { rewrite (sf_seg _ _ i0 F2). apply sf_seg. exact F1. }
        fold i0. rewrite Es. rewrite <- app_assoc. apply lseg_app.
        assert (Hfr : forall z, In z ((l1' ++ [p]) ++ a :: n :: l2) ->
                                z <> p -> z <> n ->
                                mem s2 (z + 4) = mem s (z + 4)
                                /\ mem s2 (z + 8) = mem s (z + 8)).
        { intros z Hz Hzp Hzn.
          destruct (Hap z p Hz Hinp) as [?|?]; [contradiction|].
          destruct (Hap z n Hz Hinn) as [?|?]; [contradiction|].
          split; rewrite M2, M1 by lia; reflexivity. }
        pose proof (NoDup_app_disjoint _ _ Hnd) as Hdis.
        pose proof (NoDup_app_disjoint _ _ (NoDup_app_remove_r _ _ Hnd)) as Hdis1.
        pose proof (NoDup_app_remove_l _ _ Hnd) as Hnd2.
        apply NoDup_cons_iff in Hnd2. destruct Hnd2 as (_ & Hnd2).
        apply NoDup_cons_iff in Hnd2. destruct Hnd2 as (Hnl2 & _).
        exists p. split.
        -- apply (lseg_frame s s2); [apply An| |exact Hs1].
           intros z Hz. apply Hfr.
           ++ apply in_or_app. left. apply in_or_app. now left.
           ++ intros ->. apply (Hdis1 p Hz). now left.
           ++ intros ->. apply (Hdis n).
              ** apply in_or_app. now left.
              ** simpl. auto.
        -- cbn [lseg]. split; [reflexivity|]. split.
           ++ rewrite (get_free_prev_frame s s2 p); [exact Hpp|apply An|].
              rewrite M2, M1 by lia. reflexivity.
           ++ assert (E2p : get_free_next s2 p = n).
              { rewrite (get_free_next_frame s1 s2 p);
                  [exact P1|apply (sf_hs _ _ F2)|apply M2; lia]. }
              rewrite E2p. split; [reflexivity|]. split; [exact P2|].
              assert (E2n : get_free_next s2 n = get_free_next s n).
              { apply get_free_next_frame; [apply An|].
                rewrite M2, M1 by lia. reflexivity. }
              rewrite E2n.
              apply (lseg_frame s s2); [apply An| |exact Hd2].
              intros z Hz. apply Hfr.
              ** apply in_or_app. right. simpl. auto.
              ** intros ->. apply (Hdis p).
                 --- apply in_or_app. right. now left.
                 --- simpl. auto.
              ** intros ->. contradiction.
Qed.

Lemma unlinked_not_onlist (s : state) (pre post : list block)
      (fl : Z -> list Z) (a sz : Z) (i : Z) :
  core s (pre ++ mkBlock a sz Unlinked :: post) fl ->
  0 <= i < NUM_LIST -> ~ In a (fl i).
Proof.
  intros C Hi Ha.
  destruct (core_fl_block _ _ _ _ _ C Hi Ha) as (sz' & Hb & _).
  assert (Hmid : In (mkBlock a sz Unlinked)
                    (pre ++ mkBlock a sz Unlinked :: post)).
  { apply in_or_app. right. now left. }
  pose proof (tiles_addr_inj _ _ _ _ _ (c_tiles _ _ _ C) Hb Hmid eq_refl) as E.
  discriminate E.
Qed.

Lemma append_finish_core (s s' : state) (pre post : list block)
      (fl : Z -> list Z) (a sz : Z) :
  core s (pre ++ mkBlock a sz Unlinked :: post) fl ->
  same_anchors s s' ->
  (forall i, i <> get_index sz ->
             segregated_list s' i = segregated_list s i) ->
  (forall y, (forall x, In x (a :: fl (get_index sz)) ->
                        y <> x + 4 /\ y <> x + 8) ->
             mem s' y = mem s y) ->
  dll s' (segregated_list s' (get_index sz)) (a :: fl (get_index sz)) ->
  core s' (pre ++ mkBlock a sz OnList :: post)
       (fun i => if i =? get_index sz then a :: fl i else fl i).
Proof.
  intros C An Hseg Hmem Hdll.
  set (bl := pre ++ mkBlock a sz Unlinked :: post) in *.
  pose proof (get_index_range sz) as Hi0.
  pose proof (c_tiles _ _ _ C) as T.
  destruct An as (A1 & A2 & A3 & A4 & A5).
  assert (Hab : is_block bl a).
  { exists sz, Unlinked. unfold bl. apply in_or_app. right. now left. }
  assert (Hf : forall y,
             (forall b, In b bl -> y <> baddr b + 4 /\ y <> baddr b + 8) ->
             mem s' y = mem s y).
  { intros y Hy. apply Hmem. intros x [<-|Hx].
    - destruct Hab as (sa & ta & Hb). apply (Hy _ Hb).
    - destruct (core_fl_block _ _ _ _ _ C Hi0 Hx) as (szx & Hb & _).
      apply (Hy _ Hb). }
  destruct (relink_blocks s s' pre post a sz Unlinked OnList
              (or_intror eq_refl) (or_introl eq_refl) T A1 A2 Hf
              (c_hdr _ _ _ C) (c_pf _ _ _ C) (c_epi _ _ _ C))
    as (T' & Hh' & Hp' & He').
  assert (T2 : tiles (heap_start s) (pre ++ mkBlock a sz OnList :: post)
                     (heap_end s)) by (rewrite <- A1, <- A2; exact T').
  constructor; try assumption.
  - apply (bounds_ok_anchors s s'); [repeat split; assumption|].
    exact (c_bounds _ _ _ C).
  - intros i Hi. destruct (c_lists _ _ _ C i Hi) as (Hd & Hnd & Hm).
    destruct (Z.eqb_spec i (get_index sz)) as [->|Hne].
    + split; [exact Hdll|]. split.
      * constructor; [|exact Hnd].
        exact (unlinked_not_onlist s pre post fl a sz _ C Hi).
      * intros x. split.
        -- intros [<-|Hx].
           ++ exists sz. split; [|reflexivity]. apply in_or_app. right. now left.
           ++ destruct (proj1 (Hm x) Hx) as (szx & Hb & Hgi).
              exists szx. split; [|exact Hgi].
              apply (onlist_relinked pre post a sz x szx _ _ T2). now right.
        -- intros (szx & Hb & Hgi).
           apply (onlist_relinked pre post a sz x szx _ _ T2) in Hb.
           destruct Hb as [(-> & ->)|Hb]; [now left|].
           right. apply Hm. exists szx. split; assumption.
    + split; [|split; [exact Hnd|]].
      * rewrite (Hseg i Hne). unfold dll in *.
        apply (lseg_frame s s'); [exact A1| |exact Hd].
        intros z Hz.
        assert (Hzb : is_block bl z)
          by (eapply core_fl_is_block; eassumption).
        split; apply Hmem; intros x [<-|Hx].
        -- destruct (is_block_apart _ _ _ _ _ T Hzb Hab) as [E|[E|E]];
             try (split; lia).
           subst z. exfalso.
           exact (unlinked_not_onlist s pre post fl a sz _ C Hi Hz).
        -- assert (Hxb : is_block bl x)
             by (eapply core_fl_is_block; [exact C|exact Hi0|exact Hx]).
           destruct (is_block_apart _ _ _ _ _ T Hzb Hxb) as [E|[E|E]];
             try (split; lia).
           subst z. exfalso.
           destruct (core_fl_block _ _ _ _ _ C Hi Hz) as (s1 & B1 & G1).
           destruct (core_fl_block _ _ _ _ _ C Hi0 Hx) as (s2 & B2 & G2).
           pose proof (tiles_addr_inj _ _ _ _ _ T B1 B2 eq_refl) as E.
           inversion E; congruence.
        -- destruct (is_block_apart _ _ _ _ _ T Hzb Hab) as [E|[E|E]];
             try (split; lia).
           subst z. exfalso.
           exact (unlinked_not_onlist s pre post fl a sz _ C Hi Hz).
        -- assert (Hxb : is_block bl x)
             by (eapply core_fl_is_block; [exact C|exact Hi0|exact Hx]).
           destruct (is_block_apart _ _ _ _ _ T Hzb Hxb) as [E|[E|E]];
             try (split; lia).
           subst z. exfalso.
           destruct (core_fl_block _ _ _ _ _ C Hi Hz) as (s1 & B1 & G1).
           destruct (core_fl_block _ _ _ _ _ C Hi0 Hx) as (s2 & B2 & G2).
           pose proof (tiles_addr_inj _ _ _ _ _ T B1 B2 eq_refl) as E.
           inversion E; congruence.
      * intros x. rewrite (Hm x). split.
        -- intros (szx & Hb & Hgi). exists szx. split; [|exact Hgi].
           apply (onlist_relinked pre post a sz x szx _ _ T2). now right.
        -- intros (szx & Hb & Hgi). exists szx. split; [|exact Hgi].
           apply (onlist_relinked pre post a sz x szx _ _ T2) in Hb.
           destruct Hb as [(-> & ->)|Hb]; [congruence|exact Hb].
Qed.

Lemma append_finish (s s' : state) (pre post : list block)
      (fl : Z -> list Z) (a sz : Z) :
  core s (pre ++ mkBlock a sz Unlinked :: post) fl ->
  same_anchors s s' ->
  (forall i, i <> get_index sz ->
             segregated_list s' i = segregated_list s i) ->
  (forall y, (forall x, In x (a :: fl (get_index sz)) ->
                        y <> x + 4 /\ y <> x + 8) ->
             mem s' y = mem s y) ->
  dll s' (segregated_list s' (get_index sz)) (a :: fl (get_index sz)) ->
  core s' (pre ++ mkBlock a sz OnList :: post)
       (fun i => if i =? get_index sz then a :: fl i else fl i)
  /\ link_frame (pre ++ mkBlock a sz OnList :: post) s s'.
Proof.
  intros C An Hseg Hmem Hdll.
  split; [exact (append_finish_core _ _ _ _ _ _ _ C An Hseg Hmem Hdll)|].
  intros y Hy. apply Hmem. intros x [<-|Hx].
  - apply (Hy a sz). apply in_or_app. right. now left.
  - destruct (core_fl_block _ _ _ _ _ C (get_index_range sz) Hx)
      as (szx & Hb & _).
    apply (Hy x szx). apply in_app_or in Hb. apply in_or_app.
    destruct Hb as [Hb|[Hb|Hb]]; [now left|discriminate Hb|right; now right].
Qed.

(** Linking a free block at the head of its bucket list. *)
Lemma free_list_append_core (s : state) (pre post : list block)
      (fl : Z -> list Z) (a sz : Z) :
  core s (pre ++ mkBlock a sz Unlinked :: post) fl ->
  same_anchors s (free_list_append s a (get_index sz))
  /\ exists fl',
      core (free_list_append s a (get_index sz))
           (pre ++ mkBlock a sz OnList :: post) fl'
      /\ link_frame (pre ++ mkBlock a sz OnList :: post) s
                    (free_list_append s a (get_index sz)).
Proof.
  intros C.
  set (bl := pre ++ mkBlock a sz Unlinked :: post) in *.
  set (i0 := get_index sz).
  pose proof (get_index_range sz) as Hi0. fold i0 in Hi0.
  pose proof (c_tiles _ _ _ C) as T.
  destruct (c_lists _ _ _ C i0 Hi0) as (Hd & Hnd & Hm).
  assert (Hab : is_block bl a).
  { exists sz, Unlinked. unfold bl. apply in_or_app. right. now left. }
  destruct (core_block_facts _ _ _ a C Hab) as (Ha0 & Ham & Har & _).
  pose proof (unlinked_not_onlist s pre post fl a sz i0 C Hi0) as Hanot.
  unfold free_list_append. fold i0.
  destruct (set_free_prev_spec s a (heap_start s - 4)) as (F1 & M1 & _ & P1).
  specialize (P1 eq_refl).
  set (s1 := set_free_prev s a (heap_start s - 4)) in *.
  rewrite (sf_seg _ _ i0 F1), (sf_hs _ _ F1).
  unfold dll in Hd.
  destruct (fl i0) as [|h r] eqn:Efl.
  - (* empty bucket *)
    cbn [lseg] in Hd. rewrite Hd. cbn [Z.eqb].
    destruct (set_free_next_spec s1 a (heap_start s - 4)) as (F2 & M2 & _ & P2).
    rewrite (sf_hs _ _ F1) in P2. specialize (P2 eq_refl).
    set (s2 := set_free_next s1 a (heap_start s - 4)) in *.
    destruct (set_seg_fields s2 i0 a) as (An & Mm & Sv & So).
    assert (An' : same_anchors s (set_seg s2 i0 a)).
    { eapply same_anchors_trans; [|exact An].
      eapply same_anchors_trans; apply same_fields_anchors; eassumption. }
    split; [exact An'|]. eexists.
    apply (append_finish s _ pre post fl a sz C An').
    + intros i Hi. rewrite (So i Hi), (sf_seg _ _ i F2). apply sf_seg. exact F1.
    + intros y Hy. rewrite Mm.
      destruct (Hy a (or_introl eq_refl)) as (Y4 & Y8).
      rewrite M2, M1 by assumption. reflexivity.
    + fold i0. rewrite Efl, Sv. unfold dll. cbn [lseg].
      split; [reflexivity|]. split.
      * change (get_free_prev s2 a = 0).
        rewrite (get_free_prev_frame s1 s2 a);
          [exact P1|apply (sf_hs _ _ F2)|apply M2; lia].
      * exact P2.
  - (* the old head gets a predecessor *)
    cbn [lseg] in Hd. destruct Hd as (Hh & Hhp & Hd).
    rewrite Hh.
    assert (Hhb : is_block bl h).
    { apply (core_fl_is_block s bl fl i0); try assumption.
      rewrite Efl. now left. }
    destruct (core_block_facts _ _ _ h C Hhb) as (Hh0 & Hhm & Hhr & _).
    destruct (Z.eqb_spec h 0) as [|_]; [lia|].
    assert (Hha : h <> a).
    { intros ->. apply Hanot. now left. }
    assert (Hapa : h + 16 <= a \/ a + 16 <= h).
    { destruct (is_block_apart _ _ _ _ _ T Hhb Hab) as [?|?];
        [contradiction|assumption]. }
    destruct (set_free_prev_spec s1 h a) as (F2 & M2 & P2 & _).
    rewrite (sf_hs _ _ F1) in P2. specialize (P2 Ham Har).
    set (s2 := set_free_prev s1 h a) in *.
    rewrite (sf_seg _ _ i0 F2), (sf_seg _ _ i0 F1), Hh.
    destruct (set_free_next_spec s2 a h) as (F3 & M3 & P3 & _).
    rewrite (sf_hs _ _ F2), (sf_hs _ _ F1) in P3. specialize (P3 Hhm Hhr).
    set (s3 := set_free_next s2 a h) in *.
    destruct (set_seg_fields s3 i0 a) as (An & Mm & Sv & So).
    assert (A13 : same_anchors s s3).
    { eapply same_anchors_trans; [|apply same_fields_anchors; exact F3].
      eapply same_anchors_trans; apply same_fields_anchors; eassumption. }
    assert (An' : same_anchors s (set_seg s3 i0 a)).
    { eapply same_anchors_trans; [exact A13|exact An]. }
    split; [exact An'|]. eexists.
    apply (append_finish s _ pre post fl a sz C An').
    + intros i Hi.
      rewrite (So i Hi), (sf_seg _ _ i F3), (sf_seg _ _ i F2).
      apply sf_seg. exact F1.
    + intros y Hy. rewrite Mm.
      destruct (Hy a (or_introl eq_refl)) as (Y4 & Y8).
      assert (Hinh : In h (a :: fl (get_index sz))).
      { right. fold i0. rewrite Efl. now left. }
      destruct (Hy h Hinh) as (Z4 & Z8).
      rewrite M3, M2, M1 by assumption. reflexivity.
    + fold i0. rewrite Efl, Sv. unfold dll. cbn [lseg].
      assert (Hm3 : forall y, y <> a + 8 -> y <> h + 8 -> y <> a + 4 ->
                              mem s3 y = mem s y).
      { intros y Y1 Y2 Y3. rewrite M3, M2, M1 by assumption. reflexivity. }
      split; [reflexivity|]. split; [|split; [|split]].
      * change (get_free_prev s3 a = 0).
        rewrite (get_free_prev_frame s1 s3 a); [exact P1| |].
        -- rewrite (sf_hs _ _ F3). apply (sf_hs _ _ F2).
        -- rewrite M3, M2 by lia. reflexivity.
      * exact P3.
      * change (get_free_prev s3 h = a).
        rewrite (get_free_prev_frame s2 s3 h);
          [exact P2|apply (sf_hs _ _ F3)|apply M3; lia].
      * apply lseg_set_seg.
        change (lseg s3 h (get_free_next s3 h) r 0).
        assert (En : get_free_next s3 h = get_free_next s h).
        { apply get_free_next_frame; [apply A13|apply Hm3; lia]. }
        rewrite En.
        apply (lseg_frame s s3); [apply A13| |exact Hd].
        intros z Hz.
        assert (Hzl : In z (fl i0)) by (rewrite Efl; now right).
        assert (Hzb : is_block bl z)
          by (apply (core_fl_is_block s bl fl i0); assumption).
        assert (Hza : z <> a) by (intros ->; apply Hanot; right; exact Hz).
        assert (Hzh : z <> h).
        { intros ->. apply NoDup_cons_iff in Hnd.
          destruct Hnd as (Hnd & _). contradiction. }
        destruct (is_block_apart _ _ _ _ _ T Hzb Hab) as [?|?];
          [contradiction|].
        destruct (is_block_apart _ _ _ _ _ T Hzb Hhb) as [?|?];
          [contradiction|].
        split; apply Hm3; lia.
Qed.

(** * Rewriting a run of blocks *)

Lemma tiles_span_mod (bl : list block) :
  forall a e, tiles a bl e -> (e - a) mod 16 = 0.
Proof.
  induction bl as [|b bl IH]; intros a e; simpl.
  - intros <-. rewrite Z.sub_diag. reflexivity.
  - intros (_ & _ & Hm & H). specialize (IH _ _ H). zmod.
Qed.

Lemma hdr_ok_transfer (s s' : state) (b : block) :
  bt_size s' (baddr b) = bt_size s (baddr b) ->
  bt_free s' (baddr b) = bt_free s (baddr b) ->
  bt_size s' (baddr b + bsize b - 4) = bt_size s (baddr b + bsize b - 4) ->
  hdr_ok s b -> hdr_ok s' b.
Proof.
  intros E1 E2 E3. unfold hdr_ok. rewrite E1, E2, E3. trivial.
Qed.

Lemma lists_ok_frame (s s' : state) (bl bl' : list block)
      (fl : Z -> list Z) :
  lists_ok s bl fl ->
  heap_start s' = heap_start s ->
  segregated_list s' = segregated_list s ->
  (forall x sz, In (mkBlock x sz OnList) bl ->
                mem s' (x + 4) = mem s (x + 4)
                /\ mem s' (x + 8) = mem s (x + 8)) ->
  (forall x sz, In (mkBlock x sz OnList) bl <->
                In (mkBlock x sz OnList) bl') ->
  lists_ok s' bl' fl.
Proof.
  intros L Hs Hseg Hmem Hin i Hi.
  destruct (L i Hi) as (Hd & Hnd & Hm).
  split; [|split; [exact Hnd|]].
  - rewrite Hseg. unfold dll in *.
    apply (lseg_frame s s'); [exact Hs| |exact Hd].
    intros x Hx. destruct (proj1 (Hm x) Hx) as (sz & Hb & _).
    exact (Hmem x sz Hb).
  - intros x. rewrite (Hm x). split; intros (sz & Hb & Hg); exists sz;
      (split; [apply Hin; exact Hb|exact Hg]).
Qed.

(** The blocks [run], which start at [a] and span [T] bytes and none of
    which is on a list, are replaced by one block of [sz] bytes in state
    [st'], followed by a raw remainder when [sz < T].  The memory may change
    from [a] to [a + sz] only, and at [a + sz] only in the PREVFREE bit. *)
Lemma retile_core (s s' : state) (pre run post : list block)
      (fl : Z -> list Z) (a T sz : Z) (st' : status) :
  core s (pre ++ run ++ post) fl ->
  run <> [] -> tiles a run (a + T) ->
  Forall (fun b => bst b <> OnList) run ->
  16 <= sz <= T -> sz mod 16 = 0 ->
  same_fields s s' ->
  (forall y, y < a \/ a + sz < y -> mem s' y = mem s y) ->
  bt_size s' (a + sz) = bt_size s (a + sz) ->
  bt_free s' (a + sz) = bt_free s (a + sz) ->
  st' <> OnList ->
  hdr_ok s' (mkBlock a sz st') ->
  (st' <> Raw -> bt_get_prevfree s' a <> 0 -> last_st Used pre <> Used) ->
  (st' = Used -> sz = T ->
   bt_get_prevfree s' (a + sz) = 0
   \/ (bt_get_prevfree s' (a + sz) = bt_get_prevfree s (a + sz)
       /\ last_st (last_st Used pre) run = Used)) ->
  core s' (pre ++ mkBlock a sz st'
               :: (if sz <? T then [mkBlock (a + sz) (T - sz) Raw] else [])
               ++ post) fl.
Proof.
  intros C Hne Trun Hno Hsz Hmod F M Zn Rn Hst' Hnew Hpfa Hpfn.
  pose proof (c_tiles _ _ _ C) as T0.
  apply tiles_app in T0. destruct T0 as (m1 & Tpre & T0).
  apply tiles_app in T0. destruct T0 as (m2 & Trun' & Tpost).
  assert (Em1 : m1 = a).
  { destruct run as [|b0 run]; [contradiction|].
    simpl in Trun, Trun'. destruct Trun as (<- & _), Trun' as (<- & _).
    reflexivity. }
  subst m1.
  pose proof (tiles_end_unique _ _ _ _ Trun Trun') as Em2. subst m2.
  pose proof (tiles_span_mod _ _ _ Trun) as HTmod.
  replace (a + T - a) with T in HTmod by lia.
  pose proof (tiles_le _ _ _ Tpost) as Hle_end.
  destruct (c_bounds _ _ _ C) as (B1 & B2 & B3 & B4 & B5).
  pose proof (tiles_le _ _ _ Tpre) as Hle_pre.
  set (rem := if sz <? T then [mkBlock (a + sz) (T - sz) Raw] else []).
  assert (Trem : tiles (a + sz) rem (a + T)).
  { unfold rem. destruct (Z.ltb_spec sz T).
    - simpl. repeat split; lia || zmod.
    - simpl. lia. }
  pose proof (c_hdr _ _ _ C) as Hh.
  apply Forall_app in Hh. destruct Hh as (Hhpre & Hh).
  apply Forall_app in Hh. destruct Hh as (_ & Hhpost).
  pose proof (c_pf _ _ _ C) as Hp.
  apply pf_ok_app in Hp. destruct Hp as (Hppre & Hp).
  apply pf_ok_app in Hp. destruct Hp as (_ & Hppost).
  (* headers before and after the run *)
  assert (Hpre_mem : forall b, In b pre ->
             mem s' (baddr b) = mem s (baddr b)
             /\ mem s' (baddr b + bsize b - 4) = mem s (baddr b + bsize b - 4)).
  { intros b Hb. destruct (tiles_in _ _ _ _ Tpre Hb) as (? & ? & ? & _).
    split; apply M; lia. }
  assert (Hpost_far : forall b, In b post -> a + sz < baddr b ->
                                mem s' (baddr b) = mem s (baddr b)).
  { intros b Hb Hlt. apply M. lia. }
  assert (Hpost_ft : forall b, In b post ->
             mem s' (baddr b + bsize b - 4) = mem s (baddr b + bsize b - 4)).
  { intros b Hb. destruct (tiles_in _ _ _ _ Tpost Hb) as (? & ? & ? & _).
    apply M. lia. }
  constructor.
  - unfold bounds_ok. destruct F as (-> & -> & _ & _ & -> & ->).
    repeat split; assumption.
  - rewrite (sf_hs _ _ F), (sf_he _ _ F).
    apply tiles_app. exists a. split; [exact Tpre|].
    change (tiles a ([mkBlock a sz st'] ++ rem ++ post) (heap_end s)).
    apply tiles_app. exists (a + sz). split.
    + simpl. repeat split; lia || zmod.
    + apply tiles_app. exists (a + T). split; assumption.
  - apply Forall_app. split.
    + rewrite Forall_forall in *. intros b Hb.
      destruct (Hpre_mem b Hb) as (E1 & E2).
      apply (hdr_ok_transfer s s');
        [apply bt_size_frame|apply bt_free_frame|apply bt_size_frame| ];
        auto.
    + constructor; [exact Hnew|]. apply Forall_app. split.
      * unfold rem. destruct (sz <? T); constructor; [exact I|constructor].
      * rewrite Forall_forall in *. intros b Hb.
        destruct (tiles_in _ _ _ _ Tpost Hb) as (Hge & _ & H16 & _).
        apply (hdr_ok_transfer s s'); [| | |apply Hhpost; exact Hb].
        -- destruct (Z.eq_dec (baddr b) (a + sz)) as [->|Hneq];
             [exact Zn|]. apply bt_size_frame. apply M. lia.
        -- destruct (Z.eq_dec (baddr b) (a + sz)) as [->|Hneq];
             [exact Rn|]. apply bt_free_frame. apply M. lia.
        -- apply bt_size_frame. apply Hpost_ft. exact Hb.
  - apply pf_ok_app. split.
    + apply (pf_ok_frame s s'); [|exact Hppre].
      intros b Hb _. apply bt_get_prevfree_frame. apply Hpre_mem. exact Hb.
    + cbn [pf_ok bst baddr]. split; [exact Hpfa|].
      unfold rem. destruct (Z.ltb_spec sz T) as [Hlt|Hge].
      * cbn [app pf_ok bst]. split; [intros E; contradiction|].
        apply (pf_ok_prev s' post (last_st (last_st Used pre) run) Raw);
          [discriminate|].
        apply (pf_ok_frame s s'); [|exact Hppost].
        intros b Hb _. apply bt_get_prevfree_frame.
        destruct (tiles_in _ _ _ _ Tpost Hb) as (? & _).
        apply Hpost_far; [exact Hb|lia].
      * cbn [app]. assert (ET : sz = T) by lia.
        destruct post as [|n post']; [exact I|].
        cbn [pf_ok] in *. destruct Hppost as (Hn & Hrest).
        simpl in Tpost. destruct Tpost as (Hna & Hn16 & _ & Tpost').
        split.
        -- intros Hnr Hpf E. destruct (Hpfn E ET) as [Hz|(Hsame & Hlast)].
           ++ apply Hpf. rewrite Hna, <- ET. exact Hz.
           ++ rewrite Hna, <- ET, Hsame in Hpf. rewrite ET, <- Hna in Hpf.
              exact (Hn Hnr Hpf Hlast).
        -- apply (pf_ok_frame s s'); [|exact Hrest].
           intros b Hb _. apply bt_get_prevfree_frame.
           destruct (tiles_in _ _ _ _ Tpost' Hb) as (? & _).
           apply M. lia.
  - destruct (c_epi _ _ _ C) as (E1 & E2).
    unfold epilogue_ok. rewrite (sf_he _ _ F).
    destruct (Z.eq_dec (heap_end s) (a + sz)) as [E|Hneq].
    + rewrite E in *. rewrite Zn, Rn. split; assumption.
    + assert (Em : mem s' (heap_end s) = mem s (heap_end s))
        by (apply M; lia).
      rewrite (bt_size_frame s s' _ Em), (bt_free_frame s s' _ Em).
      split; assumption.
  - apply (lists_ok_frame s s' (pre ++ run ++ post));
      [exact (c_lists _ _ _ C)|apply (sf_hs _ _ F)|apply F| |].
    + intros x szx Hb. apply in_app_or in Hb. destruct Hb as [Hb|Hb].
      * destruct (tiles_in _ _ _ _ Tpre Hb) as (? & ? & ? & _).
        simpl in *. split; apply M; lia.
      * apply in_app_or in Hb. destruct Hb as [Hb|Hb].
        -- rewrite Forall_forall in Hno. specialize (Hno _ Hb).
           simpl in Hno. contradiction.
        -- destruct (tiles_in _ _ _ _ Tpost Hb) as (? & ? & ? & _).
           simpl in *. split; apply M; lia.
    + intros x szx. rewrite !in_app_iff. cbn [In]. rewrite in_app_iff.
      split.
      * intros [H|[H|H]]; [now left| |right; right; now right].
        rewrite Forall_forall in Hno. specialize (Hno _ H).
        simpl in Hno. contradiction.
      * intros [H|[H|[H|H]]]; [now left| | |right; now right].
        -- inversion H; subst. contradiction.
        -- unfold rem in H. destruct (sz <? T); simpl in H;
             [destruct H as [H|[]]; discriminate H|destruct H].
Qed.

(** Sizes inside the heap fit a header word. *)
Lemma core_span (s : state) (bl : list block) (fl : Z -> list Z) :
  core s bl fl ->
  0 < heap_start s /\ heap_start s <= heap_end s
  /\ heap_end s - heap_start s < 2 ^ 31
  /\ (heap_end s - heap_start s) mod 16 = 0.
Proof.
  intros C. destruct (c_bounds _ _ _ C) as (B1 & B2 & B3 & B4 & B5).
  pose proof (tiles_le _ _ _ (c_tiles _ _ _ C)).
  pose proof (tiles_span_mod _ _ _ (c_tiles _ _ _ C)).
  repeat split; lia.
Qed.

Lemma run_geometry (s : state) (pre run post : list block)
      (fl : Z -> list Z) (a T : Z) :
  core s (pre ++ run ++ post) fl ->
  run <> [] -> tiles a run (a + T) ->
  heap_start s <= a /\ a + T <= heap_end s /\ T mod 16 = 0 /\ 16 <= T
  /\ tiles (heap_start s) pre a /\ tiles (a + T) post (heap_end s).
Proof.
  intros C Hne Trun.
  pose proof (c_tiles _ _ _ C) as T0.
  apply tiles_app in T0. destruct T0 as (m1 & Tpre & T0).
  apply tiles_app in T0. destruct T0 as (m2 & Trun' & Tpost).
  assert (Em1 : m1 = a).
  { destruct run as [|b0 run]; [contradiction|].
    simpl in Trun, Trun'. destruct Trun as (<- & _), Trun' as (<- & _).
    reflexivity. }
  subst m1.
  pose proof (tiles_end_unique _ _ _ _ Trun Trun') as Em2. subst m2.
  pose proof (tiles_span_mod _ _ _ Trun) as HTmod.
  replace (a + T - a) with T in HTmod by lia.
  pose proof (tiles_le _ _ _ Tpost). pose proof (tiles_le _ _ _ Tpre).
  assert (16 <= T).
  { destruct run as [|b0 run]; [contradiction|].
    simpl in Trun. destruct Trun as (_ & ? & _ & Tr).
    apply tiles_le in Tr. lia. }
  repeat split; assumption || lia.
Qed.

(** [bt_make] of an allocated block over a run. *)
Lemma retile_used (s : state) (pre run post : list block)
      (fl : Z -> list Z) (a T sz flags : Z) :
  core s (pre ++ run ++ post) fl ->
  run <> [] -> tiles a run (a + T) ->
  Forall (fun b => bst b <> OnList) run ->
  16 <= sz <= T -> sz mod 16 = 0 ->
  flags = 1 \/ (flags = 3 /\ last_st Used pre <> Used) ->
  same_fields s (bt_make s a sz flags)
  /\ core (bt_make s a sz flags)
          (pre ++ mkBlock a sz Used
               :: (if sz <? T then [mkBlock (a + sz) (T - sz) Raw] else [])
               ++ post) fl.
Proof.
  intros C Hne Trun Hno Hsz Hmod Hfl.
  destruct (run_geometry _ _ _ _ _ _ _ C Hne Trun)
    as (G1 & G2 & G3 & G4 & _ & _).
  destruct (core_span _ _ _ C) as (S1 & S2 & S3 & S4).
  assert (Hsz31 : 16 <= sz < 2 ^ 31 - 3) by zmod.
  assert (Hm4 : sz mod 4 = 0) by zmod.
  assert (Hfl' : flags = 1 \/ flags = 3) by tauto.
  destruct (bt_make_used_spec s a sz flags ltac:(lia) Hsz31 Hm4 Hfl')
    as (F & M & _ & Z1 & R1 & P1 & Zn & Rn & Pn).
  split; [exact F|].
  apply (retile_core s _ pre run post fl a T sz Used C Hne Trun Hno Hsz Hmod F);
    try assumption.
  - intros y Hy. apply M; lia.
  - discriminate.
  - unfold hdr_ok. cbn [bst baddr bsize]. split; assumption.
  - intros _ Hpf. rewrite P1 in Hpf.
    destruct Hfl as [->|(-> & H)]; [contradiction|exact H].
  - intros _ ET. left. apply Pn. lia.
Qed.

(** [bt_make] of a free block over a run. *)
Lemma retile_free (s : state) (pre run post : list block)
      (fl : Z -> list Z) (a T sz flags : Z) :
  core s (pre ++ run ++ post) fl ->
  run <> [] -> tiles a run (a + T) ->
  Forall (fun b => bst b <> OnList) run ->
  16 <= sz <= T -> sz mod 16 = 0 ->
  flags = 0 \/ (flags = 2 /\ last_st Used pre <> Used) ->
  same_fields s (bt_make s a sz flags)
  /\ core (bt_make s a sz flags)
          (pre ++ mkBlock a sz Unlinked
               :: (if sz <? T then [mkBlock (a + sz) (T - sz) Raw] else [])
               ++ post) fl.
Proof.
  intros C Hne Trun Hno Hsz Hmod Hfl.
  destruct (run_geometry _ _ _ _ _ _ _ C Hne Trun)
    as (G1 & G2 & G3 & G4 & _ & _).
  destruct (core_span _ _ _ C) as (S1 & S2 & S3 & S4).
  assert (Hsz31 : 16 <= sz < 2 ^ 31 - 3) by zmod.
  assert (Hm4 : sz mod 4 = 0) by zmod.
  assert (Hfl' : flags = 0 \/ flags = 2) by tauto.
  destruct (bt_make_free_spec s a sz flags ltac:(lia) Hsz31 Hm4 Hfl')
    as (F & M & _ & Z1 & R1 & P1 & Zf & Zn & Rn & Pn).
  split; [exact F|].
  apply (retile_core s _ pre run post fl a T sz Unlinked C Hne Trun Hno Hsz
                     Hmod F); try assumption.
  - intros y Hy. apply M; lia.
  - discriminate.
  - unfold hdr_ok. cbn [bst baddr bsize]. repeat split; assumption.
  - intros _ Hpf. rewrite P1 in Hpf.
    destruct Hfl as [->|(-> & H)]; [contradiction|exact H].
  - discriminate.
Qed.

(** Writes that stay inside the payload of an allocated block. *)
Lemma payload_frame (s s' : state) (pre post : list block)
      (fl : Z -> list Z) (b : block) :
  core s (pre ++ b :: post) fl -> bst b = Used ->
  same_fields s s' ->
  (forall y, y <= baddr b \/ baddr b + bsize b <= y -> mem s' y = mem s y) ->
  core s' (pre ++ b :: post) fl.
Proof.
  intros C Hb F M.
  destruct b as [a sz st]. simpl in *. subst st.
  pose proof (c_tiles _ _ _ C) as T0.
  destruct (tiles_split _ _ _ _ _ T0) as (Tpre & Tpost & H16 & Hmod).
  simpl in *.
  assert (Trun : tiles a [mkBlock a sz Used] (a + sz)).
  { simpl. repeat split; assumption. }
  pose proof (c_hdr _ _ _ C) as Hh.
  apply Forall_app in Hh. destruct Hh as (_ & Hh).
  inversion Hh as [|? ? Hb _]; subst. unfold hdr_ok in Hb. simpl in Hb.
  destruct Hb as (Hbs & Hbf).
  pose proof (c_pf _ _ _ C) as Hp.
  apply pf_ok_app in Hp. destruct Hp as (_ & Hp). cbn [pf_ok bst baddr] in Hp.
  destruct Hp as (Hpa & _).
  assert (Ea : mem s' a = mem s a) by (apply M; lia).
  assert (En : mem s' (a + sz) = mem s (a + sz)) by (apply M; lia).
  pose proof (retile_core s s' pre [mkBlock a sz Used] post fl a sz sz Used)
    as R.
  rewrite Z.ltb_irrefl in R. cbn [app] in R. apply R; clear R;
    try assumption.
  - discriminate.
  - constructor; [discriminate|constructor].
  - lia.
  - intros y Hy. apply M. lia.
  - apply bt_size_frame. exact En.
  - apply bt_free_frame. exact En.
  - discriminate.
  - unfold hdr_ok. cbn [bst baddr bsize].
    rewrite (bt_size_frame s s' a Ea), (bt_free_frame s s' a Ea).
    split; assumption.
  - intros _. rewrite (bt_get_prevfree_frame s s' a Ea). apply Hpa.
    discriminate.
  - intros _ _. right. split; [apply bt_get_prevfree_frame; exact En|].
    reflexivity.
Qed.

(** The heap grows by a raw run [ext] (or not at all): everything below
    the old end is untouched and a new epilogue is in place. *)
Lemma grow_core (s v : state) (bl ext : list block) (fl : Z -> list Z) :
  core s bl fl ->
  tiles (heap_end s) ext (heap_end v) ->
  Forall (fun b => bst b = Raw) ext ->
  heap_start v = heap_start s ->
  segregated_list v = segregated_list s ->
  bounds_ok v ->
  (forall y, heap_start s <= y < heap_end s -> mem v y = mem s y) ->
  epilogue_ok v ->
  core v (bl ++ ext) fl.
Proof.
  intros C Text Hraw Hs Hseg Hbnd M Hepi.
  pose proof (c_tiles _ _ _ C) as T0.
  assert (Hin : forall b, In b bl ->
            mem v (baddr b) = mem s (baddr b)
            /\ mem v (baddr b + bsize b - 4) = mem s (baddr b + bsize b - 4)
            /\ mem v (baddr b + 4) = mem s (baddr b + 4)
            /\ mem v (baddr b + 8) = mem s (baddr b + 8)).
  { intros b Hb. destruct (tiles_in _ _ _ _ T0 Hb) as (? & ? & ? & _).
    repeat split; apply M; lia. }
  constructor; try assumption.
  - rewrite Hs. apply tiles_app. exists (heap_end s). split; assumption.
  - apply Forall_app. split.
    + pose proof (c_hdr _ _ _ C) as Hh. rewrite Forall_forall in *.
      intros b Hb. destruct (Hin b Hb) as (E1 & E2 & _).
      apply (hdr_ok_transfer s v);
        [apply bt_size_frame|apply bt_free_frame|apply bt_size_frame| ];
        auto.
    + rewrite Forall_forall in *. intros b Hb. unfold hdr_ok.
      rewrite (Hraw b Hb). exact I.
  - apply pf_ok_app. split.
    + apply (pf_ok_frame s v); [|exact (c_pf _ _ _ C)].
      intros b Hb _. apply bt_get_prevfree_frame. apply Hin. exact Hb.
    + clear Text. generalize (last_st Used bl).
      induction ext as [|b ext IH]; intros p; cbn [pf_ok]; [exact I|].
      inversion Hraw as [|? ? Hrb Hraw']; subst. split.
      * intros Hn. contradiction.
      * apply IH. exact Hraw'.
  - apply (lists_ok_frame s v bl); [exact (c_lists _ _ _ C)|exact Hs
                                    |exact Hseg| |].
    + intros x sz Hb. destruct (Hin _ Hb) as (_ & _ & E4 & E8).
      split; assumption.
    + intros x sz. rewrite in_app_iff. split; [now left|].
      intros [H|H]; [exact H|]. rewrite Forall_forall in Hraw.
      specialize (Hraw _ H). discriminate Hraw.
Qed.

(** * Fit search *)

Section FindFit.
Variable s : state.
Variable asize : Z.

(** One bucket: the scan returns the first smallest block of size at
    least [asize], or the best fit it was started with. *)
Lemma scan_list_spec (l : list Z) :
  forall (fuel : nat) (ptr best : Z),
    chain s ptr l ->
    (length l < fuel)%nat ->
    best = 0 \/ asize <= bt_size s best ->
    exists r,
      scan_list fuel s asize ptr best = Some r
      /\ (r = 0 <-> best = 0 /\ forall b, In b l -> bt_size s b < asize)
      /\ (r <> 0 ->
          (r = best \/ In r l)
          /\ asize <= bt_size s r
          /\ (best <> 0 -> bt_size s r <= bt_size s best)
          /\ forall b, In b l -> asize <= bt_size s b ->
                       bt_size s r <= bt_size s b).
Proof.
  induction l as [|b l' IH]; intros fuel ptr best Hc Hf Hb.
  - simpl in Hc. subst ptr.
    destruct fuel as [|fuel]; [simpl in Hf; lia|].
    exists best. simpl. split; [reflexivity|]. split.
    + split; [intros ->; split; [reflexivity|intros ? []]|tauto].
    + intros Hr. split; [now left|]. split; [tauto|].
      split; [lia|intros ? []].
  - simpl in Hc. destruct Hc as (-> & Hnz & Hc).
    destruct fuel as [|fuel]; [simpl in Hf; lia|].
    simpl in Hf. simpl scan_list.
    destruct (Z.eqb_spec b 0) as [|_]; [contradiction|].
    set (best' := if asize <=? bt_size s b
                  then if (best =? 0) || (bt_size s b <? bt_size s best)
                       then b else best
                  else best).
    assert (Hb' : best' = 0 \/ asize <= bt_size s best').
    { unfold best'. destruct (Z.leb_spec asize (bt_size s b)); [|assumption].
      destruct ((best =? 0) || (bt_size s b <? bt_size s best));
        [now right|assumption]. }
    destruct (IH fuel (get_free_next s b) best' Hc ltac:(lia) Hb')
      as (r & Hr & Hz & Hnzr).
    exists r. split; [exact Hr|]. split.
    + rewrite Hz. unfold best'. clear Hz Hnzr Hr.
      destruct (Z.leb_spec asize (bt_size s b)) as [Hge|Hlt].
      * destruct (Z.eqb_spec best 0) as [->|Hbn]; simpl.
        -- split; [intros [? _]; contradiction|].
           intros [_ H]. specialize (H b (or_introl eq_refl)). lia.
        -- destruct (Z.ltb_spec (bt_size s b) (bt_size s best)).
           ++ split; [intros [? _]; contradiction|intros [? _]; contradiction].
           ++ split; intros [? _]; contradiction.
      * split.
        -- intros [-> H]. split; [reflexivity|].
           intros b0 [<-|Hin]; [assumption|now apply H].
        -- intros [-> H]. split; [reflexivity|].
           intros b0 Hin. apply H. now right.
    + intros Hrnz. specialize (Hnzr Hrnz).
      destruct Hnzr as (Hor & Hfit & Hle & Hmin).
      unfold best' in Hor, Hle. clear Hz Hr.
      destruct (Z.leb_spec asize (bt_size s b)) as [Hge|Hlt].
      * destruct (Z.eqb_spec best 0) as [->|Hbn]; simpl in Hor, Hle.
        -- specialize (Hle Hnz).
           split; [destruct Hor as [->|]; right; [now left|now right]|].
           split; [assumption|]. split; [congruence|].
           intros b0 [<-|Hin] Hb0; [assumption|now apply Hmin].
        -- destruct (Z.ltb_spec (bt_size s b) (bt_size s best)).
           ++ specialize (Hle Hnz).
              split; [destruct Hor as [->|]; right; [now left|now right]|].
              split; [assumption|]. split; [lia|].
              intros b0 [<-|Hin] Hb0; [assumption|now apply Hmin].
           ++ specialize (Hle Hbn).
              split; [destruct Hor as [->|]; [now left|right; now right]|].
              split; [assumption|]. split; [lia|].
              intros b0 [<-|Hin] Hb0; [lia|now apply Hmin].
      * split; [destruct Hor as [->|]; [now left|right; now right]|].
        split; [assumption|]. split; [assumption|].
        intros b0 [<-|Hin] Hb0; [lia|now apply Hmin].
Qed.

Variable bk : Z -> list Z.
Variable fuel : nat.

(** The buckets from [index] on, in increasing order. *)
Lemma find_fit_loop_spec (n : nat) :
  forall index : Z,
    (forall i, index <= i < index + Z.of_nat n ->
               chain s (segregated_list s i) (bk i)
               /\ (length (bk i) < fuel)%nat) ->
    exists r,
      find_fit_loop n fuel s asize index = Some r
      /\ (r = 0 <->
          forall i b, index <= i < index + Z.of_nat n -> In b (bk i) ->
                      bt_size s b < asize)
      /\ (r <> 0 ->
          exists i,
            index <= i < index + Z.of_nat n
            /\ In r (bk i)
            /\ asize <= bt_size s r
            /\ (forall b, In b (bk i) -> asize <= bt_size s b ->
                          bt_size s r <= bt_size s b)
            /\ (forall j b, index <= j < i -> In b (bk j) ->
                            bt_size s b < asize)).
Proof.
  induction n as [|n IH]; intros index H.
  - exists 0. simpl. split; [reflexivity|]. split.
    + split; [intros _ i b Hi; lia|reflexivity].
    + intros []; reflexivity.
  - destruct (H index ltac:(lia)) as (Hc & Hl).
    destruct (scan_list_spec (bk index) fuel (segregated_list s index) 0
                             Hc Hl (or_introl eq_refl))
      as (r & Hr & Hz & Hnz).
    simpl find_fit_loop. rewrite Hr.
    destruct (Z.eqb_spec r 0) as [->|Hrnz]; simpl.
    + destruct (IH (index + 1)) as (r' & Hr' & Hz' & Hnz').
      { intros i Hi. apply H. lia. }
      exists r'. split; [exact Hr'|]. split.
      * rewrite Hz'. split.
        -- intros Hall i b Hi Hin.
           destruct (Z.eq_dec i index) as [->|].
           ++ apply (proj1 Hz eq_refl). assumption.
           ++ apply (Hall i b); [lia|assumption].
        -- intros Hall i b Hi Hin. apply (Hall i b); [lia|assumption].
      * intros Hr'nz. destruct (Hnz' Hr'nz) as (i & Hi & Hin & Hfit & Hmin & Hbefore).
        exists i. split; [lia|]. split; [assumption|]. split; [assumption|].
        split; [assumption|].
        intros j b Hj Hinj. destruct (Z.eq_dec j index) as [->|].
        -- apply (proj1 Hz eq_refl). assumption.
        -- apply (Hbefore j b); [lia|assumption].
    + exists r. split; [reflexivity|]. split.
      * split; [contradiction|].
        intros Hall. exfalso.
        destruct (Hnz Hrnz) as ([->|Hin] & Hfit & _); [congruence|].
        specialize (Hall index r ltac:(lia) Hin). lia.
      * intros _. destruct (Hnz Hrnz) as ([->|Hin] & Hfit & _ & Hmin);
          [congruence|].
        exists index. split; [lia|]. split; [assumption|].
        split; [assumption|]. split; [assumption|].
        intros j b Hj. lia.
Qed.
End FindFit.


(** * The provider's call log *)

Ltac break_ifs :=
  repeat match goal with
         | |- context [if ?c then _ else _] => destruct c
         end.

Lemma bt_make_log (s : state) (bt size flags : Z) :
  sbrk_log (bt_make s bt size flags) = sbrk_log s.
Proof.
  unfold bt_make, bt_clr_prevfree, bt_set_prevfree, PUT.
  break_ifs; reflexivity.
Qed.

Lemma free_list_delete_log (s : state) (bp index : Z) :
  sbrk_log (free_list_delete s bp index) = sbrk_log s.
Proof. unfold free_list_delete. break_ifs; reflexivity. Qed.

Lemma free_list_append_log (s : state) (bp index : Z) :
  sbrk_log (free_list_append s bp index) = sbrk_log s.
Proof. unfold free_list_append. break_ifs; reflexivity. Qed.

Lemma set_last_log (s : state) (v : Z) :
  sbrk_log (set_last s v) = sbrk_log s.
Proof. reflexivity. Qed.

Ltac log_step :=
  match goal with
  | |- context [sbrk_log (if ?c then _ else _)] => destruct c
  | |- context [sbrk_log (set_last _ _)] => rewrite set_last_log
  | |- context [sbrk_log (free_list_append _ _ _)] =>
      rewrite free_list_append_log
  | |- context [sbrk_log (free_list_delete _ _ _)] =>
      rewrite free_list_delete_log
  | |- context [sbrk_log (bt_make _ _ _ _)] => rewrite bt_make_log
  end.

Lemma place_log (s : state) (bp asize : Z) :
  sbrk_log (place s bp asize) = sbrk_log s.
Proof. unfold place. cbv zeta. repeat log_step; reflexivity. Qed.

Lemma coalesce_log (s : state) (bp : Z) :
  sbrk_log (snd (coalesce s bp)) = sbrk_log s.
Proof.
  unfold coalesce. cbv zeta.
  destruct (bt_free s (bt_next s bp));
    destruct (negb (bt_get_prevfree s bp =? 0)); cbv beta iota;
    unfold snd; repeat log_step; reflexivity.
Qed.

Lemma free_log (s : state) (ptr : Z) :
  sbrk_log (free s ptr) = sbrk_log s.
Proof.
  unfold free. cbv zeta.
  destruct (ptr =? 0); [reflexivity|].
  match goal with |- context [sbrk_log (if ?c then _ else _)] => destruct c end.
  - rewrite coalesce_log. apply bt_make_log.
  - rewrite free_list_append_log. apply bt_make_log.
Qed.

Lemma same_heap_refl (s : state) : same_heap s s.
Proof. repeat split. Qed.

(** A call to [extend_heap] logs its request; when the provider refuses it,
    nothing else changes and the result is [NULL]. *)
Lemma set_heap_end_log (s : state) (v : Z) :
  sbrk_log (set_heap_end s v) = sbrk_log s.
Proof. reflexivity. Qed.

Lemma PUT_log (s : state) (p v : Z) : sbrk_log (PUT s p v) = sbrk_log s.
Proof. reflexivity. Qed.

Lemma mem_sbrk_log (s : state) (k : Z) (r : option Z) (s' : state) :
  mem_sbrk s k = (r, s') ->
  (r <> None /\ sbrk_log s' = (k, true) :: sbrk_log s)
  \/ (r = None /\ sbrk_log s' = (k, false) :: sbrk_log s /\ same_heap s s').
Proof.
  unfold mem_sbrk. destruct (mem_brk s + k <=? mem_max_addr s);
    intros H; inversion H; subst; clear H.
  - left. split; [discriminate|reflexivity].
  - right. repeat split.
Qed.

Lemma extend_heap_log (s : state) (k r : Z) (s' : state) :
  extend_heap s k = (r, s') ->
  sbrk_log s' = (k, true) :: sbrk_log s
  \/ (sbrk_log s' = (k, false) :: sbrk_log s /\ r = 0 /\ same_heap s s').
Proof.
  unfold extend_heap.
  destruct (mem_sbrk s k) as [[p|] s1] eqn:Es;
    destruct (mem_sbrk_log _ _ _ _ Es) as [(Hr & Hl)|(Hr & Hl & Hs)];
    try congruence.
  - cbv zeta.
    destruct (negb (last s1 =? 0) && bt_free s1 (last s1))%bool;
      cbv beta iota; intros H; inversion H; subst; clear H; left;
      rewrite set_heap_end_log, set_last_log, PUT_log, bt_make_log,
        ?free_list_delete_log; exact Hl.
  - intros H; inversion H; subst; clear H. right. auto.
Qed.

Lemma malloc_log (fuel : nat) (s : state) (size r : Z) (s' : state) :
  malloc fuel s size = Some (r, s') ->
  sbrk_log s' = sbrk_log s
  \/ (exists k, sbrk_log s' = (k, true) :: sbrk_log s)
  \/ (exists k, sbrk_log s' = (k, false) :: sbrk_log s
                /\ r = 0 /\ same_heap s s').
Proof.
  unfold malloc.
  destruct (size =? 0).
  { intros H; inversion H; subst. now left. }
  destruct (find_fit fuel s _) as [bp|]; [|discriminate].
  destruct (bp =? 0); simpl.
  - match goal with
    | |- context [extend_heap s ?k] =>
        destruct (extend_heap s k) as [bp' s1] eqn:E;
        pose proof (extend_heap_log _ _ _ _ E) as [Hl|(Hl & Hr & Hs)]
    end.
    + intros H. right; left.
      destruct (bp' =? 0); inversion H; subst; eexists; exact Hl.
    + intros H. right; right. subst bp'. simpl in H.
      inversion H; subst. eexists. repeat split; try apply Hs. exact Hl.
  - intros H; inversion H; subst. left. apply place_log.
Qed.

Lemma cons_neq_self {A : Type} (x : A) (l : list A) : l <> x :: l.
Proof.
  intros H. apply (f_equal (@length A)) in H. simpl in H. lia.
Qed.


(** * Reading a heap that satisfies the invariant *)

Lemma core_hdr_at (s : state) (pre post : list block) (fl : Z -> list Z)
      (b : block) :
  core s (pre ++ b :: post) fl -> hdr_ok s b.
Proof.
  intros C. pose proof (c_hdr _ _ _ C) as H.
  apply Forall_app in H. destruct H as (_ & H).
  inversion H; assumption.
Qed.

Lemma core_pf_at (s : state) (pre post : list block) (fl : Z -> list Z)
      (b : block) :
  core s (pre ++ b :: post) fl -> bst b <> Raw ->
  bt_get_prevfree s (baddr b) <> 0 -> last_st Used pre <> Used.
Proof.
  intros C. pose proof (c_pf _ _ _ C) as H.
  apply pf_ok_app in H. destruct H as (_ & H). cbn [pf_ok] in H.
  apply H.
Qed.

Lemma last_st_snoc (p : status) (l : list block) (b : block) :
  last_st p (l ++ [b]) = bst b.
Proof. rewrite last_st_app. reflexivity. Qed.

Lemma last_st_not_used (pre : list block) :
  last_st Used pre <> Used ->
  exists pre' pv, pre = pre' ++ [pv] /\ bst pv <> Used.
Proof.
  intros H. destruct pre as [|b0 pre0]; [contradiction|].
  destruct (exists_last (l := b0 :: pre0) ltac:(discriminate))
    as (pre' & pv & E).
  rewrite E in *. rewrite last_st_snoc in H.
  exists pre', pv. split; [reflexivity|exact H].
Qed.

(** The physical successor of a block. *)
Lemma core_next (s : state) (pre post : list block) (fl : Z -> list Z)
      (b : block) :
  core s (pre ++ b :: post) fl -> bst b <> Raw ->
  bt_size s (baddr b) = bsize b
  /\ bt_next s (baddr b) = baddr b + bsize b
  /\ baddr b + bsize b <= heap_end s
  /\ match post with
     | [] => baddr b + bsize b = heap_end s
     | n :: _ => baddr b + bsize b = baddr n
     end.
Proof.
  intros C Hb.
  pose proof (core_hdr_at _ _ _ _ _ C) as Hh.
  assert (Hsz : bt_size s (baddr b) = bsize b).
  { unfold hdr_ok in Hh. destruct (bst b); tauto || contradiction. }
  destruct (tiles_split _ _ _ _ _ (c_tiles _ _ _ C)) as (_ & Tpost & _).
  pose proof (tiles_le _ _ _ Tpost) as Hle.
  split; [exact Hsz|]. split.
  - unfold bt_next. rewrite Hsz.
    destruct (Z.leb_spec (baddr b + bsize b) (heap_end s)); [reflexivity|lia].
  - split; [exact Hle|].
    destruct post as [|n post']; simpl in Tpost; [exact Tpost|].
    destruct Tpost as (-> & _). reflexivity.
Qed.

Lemma public_status (bl : list block) (b : block) :
  public bl -> In b bl -> bst b = Used \/ bst b = OnList.
Proof.
  intros H Hb. unfold public in H. rewrite Forall_forall in H.
  apply H. exact Hb.
Qed.

(** The walk of [mm_checkheap] visits exactly the blocks. *)
Lemma walk_blocks (s : state) (bl : list block) :
  forall (a : Z) (fuel : nat),
    tiles a bl (heap_end s) -> 0 < a ->
    Forall (hdr_ok s) bl -> Forall (fun b => bst b <> Raw) bl ->
    epilogue_ok s ->
    (length bl < fuel)%nat ->
    walk fuel s a = map baddr bl.
Proof.
  induction bl as [|b bl IH]; intros a fuel T Ha Hh Hr (E1 & E2) Hf.
  - simpl in T. subst a.
    destruct fuel as [|fuel]; [simpl in Hf; lia|].
    simpl. rewrite E1. cbn [Z.eqb]. rewrite orb_true_r. reflexivity.
  - simpl in T. destruct T as (Hb & H16 & Hm & T).
    destruct fuel as [|fuel]; [simpl in Hf; lia|].
    inversion Hh as [|? ? Hhb Hh']; subst.
    inversion Hr as [|? ? Hrb Hr']; subst.
    assert (Hsz : bt_size s (baddr b) = bsize b).
    { unfold hdr_ok in Hhb. destruct (bst b); tauto || contradiction. }
    cbn [walk map].
    destruct (Z.eqb_spec (baddr b) 0) as [|_]; [lia|].
    rewrite Hsz. destruct (Z.eqb_spec (bsize b) 0) as [|_]; [lia|].
    cbn [orb]. f_equal.
    assert (Hn : bt_next s (baddr b) = baddr b + bsize b).
    { unfold bt_next. rewrite Hsz. pose proof (tiles_le _ _ _ T).
      destruct (Z.leb_spec (baddr b + bsize b) (heap_end s));
        [reflexivity|lia]. }
    rewrite Hn. apply IH; try assumption; [lia|split; assumption|].
    simpl in Hf. lia.
Qed.

Lemma tiles_length (bl : list block) :
  forall a e, tiles a bl e -> 16 * Z.of_nat (length bl) <= e - a.
Proof.
  induction bl as [|b bl IH]; intros a e; simpl tiles.
  - intros <-. simpl. lia.
  - intros (_ & H16 & _ & T). specialize (IH _ _ T).
    cbn [length]. lia.
Qed.

Lemma public_no_raw (bl : list block) :
  public bl -> Forall (fun b => bst b <> Raw) bl.
Proof.
  unfold public. rewrite !Forall_forall. intros H b Hb.
  destruct (H b Hb) as [-> | ->]; discriminate.
Qed.

Lemma heap_blocks_inv (s : state) (bl : list block) (fl : Z -> list Z) :
  core s bl fl -> public bl -> heap_blocks s = map baddr bl.
Proof.
  intros C P. unfold heap_blocks.
  destruct (core_span _ _ _ C) as (S1 & S2 & S3 & S4).
  apply walk_blocks; try assumption.
  - exact (c_tiles _ _ _ C).
  - exact (c_hdr _ _ _ C).
  - exact (public_no_raw _ P).
  - exact (c_epi _ _ _ C).
  - pose proof (tiles_length _ _ _ (c_tiles _ _ _ C)) as Hl.
    assert (Z.of_nat (length bl) <= (heap_end s - heap_start s) / 4) by zmod.
    lia.
Qed.

(** An allocated payload pointer is the payload of a [Used] block. *)
Lemma allocated_inv (s : state) (bl : list block) (fl : Z -> list Z)
      (ptr : Z) :
  core s bl fl -> public bl -> allocated s ptr = true ->
  exists pre sz post, bl = pre ++ mkBlock (ptr - 4) sz Used :: post.
Proof.
  intros C P H. unfold allocated in H.
  rewrite (heap_blocks_inv _ _ _ C P) in H.
  apply existsb_exists in H. destruct H as (x & Hx & Hc).
  apply in_map_iff in Hx. destruct Hx as (b & <- & Hb).
  apply andb_true_iff in Hc. destruct Hc as (Hc1 & Hc2).
  apply Z.eqb_eq in Hc1. unfold bt_header in Hc1.
  apply in_split in Hb. destruct Hb as (pre & post & ->).
  pose proof (core_hdr_at _ _ _ _ _ C) as Hh.
  assert (Hst : bst b = Used).
  { destruct (public_status _ b P) as [E|E]; [|exact E|].
    - apply in_or_app. right. now left.
    - unfold hdr_ok in Hh. rewrite E in Hh. destruct Hh as (_ & Hf & _).
      rewrite Hf in Hc2. discriminate Hc2. }
  exists pre, (bsize b), post. destruct b as [a sz st]. simpl in *.
  subst. reflexivity.
Qed.

Lemma allocated_aligned (s : state) (bl : list block) (fl : Z -> list Z)
      (ptr : Z) :
  core s bl fl -> public bl -> allocated s ptr = true ->
  ptr mod 16 = 0 /\ ptr <> 0.
Proof.
  intros C P H.
  destruct (allocated_inv _ _ _ _ C P H) as (pre & sz & post & ->).
  assert (Hb : is_block (pre ++ mkBlock (ptr - 4) sz Used :: post) (ptr - 4)).
  { exists sz, Used. apply in_or_app. right. now left. }
  destruct (core_block_facts _ _ _ _ C Hb) as (? & _ & _ & _ & Hm).
  split; [zmod|lia].
Qed.

(** * Initialisation *)

Lemma mem_sbrk_some (s : state) (k p : Z) (s' : state) :
  mem_sbrk s k = (Some p, s') ->
  p = mem_brk s /\ mem_brk s' = mem_brk s + k
  /\ mem_brk s + k <= mem_max_addr s
  /\ mem s' = mem s /\ heap_start s' = heap_start s
  /\ heap_end s' = heap_end s /\ last s' = last s
  /\ segregated_list s' = segregated_list s
  /\ mem_max_addr s' = mem_max_addr s
  /\ sbrk_log s' = (k, true) :: sbrk_log s.
Proof.
  unfold mem_sbrk.
  destruct (Z.leb_spec (mem_brk s + k) (mem_max_addr s)) as [Hle|Hgt];
    intros H; inversion H; subst; clear H.
  repeat split. exact Hle.
Qed.

Lemma mem_sbrk_none (s : state) (k : Z) (s' : state) :
  mem_sbrk s k = (None, s') ->
  mem_max_addr s < mem_brk s + k
  /\ same_heap s s' /\ sbrk_log s' = (k, false) :: sbrk_log s.
Proof.
  unfold mem_sbrk.
  destruct (Z.leb_spec (mem_brk s + k) (mem_max_addr s)) as [Hle|Hgt];
    intros H; inversion H; subst; clear H.
  split; [exact Hgt|]. split; [repeat split|reflexivity].
Qed.

Lemma clear_lists_fields (n : nat) :
  forall (i0 : Z) (s : state),
    mem (clear_lists n i0 s) = mem s
    /\ mem_brk (clear_lists n i0 s) = mem_brk s
    /\ mem_max_addr (clear_lists n i0 s) = mem_max_addr s
    /\ heap_end (clear_lists n i0 s) = heap_end s
    /\ sbrk_log (clear_lists n i0 s) = sbrk_log s.
Proof.
  induction n as [|n IH]; intros i0 s; [repeat split|].
  cbn [clear_lists].
  destruct (IH (i0 + 1) (set_seg s i0 0)) as (E1 & E2 & E3 & E4 & E5).
  rewrite E1, E2, E3, E4, E5. repeat split.
Qed.

Lemma clear_lists_seg (n : nat) :
  forall (i0 : Z) (s : state) (i : Z),
    segregated_list (clear_lists n i0 s) i
    = if (i0 <=? i) && (i <? i0 + Z.of_nat n) then 0
      else segregated_list s i.
Proof.
  induction n as [|n IH]; intros i0 s i.
  - cbn [clear_lists].
    destruct (Z.leb_spec i0 i), (Z.ltb_spec i (i0 + Z.of_nat 0));
      cbn [andb]; try reflexivity; lia.
  - cbn [clear_lists]. rewrite IH. simpl_state. unfold upd.
    destruct (Z.leb_spec (i0 + 1) i), (Z.ltb_spec i (i0 + 1 + Z.of_nat n)),
      (Z.leb_spec i0 i), (Z.ltb_spec i (i0 + Z.of_nat (S n))),
      (Z.eqb_spec i i0); cbn [andb]; try reflexivity; lia.
Qed.

(** A successful [mm_init] on a fresh provider establishes the invariant
    for the empty heap. *)
Lemma mm_init_inv (s0 s : state) :
  fresh s0 -> mm_init s0 = (0, s) -> inv s [] (fun _ => []).
Proof.
  intros (Fr1 & Fr2 & Fr3) H. unfold mm_init in H.
  destruct (mem_sbrk s0 (8 * NUM_LIST)) as [[p1|] s1] eqn:E1;
    [|inversion H].
  destruct (mem_sbrk_some _ _ _ _ E1)
    as (_ & B1 & L1 & M1 & _ & _ & _ & _ & X1 & _).
  destruct (clear_lists_fields (Z.to_nat NUM_LIST) 0 s1)
    as (CM & CB & CX & _ & _).
  pose proof (clear_lists_seg (Z.to_nat NUM_LIST) 0 s1) as CS.
  set (s2 := clear_lists (Z.to_nat NUM_LIST) 0 s1) in *.
  destruct (mem_sbrk s2 (2 * ALIGNMENT)) as [[p|] s3] eqn:E3;
    [|inversion H].
  destruct (mem_sbrk_some _ _ _ _ E3)
    as (Hp & B3 & L3 & M3 & _ & _ & _ & S3 & X3 & _).
  unfold NUM_LIST, ALIGNMENT in *.
  assert (Hpv : p = mem_brk s0 + 72) by lia.
  cbv zeta in H.
  set (s4 := set_heap_start s3 p) in *.
  change (heap_start s4) with p in H.
  set (s5 := PUT s4 p 0) in *.
  destruct (PUT_spec s4 p 0) as (F5 & _ & _). fold s5 in F5.
  assert (Hs5 : heap_start s5 = p) by (rewrite (sf_hs _ _ F5); reflexivity).
  rewrite Hs5 in H.
  destruct (bt_make_used_spec s5 p 20 USED ltac:(lia) ltac:(lia) eq_refl
                              (or_introl eq_refl))
    as (F6 & _).
  set (s6 := bt_make s5 p 20 USED) in *.
  assert (Hs6 : heap_start s6 = p).
  { rewrite (sf_hs _ _ F6). exact Hs5. }
  rewrite Hs6 in H.
  destruct (PUT_spec s6 (p + 4 * 5) (PACK 0 USED)) as (F7 & _ & M7).
  set (s7 := PUT s6 (p + 4 * 5) (PACK 0 USED)) in *.
  assert (Hs7 : heap_start s7 = p).
  { rewrite (sf_hs _ _ F7). exact Hs6. }
  assert (Hg7 : segregated_list s7 = segregated_list s2).
  { destruct F7 as (_ & _ & _ & -> & _). destruct F6 as (_ & _ & _ & -> & _).
    destruct F5 as (_ & _ & _ & -> & _). unfold s4. simpl_state. exact S3. }
  assert (Hb7 : mem_brk s7 = mem_brk s0 + 104).
  { destruct F7 as (_ & _ & _ & _ & -> & _).
    destruct F6 as (_ & _ & _ & _ & -> & _).
    destruct F5 as (_ & _ & _ & _ & -> & _). unfold s4. simpl_state. lia. }
  assert (Hx7 : mem_max_addr s7 = mem_max_addr s0).
  { destruct F7 as (_ & _ & _ & _ & _ & ->).
    destruct F6 as (_ & _ & _ & _ & _ & ->).
    destruct F5 as (_ & _ & _ & _ & _ & ->). unfold s4. simpl_state. congruence. }
  rewrite Hs7 in H. simpl_state.
  inversion H; subst s; clear H.
  assert (Hepi : epilogue_ok
                   (set_last_free
                      (set_free_list_start
                         (set_last
                            (set_heap_end (set_heap_start s7 (p + 4 * 5))
                                          (p + 4 * 5)) 0) 0) 0)).
  { unfold epilogue_ok. rewrite bt_size_word, bt_free_word. simpl_state.
    rewrite M7. split; reflexivity. }
  split; [|split].
  - constructor.
    + unfold bounds_ok. simpl_state. rewrite Hb7, Hx7.
      repeat split; try lia. zmod.
    + simpl_state. reflexivity.
    + constructor.
    + exact I.
    + exact Hepi.
    + intros i Hi. simpl_state. rewrite Hg7, CS.
      unfold NUM_LIST in Hi.
      destruct (Z.leb_spec 0 i), (Z.ltb_spec i (0 + Z.of_nat (Z.to_nat 9)));
        cbn [andb]; try lia.
      split; [reflexivity|]. split; [constructor|].
      intros a. split; [intros []|intros (sz & [] & _)].
  - constructor.
  - right. reflexivity.
Qed.

(** * The fit search on a heap that satisfies the invariant *)

Lemma scan_list_mono (s : state) (asize : Z) (fuel : nat) :
  forall (fuel' : nat) (ptr best r : Z),
    scan_list fuel s asize ptr best = Some r -> (fuel <= fuel')%nat ->
    scan_list fuel' s asize ptr best = Some r.
Proof.
  induction fuel as [|fuel IH]; intros fuel' ptr best r H Hle;
    [discriminate H|].
  destruct fuel' as [|fuel']; [lia|].
  cbn [scan_list] in *. destruct (ptr =? 0); [exact H|].
  apply IH; [exact H|lia].
Qed.

Lemma find_fit_loop_mono (s : state) (asize : Z) (fuel fuel' : nat) (n : nat) :
  (fuel <= fuel')%nat ->
  forall (index r : Z),
    find_fit_loop n fuel s asize index = Some r ->
    find_fit_loop n fuel' s asize index = Some r.
Proof.
  intros Hle. induction n as [|n IH]; intros index r H; [exact H|].
  cbn [find_fit_loop] in *.
  destruct (scan_list fuel s asize (segregated_list s index) 0)
    as [b|] eqn:E; [|discriminate H].
  rewrite (scan_list_mono _ _ _ _ _ _ _ E Hle).
  destruct (negb (b =? 0)); [exact H|]. apply IH. exact H.
Qed.

Lemma find_fit_mono (s : state) (asize : Z) (fuel fuel' : nat) (r : Z) :
  (fuel <= fuel')%nat ->
  find_fit fuel s asize = Some r -> find_fit fuel' s asize = Some r.
Proof. intros Hle. unfold find_fit. apply find_fit_loop_mono. exact Hle. Qed.

Lemma core_chain (s : state) (bl : list block) (fl : Z -> list Z) (i : Z) :
  core s bl fl -> 0 <= i < NUM_LIST ->
  chain s (segregated_list s i) (fl i).
Proof.
  intros C Hi. destruct (c_lists _ _ _ C i Hi) as (Hd & _ & _).
  apply (lseg_chain s (fl i)) with (p := 0); [|exact Hd].
  intros a Ha.
  destruct (core_block_facts _ _ _ a C (core_fl_is_block _ _ _ _ _ C Hi Ha)).
  lia.
Qed.

Lemma core_onlist_size (s : state) (bl : list block) (fl : Z -> list Z)
      (x sz : Z) :
  core s bl fl -> In (mkBlock x sz OnList) bl -> bt_size s x = sz.
Proof.
  intros C Hb. pose proof (c_hdr _ _ _ C) as Hh.
  rewrite Forall_forall in Hh. specialize (Hh _ Hb).
  unfold hdr_ok in Hh. simpl in Hh. apply Hh.
Qed.

Lemma enough_fuel_spec (fl : Z -> list Z) (i : Z) :
  0 <= i < NUM_LIST -> (length (fl i) < enough_fuel fl)%nat.
Proof.
  unfold NUM_LIST, enough_fuel. intros Hi.
  assert (C : i = 0 \/ i = 1 \/ i = 2 \/ i = 3 \/ i = 4 \/ i = 5 \/ i = 6
              \/ i = 7 \/ i = 8) by lia.
  destruct C as [->|[->|[->|[->|[->|[->|[->|[->| ->]]]]]]]]; lia.
Qed.

Lemma find_fit_total (s : state) (bl : list block) (fl : Z -> list Z)
      (asize : Z) (fuel : nat) :
  core s bl fl -> (enough_fuel fl <= fuel)%nat ->
  exists r, find_fit fuel s asize = Some r.
Proof.
  intros C Hf. pose proof (get_index_range asize) as Hgi.
  destruct (find_fit_loop_spec s asize fl fuel
              (Z.to_nat (NUM_LIST - get_index asize)) (get_index asize))
    as (r & Hr & _).
  - intros i Hi. assert (Hi' : 0 <= i < NUM_LIST) by lia.
    split; [exact (core_chain _ _ _ _ C Hi')|].
    pose proof (enough_fuel_spec fl i Hi'). lia.
  - exists r. exact Hr.
Qed.

(** What a result of [find_fit] means on the blocks of the heap. *)
Lemma find_fit_core (s : state) (bl : list block) (fl : Z -> list Z)
      (asize : Z) (fuel : nat) (r : Z) :
  core s bl fl -> find_fit fuel s asize = Some r ->
  (r <> 0 -> exists sz, In (mkBlock r sz OnList) bl /\ asize <= sz)
  /\ (r = 0 -> asize = 16 \/ 32 <= asize ->
      forall x sz, In (mkBlock x sz OnList) bl -> sz < asize).
Proof.
  intros C H. pose proof (get_index_range asize) as Hgi.
  set (fuel' := Nat.max fuel (enough_fuel fl)).
  pose proof (find_fit_mono s asize fuel fuel' r (Nat.le_max_l _ _) H) as H'.
  destruct (find_fit_loop_spec s asize fl fuel'
              (Z.to_nat (NUM_LIST - get_index asize)) (get_index asize))
    as (r' & Hr' & Hz & Hnz).
  { intros i Hi. assert (Hi' : 0 <= i < NUM_LIST) by lia.
    split; [exact (core_chain _ _ _ _ C Hi')|].
    pose proof (enough_fuel_spec fl i Hi').
    pose proof (Nat.le_max_r fuel (enough_fuel fl)). unfold fuel'. lia. }
  unfold find_fit in H'. rewrite Hr' in H'. inversion H'; subst r'. clear H'.
  rewrite Z2Nat.id in Hz, Hnz by lia.
  replace (get_index asize + (NUM_LIST - get_index asize)) with NUM_LIST
    in Hz, Hnz by lia.
  split.
  - intros Hrn. destruct (Hnz Hrn) as (i & Hi & Hin & Hfit & _).
    assert (Hi' : 0 <= i < NUM_LIST) by lia.
    destruct (core_fl_block _ _ _ _ _ C Hi' Hin) as (sz & Hb & _).
    exists sz. split; [exact Hb|].
    rewrite (core_onlist_size _ _ _ _ _ C Hb) in Hfit. exact Hfit.
  - intros Hr0 Ha x sz Hb.
    pose proof (get_index_range sz) as Hgs.
    destruct (Z.lt_ge_cases (get_index sz) (get_index asize)) as [Hlt|Hge].
    + apply get_index_lt_size; assumption.
    + rewrite <- (core_onlist_size _ _ _ _ _ C Hb).
      apply (proj1 Hz Hr0 (get_index sz)); [lia|].
      destruct (c_lists _ _ _ C (get_index sz) Hgs) as (_ & _ & Hm).
      apply Hm. exists sz. split; [exact Hb|reflexivity].
Qed.

(** * The primitives on a heap with implicit bucket lists *)

Lemma h_hdr_at (s : state) (pre post : list block) (b : block) :
  hcore s (pre ++ b :: post) -> hdr_ok s b.
Proof. intros (fl & C). exact (core_hdr_at _ _ _ _ _ C). Qed.

Lemma h_pf_at (s : state) (pre post : list block) (b : block) :
  hcore s (pre ++ b :: post) -> bst b <> Raw ->
  bt_get_prevfree s (baddr b) <> 0 -> last_st Used pre <> Used.
Proof. intros (fl & C). exact (core_pf_at _ _ _ _ _ C). Qed.

Lemma h_next (s : state) (pre post : list block) (b : block) :
  hcore s (pre ++ b :: post) -> bst b <> Raw ->
  bt_size s (baddr b) = bsize b
  /\ bt_next s (baddr b) = baddr b + bsize b
  /\ baddr b + bsize b <= heap_end s
  /\ match post with
     | [] => baddr b + bsize b = heap_end s
     | n :: _ => baddr b + bsize b = baddr n
     end.
Proof. intros (fl & C). exact (core_next _ _ _ _ _ C). Qed.

Lemma h_block_facts (s : state) (bl : list block) (x : Z) :
  hcore s bl -> is_block bl x ->
  0 < x /\ (x - heap_start s) mod 4 = 0
  /\ 0 <= x - heap_start s < 2 ^ 31 /\ x + 16 <= heap_end s
  /\ x mod 16 = 12.
Proof. intros (fl & C). exact (core_block_facts _ _ _ _ C). Qed.

Lemma h_tiles (s : state) (bl : list block) :
  hcore s bl -> tiles (heap_start s) bl (heap_end s).
Proof. intros (fl & C). exact (c_tiles _ _ _ C). Qed.

Lemma h_epi (s : state) (bl : list block) : hcore s bl -> epilogue_ok s.
Proof. intros (fl & C). exact (c_epi _ _ _ C). Qed.

Lemma h_bounds (s : state) (bl : list block) : hcore s bl -> bounds_ok s.
Proof. intros (fl & C). exact (c_bounds _ _ _ C). Qed.

Lemma h_delete (s : state) (pre post : list block) (a sz : Z) :
  hcore s (pre ++ mkBlock a sz OnList :: post) ->
  same_anchors s (free_list_delete s a (get_index sz))
  /\ hcore (free_list_delete s a (get_index sz))
           (pre ++ mkBlock a sz Unlinked :: post).
Proof.
  intros (fl & C).
  destruct (free_list_delete_core _ _ _ _ _ _ C) as (A & fl' & C' & _).
  split; [exact A|exists fl'; exact C'].
Qed.

Lemma h_append (s : state) (pre post : list block) (a sz : Z) :
  hcore s (pre ++ mkBlock a sz Unlinked :: post) ->
  same_anchors s (free_list_append s a (get_index sz))
  /\ hcore (free_list_append s a (get_index sz))
           (pre ++ mkBlock a sz OnList :: post).
Proof.
  intros (fl & C).
  destruct (free_list_append_core _ _ _ _ _ _ C) as (A & fl' & C' & _).
  split; [exact A|exists fl'; exact C'].
Qed.

Lemma h_make_used (s : state) (pre run post : list block)
      (a T sz flags : Z) :
  hcore s (pre ++ run ++ post) ->
  run <> [] -> tiles a run (a + T) ->
  Forall (fun b => bst b <> OnList) run ->
  16 <= sz <= T -> sz mod 16 = 0 ->
  flags = 1 \/ (flags = 3 /\ last_st Used pre <> Used) ->
  same_fields s (bt_make s a sz flags)
  /\ hcore (bt_make s a sz flags)
           (pre ++ mkBlock a sz Used
                :: (if sz <? T then [mkBlock (a + sz) (T - sz) Raw] else [])
                ++ post).
Proof.
  intros (fl & C) Hne Trun Hno Hsz Hmod Hfl.
  destruct (retile_used _ _ _ _ _ _ _ _ _ C Hne Trun Hno Hsz Hmod Hfl)
    as (F & C').
  split; [exact F|]. exists fl. exact C'.
Qed.

Lemma h_make_free (s : state) (pre run post : list block)
      (a T sz flags : Z) :
  hcore s (pre ++ run ++ post) ->
  run <> [] -> tiles a run (a + T) ->
  Forall (fun b => bst b <> OnList) run ->
  16 <= sz <= T -> sz mod 16 = 0 ->
  flags = 0 \/ (flags = 2 /\ last_st Used pre <> Used) ->
  same_fields s (bt_make s a sz flags)
  /\ hcore (bt_make s a sz flags)
           (pre ++ mkBlock a sz Unlinked
                :: (if sz <? T then [mkBlock (a + sz) (T - sz) Raw] else [])
                ++ post)
  /\ bt_get_prevfree (bt_make s a sz flags) a = flags.
Proof.
  intros (fl & C) Hne Trun Hno Hsz Hmod Hfl.
  destruct (retile_free _ _ _ _ _ _ _ _ _ C Hne Trun Hno Hsz Hmod Hfl)
    as (F & C').
  split; [exact F|]. split; [exists fl; exact C'|].
  destruct (run_geometry _ _ _ _ _ _ _ C Hne Trun)
    as (G1 & G2 & G3 & G4 & _ & _).
  destruct (core_span _ _ _ C) as (S1 & S2 & S3 & S4).
  assert (Hsz31 : 16 <= sz < 2 ^ 31 - 3) by zmod.
  assert (Hm4 : sz mod 4 = 0) by zmod.
  assert (Hfl' : flags = 0 \/ flags = 2) by tauto.
  destruct (bt_make_free_spec s a sz flags ltac:(lia) Hsz31 Hm4 Hfl')
    as (_ & _ & _ & _ & _ & P1 & _).
  exact P1.
Qed.

Lemma h_payload (s s' : state) (pre post : list block) (b : block) :
  hcore s (pre ++ b :: post) -> bst b = Used ->
  same_fields s s' ->
  (forall y, y <= baddr b \/ baddr b + bsize b <= y -> mem s' y = mem s y) ->
  hcore s' (pre ++ b :: post).
Proof.
  intros (fl & C) Hb F M. exists fl.
  exact (payload_frame _ _ _ _ _ _ C Hb F M).
Qed.

Lemma h_grow (s v : state) (bl ext : list block) :
  hcore s bl ->
  tiles (heap_end s) ext (heap_end v) ->
  Forall (fun b => bst b = Raw) ext ->
  heap_start v = heap_start s ->
  segregated_list v = segregated_list s ->
  bounds_ok v ->
  (forall y, heap_start s <= y < heap_end s -> mem v y = mem s y) ->
  epilogue_ok v ->
  hcore v (bl ++ ext).
Proof.
  intros (fl & C) T R Hs Hg Hb M E. exists fl.
  exact (grow_core _ _ _ _ _ C T R Hs Hg Hb M E).
Qed.

Lemma h_set_last (s : state) (bl : list block) (v : Z) :
  hcore s bl -> hcore (set_last s v) bl.
Proof.
  intros H. rewrite <- (app_nil_r bl).
  apply (h_grow s (set_last s v) bl []); try reflexivity.
  - exact H.
  - constructor.
  - exact (h_bounds _ _ H).
  - exact (h_epi _ _ H).
Qed.

(** A run whose first header is overwritten becomes raw. *)
Lemma h_smash (s s' : state) (pre run post : list block) (a T : Z) :
  hcore s (pre ++ run ++ post) ->
  run <> [] -> tiles a run (a + T) ->
  Forall (fun b => bst b <> OnList) run ->
  same_fields s s' ->
  (forall y, y <> a -> mem s' y = mem s y) ->
  hcore s' (pre ++ mkBlock a T Raw :: post).
Proof.
  intros (fl & C) Hne Trun Hno F M. exists fl.
  destruct (run_geometry _ _ _ _ _ _ _ C Hne Trun)
    as (G1 & G2 & G3 & G4 & _ & _).
  pose proof (retile_core s s' pre run post fl a T T Raw C Hne Trun Hno) as R.
  rewrite Z.ltb_irrefl in R. cbn [app] in R. apply R; clear R.
  - lia.
  - exact G3.
  - exact F.
  - intros y Hy. apply M. lia.
  - apply bt_size_frame. apply M. lia.
  - apply bt_free_frame. apply M. lia.
  - discriminate.
  - exact I.
  - intros H. contradiction.
  - discriminate.
Qed.

(** [bt_make] with size 0 and the USED flag writes the header only. *)
Lemma bt_make_zero_spec (s : state) (a flags : Z) :
  0 < a -> a <= heap_end s -> flags = 1 \/ flags = 3 ->
  same_fields s (bt_make s a 0 flags)
  /\ (forall y, y <> a -> mem (bt_make s a 0 flags) y = mem s y)
  /\ bt_size (bt_make s a 0 flags) a = 0
  /\ bt_free (bt_make s a 0 flags) a = false.
Proof.
  intros Ha Hle Hf. unfold bt_make.
  destruct (PUT_spec s a (PACK 0 flags)) as (F1 & M1 & _).
  destruct (PUT_header s a 0 flags ltac:(lia) eq_refl ltac:(lia))
    as (Z1 & R1 & U1 & P1).
  set (s1 := PUT s a (PACK 0 flags)) in *.
  assert (Hfm : flags mod 2 = 1) by (destruct Hf as [-> | ->]; reflexivity).
  rewrite U1, Hfm. cbn [Z.eqb negb].
  assert (Hn : bt_next s1 a = a).
  { unfold bt_next. rewrite Z1, (sf_he _ _ F1), Z.add_0_r.
    destruct (Z.leb_spec a (heap_end s)); [reflexivity|lia]. }
  rewrite Hn. destruct (Z.eqb_spec a 0) as [|_]; [lia|]. cbn [negb].
  destruct (bt_clr_prevfree_spec s1 a ltac:(lia)) as (F2 & M2 & Z2 & R2 & _).
  split; [exact (same_fields_trans _ _ _ F1 F2)|].
  split; [intros y Hy; rewrite M2, M1 by assumption; reflexivity|].
  rewrite Z2, R2, Z1, R1, Hfm. split; reflexivity.
Qed.

(** The flags passed to [bt_make]. *)
Lemma flags_used (s : state) (a : Z) :
  (Z.lor USED (bt_get_prevfree s a) = 1 /\ bt_get_prevfree s a = 0)
  \/ (Z.lor USED (bt_get_prevfree s a) = 3 /\ bt_get_prevfree s a <> 0).
Proof.
  destruct (bt_get_prevfree_cases s a) as [-> | ->].
  - left. split; reflexivity.
  - right. split; [reflexivity|discriminate].
Qed.

Lemma flags_free (s : state) (a : Z) :
  Z.lor FREE (bt_get_prevfree s a) = bt_get_prevfree s a.
Proof. reflexivity. Qed.

(** * The last block *)

Lemma last_block_snoc (l : list block) (b : block) :
  last_block (l ++ [b]) = baddr b.
Proof.
  unfold last_block. rewrite map_app. cbn [map]. apply last_last.
Qed.

Lemma last_block_app (l1 l2 : list block) :
  l2 <> [] -> last_block (l1 ++ l2) = last_block l2.
Proof.
  intros Hne.
  destruct (exists_last Hne) as (l2' & b & ->).
  rewrite app_assoc, !last_block_snoc. reflexivity.
Qed.

Lemma last_block_cons (b : block) (l : list block) :
  l <> [] -> last_block (b :: l) = last_block l.
Proof. intros H. apply (last_block_app [b] l H). Qed.

Lemma last_block_in (l : list block) (a e : Z) :
  tiles a l e -> l <> [] ->
  a <= last_block l /\ last_block l + 16 <= e.
Proof.
  intros T Hne. destruct (exists_last Hne) as (l' & b & ->).
  rewrite last_block_snoc.
  assert (Hb : In b (l' ++ [b])) by (apply in_or_app; right; now left).
  destruct (tiles_in _ _ _ _ T Hb) as (? & ? & ? & _). lia.
Qed.

Lemma public_app (l1 l2 : list block) :
  public (l1 ++ l2) <-> public l1 /\ public l2.
Proof. unfold public. apply Forall_app. Qed.

Lemma public_cons (b : block) (l : list block) :
  public (b :: l) <-> (bst b = Used \/ bst b = OnList) /\ public l.
Proof. unfold public. apply Forall_cons_iff. Qed.

Lemma h_retile (s s' : state) (pre run post : list block)
      (a T sz : Z) (st' : status) :
  hcore s (pre ++ run ++ post) ->
  run <> [] -> tiles a run (a + T) ->
  Forall (fun b => bst b <> OnList) run ->
  16 <= sz <= T -> sz mod 16 = 0 ->
  same_fields s s' ->
  (forall y, y < a \/ a + sz < y -> mem s' y = mem s y) ->
  bt_size s' (a + sz) = bt_size s (a + sz) ->
  bt_free s' (a + sz) = bt_free s (a + sz) ->
  st' <> OnList ->
  hdr_ok s' (mkBlock a sz st') ->
  (st' <> Raw -> bt_get_prevfree s' a <> 0 -> last_st Used pre <> Used) ->
  (st' = Used -> sz = T ->
   bt_get_prevfree s' (a + sz) = 0
   \/ (bt_get_prevfree s' (a + sz) = bt_get_prevfree s (a + sz)
       /\ last_st (last_st Used pre) run = Used)) ->
  hcore s' (pre ++ mkBlock a sz st'
                :: (if sz <? T then [mkBlock (a + sz) (T - sz) Raw] else [])
                ++ post).
Proof.
  intros (fl & C) Hne Trun Hno Hsz Hmod F M Zn Rn Hst Hh Hpa Hpn.
  exists fl.
  exact (retile_core _ _ _ _ _ _ _ _ _ _ C Hne Trun Hno Hsz Hmod F M Zn Rn
                     Hst Hh Hpa Hpn).
Qed.

(** * What the primitives leave untouched *)

Lemma keeps_used_refl (bl : list block) : keeps_used bl bl.
Proof. intros x sz H. exact H. Qed.

Lemma keeps_used_trans (l1 l2 l3 : list block) :
  keeps_used l1 l2 -> keeps_used l2 l3 -> keeps_used l1 l3.
Proof. intros H1 H2 x sz H. apply H2, H1, H. Qed.

Lemma keeps_payload_refl (U : list block) (s : state) : keeps_payload U s s.
Proof. intros x sz y _ _. reflexivity. Qed.

Lemma keeps_payload_trans (U : list block) (s1 s2 s3 : state) :
  keeps_payload U s1 s2 -> keeps_payload U s2 s3 -> keeps_payload U s1 s3.
Proof.
  intros H1 H2 x sz y Hin Hy. rewrite (H2 x sz y Hin Hy). exact (H1 x sz y Hin Hy).
Qed.

Lemma keeps_payload_mono (U U' : list block) (s s' : state) :
  keeps_used U U' -> keeps_payload U' s s' -> keeps_payload U s s'.
Proof. intros K H x sz y Hin Hy. exact (H x sz y (K _ _ Hin) Hy). Qed.

Lemma keeps_payload_mem (U : list block) (s s' : state) :
  mem s' = mem s -> keeps_payload U s s'.
Proof. intros E x sz y _ _. rewrite E. reflexivity. Qed.

Lemma keeps_payload_same (U : list block) (s s' : state) :
  same_heap s s' -> keeps_payload U s s'.
Proof. intros (E & _). apply keeps_payload_mem. exact E. Qed.

Ltac sub_used :=
  let x := fresh "x" in
  let sz := fresh "sz" in
  let H := fresh "H" in
  intros x sz H;
  repeat (first [rewrite in_app_iff in H | progress simpl in H]);
  repeat (first [rewrite in_app_iff | progress simpl]);
  solve [intuition (try discriminate)].

(** Link words are not payload of allocated blocks. *)
Lemma links_keep_payload (bl U : list block) (h e : Z) (s s' : state) :
  tiles h bl e -> link_frame bl s s' -> keeps_used U bl ->
  keeps_payload U s s'.
Proof.
  intros T Hf K x sz y Hin Hy. apply Hf. intros xb szb Hb.
  pose proof (K _ _ Hin) as Hu.
  destruct (tiles_in _ _ _ _ T Hb) as (_ & _ & H16 & _).
  destruct (tiles_apart _ _ _ _ _ T Hu Hb) as [E|[E|E]];
    [discriminate E| |]; cbn [baddr bsize] in *; lia.
Qed.

Lemma h_delete_kp (s : state) (pre post U : list block) (a sz : Z) :
  hcore s (pre ++ mkBlock a sz OnList :: post) ->
  keeps_used U (pre ++ mkBlock a sz OnList :: post) ->
  keeps_payload U s (free_list_delete s a (get_index sz)).
Proof.
  intros (fl & C) K.
  destruct (free_list_delete_core _ _ _ _ _ _ C) as (_ & fl' & _ & Hf).
  exact (links_keep_payload _ _ _ _ _ _ (c_tiles _ _ _ C) Hf K).
Qed.

Lemma h_append_kp (s : state) (pre post U : list block) (a sz : Z) :
  hcore s (pre ++ mkBlock a sz Unlinked :: post) ->
  keeps_used U (pre ++ mkBlock a sz OnList :: post) ->
  keeps_payload U s (free_list_append s a (get_index sz)).
Proof.
  intros (fl & C) K.
  destruct (free_list_append_core _ _ _ _ _ _ C) as (_ & fl' & C' & Hf).
  destruct (free_list_append_core _ _ _ _ _ _ C) as (A & _).
  pose proof (c_tiles _ _ _ C') as T.
  exact (links_keep_payload _ _ _ _ _ _ T Hf K).
Qed.

(** [bt_make] writes the header, the footer of a free block, and the
    PREVFREE bit of the next header. *)
Lemma h_make_frame (s : state) (pre run post : list block)
      (a T sz flags : Z) :
  hcore s (pre ++ run ++ post) ->
  run <> [] -> tiles a run (a + T) ->
  16 <= sz <= T -> sz mod 16 = 0 -> 0 <= flags < 4 ->
  forall y, y <> a -> y <> a + sz -> (flags mod 2 = 0 -> y <> a + sz - 4) ->
            mem (bt_make s a sz flags) y = mem s y.
Proof.
  intros (fl & C) Hne Trun Hsz Hmod Hfl y Y1 Y2 Y3.
  destruct (run_geometry _ _ _ _ _ _ _ C Hne Trun)
    as (G1 & G2 & G3 & G4 & _ & _).
  destruct (core_span _ _ _ C) as (S1 & S2 & S3 & S4).
  assert (Hsz31 : 16 <= sz < 2 ^ 31 - 3) by zmod.
  assert (Hm4 : sz mod 4 = 0) by zmod.
  assert (Hc : flags = 0 \/ flags = 1 \/ flags = 2 \/ flags = 3) by lia.
  destruct Hc as [E|[E|[E|E]]]; subst flags.
  - destruct (bt_make_free_spec s a sz 0 ltac:(lia) Hsz31 Hm4
                                (or_introl eq_refl)) as (_ & M & _).
    apply M; auto.
  - destruct (bt_make_used_spec s a sz 1 ltac:(lia) Hsz31 Hm4
                                (or_introl eq_refl)) as (_ & M & _).
    apply M; auto.
  - destruct (bt_make_free_spec s a sz 2 ltac:(lia) Hsz31 Hm4
                                (or_intror eq_refl)) as (_ & M & _).
    apply M; auto.
  - destruct (bt_make_used_spec s a sz 3 ltac:(lia) Hsz31 Hm4
                                (or_intror eq_refl)) as (_ & M & _).
    apply M; auto.
Qed.

(** Blocks around a run. *)
Lemma run_context (s : state) (pre run post : list block) (a T : Z)
      (b : block) :
  hcore s (pre ++ run ++ post) -> run <> [] -> tiles a run (a + T) ->
  In b (pre ++ post) ->
  baddr b + bsize b <= a \/ a + T <= baddr b.
Proof.
  intros (fl & C) Hne Trun Hb.
  destruct (run_geometry _ _ _ _ _ _ _ C Hne Trun)
    as (_ & _ & _ & _ & Tpre & Tpost).
  apply in_app_or in Hb. destruct Hb as [Hb|Hb].
  - left. destruct (tiles_in _ _ _ _ Tpre Hb) as (_ & ? & _). lia.
  - right. destruct (tiles_in _ _ _ _ Tpost Hb) as (? & _). lia.
Qed.

Lemma run_keeps_payload (s s' : state) (pre run post U : list block)
      (a T : Z) :
  hcore s (pre ++ run ++ post) -> run <> [] -> tiles a run (a + T) ->
  (forall y, y < a \/ a + T < y -> mem s' y = mem s y) ->
  keeps_used U (pre ++ post) -> keeps_payload U s s'.
Proof.
  intros H Hne Trun M K x sz y Hin Hy. apply M.
  destruct (run_context _ _ _ _ _ _ _ H Hne Trun (K _ _ Hin)) as [E|E];
    cbn [baddr bsize] in E; lia.
Qed.

Lemma h_make_kp (s : state) (pre run post U : list block)
      (a T sz flags : Z) :
  hcore s (pre ++ run ++ post) ->
  run <> [] -> tiles a run (a + T) ->
  16 <= sz <= T -> sz mod 16 = 0 -> 0 <= flags < 4 ->
  keeps_used U (pre ++ post) ->
  keeps_payload U s (bt_make s a sz flags).
Proof.
  intros H Hne Trun Hsz Hmod Hfl K.
  apply (run_keeps_payload s _ pre run post U a T H Hne Trun); [|exact K].
  intros y Hy.
  apply (h_make_frame s pre run post a T sz flags H Hne Trun Hsz Hmod Hfl);
    lia.
Qed.

Lemma h_free_block_kp (s : state) (pre run post U : list block) (a T : Z) :
  hcore s (pre ++ run ++ post) ->
  run <> [] -> tiles a run (a + T) ->
  Forall (fun b => bst b <> OnList) run ->
  keeps_used U (pre ++ post) ->
  keeps_payload U s (free_list_append (bt_make s a T FREE) a (get_index T)).
Proof.
  intros H Hne Trun Hno K.
  destruct H as (fl & C).
  destruct (run_geometry _ _ _ _ _ _ _ C Hne Trun)
    as (G1 & G2 & G3 & G4 & _ & _).
  assert (H : hcore s (pre ++ run ++ post)) by (exists fl; exact C).
  destruct (h_make_free s pre run post a T T FREE H Hne Trun Hno
                        ltac:(lia) G3 (or_introl eq_refl))
    as (F1 & H1 & _).
  rewrite Z.ltb_irrefl in H1. cbn [app] in H1.
  apply (keeps_payload_trans U s (bt_make s a T FREE)).
  - apply (h_make_kp s pre run post U a T T FREE H Hne Trun);
      [lia|exact G3|unfold FREE; lia|exact K].
  - apply (h_append_kp _ pre post U a T H1).
    intros x sz Hin. apply K in Hin. apply in_app_or in Hin.
    apply in_or_app. destruct Hin; [now left|right; now right].
Qed.

(** A store to a block header is not a store to payload. *)
Lemma header_keeps_payload (s s' : state) (bl U : list block) (a : Z) :
  hcore s bl -> is_block bl a ->
  (forall y, y <> a -> mem s' y = mem s y) ->
  keeps_used U bl -> keeps_payload U s s'.
Proof.
  intros H (sza & sta & Hb) M K x sz y Hin Hy. apply M. intros ->.
  pose proof (K _ _ Hin) as Hu.
  pose proof (h_tiles _ _ H) as T.
  destruct (tiles_in _ _ _ _ T Hb) as (_ & _ & H16 & _).
  destruct (tiles_apart _ _ _ _ _ T Hu Hb) as [E|[E|E]];
    [inversion E; lia| |]; cbn [baddr bsize] in *; lia.
Qed.

(** * Placement *)

Lemma heap_ok_iff (s : state) :
  heap_ok s <-> exists bl, hcore s bl /\ public bl /\ last_ok s bl.
Proof.
  unfold heap_ok, inv, hcore. split.
  - intros (bl & fl & C & P & L). exists bl. split; [exists fl; exact C|].
    split; assumption.
  - intros (bl & (fl & C) & P & L). exists bl, fl.
    split; [exact C|split; [exact P|exact L]].
Qed.

Lemma last_block_mid (pre post : list block) (b : block) :
  last_block (pre ++ b :: post)
  = match post with [] => baddr b | _ :: _ => last_block post end.
Proof.
  destruct post as [|n post'].
  - apply last_block_snoc.
  - change (pre ++ b :: n :: post') with (pre ++ [b] ++ n :: post').
    rewrite app_assoc. apply last_block_app. discriminate.
Qed.

Lemma last_ok_keep (s s' : state) (bl bl' : list block) :
  last_ok s bl -> last s' = last s -> heap_end s' = heap_end s ->
  last_block bl' = last_block bl -> last_ok s' bl'.
Proof.
  unfold last_ok. intros [H|H] E1 E2 E3; [left|right]; congruence.
Qed.

Lemma tiles_one (s : state) (pre post : list block) (b : block) :
  hcore s (pre ++ b :: post) ->
  tiles (baddr b) [mkBlock (baddr b) (bsize b) (bst b)] (baddr b + bsize b)
  /\ heap_start s <= baddr b /\ baddr b + bsize b <= heap_end s
  /\ 16 <= bsize b /\ bsize b mod 16 = 0
  /\ bsize b < 2 ^ 31.
Proof.
  intros H. pose proof (h_tiles _ _ H) as T.
  destruct (tiles_split _ _ _ _ _ T) as (T1 & T2 & H16 & Hm).
  pose proof (tiles_le _ _ _ T1). pose proof (tiles_le _ _ _ T2).
  destruct (h_bounds _ _ H) as (B1 & B2 & B3 & B4 & B5).
  simpl. repeat split; try assumption; lia.
Qed.

(** Writing a free block over a run and linking it. *)
Lemma h_free_block (s : state) (pre run post : list block) (a T : Z) :
  hcore s (pre ++ run ++ post) ->
  run <> [] -> tiles a run (a + T) ->
  Forall (fun b => bst b <> OnList) run ->
  same_anchors s (free_list_append (bt_make s a T FREE) a (get_index T))
  /\ hcore (free_list_append (bt_make s a T FREE) a (get_index T))
           (pre ++ mkBlock a T OnList :: post).
Proof.
  intros H Hne Trun Hno.
  destruct H as (fl & C).
  destruct (run_geometry _ _ _ _ _ _ _ C Hne Trun)
    as (G1 & G2 & G3 & G4 & _ & _).
  assert (H : hcore s (pre ++ run ++ post)) by (exists fl; exact C).
  destruct (h_make_free s pre run post a T T FREE H Hne Trun Hno
                        ltac:(lia) G3 (or_introl eq_refl))
    as (F1 & H1 & _).
  rewrite Z.ltb_irrefl in H1. cbn [app] in H1.
  destruct (h_append _ _ _ _ _ H1) as (A2 & H2).
  split; [|exact H2].
  eapply same_anchors_trans; [apply same_fields_anchors; exact F1|exact A2].
Qed.

Lemma place_inv (s : state) (pre post : list block) (a fsize asize : Z) :
  hcore s (pre ++ mkBlock a fsize OnList :: post) ->
  public (pre ++ mkBlock a fsize OnList :: post) ->
  last_ok s (pre ++ mkBlock a fsize OnList :: post) ->
  asize <= fsize -> asize = 0 \/ (16 <= asize /\ asize mod 16 = 0) ->
  exists bl',
    (hcore (place s a asize) bl' /\ public bl' /\ last_ok (place s a asize) bl')
    /\ keeps_used (pre ++ mkBlock a fsize OnList :: post) bl'
    /\ (asize <> 0 ->
        exists sz, In (mkBlock a sz Used) bl' /\ asize <= sz < asize + 16)
    /\ heap_start (place s a asize) = heap_start s
    /\ mem_brk (place s a asize) = mem_brk s
    /\ mem_max_addr (place s a asize) = mem_max_addr s
    /\ heap_end (place s a asize) = heap_end s
    /\ keeps_payload (pre ++ mkBlock a fsize OnList :: post) s
                     (place s a asize)
    /\ (forall x sz, In (mkBlock x sz Used) bl' ->
                     In (mkBlock x sz Used)
                        (pre ++ mkBlock a fsize OnList :: post) \/ x = a)
    /\ (asize = 0 -> bl' = pre ++ mkBlock a fsize OnList :: post).
Proof.
  intros H P L Hle Hasz.
  destruct (h_next _ _ _ _ H ltac:(discriminate)) as (Hsz & _).
  destruct (tiles_one _ _ _ _ H) as (T1 & G1 & G2 & G3 & G4 & G5).
  cbn [baddr bsize bst] in *.
  destruct (h_bounds _ _ H) as (B1 & _).
  assert (Ha0 : 0 < a) by lia.
  apply public_app in P. destruct P as (Ppre & P).
  apply public_cons in P. destruct P as (_ & Ppost).
  unfold place. rewrite Hsz.
  destruct (h_delete _ _ _ _ _ H) as (A1 & H1).
  pose proof (h_delete_kp s pre post _ a fsize H (keeps_used_refl _)) as K1.
  set (s1 := free_list_delete s a (get_index fsize)) in *.
  assert (Kctx : keeps_used (pre ++ mkBlock a fsize OnList :: post)
                            (pre ++ post)) by sub_used.
  assert (Hfr : 0 <= Z.lor USED (bt_get_prevfree s1 a) < 4)
    by (destruct (flags_used s1 a) as [(E & _)|(E & _)]; rewrite E; lia).
  assert (T1u : tiles a [mkBlock a fsize Unlinked] (a + fsize)).
  { simpl. repeat split; assumption. }
  assert (Hno : Forall (fun b => bst b <> OnList) [mkBlock a fsize Unlinked]).
  { constructor; [discriminate|constructor]. }
  assert (Hw : wrap64 (fsize - asize) = fsize - asize).
  { apply wrap64_small. destruct Hasz as [->|?]; lia. }
  rewrite Hw. unfold ALIGNMENT.
  assert (Hfl : Z.lor USED (bt_get_prevfree s1 a) = 1
                \/ (Z.lor USED (bt_get_prevfree s1 a) = 3
                    /\ last_st Used pre <> Used)).
  { destruct (flags_used s1 a) as [(E & _)|(E & Hp)]; [now left|right].
    split; [exact E|].
    apply (h_pf_at _ _ _ _ H1); [discriminate|exact Hp]. }
  destruct (Z.leb_spec 16 (fsize - asize)) as [Hsplit|Hwhole].
  - (* split *)
    destruct Hasz as [->|(Ha16 & Hamod)].
    + (* a request of adjusted size 0 leaves the block free *)
      assert (Hfl' : Z.lor USED (bt_get_prevfree s1 a) = 1
                     \/ Z.lor USED (bt_get_prevfree s1 a) = 3) by tauto.
      assert (Hae : a <= heap_end s1)
        by (destruct A1 as (_ & -> & _); lia).
      destruct (bt_make_zero_spec s1 a _ Ha0 Hae Hfl')
        as (F2 & M2 & Z2 & R2).
      set (s2 := bt_make s1 a 0 (Z.lor USED (bt_get_prevfree s1 a))) in *.
      pose proof (h_smash s1 s2 pre [mkBlock a fsize Unlinked] post a fsize
                          H1 ltac:(discriminate) T1u Hno F2 M2) as H2.
      assert (Hn2 : bt_next s2 a = a).
      { unfold bt_next. rewrite Z2, Z.add_0_r, (sf_he _ _ F2).
        destruct A1 as (_ & -> & _).
        destruct (Z.leb_spec a (heap_end s)); [reflexivity|lia]. }
      rewrite Hn2. rewrite Z.sub_0_r.
      assert (T1r : tiles a [mkBlock a fsize Raw] (a + fsize)).
      { simpl. repeat split; assumption. }
      destruct (h_free_block s2 pre [mkBlock a fsize Raw] post a fsize H2
                             ltac:(discriminate) T1r
                             ltac:(constructor; [discriminate|constructor]))
        as (A4 & H4).
      set (s4 := free_list_append (bt_make s2 a fsize FREE) a
                                  (get_index fsize)) in *.
      assert (A : same_anchors s s4).
      { eapply same_anchors_trans; [exact A1|].
        eapply same_anchors_trans; [apply same_fields_anchors; exact F2|].
        exact A4. }
      assert (Hlast : (last s4 <? a) = false).
      { destruct A as (_ & _ & -> & _). apply Z.ltb_ge.
        destruct L as [L|L]; rewrite L; [lia|].
        rewrite last_block_mid. destruct post as [|n post']; [cbn [baddr]; lia|].
        destruct (tiles_split _ _ _ _ _ (h_tiles _ _ H)) as (_ & Tp & _).
        destruct (last_block_in (n :: post') _ _ Tp ltac:(discriminate)).
        cbn [baddr bsize] in *. lia. }
      rewrite Hlast.
      assert (KP : keeps_payload (pre ++ mkBlock a fsize OnList :: post) s s4).
      { apply (keeps_payload_trans _ s s1); [exact K1|].
        apply (keeps_payload_trans _ s1 s2).
        - apply (header_keeps_payload s1 s2 _ _ a H1); [|exact M2|sub_used].
          exists fsize, Unlinked. apply in_or_app. right. now left.
        - exact (h_free_block_kp s2 pre [mkBlock a fsize Raw] post _ a fsize
                   H2 ltac:(discriminate) T1r
                   ltac:(constructor; [discriminate|constructor]) Kctx). }
      exists (pre ++ mkBlock a fsize OnList :: post).
      split; [|split; [intros x sz Hin; exact Hin
                      |split; [intros N; now elim N
                              |split; [apply A|split; [apply A|split; [apply A
                               |split; [apply A|split; [exact KP|]]]]]]]].
      2:{ split; [intros x sz Hin; now left|intros _; reflexivity]. }
      split; [exact H4|]. split.
      * apply public_app. split; [exact Ppre|].
        apply public_cons. split; [now right|exact Ppost].
      * apply (last_ok_keep s s4 _ _ L); [apply A|apply A|reflexivity].
    + (* the low part is allocated, the rest stays free *)
      destruct (h_make_used s1 pre [mkBlock a fsize Unlinked] post a fsize asize
                            _ H1 ltac:(discriminate) T1u Hno ltac:(lia) Hamod Hfl)
        as (F2 & H2).
      set (s2 := bt_make s1 a asize (Z.lor USED (bt_get_prevfree s1 a))) in *.
      destruct (Z.ltb_spec asize fsize) as [_|?]; [|lia].
      cbn [app] in H2.
      destruct (h_next _ _ _ _ H2 ltac:(discriminate)) as (_ & Hn2 & _).
      cbn [baddr bsize] in Hn2. rewrite Hn2.
      change (pre ++ mkBlock a asize Used
                  :: mkBlock (a + asize) (fsize - asize) Raw :: post)
        with (pre ++ [mkBlock a asize Used]
                  ++ mkBlock (a + asize) (fsize - asize) Raw :: post) in H2.
      rewrite app_assoc in H2.
      assert (T2 : tiles (a + asize)
                         [mkBlock (a + asize) (fsize - asize) Raw]
                         (a + asize + (fsize - asize))).
      { simpl. repeat split; lia || zmod. }
      destruct (h_free_block s2 (pre ++ [mkBlock a asize Used])
                             [mkBlock (a + asize) (fsize - asize) Raw] post
                             (a + asize) (fsize - asize) H2
                             ltac:(discriminate) T2
                             ltac:(constructor; [discriminate|constructor]))
        as (A4 & H4).
      set (s4 := free_list_append
                   (bt_make s2 (a + asize) (fsize - asize) FREE)
                   (a + asize) (get_index (fsize - asize))) in *.
      assert (A : same_anchors s s4).
      { eapply same_anchors_trans; [exact A1|].
        eapply same_anchors_trans; [apply same_fields_anchors; exact F2|].
        exact A4. }
      set (bl' := (pre ++ [mkBlock a asize Used])
                    ++ mkBlock (a + asize) (fsize - asize) OnList :: post)
        in *.
      assert (Pub : public bl').
      { unfold bl'. apply public_app. split.
        - apply public_app. split; [exact Ppre|].
          apply public_cons. split; [now left|constructor].
        - apply public_cons. split; [now right|exact Ppost]. }
      assert (Keep : keeps_used (pre ++ mkBlock a fsize OnList :: post) bl').
      { intros x sz Hin. apply in_app_or in Hin. unfold bl'.
        destruct Hin as [Hin|[Hin|Hin]].
        - apply in_or_app. left. apply in_or_app. now left.
        - discriminate Hin.
        - apply in_or_app. right. now right. }
      assert (New : asize <> 0 ->
                    exists sz, In (mkBlock a sz Used) bl'
                               /\ asize <= sz < asize + 16).
      { intros _. exists asize. split; [|lia]. unfold bl'.
        apply in_or_app. left. apply in_or_app. right. now left. }
      assert (KP : keeps_payload (pre ++ mkBlock a fsize OnList :: post) s s4).
      { apply (keeps_payload_trans _ s s1); [exact K1|].
        apply (keeps_payload_trans _ s1 s2).
        - exact (h_make_kp s1 pre [mkBlock a fsize Unlinked] post _ a fsize
                   asize _ H1 ltac:(discriminate) T1u ltac:(lia) Hamod Hfr
                   Kctx).
        - apply (h_free_block_kp s2 (pre ++ [mkBlock a asize Used])
                   [mkBlock (a + asize) (fsize - asize) Raw] post _
                   (a + asize) (fsize - asize) H2 ltac:(discriminate) T2
                   ltac:(constructor; [discriminate|constructor])).
          sub_used. }
      assert (Only : forall x sz, In (mkBlock x sz Used) bl' ->
                In (mkBlock x sz Used) (pre ++ mkBlock a fsize OnList :: post)
                \/ x = a).
      { unfold bl'. intros x sz Hin.
        rewrite !in_app_iff in Hin. simpl in Hin. rewrite in_app_iff. simpl.
        destruct Hin as [[Hin|[Hin|[]]]|[Hin|Hin]];
          [left; now left|right; inversion Hin; reflexivity
          |discriminate Hin|left; right; now right]. }
      assert (Hz0 : asize = 0 ->
                    bl' = pre ++ mkBlock a fsize OnList :: post)
        by (intros N; lia).
      assert (Elast : last s4 = last s) by apply A.
      assert (Eend : heap_end s4 = heap_end s) by apply A.
      destruct (Z.ltb_spec (last s4) (a + asize)) as [Hlt|Hge].
      * (* the placed block was the last one *)
        exists bl'.
        split; [|split; [exact Keep
                        |split; [exact New
                                |split; [simpl_state; apply A
                                |split; [simpl_state; apply A
                                |split; [simpl_state; apply A
                                |split; [simpl_state; apply A
                                |split; [|exact (conj Only Hz0)]]]]]]]].
        2:{ apply (keeps_payload_trans _ s s4); [exact KP|].
            apply keeps_payload_mem. reflexivity. }
        split; [|split; [exact Pub|]].
        -- apply h_set_last. exact H4.
        -- right. simpl_state. unfold bl'. rewrite last_block_mid.
           destruct post as [|n post']; [reflexivity|]. exfalso.
           destruct L as [L|L].
           ++ rewrite Elast, L in Hlt. lia.
           ++ rewrite last_block_mid in L.
              destruct (tiles_split _ _ _ _ _ (h_tiles _ _ H)) as (_ & Tp & _).
              destruct (last_block_in (n :: post') _ _ Tp ltac:(discriminate)).
              cbn [baddr bsize] in *. lia.
      * exists bl'.
        split; [|split; [exact Keep
                        |split; [exact New
                                |split; [apply A|split; [apply A
                                |split; [apply A|split; [apply A
                                |split; [exact KP|exact (conj Only Hz0)]]]]]]]].
        split; [exact H4|]. split; [exact Pub|].
        destruct L as [L|L]; [left; congruence|].
        right. rewrite Elast, L. unfold bl'. rewrite !last_block_mid.
        destruct post as [|n post']; [|reflexivity].
        exfalso. rewrite last_block_mid in L. cbn [baddr] in L. lia.
  - (* the whole block is allocated *)
    assert (Ea : asize = fsize).
    { destruct Hasz as [->|(? & ?)]; [lia|]. zmod. }
    subst asize.
    destruct (h_make_used s1 pre [mkBlock a fsize Unlinked] post a fsize fsize
                          _ H1 ltac:(discriminate) T1u Hno ltac:(lia) G4 Hfl)
      as (F2 & H2).
    rewrite Z.ltb_irrefl in H2. cbn [app] in H2.
    set (s2 := bt_make s1 a fsize (Z.lor USED (bt_get_prevfree s1 a))) in *.
    assert (A : same_anchors s s2).
    { eapply same_anchors_trans; [exact A1|].
      apply same_fields_anchors; exact F2. }
    exists (pre ++ mkBlock a fsize Used :: post).
    split; [|split; [|split; [|split; [apply A|split; [apply A
             |split; [apply A|split; [apply A|split; [|split]]]]]]]].
    6:{ intros N. lia. }
    4:{ apply (keeps_payload_trans _ s s1); [exact K1|].
        exact (h_make_kp s1 pre [mkBlock a fsize Unlinked] post _ a fsize
                 fsize _ H1 ltac:(discriminate) T1u ltac:(lia) G4 Hfr Kctx). }
    4:{ intros x sz Hin. rewrite in_app_iff in Hin. simpl in Hin.
        rewrite in_app_iff. simpl.
        destruct Hin as [Hin|[Hin|Hin]];
          [left; now left|right; inversion Hin; reflexivity
          |left; right; now right]. }
    2:{ intros x sz Hin. apply in_app_or in Hin. apply in_or_app.
        destruct Hin as [Hin|[Hin|Hin]];
          [now left|discriminate Hin|right; now right]. }
    2:{ intros _. exists fsize. split; [|lia].
        apply in_or_app. right. now left. }
    split; [exact H2|]. split.
    + apply public_app. split; [exact Ppre|].
      apply public_cons. split; [now left|exact Ppost].
    + apply (last_ok_keep s s2 _ _ L); [apply A|apply A|].
      rewrite !last_block_mid. reflexivity.
Qed.

(** * Heap extension *)

(** The part of [extend_heap] after the break has moved by [k] bytes: the
    blocks [run_old] at the end of the heap (none, or the unlinked free last
    block) and the new bytes become one allocated block at [bp]. *)
Lemma extend_finish (s2 : state) (pre run_old : list block) (bp k : Z) :
  hcore s2 (pre ++ run_old) ->
  tiles bp run_old (heap_end s2) ->
  Forall (fun b => bst b <> OnList) run_old ->
  16 <= k -> k mod 16 = 0 ->
  heap_end s2 + k <= mem_brk s2 ->
  let size := heap_end s2 - bp + k in
  let s' := set_heap_end
              (set_last (PUT (bt_make s2 bp size USED) (bp + size)
                             (PACK 0 USED)) bp) (bp + size) in
  hcore s' (pre ++ [mkBlock bp size Used])
  /\ heap_start s' = heap_start s2 /\ heap_end s' = heap_end s2 + k
  /\ last s' = bp /\ mem_brk s' = mem_brk s2
  /\ mem_max_addr s' = mem_max_addr s2
  /\ bt_size s' bp = size /\ bt_free s' bp = false
  /\ (forall y, y <> bp -> y <> bp + size -> mem s' y = mem s2 y).
Proof.
  intros H Trun Hno Hk Hkm Hbrk size s'.
  destruct (h_bounds _ _ H) as (B1 & B2 & B3 & B4 & B5).
  pose proof (h_tiles _ _ H) as T0.
  apply tiles_app in T0. destruct T0 as (m & Tpre & Trun').
  assert (Em : m = bp).
  { destruct run_old as [|b0 r0].
    - simpl in Trun, Trun'. lia.
    - simpl in Trun, Trun'. destruct Trun as (<- & _), Trun' as (<- & _).
      reflexivity. }
  subst m.
  pose proof (tiles_le _ _ _ Tpre) as Hle1.
  pose proof (tiles_le _ _ _ Trun) as Hle2.
  pose proof (tiles_span_mod _ _ _ Trun) as Hspan.
  set (he := heap_end s2) in *.
  assert (Hsize : 16 <= size < 2 ^ 31 - 3) by (unfold size; zmod).
  assert (Hsm : size mod 16 = 0) by (unfold size; zmod).
  assert (Hsm4 : size mod 4 = 0) by zmod.
  destruct (bt_make_used_spec s2 bp size USED ltac:(lia) Hsize Hsm4
                              (or_introl eq_refl))
    as (F3 & _ & M3 & Z3 & R3 & P3 & _).
  specialize (M3 ltac:(fold he; unfold size; lia)).
  set (s3 := bt_make s2 bp size USED) in *.
  destruct (PUT_spec s3 (bp + size) (PACK 0 USED)) as (F4 & M4 & V4).
  set (s4 := PUT s3 (bp + size) (PACK 0 USED)) in *.
  assert (F24 : same_fields s2 s4) by exact (same_fields_trans _ _ _ F3 F4).
  assert (Ms' : forall y, mem s' y = mem s4 y) by reflexivity.
  assert (Mbp : mem s4 bp = mem s3 bp) by (apply M4; lia).
  assert (Zs' : bt_size s' bp = size).
  { rewrite (bt_size_frame s4 s' bp (Ms' bp)), (bt_size_frame s3 s4 bp Mbp).
    exact Z3. }
  assert (Rs' : bt_free s' bp = false).
  { rewrite (bt_free_frame s4 s' bp (Ms' bp)), (bt_free_frame s3 s4 bp Mbp).
    exact R3. }
  assert (Ps' : bt_get_prevfree s' bp = 0).
  { rewrite (bt_get_prevfree_frame s4 s' bp (Ms' bp)),
      (bt_get_prevfree_frame s3 s4 bp Mbp). exact P3. }
  assert (Es' : mem s' (bp + size) = 1).
  { rewrite Ms', V4. reflexivity. }
  (* the state before the new header is written *)
  set (v := set_mem s' (upd (mem s') bp (mem s2 bp))).
  assert (Hend : bp + size = he + k) by (unfold size; lia).
  assert (Hhev : heap_end v = bp + size) by reflexivity.
  assert (Mv : forall y, y <> bp -> mem v y = mem s' y).
  { intros y Hy. unfold v. simpl_state. apply upd_neq. exact Hy. }
  assert (Hv : hcore v ((pre ++ run_old) ++ [mkBlock he k Raw])).
  { apply (h_grow s2 v); try assumption.
    - rewrite Hhev, Hend. fold he. simpl.
      repeat split; lia || zmod.
    - constructor; [reflexivity|constructor].
    - unfold v, s'. simpl_state. apply (sf_hs _ _ F24).
    - unfold v, s'. simpl_state.
      destruct F24 as (_ & _ & _ & E & _). exact E.
    - unfold bounds_ok, v, s'. simpl_state.
      destruct F24 as (E1 & _ & _ & _ & E5 & E6). rewrite E1, E5, E6.
      repeat split; lia.
    - intros y Hy. unfold v. simpl_state. unfold upd.
      destruct (Z.eqb_spec y bp) as [->|Hne]; [reflexivity|].
      fold he in Hy. rewrite Ms', M4 by lia. apply M3. exact Hne.
    - unfold epilogue_ok. rewrite Hhev, bt_size_word, bt_free_word.
      rewrite Mv by lia. rewrite Es'. split; reflexivity. }
  rewrite <- app_assoc in Hv.
  rewrite <- (app_nil_r (run_old ++ [mkBlock he k Raw])) in Hv.
  assert (Trun2 : tiles bp (run_old ++ [mkBlock he k Raw]) (bp + size)).
  { apply tiles_app. exists he. split; [exact Trun|].
    simpl. repeat split; lia || zmod. }
  pose proof (h_retile v s' pre (run_old ++ [mkBlock he k Raw]) [] bp size size
                       Used Hv) as R.
  rewrite Z.ltb_irrefl in R. cbn [app] in R.
  split.
  - apply R; clear R.
    + destruct run_old; discriminate.
    + exact Trun2.
    + apply Forall_app. split; [exact Hno|].
      constructor; [discriminate|constructor].
    + lia.
    + exact Hsm.
    + repeat split.
    + intros y Hy. symmetry. apply Mv. lia.
    + apply bt_size_frame. symmetry. apply Mv. lia.
    + apply bt_free_frame. symmetry. apply Mv. lia.
    + discriminate.
    + unfold hdr_ok. cbn [bst baddr bsize]. split; assumption.
    + intros _ Hp. rewrite Ps' in Hp. contradiction.
    + intros _ _. left. rewrite bt_get_prevfree_word, Es'. reflexivity.
  - split; [change (heap_start s4 = heap_start s2); apply (sf_hs _ _ F24)|].
    split; [change (bp + size = he + k); exact Hend|].
    split; [reflexivity|].
    split; [change (mem_brk s4 = mem_brk s2); apply F24|].
    split; [change (mem_max_addr s4 = mem_max_addr s2); apply F24|].
    split; [exact Zs'|]. split; [exact Rs'|].
    intros y Y1 Y2. rewrite Ms', M4 by exact Y2. apply M3. exact Y1.
Qed.

Lemma h_sbrk (s s1 : state) (bl : list block) (k p : Z) :
  hcore s bl -> 0 <= k -> mem_sbrk s k = (Some p, s1) ->
  hcore s1 bl
  /\ mem s1 = mem s /\ heap_start s1 = heap_start s
  /\ heap_end s1 = heap_end s /\ last s1 = last s
  /\ mem_brk s1 = mem_brk s + k /\ mem_max_addr s1 = mem_max_addr s
  /\ sbrk_log s1 = (k, true) :: sbrk_log s.
Proof.
  intros H Hk E.
  destruct (mem_sbrk_some _ _ _ _ E)
    as (_ & B1 & L1 & M1 & S1 & E1 & La1 & G1 & X1 & Lg).
  destruct (h_bounds _ _ H) as (B & B2 & B3 & B4 & B5).
  split; [|repeat split; assumption].
  rewrite <- (app_nil_r bl). apply (h_grow s s1 bl []); try assumption.
  - simpl. congruence.
  - constructor.
  - unfold bounds_ok. rewrite S1, E1, B1, X1. repeat split; lia.
  - intros y _. rewrite M1. reflexivity.
  - destruct (h_epi _ _ H) as (P1 & P2). unfold epilogue_ok.
    rewrite E1.
    assert (Em : mem s1 (heap_end s) = mem s (heap_end s))
      by (rewrite M1; reflexivity).
    rewrite (bt_size_frame s s1 _ Em), (bt_free_frame s s1 _ Em).
    split; assumption.
Qed.

Lemma h_same_heap (s s1 : state) (bl : list block) :
  hcore s bl -> same_heap s s1 -> hcore s1 bl.
Proof.
  intros H (M1 & S1 & E1 & La1 & G1 & _ & _ & B1 & X1).
  destruct (h_bounds _ _ H) as (B & B2 & B3 & B4 & B5).
  rewrite <- (app_nil_r bl). apply (h_grow s s1 bl []); try assumption.
  - simpl. congruence.
  - constructor.
  - unfold bounds_ok. rewrite S1, E1, B1, X1. repeat split; lia.
  - intros y _. rewrite M1. reflexivity.
  - destruct (h_epi _ _ H) as (P1 & P2). unfold epilogue_ok.
    rewrite E1.
    assert (Em : mem s1 (heap_end s) = mem s (heap_end s))
      by (rewrite M1; reflexivity).
    rewrite (bt_size_frame s s1 _ Em), (bt_free_frame s s1 _ Em).
    split; assumption.
Qed.

(** When is the last block free? *)
Lemma last_free_inv (s : state) (bl : list block) :
  hcore s bl -> public bl -> last_ok s bl ->
  negb (last s =? 0) && bt_free s (last s) = true ->
  exists pre szl, bl = pre ++ [mkBlock (last s) szl OnList].
Proof.
  intros H P L Hc. apply andb_true_iff in Hc. destruct Hc as (Hc1 & Hc2).
  apply negb_true_iff in Hc1. apply Z.eqb_neq in Hc1.
  destruct L as [L|L].
  - rewrite L in Hc2. destruct (h_epi _ _ H) as (_ & E).
    rewrite E in Hc2. discriminate Hc2.
  - destruct bl as [|b0 bl0]; [rewrite L in Hc1; contradiction|].
    destruct (exists_last (l := b0 :: bl0) ltac:(discriminate))
      as (pre & b & E).
    rewrite E in *. rewrite last_block_snoc in L.
    pose proof (h_hdr_at _ _ _ _ H) as Hh.
    apply public_app in P. destruct P as (_ & P).
    apply public_cons in P. destruct P as ([Hs|Hs] & _).
    + unfold hdr_ok in Hh. rewrite Hs in Hh. destruct Hh as (_ & Hf).
      rewrite L, Hf in Hc2. discriminate Hc2.
    + exists pre, (bsize b). rewrite L. destruct b as [a sz st].
      simpl in *. subst st. reflexivity.
Qed.

Lemma last_free_true (s : state) (pre : list block) (la szl : Z) :
  hcore s (pre ++ [mkBlock la szl OnList]) -> last s = la ->
  negb (last s =? 0) && bt_free s (last s) = true
  /\ bt_size s la = szl.
Proof.
  intros H L.
  pose proof (h_hdr_at _ _ _ _ H) as Hh. unfold hdr_ok in Hh.
  cbn [bst baddr bsize] in Hh. destruct Hh as (Hz & Hf & _).
  assert (Hb : is_block (pre ++ [mkBlock la szl OnList]) la).
  { exists szl, OnList. apply in_or_app. right. now left. }
  destruct (h_block_facts _ _ _ H Hb) as (Hpos & _).
  rewrite L, Hf. destruct (Z.eqb_spec la 0); [lia|]. split; [reflexivity|].
  exact Hz.
Qed.

(** [extend_heap] on a heap whose last block is free. *)
Lemma extend_heap_absorb (s : state) (pre : list block) (la szl k : Z) :
  hcore s (pre ++ [mkBlock la szl OnList]) -> last s = la ->
  16 <= k -> k mod 16 = 0 -> mem_brk s + k <= mem_max_addr s ->
  exists s',
    extend_heap s k = (la, s')
    /\ hcore s' (pre ++ [mkBlock la (szl + k) Used])
    /\ heap_start s' = heap_start s /\ heap_end s' = heap_end s + k
    /\ last s' = la /\ mem_brk s' = mem_brk s + k
    /\ mem_max_addr s' = mem_max_addr s
    /\ sbrk_log s' = (k, true) :: sbrk_log s
    /\ bt_size s' la = szl + k /\ bt_free s' la = false.
Proof.
  intros H L Hk Hkm Hfit. unfold extend_heap.
  destruct (mem_sbrk s k) as [[p|] s1] eqn:E.
  2:{ destruct (mem_sbrk_none _ _ _ E) as (Hgt & _). lia. }
  assert (Hk0 : 0 <= k) by lia.
  destruct (h_sbrk _ _ _ _ _ H Hk0 E)
    as (H1 & M1 & S1 & E1 & La1 & B1 & X1 & Lg1).
  destruct (last_free_true s1 pre la szl H1 ltac:(congruence)) as (Hc & Hz).
  rewrite Hc. rewrite La1, L in *. rewrite Hz.
  destruct (h_delete _ _ _ _ _ H1) as (A2 & H2).
  set (s2 := free_list_delete s1 la (get_index szl)) in *.
  destruct A2 as (A21 & A22 & A23 & A24 & A25).
  assert (La2 : last s2 = la) by congruence.
  rewrite La2.
  pose proof (h_hdr_at _ _ _ _ H2) as Hh2. unfold hdr_ok in Hh2.
  cbn [bst baddr bsize] in Hh2. destruct Hh2 as (Hz2 & _).
  rewrite Hz2.
  destruct (tiles_one _ _ _ _ H2) as (T2 & G1 & G2 & G3 & G4 & G5).
  cbn [baddr bsize bst] in *.
  destruct (h_next _ _ _ _ H2 ltac:(discriminate)) as (_ & _ & _ & Hend).
  cbn [baddr bsize] in Hend.
  assert (Hw : wrap64 (k + szl) = heap_end s2 - la + k).
  { rewrite wrap64_small; [lia|].
    destruct (h_bounds _ _ H) as (? & ? & ? & ? & ?).
    destruct (h_bounds _ _ H1) as (? & ? & ? & ? & ?). lia. }
  rewrite Hw.
  assert (T2' : tiles la [mkBlock la szl Unlinked] (heap_end s2)).
  { rewrite <- Hend. exact T2. }
  assert (Hbrk : heap_end s2 + k <= mem_brk s2).
  { rewrite A22, A24, E1, B1.
    destruct (h_bounds _ _ H) as (? & ? & ? & ? & ?). lia. }
  destruct (extend_finish s2 pre [mkBlock la szl Unlinked] la k H2 T2'
              ltac:(constructor; [discriminate|constructor]) Hk Hkm Hbrk)
    as (H' & S' & E' & L' & B' & X' & Z' & R' & M').
  eexists. split; [reflexivity|].
  replace (szl + k) with (heap_end s2 - la + k) by lia.
  split; [exact H'|].
  split; [congruence|]. split; [rewrite E'; congruence|].
  split; [exact L'|]. split; [rewrite B'; congruence|].
  split; [rewrite X'; congruence|].
  split; [|split; [exact Z'|exact R']].
  cbn [sbrk_log set_heap_end set_last PUT set_mem].
  rewrite bt_make_log. unfold s2. rewrite free_list_delete_log. exact Lg1.
Qed.

(** [extend_heap] on a heap whose last block is not free. *)
Lemma extend_heap_end (s : state) (bl : list block) (k : Z) :
  hcore s bl ->
  negb (last s =? 0) && bt_free s (last s) = false ->
  16 <= k -> k mod 16 = 0 -> mem_brk s + k <= mem_max_addr s ->
  exists s',
    extend_heap s k = (heap_end s, s')
    /\ hcore s' (bl ++ [mkBlock (heap_end s) k Used])
    /\ heap_start s' = heap_start s /\ heap_end s' = heap_end s + k
    /\ last s' = heap_end s /\ mem_brk s' = mem_brk s + k
    /\ mem_max_addr s' = mem_max_addr s
    /\ sbrk_log s' = (k, true) :: sbrk_log s.
Proof.
  intros H Hc Hk Hkm Hfit. unfold extend_heap.
  destruct (mem_sbrk s k) as [[p|] s1] eqn:E.
  2:{ destruct (mem_sbrk_none _ _ _ E) as (Hgt & _). lia. }
  assert (Hk0 : 0 <= k) by lia.
  destruct (h_sbrk _ _ _ _ _ H Hk0 E)
    as (H1 & M1 & S1 & E1 & La1 & B1 & X1 & Lg1).
  assert (Hc1 : negb (last s1 =? 0) && bt_free s1 (last s1) = false).
  { rewrite La1. unfold bt_free in *. rewrite M1. exact Hc. }
  rewrite Hc1.
  rewrite <- (app_nil_r bl) in H1.
  assert (Hbrk : heap_end s1 + k <= mem_brk s1).
  { rewrite E1, B1. destruct (h_bounds _ _ H) as (? & ? & ? & ? & ?). lia. }
  destruct (extend_finish s1 bl [] (heap_end s1) k H1 eq_refl
              ltac:(constructor) Hk Hkm Hbrk)
    as (H' & S' & E' & L' & B' & X' & Z' & R' & M').
  replace (heap_end s1 - heap_end s1 + k) with k in * by lia.
  eexists. split; [rewrite <- E1; reflexivity|].
  rewrite E1 in *.
  split; [exact H'|].
  split; [congruence|]. split; [exact E'|].
  split; [exact L'|]. split; [rewrite B'; congruence|].
  split; [rewrite X'; congruence|].
  cbn [sbrk_log set_heap_end set_last PUT set_mem].
  rewrite bt_make_log. exact Lg1.
Qed.

(** A zero-byte extension rewrites the epilogue and points [last] at it. *)
Lemma extend_heap_zero (s : state) (bl : list block) :
  hcore s bl ->
  negb (last s =? 0) && bt_free s (last s) = false ->
  exists s',
    extend_heap s 0 = (heap_end s, s')
    /\ hcore s' bl
    /\ last s' = heap_end s' /\ mem_brk s' = mem_brk s
    /\ mem_max_addr s' = mem_max_addr s
    /\ sbrk_log s' = (0, true) :: sbrk_log s.
Proof.
  intros H Hc. unfold extend_heap.
  destruct (h_bounds _ _ H) as (B & B2 & B3 & B4 & B5).
  destruct (mem_sbrk s 0) as [[p|] s1] eqn:E.
  2:{ destruct (mem_sbrk_none _ _ _ E) as (Hgt & _). lia. }
  destruct (h_sbrk _ _ _ _ _ H (Z.le_refl 0) E)
    as (H1 & M1 & S1 & E1 & La1 & B1 & X1 & Lg1).
  assert (Hc1 : negb (last s1 =? 0) && bt_free s1 (last s1) = false).
  { rewrite La1. unfold bt_free in *. rewrite M1. exact Hc. }
  rewrite Hc1.
  pose proof (tiles_le _ _ _ (h_tiles _ _ H)) as Hle.
  destruct (bt_make_zero_spec s1 (heap_end s1) USED ltac:(lia) ltac:(lia)
                              (or_introl eq_refl))
    as (F3 & M3 & _ & _).
  set (s3 := bt_make s1 (heap_end s1) 0 USED) in *.
  destruct (PUT_spec s3 (heap_end s1 + 0) (PACK 0 USED)) as (F4 & M4 & V4).
  set (s4 := PUT s3 (heap_end s1 + 0) (PACK 0 USED)) in *.
  assert (F14 : same_fields s1 s4) by exact (same_fields_trans _ _ _ F3 F4).
  eexists. split; [rewrite <- E1; reflexivity|].
  set (s' := set_heap_end (set_last s4 (heap_end s1)) (heap_end s1 + 0)).
  split.
  - rewrite <- (app_nil_r bl). apply (h_grow s1 s' bl []).
    + exact H1.
    + simpl. unfold s'. simpl_state. lia.
    + constructor.
    + change (heap_start s4 = heap_start s1). apply (sf_hs _ _ F14).
    + change (segregated_list s4 = segregated_list s1). apply F14.
    + unfold bounds_ok.
      change (heap_start s') with (heap_start s4).
      change (heap_end s') with (heap_end s1 + 0).
      change (mem_brk s') with (mem_brk s4).
      change (mem_max_addr s') with (mem_max_addr s4).
      destruct F14 as (-> & _ & _ & _ & -> & ->).
      rewrite S1, E1, B1, X1. repeat split; lia.
    + intros y Hy. change (mem s4 y = mem s1 y).
      rewrite M4, M3 by lia. reflexivity.
    + unfold epilogue_ok. rewrite bt_size_word, bt_free_word.
      change (heap_end s') with (heap_end s1 + 0).
      change (mem s' (heap_end s1 + 0)) with (mem s4 (heap_end s1 + 0)).
      rewrite V4. split; reflexivity.
  - split; [unfold s'; simpl_state; lia|].
    split; [change (mem_brk s4 = mem_brk s); destruct F14 as (_ & _ & _ & _ & -> & _); lia|].
    split; [change (mem_max_addr s4 = mem_max_addr s); destruct F14 as (_ & _ & _ & _ & _ & ->); congruence|].
    unfold s'. cbn [sbrk_log set_heap_end set_last]. unfold s4.
    rewrite PUT_log. unfold s3. rewrite bt_make_log. exact Lg1.
Qed.

Lemma extend_heap_fail (s : state) (k : Z) :
  mem_max_addr s < mem_brk s + k ->
  exists s',
    extend_heap s k = (0, s') /\ same_heap s s'
    /\ sbrk_log s' = (k, false) :: sbrk_log s.
Proof.
  intros Hgt. unfold extend_heap.
  destruct (mem_sbrk s k) as [[p|] s1] eqn:E.
  - destruct (mem_sbrk_some _ _ _ _ E) as (_ & _ & Hle & _). lia.
  - destruct (mem_sbrk_none _ _ _ E) as (_ & Hs & Hl).
    exists s1. repeat split; try apply Hs. exact Hl.
Qed.

(** ** What heap extension leaves untouched *)

Lemma extend_heap_absorb_kp (s : state) (pre : list block) (la szl k : Z) :
  hcore s (pre ++ [mkBlock la szl OnList]) -> last s = la ->
  16 <= k -> k mod 16 = 0 -> mem_brk s + k <= mem_max_addr s ->
  keeps_payload (pre ++ [mkBlock la szl OnList]) s (snd (extend_heap s k)).
Proof.
  intros H L Hk Hkm Hfit. unfold extend_heap.
  destruct (mem_sbrk s k) as [[p|] s1] eqn:E.
  2:{ destruct (mem_sbrk_none _ _ _ E) as (Hgt & _). lia. }
  assert (Hk0 : 0 <= k) by lia.
  destruct (h_sbrk _ _ _ _ _ H Hk0 E)
    as (H1 & M1 & S1 & E1 & La1 & B1 & X1 & Lg1).
  destruct (last_free_true s1 pre la szl H1 ltac:(congruence)) as (Hc & Hz).
  rewrite Hc. rewrite La1, L in *. rewrite Hz.
  destruct (h_delete _ _ _ _ _ H1) as (A2 & H2).
  pose proof (h_delete_kp s1 pre [] _ la szl H1 (keeps_used_refl _)) as K2.
  set (s2 := free_list_delete s1 la (get_index szl)) in *.
  destruct A2 as (A21 & A22 & A23 & A24 & A25).
  assert (La2 : last s2 = la) by congruence.
  rewrite La2.
  pose proof (h_hdr_at _ _ _ _ H2) as Hh2. unfold hdr_ok in Hh2.
  cbn [bst baddr bsize] in Hh2. destruct Hh2 as (Hz2 & _).
  rewrite Hz2.
  destruct (tiles_one _ _ _ _ H2) as (T2 & G1 & G2 & G3 & G4 & G5).
  cbn [baddr bsize bst] in *.
  destruct (h_next _ _ _ _ H2 ltac:(discriminate)) as (_ & _ & _ & Hend).
  cbn [baddr bsize] in Hend.
  assert (Hw : wrap64 (k + szl) = heap_end s2 - la + k).
  { rewrite wrap64_small; [lia|].
    destruct (h_bounds _ _ H) as (? & ? & ? & ? & ?).
    destruct (h_bounds _ _ H1) as (? & ? & ? & ? & ?). lia. }
  rewrite Hw.
  assert (T2' : tiles la [mkBlock la szl Unlinked] (heap_end s2)).
  { rewrite <- Hend. exact T2. }
  assert (Hbrk : heap_end s2 + k <= mem_brk s2).
  { rewrite A22, A24, E1, B1.
    destruct (h_bounds _ _ H) as (? & ? & ? & ? & ?). lia. }
  destruct (extend_finish s2 pre [mkBlock la szl Unlinked] la k H2 T2'
              ltac:(constructor; [discriminate|constructor]) Hk Hkm Hbrk)
    as (_ & _ & _ & _ & _ & _ & _ & _ & M').
  cbn [snd].
  apply (keeps_payload_trans _ s s1); [apply keeps_payload_mem; exact M1|].
  apply (keeps_payload_trans _ s1 s2); [exact K2|].
  intros x sz y Hin Hy.
  change (mem (PUT (bt_make s2 la (heap_end s2 - la + k) USED)
                   (la + (heap_end s2 - la + k)) (PACK 0 USED)) y
          = mem s2 y).
  apply in_app_or in Hin. destruct Hin as [Hin|[Hin|[]]]; [|discriminate Hin].
  destruct (tiles_split _ _ _ _ _ (h_tiles _ _ H2)) as (Tp & _).
  destruct (tiles_in _ _ _ _ Tp Hin) as (_ & Hle & _).
  cbn [baddr bsize] in *.
  apply (M' y); lia.
Qed.

Lemma extend_heap_end_kp (s : state) (bl : list block) (k : Z) :
  hcore s bl ->
  negb (last s =? 0) && bt_free s (last s) = false ->
  16 <= k -> k mod 16 = 0 -> mem_brk s + k <= mem_max_addr s ->
  keeps_payload bl s (snd (extend_heap s k)).
Proof.
  intros H Hc Hk Hkm Hfit. unfold extend_heap.
  destruct (mem_sbrk s k) as [[p|] s1] eqn:E.
  2:{ destruct (mem_sbrk_none _ _ _ E) as (Hgt & _). lia. }
  assert (Hk0 : 0 <= k) by lia.
  destruct (h_sbrk _ _ _ _ _ H Hk0 E)
    as (H1 & M1 & S1 & E1 & La1 & B1 & X1 & Lg1).
  assert (Hc1 : negb (last s1 =? 0) && bt_free s1 (last s1) = false).
  { rewrite La1. unfold bt_free in *. rewrite M1. exact Hc. }
  rewrite Hc1.
  pose proof (h_tiles _ _ H1) as T1.
  rewrite <- (app_nil_r bl) in H1.
  assert (Hbrk : heap_end s1 + k <= mem_brk s1).
  { rewrite E1, B1. destruct (h_bounds _ _ H) as (? & ? & ? & ? & ?). lia. }
  destruct (extend_finish s1 bl [] (heap_end s1) k H1 eq_refl
              ltac:(constructor) Hk Hkm Hbrk)
    as (_ & _ & _ & _ & _ & _ & _ & _ & M').
  cbn [snd].
  apply (keeps_payload_trans _ s s1); [apply keeps_payload_mem; exact M1|].
  intros x sz y Hin Hy.
  replace (heap_end s1 - heap_end s1 + k) with k in M' by lia.
  change (mem (PUT (bt_make s1 (heap_end s1) k USED)
                   (heap_end s1 + k) (PACK 0 USED)) y = mem s1 y).
  destruct (tiles_in _ _ _ _ T1 Hin) as (_ & Hle & _).
  cbn [baddr bsize] in *.
  apply (M' y); lia.
Qed.

Lemma extend_heap_zero_kp (s : state) (bl : list block) :
  hcore s bl ->
  negb (last s =? 0) && bt_free s (last s) = false ->
  keeps_payload bl s (snd (extend_heap s 0))
  /\ heap_start (snd (extend_heap s 0)) = heap_start s
  /\ heap_end (snd (extend_heap s 0)) = heap_end s.
Proof.
  intros H Hc. unfold extend_heap.
  destruct (h_bounds _ _ H) as (B & B2 & B3 & B4 & B5).
  destruct (mem_sbrk s 0) as [[p|] s1] eqn:E.
  2:{ destruct (mem_sbrk_none _ _ _ E) as (Hgt & _). lia. }
  destruct (h_sbrk _ _ _ _ _ H (Z.le_refl 0) E)
    as (H1 & M1 & S1 & E1 & La1 & B1 & X1 & Lg1).
  assert (Hc1 : negb (last s1 =? 0) && bt_free s1 (last s1) = false).
  { rewrite La1. unfold bt_free in *. rewrite M1. exact Hc. }
  rewrite Hc1.
  pose proof (tiles_le _ _ _ (h_tiles _ _ H)) as Hle.
  destruct (bt_make_zero_spec s1 (heap_end s1) USED ltac:(lia) ltac:(lia)
                              (or_introl eq_refl))
    as (F3 & M3 & _ & _).
  set (s3 := bt_make s1 (heap_end s1) 0 USED) in *.
  destruct (PUT_spec s3 (heap_end s1 + 0) (PACK 0 USED)) as (F4 & M4 & V4).
  cbn [snd]. split.
  2:{ split.
      - change (heap_start (PUT s3 (heap_end s1 + 0) (PACK 0 USED))
                = heap_start s).
        rewrite (sf_hs _ _ F4), (sf_hs _ _ F3). exact S1.
      - change (heap_end s1 + 0 = heap_end s). lia. }
  apply (keeps_payload_trans _ s s1); [apply keeps_payload_mem; exact M1|].
  intros x sz y Hin Hy.
  change (mem (PUT s3 (heap_end s1 + 0) (PACK 0 USED)) y = mem s1 y).
  destruct (tiles_in _ _ _ _ (h_tiles _ _ H1) Hin) as (_ & Hle' & _).
  cbn [baddr bsize] in *.
  rewrite M4, M3 by lia. reflexivity.
Qed.

(** * malloc *)

Lemma asize_cases (size : Z) :
  0 <= size < 2 ^ 64 ->
  round_up (wrap64 (size + WSIZE)) = 0
  \/ (16 <= round_up (wrap64 (size + WSIZE)) < 2 ^ 64
      /\ round_up (wrap64 (size + WSIZE)) mod 16 = 0).
Proof.
  intros Hs. rewrite round_up_spec by apply wrap64_range.
  pose proof (wrap64_range (wrap64 (size + WSIZE) + 15)) as R.
  set (w := wrap64 (wrap64 (size + WSIZE) + 15)) in *.
  assert (E : (w - w mod 16) mod 16 = 0) by zmod.
  assert (0 <= w - w mod 16 <= w) by zmod.
  destruct (Z.eq_dec (w - w mod 16) 0) as [?|N]; [now left|right].
  split; [|exact E]. zmod.
Qed.

Lemma asize_exact (size : Z) :
  0 <= size <= 2 ^ 64 - 20 ->
  size + 4 <= round_up (wrap64 (size + WSIZE))
  /\ 16 <= round_up (wrap64 (size + WSIZE)).
Proof.
  intros Hs. unfold WSIZE.
  rewrite (wrap64_small (size + 4)) by lia.
  rewrite round_up_spec by lia.
  rewrite (wrap64_small (size + 4 + 15)) by lia.
  zmod.
Qed.

(** A block size between the adjusted size and 16 bytes more is the
    adjusted size. *)
Lemma asize_block (size sz : Z) :
  0 <= size <= 2 ^ 64 - 20 -> sz mod 16 = 0 ->
  round_up (wrap64 (size + WSIZE)) <= sz
  < round_up (wrap64 (size + WSIZE)) + 16 ->
  sz = round_up (size + 4).
Proof.
  intros Hs Hm. unfold WSIZE.
  rewrite (wrap64_small (size + 4)) by lia.
  rewrite round_up_spec by lia.
  rewrite (wrap64_small (size + 4 + 15)) by lia.
  zmod.
Qed.

Lemma heap_end_mod (s : state) (bl : list block) :
  hcore s bl -> heap_end s mod 16 = 12 /\ 0 < heap_end s.
Proof.
  intros (fl & C). destruct (core_span _ _ _ C) as (S1 & S2 & S3 & S4).
  destruct (c_bounds _ _ _ C) as (B1 & B2 & _). split; [zmod|lia].
Qed.

Lemma last_ok_same (s s' : state) (bl : list block) :
  last_ok s bl -> same_heap s s' -> last_ok s' bl.
Proof.
  intros L (_ & _ & E & La & _).
  apply (last_ok_keep s s' bl bl L La E eq_refl).
Qed.

Lemma grows_refl (s : state) : grows s s.
Proof. unfold grows. repeat split; lia. Qed.

Lemma grows_trans (s1 s2 s3 : state) :
  grows s1 s2 -> grows s2 s3 -> grows s1 s3.
Proof.
  unfold grows. intros (A1 & A2 & A3 & A4) (B1 & B2 & B3 & B4).
  repeat split; try congruence; lia.
Qed.

Lemma grows_same (s s' : state) : same_heap s s' -> grows s s'.
Proof.
  intros (_ & E1 & E2 & _ & _ & _ & _ & E3 & E4). unfold grows.
  repeat split; try assumption; lia.
Qed.

Lemma grows_anchors (s s' : state) :
  heap_start s' = heap_start s -> heap_end s' = heap_end s ->
  mem_brk s' = mem_brk s -> mem_max_addr s' = mem_max_addr s -> grows s s'.
Proof. intros E1 E2 E3 E4. unfold grows. repeat split; try assumption; lia. Qed.

Lemma same_heap_refl' (s : state) : same_heap s s.
Proof. repeat split. Qed.

Lemma not_block_at_end (s : state) (bl : list block) (sz : Z) (st : status) :
  hcore s bl -> ~ In (mkBlock (heap_end s) sz st) bl.
Proof.
  intros H Hin.
  destruct (tiles_in _ _ _ _ (h_tiles _ _ H) Hin) as (_ & ? & ? & _).
  cbn [baddr bsize] in *. lia.
Qed.

(** What [malloc] does to a heap that satisfies the invariant. *)
Lemma malloc_spec_full (fuel : nat) (s : state) (bl : list block)
      (size p : Z) (s' : state) :
  hcore s bl -> public bl -> last_ok s bl -> 0 <= size < 2 ^ 64 ->
  malloc fuel s size = Some (p, s') ->
  p mod 16 = 0 /\ grows s s'
  /\ (p = 0 ->
      same_heap s s'
      /\ (size = 0 \/ exists k, sbrk_log s' = (k, false) :: sbrk_log s))
  /\ exists bl',
      hcore s' bl' /\ public bl' /\ last_ok s' bl' /\ keeps_used bl bl'
      /\ (p <> 0 -> round_up (wrap64 (size + WSIZE)) <> 0 ->
          exists sz, In (mkBlock (p - 4) sz Used) bl'
                     /\ round_up (wrap64 (size + WSIZE)) <= sz
                        < round_up (wrap64 (size + WSIZE)) + 16)
      /\ keeps_payload bl s s'
      /\ (forall x sz, In (mkBlock x sz Used) bl' ->
                       In (mkBlock x sz Used) bl \/ x = p - 4)
      /\ (p <> 0 -> forall sz0, ~ In (mkBlock (p - 4) sz0 Used) bl)
      /\ (round_up (wrap64 (size + WSIZE)) = 0 ->
          bl' = bl
          /\ (p = 0 -> negb (last s =? 0) && bt_free s (last s) = true)).
Proof.
  intros H P L Hsize Hm. unfold malloc in Hm.
  assert (Hsame : forall s1, same_heap s s1 ->
            (size = 0 \/ exists k, sbrk_log s1 = (k, false) :: sbrk_log s) ->
            (round_up (wrap64 (size + WSIZE)) = 0 ->
             negb (last s =? 0) && bt_free s (last s) = true) ->
            0 mod 16 = 0 /\ grows s s1
            /\ (0 = 0 ->
                same_heap s s1
                /\ (size = 0
                    \/ exists k, sbrk_log s1 = (k, false) :: sbrk_log s))
            /\ exists bl',
                hcore s1 bl' /\ public bl' /\ last_ok s1 bl'
                /\ keeps_used bl bl'
                /\ (0 <> 0 -> round_up (wrap64 (size + WSIZE)) <> 0 ->
                    exists sz, In (mkBlock (0 - 4) sz Used) bl'
                               /\ round_up (wrap64 (size + WSIZE)) <= sz
                                  < round_up (wrap64 (size + WSIZE)) + 16)
                /\ keeps_payload bl s s1
                /\ (forall x sz, In (mkBlock x sz Used) bl' ->
                                 In (mkBlock x sz Used) bl \/ x = 0 - 4)
                /\ (0 <> 0 -> forall sz0, ~ In (mkBlock (0 - 4) sz0 Used) bl)
                /\ (round_up (wrap64 (size + WSIZE)) = 0 ->
                    bl' = bl
                    /\ (0 = 0 ->
                        negb (last s =? 0) && bt_free s (last s) = true))).
  { intros s1 Sh Lg Lf. split; [reflexivity|].
    split; [apply grows_same; exact Sh|].
    split; [intros _; split; [exact Sh|exact Lg]|]. exists bl.
    split; [apply (h_same_heap s); assumption|]. split; [exact P|].
    split; [apply (last_ok_same s); assumption|].
    split; [apply keeps_used_refl|]. split; [intros N; now elim N|].
    split; [apply keeps_payload_same; exact Sh|].
    split; [intros x sz Hin; now left|].
    split; [intros N; now elim N|].
    intros Hz. split; [reflexivity|intros _; exact (Lf Hz)]. }
  destruct (Z.eqb_spec size 0) as [->|Hnz].
  { inversion Hm; subst.
    apply Hsame; [apply same_heap_refl'|now left|].
    intros Hz. vm_compute in Hz. discriminate Hz. }
  pose proof (asize_cases size Hsize) as Hasz.
  set (asize := round_up (wrap64 (size + WSIZE))) in *.
  destruct (find_fit fuel s asize) as [r|] eqn:Hff; [|discriminate Hm].
  destruct H as (fl & C).
  destruct (find_fit_core _ _ _ _ _ _ C Hff) as (Hhit & Hmiss).
  assert (H : hcore s bl) by (exists fl; exact C).
  destruct (Z.eqb_spec r 0) as [->|Hr]; cbn [negb] in Hm.
  - (* no fit: the heap is extended *)
    clear Hhit. specialize (Hmiss eq_refl).
    destruct (h_bounds _ _ H) as (B1 & B2 & B3 & B4 & B5).
    destruct (heap_end_mod _ _ H) as (Hem & Hep).
    pose proof (tiles_le _ _ _ (h_tiles _ _ H)) as Hse.
    assert (Hfail : forall k, mem_max_addr s < mem_brk s + k ->
              (let '(block_ptr, s1) := extend_heap s k in
               if block_ptr =? 0 then Some (0, s1)
               else Some (bt_payload block_ptr, s1)) = Some (p, s') ->
              p = 0 /\ same_heap s s'
              /\ (size = 0
                  \/ exists k0, sbrk_log s' = (k0, false) :: sbrk_log s)).
    { intros k Hk Hx.
      destruct (extend_heap_fail s k Hk) as (s1 & Ex & Sh & Lg).
      rewrite Ex in Hx. cbn in Hx. inversion Hx; subst p s'.
      split; [reflexivity|]. split; [exact Sh|]. right. exists k. exact Lg. }
    destruct (negb (last s =? 0) && bt_free s (last s)) eqn:Hc.
    + (* the last block is free *)
      destruct (last_free_inv _ _ H P L Hc) as (pre & szl & Ebl).
      rewrite Ebl in H.
      destruct (last_free_true _ _ _ _ H eq_refl) as (_ & Hz).
      destruct (tiles_one _ _ _ _ H) as (_ & G1 & G2 & G3 & G4 & G5).
      cbn [baddr bsize] in *.
      rewrite Hz in Hm.
      destruct Hasz as [Ha0|((Ha16 & Ha64) & Hamod)].
      * (* an adjusted size of 0 asks for more than the provider has *)
        destruct (Hfail (wrap64 (asize - szl))) as (-> & Sh & Lg);
          [|exact Hm|].
        { rewrite Ha0. unfold wrap64.
          replace ((0 - szl) mod 2 ^ 64) with (2 ^ 64 - szl) by zmod.
          lia. }
        rewrite <- Ebl in H. exact (Hsame s' Sh Lg (fun _ => eq_refl)).
      * assert (Hlt : szl < asize).
        { apply (Hmiss ltac:(zmod) (last s) szl). rewrite Ebl.
          apply in_or_app. right. now left. }
        rewrite (wrap64_small (asize - szl)) in Hm by lia.
        destruct (Z.le_gt_cases (mem_brk s + (asize - szl)) (mem_max_addr s))
          as [Hfit|Hno].
        2:{ destruct (Hfail (asize - szl) ltac:(lia) Hm) as (-> & Sh & Lg).
            rewrite <- Ebl in H. exact (Hsame s' Sh Lg (fun _ => eq_refl)). }
        pose proof (extend_heap_absorb_kp s pre (last s) szl (asize - szl) H
                      eq_refl ltac:(zmod) ltac:(zmod) Hfit) as KP.
        destruct (extend_heap_absorb s pre (last s) szl (asize - szl) H eq_refl
                    ltac:(zmod) ltac:(zmod) Hfit)
          as (s1 & Ex & H1 & S1 & E1 & L1 & Bk1 & X1 & _ & Z1 & R1).
        rewrite Ex in Hm, KP. cbn [snd] in KP.
        assert (Hb : is_block (pre ++ [mkBlock (last s) szl OnList]) (last s)).
        { exists szl, OnList. apply in_or_app. right. now left. }
        destruct (h_block_facts _ _ _ H Hb) as (Hpos & _ & _ & _ & Hmod).
        destruct (Z.eqb_spec (last s) 0) as [?|_]; [lia|].
        inversion Hm; subst p s'. unfold bt_payload, WSIZE.
        replace (last s + 4 - 4) with (last s) by lia.
        split; [zmod|].
        split; [unfold grows; repeat split; try assumption; lia|].
        split; [intros; lia|].
        replace (szl + (asize - szl)) with asize in H1 by lia.
        exists (pre ++ [mkBlock (last s) asize Used]).
        split; [exact H1|]. split.
        { rewrite Ebl in P. apply public_app in P. destruct P as (Pp & _).
          apply public_app. split; [exact Pp|].
          apply public_cons. split; [now left|constructor]. }
        split; [right; rewrite L1, last_block_snoc; reflexivity|].
        split; [rewrite Ebl; sub_used|].
        split.
        { intros _ _. exists asize. split; [|lia].
          apply in_or_app. right. now left. }
        split; [rewrite Ebl; exact KP|].
        split.
        { intros x sz Hin. rewrite Ebl. apply in_app_or in Hin.
          destruct Hin as [Hin|[Hin|[]]].
          - left. apply in_or_app. now left.
          - right. inversion Hin. reflexivity. }
        split; [|intros N; lia].
        intros _ sz0 Hin. rewrite Ebl in Hin.
        assert (Hmid : In (mkBlock (last s) szl OnList)
                          (pre ++ [mkBlock (last s) szl OnList]))
          by (apply in_or_app; right; now left).
        pose proof (tiles_addr_inj _ _ _ _ _ (h_tiles _ _ H) Hin Hmid eq_refl)
          as E.
        discriminate E.
    + (* the last block is allocated, or the heap is empty *)
      destruct Hasz as [Ha0|((Ha16 & Ha64) & Hamod)].
      * rewrite Ha0 in Hm.
        destruct (extend_heap_zero_kp s bl H Hc) as (KP & Sz & Ez).
        destruct (extend_heap_zero s bl H Hc)
          as (s1 & Ex & H1 & L1 & Bk1 & X1 & _).
        rewrite Ex in Hm, KP, Sz, Ez. cbn [snd] in KP, Sz, Ez.
        destruct (Z.eqb_spec (heap_end s) 0) as [?|_]; [lia|].
        inversion Hm; subst p s'. unfold bt_payload, WSIZE.
        replace (heap_end s + 4 - 4) with (heap_end s) by lia.
        split; [zmod|].
        split; [apply grows_anchors; assumption|].
        split; [intros; lia|].
        exists bl.
        split; [exact H1|]. split; [exact P|]. split; [left; exact L1|].
        split; [apply keeps_used_refl|].
        split; [intros _ N; now elim N|].
        split; [exact KP|].
        split; [intros x sz Hin; now left|].
        split; [intros _ sz0; apply (not_block_at_end s bl sz0 Used H)|].
        intros _. split; [reflexivity|intros N; lia].
      * destruct (Z.le_gt_cases (mem_brk s + asize) (mem_max_addr s))
          as [Hfit|Hno].
        2:{ destruct (Hfail asize Hno Hm) as (-> & Sh & Lg).
            apply (Hsame s' Sh Lg). intros N. lia. }
        pose proof (extend_heap_end_kp s bl asize H Hc Ha16 Hamod Hfit) as KP.
        destruct (extend_heap_end s bl asize H Hc Ha16 Hamod Hfit)
          as (s1 & Ex & H1 & S1 & E1 & L1 & Bk1 & X1 & _).
        rewrite Ex in Hm, KP. cbn [snd] in KP.
        destruct (Z.eqb_spec (heap_end s) 0) as [?|_]; [lia|].
        inversion Hm; subst p s'. unfold bt_payload, WSIZE.
        replace (heap_end s + 4 - 4) with (heap_end s) by lia.
        split; [zmod|].
        split; [unfold grows; repeat split; try assumption; lia|].
        split; [intros; lia|].
        exists (bl ++ [mkBlock (heap_end s) asize Used]).
        split; [exact H1|]. split.
        { apply public_app. split; [exact P|].
          apply public_cons. split; [now left|constructor]. }
        split; [right; rewrite L1, last_block_snoc; reflexivity|].
        split; [intros x sz Hin; apply in_or_app; now left|].
        split.
        { intros _ _. exists asize. split; [|lia].
          apply in_or_app. right. now left. }
        split; [exact KP|].
        split.
        { intros x sz Hin. apply in_app_or in Hin.
          destruct Hin as [Hin|[Hin|[]]]; [now left|].
          right. inversion Hin. reflexivity. }
        split; [intros _ sz0; apply (not_block_at_end s bl sz0 Used H)|].
        intros N. lia.
  - (* a fit: the block is placed *)
    destruct (Hhit Hr) as (sz & Hin & Hle).
    destruct (in_split _ _ Hin) as (pre & post & Ebl).
    rewrite Ebl in H, P, L.
    assert (Hasz' : asize = 0 \/ 16 <= asize /\ asize mod 16 = 0) by tauto.
    destruct (place_inv s pre post r sz asize H P L Hle Hasz')
      as (bl' & (H1 & P1 & L1) & K1 & N1 & A1 & A2 & A3 & A4 & KP & Only
          & Zero).
    assert (Hb : is_block (pre ++ mkBlock r sz OnList :: post) r).
    { exists sz, OnList. apply in_or_app. right. now left. }
    destruct (h_block_facts _ _ _ H Hb) as (Hpos & _ & _ & _ & Hmod).
    inversion Hm; subst p s'. unfold bt_payload, WSIZE.
    replace (r + 4 - 4) with r by lia.
    split; [zmod|].
    split; [apply grows_anchors; assumption|].
    split; [intros; lia|].
    exists bl'.
    split; [exact H1|]. split; [exact P1|]. split; [exact L1|].
    split; [rewrite Ebl; exact K1|].
    split; [intros _ Hnz0; apply N1, Hnz0|].
    split; [rewrite Ebl; exact KP|].
    split; [rewrite Ebl; exact Only|].
    split; [|intros Hz; split; [rewrite Ebl; exact (Zero Hz)|intros N; lia]].
    intros _ sz0 Hin0. rewrite Ebl in Hin0.
    assert (Hmid : In (mkBlock r sz OnList) (pre ++ mkBlock r sz OnList :: post))
      by (apply in_or_app; right; now left).
    pose proof (tiles_addr_inj _ _ _ _ _ (h_tiles _ _ H) Hin0 Hmid eq_refl)
      as E.
    discriminate E.
Qed.

Lemma malloc_spec (fuel : nat) (s : state) (bl : list block)
      (size p : Z) (s' : state) :
  hcore s bl -> public bl -> last_ok s bl -> 0 <= size < 2 ^ 64 ->
  malloc fuel s size = Some (p, s') ->
  p mod 16 = 0
  /\ exists bl',
      hcore s' bl' /\ public bl' /\ last_ok s' bl' /\ keeps_used bl bl'
      /\ (p <> 0 -> round_up (wrap64 (size + WSIZE)) <> 0 ->
          exists sz, In (mkBlock (p - 4) sz Used) bl'
                     /\ round_up (wrap64 (size + WSIZE)) <= sz).
Proof.
  intros H P L Hsize Hm.
  destruct (malloc_spec_full _ _ _ _ _ _ H P L Hsize Hm)
    as (Hmod & _ & _ & bl' & H1 & P1 & L1 & K1 & N1 & _).
  split; [exact Hmod|]. exists bl'.
  split; [exact H1|]. split; [exact P1|]. split; [exact L1|].
  split; [exact K1|].
  intros Hp Hnz. destruct (N1 Hp Hnz) as (sz & Hin & Hle & _).
  exists sz. split; assumption.
Qed.

(** [malloc] returns once the scan has fuel for the longest bucket list. *)
Lemma malloc_total (fuel : nat) (s : state) (bl : list block)
      (fl : Z -> list Z) (size : Z) :
  core s bl fl -> (enough_fuel fl <= fuel)%nat ->
  exists r, malloc fuel s size = Some r.
Proof.
  intros C Hf. unfold malloc.
  destruct (size =? 0); [eexists; reflexivity|].
  destruct (find_fit_total s bl fl (round_up (wrap64 (size + WSIZE))) fuel
                           C Hf) as (r & ->).
  destruct (negb (r =? 0)); [eexists; reflexivity|].
  destruct (extend_heap s _) as [b s1].
  destruct (b =? 0); eexists; reflexivity.
Qed.

(** * free and coalesce *)

Lemma app_cons_assoc {A : Type} (l1 l2 : list A) (x : A) :
  (l1 ++ [x]) ++ l2 = l1 ++ x :: l2.
Proof. rewrite <- app_assoc. reflexivity. Qed.

(** State of what follows a block: the epilogue, an allocated block or a
    linked free block. *)
Lemma next_free_cases (s : state) (pre post : list block) (b : block) :
  hcore s (pre ++ b :: post) -> bst b <> Raw -> public post ->
  (bt_free s (baddr b + bsize b) = false
   /\ (post = [] \/ exists n post', post = n :: post' /\ bst n = Used))
  \/ (bt_free s (baddr b + bsize b) = true
      /\ exists szn post',
          post = mkBlock (baddr b + bsize b) szn OnList :: post'
          /\ bt_size s (baddr b + bsize b) = szn).
Proof.
  intros H Hb Pp.
  destruct (h_next _ _ _ _ H Hb) as (_ & _ & _ & Hn).
  destruct post as [|n post'].
  - left. rewrite Hn. destruct (h_epi _ _ H) as (_ & E).
    split; [exact E|now left].
  - rewrite Hn.
    change (pre ++ b :: n :: post') with (pre ++ [b] ++ n :: post') in H.
    rewrite app_assoc in H.
    pose proof (h_hdr_at _ _ _ _ H) as Hh. unfold hdr_ok in Hh.
    apply public_cons in Pp. destruct Pp as ([Hs|Hs] & _); rewrite Hs in Hh.
    + left. split; [apply Hh|]. right. exists n, post'. now split.
    + right. destruct Hh as (Hz & Hf & _). split; [exact Hf|].
      exists (bsize n), post'. split; [|exact Hz].
      destruct n as [na nsz nst]. simpl in *. subst nst. reflexivity.
Qed.

(** The last step of [coalesce]: the merged run becomes one linked free
    block and [last] follows it. *)
Lemma coalesce_finish_at (s0 s2 : state) (pre2 run2 post1 U : list block)
      (a2 size2 a sz : Z) (cl : bool) :
  hcore s2 (pre2 ++ run2 ++ post1) ->
  run2 <> [] -> tiles a2 run2 (a2 + size2) ->
  Forall (fun b => bst b <> OnList) run2 ->
  public pre2 -> public post1 ->
  (cl = false /\ (last s2 = heap_end s2
                  \/ (post1 <> [] /\ last s2 = last_block post1)))
  \/ (cl = true /\ post1 = []) ->
  keeps_used U (pre2 ++ post1) -> keeps_used (pre2 ++ post1) U ->
  keeps_payload U s0 s2 -> same_anchors s0 s2 ->
  a2 <= a -> a + sz <= a2 + size2 ->
  let s4 := free_list_append (bt_make s2 a2 size2 FREE) a2
                             (get_index size2) in
  freed_at s0 (if cl then set_last s4 a2 else s4) U a sz a2 size2.
Proof.
  intros H Hne T Hno Ppre Ppost Hl K1 K2 KP0 A0 Ha1 Ha2 s4.
  destruct (h_free_block s2 pre2 run2 post1 a2 size2 H Hne T Hno)
    as (A & H4).
  pose proof (h_free_block_kp s2 pre2 run2 post1 U a2 size2 H Hne T Hno K1)
    as KP4.
  fold s4 in A, H4, KP4.
  assert (Pub : public (pre2 ++ mkBlock a2 size2 OnList :: post1)).
  { apply public_app. split; [exact Ppre|].
    apply public_cons. split; [now right|exact Ppost]. }
  pose proof (same_anchors_trans _ _ _ A0 A) as A04.
  destruct A04 as (E1 & E2 & E3 & E4 & E5).
  exists pre2, post1.
  destruct Hl as [(-> & Hl)|(-> & ->)].
  - split; [exact H4|]. split; [exact Pub|]. split.
    { destruct A as (_ & A2 & A3 & _).
      destruct Hl as [Hl|(Hp & Hl)]; [left; congruence|right].
      rewrite A3, Hl, last_block_mid.
      destruct post1; [contradiction|reflexivity]. }
    split; [exact K1|]. split; [exact K2|].
    split; [exact (keeps_payload_trans _ _ _ _ KP0 KP4)|].
    repeat split; assumption.
  - split; [apply h_set_last; exact H4|]. split; [exact Pub|]. split.
    { right. rewrite last_block_snoc. reflexivity. }
    split; [exact K1|]. split; [exact K2|]. split.
    { apply (keeps_payload_trans _ _ _ _ KP0).
      apply (keeps_payload_trans _ _ s4); [exact KP4|].
      apply keeps_payload_mem. reflexivity. }
    repeat split; assumption.
Qed.

Lemma freed_at_freed (s s' : state) (U : list block) (a sz fa fsz : Z) :
  freed_at s s' U a sz fa fsz -> freed s s' U a sz.
Proof. intros (pre' & post' & F). exists pre', post', fa, fsz. exact F. Qed.

Lemma freed_at_after (s s1 s' : state) (U : list block) (a sz fa fsz : Z) :
  keeps_payload U s s1 -> same_anchors s s1 ->
  freed_at s1 s' U a sz fa fsz -> freed_at s s' U a sz fa fsz.
Proof.
  intros KP (A1 & A2 & A3 & A4 & A5)
         (pre' & post' & H & P & L & K1 & K2 & KP' & F1 & F2
          & E1 & E2 & E3 & E4).
  exists pre', post'.
  split; [exact H|]. split; [exact P|]. split; [exact L|].
  split; [exact K1|]. split; [exact K2|].
  split; [exact (keeps_payload_trans _ _ _ _ KP KP')|].
  repeat split; congruence.
Qed.

Lemma freed_heap_ok (s s' : state) (U : list block) (a sz : Z) :
  freed s s' U a sz -> heap_ok s'.
Proof.
  intros (pre' & post' & fa & fsz & H & P & L & _).
  apply heap_ok_iff. exists (pre' ++ mkBlock fa fsz OnList :: post').
  split; [exact H|split; [exact P|exact L]].
Qed.

Lemma freed_after (s s1 s' : state) (U : list block) (a sz : Z) :
  keeps_payload U s s1 -> same_anchors s s1 -> freed s1 s' U a sz ->
  freed s s' U a sz.
Proof.
  intros KP (A1 & A2 & A3 & A4 & A5)
         (pre' & post' & fa & fsz & H & P & L & K1 & K2 & KP' & F1 & F2
          & E1 & E2 & E3 & E4).
  exists pre', post', fa, fsz.
  split; [exact H|]. split; [exact P|]. split; [exact L|].
  split; [exact K1|]. split; [exact K2|].
  split; [exact (keeps_payload_trans _ _ _ _ KP KP')|].
  repeat split; congruence.
Qed.

(** [coalesce] merges the block with its left neighbour when its header
    carries PREVFREE and with its right neighbour when that one is free. *)
Lemma coalesce_extent (s : state) (pre post : list block) (a sz : Z) :
  hcore s (pre ++ mkBlock a sz Unlinked :: post) ->
  public pre -> public post ->
  last_ok s (pre ++ mkBlock a sz Unlinked :: post) ->
  freed_at s (snd (coalesce s a)) (pre ++ post) a sz
           (if bt_get_prevfree s a =? 0 then a else bt_prev s a)
           (sz + (if bt_get_prevfree s a =? 0 then 0
                  else bt_size s (bt_prev s a))
            + (if bt_free s (a + sz) then bt_size s (a + sz) else 0)).
Proof.
  intros H Ppre Ppost L.
  destruct (h_next _ _ _ _ H ltac:(discriminate)) as (Hsz & Hnx & Hle & Hn).
  destruct (tiles_one _ _ _ _ H) as (T1 & G1 & G2 & G3 & G4 & G5).
  cbn [baddr bsize bst] in *.
  destruct (h_bounds _ _ H) as (B1 & B2 & B3 & B4 & B5).
  assert (Hsz32 : sint32 sz = sz) by (apply sint32_small; lia).
  unfold coalesce. rewrite Hnx, Hsz, Hsz32.
  (* the left neighbour, if PREVFREE is set *)
  assert (Hprev : bt_get_prevfree s a <> 0 ->
            exists pre' szp,
              pre = pre' ++ [mkBlock (a - szp) szp OnList]
              /\ bt_prev s a = a - szp /\ 16 <= szp < 2 ^ 31
              /\ bt_size s (a - szp) = szp).
  { intros Hpf.
    pose proof (h_pf_at _ _ _ _ H ltac:(discriminate) Hpf) as Hst.
    destruct (last_st_not_used _ Hst) as (pre' & pv & Epre & Hpv).
    rewrite Epre in Ppre. apply public_app in Ppre.
    destruct Ppre as (_ & Ppv). apply public_cons in Ppv.
    destruct Ppv as ([Hu|Ho] & _); [contradiction|].
    rewrite Epre, app_cons_assoc in H.
    destruct (h_next _ _ _ _ H ltac:(congruence)) as (Hpz & _ & _ & Hpn).
    pose proof (h_hdr_at _ _ _ _ H) as Hh. unfold hdr_ok in Hh.
    rewrite Ho in Hh. destruct Hh as (_ & _ & Hft).
    destruct (tiles_one _ _ _ _ H) as (_ & P1 & P2 & P3 & P4 & P5).
    destruct pv as [pa szp pst]. cbn [baddr bsize bst] in *. subst pst.
    exists pre', szp. replace (a - szp) with pa by lia.
    split; [exact Epre|]. split; [|split; [lia|exact Hpz]].
    unfold bt_prev. replace (a - 4) with (pa + szp - 4) by lia.
    rewrite Hft. replace (a - szp) with pa by lia.
    destruct (Z.leb_spec (heap_start s) pa); [reflexivity|lia]. }
  (* [last] against a tail of the heap *)
  assert (Hlast_tail : forall n post', post = n :: post' ->
            last s = heap_end s \/ last s = last_block post).
  { intros n post' E. destruct L as [L|L]; [now left|right].
    rewrite L, last_block_mid, E. reflexivity. }
  assert (Hpost_addr : post <> [] -> a + sz <= last_block post
                                     /\ last_block post < heap_end s).
  { intros Hp.
    destruct (tiles_split _ _ _ _ _ (h_tiles _ _ H)) as (_ & Tp & _).
    cbn [baddr bsize] in Tp.
    destruct (last_block_in _ _ _ Tp Hp). lia. }
  destruct (next_free_cases _ _ _ _ H ltac:(discriminate) Ppost)
    as [(Hnf & Hpost)|(Hnf & szn & post' & Epost & Hzn)];
    cbn [baddr bsize] in *; rewrite Hnf.
  - (* the right neighbour is not free *)
    rewrite andb_false_r, orb_false_r. cbv beta iota zeta.
    assert (Hcl :
              (a =? last s) = false /\
              (last s = heap_end s \/ post <> [] /\ last s = last_block post)
              \/ (a =? last s) = true /\ post = []).
    { destruct (Z.eqb_spec a (last s)) as [El|Nl].
      - right. split; [reflexivity|].
        destruct post as [|n post0]; [reflexivity|exfalso].
        destruct (Hpost_addr ltac:(discriminate)).
        destruct (Hlast_tail n post0 eq_refl) as [L'|L']; lia.
      - left. split; [reflexivity|].
        destruct post as [|n post0].
        + destruct L as [L|L]; [now left|].
          rewrite last_block_snoc in L. cbn [baddr] in L. congruence.
        + destruct (Hlast_tail n post0 eq_refl) as [L'|L']; [now left|].
          right. split; [discriminate|exact L']. }
    destruct (Z.eqb_spec (bt_get_prevfree s a) 0) as [Hpf|Hpf];
      cbn [negb]; cbv beta iota zeta.
    + rewrite (wrap64_small sz) by lia.
      replace (sz + 0 + 0) with sz by lia.
      apply (coalesce_finish_at s s pre [mkBlock a sz Unlinked] post
                                (pre ++ post) a sz a sz (a =? last s));
        try assumption; try lia.
      * discriminate.
      * constructor; [discriminate|constructor].
      * apply keeps_used_refl.
      * apply keeps_used_refl.
      * apply keeps_payload_refl.
      * apply same_anchors_refl.
    + destruct (Hprev Hpf) as (pre' & szp & Epre & Hbp & Hszp & Hzp0).
      rewrite Hbp. rewrite Epre, app_cons_assoc in H.
      destruct (h_next _ _ _ _ H ltac:(discriminate)) as (Hzp & _).
      cbn [baddr bsize] in Hzp. rewrite Hzp.
      destruct (h_delete _ _ _ _ _ H) as (A2 & H2).
      assert (KP2 : keeps_payload (pre ++ post) s
                      (free_list_delete s (a - szp) (get_index szp))).
      { apply (h_delete_kp s pre' (mkBlock a sz Unlinked :: post) _ _ _ H).
        rewrite Epre. sub_used. }
      pose proof A2 as A2'.
      set (s2 := free_list_delete s (a - szp) (get_index szp)) in *.
      rewrite (wrap64_small sz) by lia.
      rewrite (wrap64_small (sz + szp)) by lia.
      destruct (tiles_one _ _ _ _ H) as (_ & P1 & P2 & P3 & P4 & P5).
      cbn [baddr bsize] in *.
      rewrite (sint32_small (sz + szp)) by lia.
      rewrite (wrap64_small (sz + szp)) by lia.
      rewrite Epre in Ppre. apply public_app in Ppre.
      destruct Ppre as (Ppre' & _).
      destruct A2 as (A21 & A22 & A23 & A24 & A25).
      replace (sz + szp + 0) with (sz + szp) by lia.
      apply (coalesce_finish_at s s2 pre'
               [mkBlock (a - szp) szp Unlinked; mkBlock a sz Unlinked]
               post (pre ++ post) (a - szp) (sz + szp) a sz (a =? last s));
        try assumption; try lia.
      * discriminate.
      * simpl. repeat split; lia || zmod.
      * repeat constructor; discriminate.
      * rewrite A22, A23. exact Hcl.
      * rewrite Epre. sub_used.
      * rewrite Epre. sub_used.
  - (* the right neighbour is free and merged *)
    rewrite andb_true_r. cbv beta iota zeta. rewrite Hzn.
    rewrite Epost in H.
    change (pre ++ mkBlock a sz Unlinked :: mkBlock (a + sz) szn OnList :: post')
      with (pre ++ [mkBlock a sz Unlinked]
                ++ mkBlock (a + sz) szn OnList :: post') in H.
    rewrite app_assoc in H.
    destruct (tiles_one _ _ _ _ H) as (_ & N1 & N2 & N3 & N4 & N5).
    cbn [baddr bsize] in *.
    destruct (h_delete _ _ _ _ _ H) as (A1 & H1).
    assert (KP1 : keeps_payload (pre ++ post) s
                    (free_list_delete s (a + sz) (get_index szn))).
    { apply (h_delete_kp s (pre ++ [mkBlock a sz Unlinked]) post' _ _ _ H).
      rewrite Epost. sub_used. }
    pose proof A1 as A1'.
    set (s1 := free_list_delete s (a + sz) (get_index szn)) in *.
    rewrite <- app_assoc in H1. cbn [app] in H1.
    rewrite (wrap64_small sz) by lia.
    rewrite (wrap64_small (sz + szn)) by lia.
    rewrite (sint32_small (sz + szn)) by lia.
    rewrite Epost in Ppost. apply public_cons in Ppost.
    destruct Ppost as (_ & Ppost').
    destruct A1 as (A11 & A12 & A13 & A14 & A15).
    set (cl := (a =? last s) || (a + sz =? last s)).
    assert (Hcl : cl = false /\
              (last s = heap_end s
               \/ post' <> [] /\ last s = last_block post')
              \/ cl = true /\ post' = []).
    { assert (Hp : post <> []) by (rewrite Epost; discriminate).
      destruct (Hpost_addr Hp) as (Q1 & Q2).
      destruct (Hlast_tail _ _ Epost) as [L'|L'].
      - left. split; [|now left]. unfold cl.
        destruct (Z.eqb_spec a (last s)); [lia|].
        destruct (Z.eqb_spec (a + sz) (last s)); [lia|reflexivity].
      - rewrite Epost in L'. rewrite Epost in Q1, Q2.
        destruct post' as [|m post0].
        + right. split; [|reflexivity]. unfold cl.
          change (last s = a + sz) in L'.
          rewrite <- L', Z.eqb_refl. apply orb_true_r.
        + left.
          assert (E : last_block (mkBlock (a + sz) szn OnList :: m :: post0)
                      = last_block (m :: post0)).
          { apply (last_block_mid [] (m :: post0)). }
          rewrite E in L', Q1.
          destruct (tiles_split _ _ _ _ _ (h_tiles _ _ H)) as (_ & Tp & _).
          cbn [baddr bsize] in Tp.
          destruct (last_block_in _ _ _ Tp ltac:(discriminate)).
          split; [|right; split; [discriminate|exact L']]. unfold cl.
          destruct (Z.eqb_spec a (last s)); [lia|].
          destruct (Z.eqb_spec (a + sz) (last s)); [lia|reflexivity]. }
    destruct (Z.eqb_spec (bt_get_prevfree s a) 0) as [Hpf|Hpf];
      cbn [negb]; cbv beta iota zeta.
    + rewrite (wrap64_small (sz + szn)) by lia.
      replace (sz + 0 + szn) with (sz + szn) by lia.
      apply (coalesce_finish_at s s1 pre
               [mkBlock a sz Unlinked; mkBlock (a + sz) szn Unlinked]
               post' (pre ++ post) a (sz + szn) a sz cl);
        try assumption; try lia.
      * discriminate.
      * simpl. repeat split; lia || zmod.
      * repeat constructor; discriminate.
      * rewrite A12, A13. exact Hcl.
      * rewrite Epost. sub_used.
      * rewrite Epost. sub_used.
    + destruct (Hprev Hpf) as (pre' & szp & Epre & Hbp & Hszp & Hzp0).
      rewrite Hbp. rewrite Epre, app_cons_assoc in H1.
      destruct (h_next _ _ _ _ H1 ltac:(discriminate)) as (Hzp & _).
      cbn [baddr bsize] in Hzp. rewrite Hzp.
      destruct (h_delete _ _ _ _ _ H1) as (A2 & H2).
      assert (KP2 : keeps_payload (pre ++ post) s1
                      (free_list_delete s1 (a - szp) (get_index szp))).
      { apply (h_delete_kp s1 pre' _ _ _ _ H1).
        rewrite Epre, Epost. sub_used. }
      pose proof A2 as A2'.
      set (s2 := free_list_delete s1 (a - szp) (get_index szp)) in *.
      destruct (tiles_one _ _ _ _ H1) as (_ & P1 & P2 & P3 & P4 & P5).
      cbn [baddr bsize] in *.
      rewrite (wrap64_small (sz + szn)) by lia.
      rewrite (wrap64_small (sz + szn + szp)) by lia.
      rewrite (sint32_small (sz + szn + szp)) by lia.
      rewrite (wrap64_small (sz + szn + szp)) by lia.
      rewrite Epre in Ppre. apply public_app in Ppre.
      destruct Ppre as (Ppre' & _).
      destruct A2 as (A21 & A22 & A23 & A24 & A25).
      rewrite Hzp0.
      replace (sz + szp + szn) with (sz + szn + szp) by lia.
      apply (coalesce_finish_at s s2 pre'
               [mkBlock (a - szp) szp Unlinked; mkBlock a sz Unlinked;
                mkBlock (a + sz) szn Unlinked]
               post' (pre ++ post) (a - szp) (sz + szn + szp) a sz cl);
        try assumption; try lia.
      * discriminate.
      * simpl. repeat split; lia || zmod.
      * repeat constructor; discriminate.
      * rewrite A22, A23, A12, A13. exact Hcl.
      * rewrite Epre, Epost. sub_used.
      * rewrite Epre, Epost. sub_used.
      * exact (keeps_payload_trans _ _ _ _ KP1 KP2).
      * exact (same_anchors_trans _ _ _ A1' A2').
Qed.

Lemma coalesce_full (s : state) (pre post : list block) (a sz : Z) :
  hcore s (pre ++ mkBlock a sz Unlinked :: post) ->
  public pre -> public post ->
  last_ok s (pre ++ mkBlock a sz Unlinked :: post) ->
  freed s (snd (coalesce s a)) (pre ++ post) a sz.
Proof.
  intros H Ppre Ppost L.
  exact (freed_at_freed _ _ _ _ _ _ _ (coalesce_extent s pre post a sz H Ppre Ppost L)).
Qed.

Lemma last_block_status (pre post : list block) (a sz : Z) (st st' : status) :
  last_block (pre ++ mkBlock a sz st :: post)
  = last_block (pre ++ mkBlock a sz st' :: post).
Proof. rewrite !last_block_mid. reflexivity. Qed.

(** The block found by [bt_prev] from a header that carries PREVFREE. *)
Lemma prev_free_block (s : state) (pre post : list block) (b : block) :
  hcore s (pre ++ b :: post) -> bst b <> Raw -> public pre ->
  bt_get_prevfree s (baddr b) <> 0 ->
  exists pre' szp,
    pre = pre' ++ [mkBlock (baddr b - szp) szp OnList]
    /\ bt_prev s (baddr b) = baddr b - szp /\ 16 <= szp < 2 ^ 31
    /\ bt_size s (baddr b - szp) = szp.
Proof.
  intros H Hb Ppre Hpf.
  pose proof (h_pf_at _ _ _ _ H Hb Hpf) as Hst.
  destruct (last_st_not_used _ Hst) as (pre' & pv & Epre & Hpv).
  rewrite Epre in Ppre. apply public_app in Ppre.
  destruct Ppre as (_ & Ppv). apply public_cons in Ppv.
  destruct Ppv as ([Hu|Ho] & _); [contradiction|].
  rewrite Epre, app_cons_assoc in H.
  destruct (h_next _ _ _ _ H ltac:(congruence)) as (Hpz & _ & _ & Hpn).
  pose proof (h_hdr_at _ _ _ _ H) as Hh. unfold hdr_ok in Hh.
  rewrite Ho in Hh. destruct Hh as (_ & _ & Hft).
  destruct (tiles_one _ _ _ _ H) as (_ & P1 & P2 & P3 & P4 & P5).
  destruct pv as [pa szp pst]. cbn [baddr bsize bst] in *. subst pst.
  exists pre', szp. replace (baddr b - szp) with pa by lia.
  split; [exact Epre|]. split; [|split; [lia|exact Hpz]].
  unfold bt_prev. replace (baddr b - 4) with (pa + szp - 4) by lia.
  rewrite Hft. replace (baddr b - szp) with pa by lia.
  destruct (Z.leb_spec (heap_start s) pa); [reflexivity|lia].
Qed.

(** [free] of an allocated block: the block is merged with the left
    neighbour when its header carries PREVFREE and with the right neighbour
    when that one is free. *)
Lemma free_extent (s : state) (pre post : list block) (a sz : Z) :
  hcore s (pre ++ mkBlock a sz Used :: post) ->
  public (pre ++ mkBlock a sz Used :: post) ->
  last_ok s (pre ++ mkBlock a sz Used :: post) ->
  freed_at s (free s (a + 4)) (pre ++ post) a sz
           (if bt_get_prevfree s a =? 0 then a else bt_prev s a)
           (sz + (if bt_get_prevfree s a =? 0 then 0
                  else bt_size s (bt_prev s a))
            + (if bt_free s (a + sz) then bt_size s (a + sz) else 0)).
Proof.
  intros H P L.
  destruct (h_next _ _ _ _ H ltac:(discriminate)) as (Hsz & _).
  destruct (tiles_one _ _ _ _ H) as (T1 & G1 & G2 & G3 & G4 & G5).
  cbn [baddr bsize bst] in *.
  destruct (h_bounds _ _ H) as (B1 & _).
  apply public_app in P. destruct P as (Ppre & P).
  apply public_cons in P. destruct P as (_ & Ppost).
  unfold free, bt_header, WSIZE.
  destruct (Z.eqb_spec (a + 4) 0) as [?|_]; [lia|].
  replace (a + 4 - 4) with a by lia.
  rewrite Hsz, flags_free.
  assert (Hfl : bt_get_prevfree s a = 0
                \/ (bt_get_prevfree s a = 2 /\ last_st Used pre <> Used)).
  { destruct (bt_get_prevfree_cases s a) as [E|E]; [now left|right].
    split; [exact E|].
    apply (h_pf_at _ _ _ _ H); [discriminate|]. cbn [baddr]. rewrite E.
    discriminate. }
  assert (Hfr : 0 <= bt_get_prevfree s a < 4)
    by (destruct (bt_get_prevfree_cases s a) as [E|E]; rewrite E; lia).
  (* the words the extent is read from are not written by [bt_make] *)
  assert (Hfl2 : bt_get_prevfree s a = 0 \/ bt_get_prevfree s a = 2)
    by (destruct Hfl as [E|(E & _)]; [left|right]; exact E).
  assert (Ha0 : 0 < a) by lia.
  assert (Hsz31 : 16 <= sz < 2 ^ 31 - 3) by zmod.
  assert (Hsz4 : sz mod 4 = 0) by zmod.
  destruct (bt_make_free_spec s a sz (bt_get_prevfree s a) Ha0 Hsz31 Hsz4 Hfl2)
    as (F0 & M0 & _ & _ & _ & _ & _ & Zn & Rn & _).
  assert (Eprev : bt_prev (bt_make s a sz (bt_get_prevfree s a)) a
                  = bt_prev s a).
  { unfold bt_prev. rewrite (sf_hs _ _ F0).
    rewrite (bt_size_frame s (bt_make s a sz (bt_get_prevfree s a)) (a - 4));
      [reflexivity|apply M0; lia]. }
  assert (Epz : bt_get_prevfree s a <> 0 ->
                bt_size (bt_make s a sz (bt_get_prevfree s a)) (bt_prev s a)
                = bt_size s (bt_prev s a)).
  { intros Hpf.
    destruct (prev_free_block s pre post (mkBlock a sz Used) H
                ltac:(discriminate) Ppre Hpf)
      as (pre' & szp & _ & Hbp & Hszp & _).
    cbn [baddr] in Hbp. rewrite Hbp.
    apply bt_size_frame. apply M0; lia. }
  destruct (h_make_free s pre [mkBlock a sz Used] post a sz sz
                        (bt_get_prevfree s a) H ltac:(discriminate) T1
                        ltac:(constructor; [discriminate|constructor])
                        ltac:(lia) G4 Hfl)
    as (F1 & H1 & Hpf1).
  pose proof (h_make_kp s pre [mkBlock a sz Used] post (pre ++ post) a sz sz
                (bt_get_prevfree s a) H ltac:(discriminate) T1 ltac:(lia)
                G4 Hfr (keeps_used_refl _)) as KP1.
  rewrite Z.ltb_irrefl in H1. cbn [app] in H1.
  set (s1 := bt_make s a sz (bt_get_prevfree s a)) in *.
  destruct (h_next _ _ _ _ H1 ltac:(discriminate)) as (Hsz1 & Hnx1 & _).
  cbn [baddr bsize] in Hsz1, Hnx1.
  assert (L1 : last_ok s1 (pre ++ mkBlock a sz Unlinked :: post)).
  { apply (last_ok_keep s s1 _ _ L);
      [apply (sf_last _ _ F1)|apply (sf_he _ _ F1)|].
    apply last_block_status. }
  apply (freed_at_after s s1);
    [exact KP1|apply same_fields_anchors; exact F1|].
  destruct (negb (bt_get_prevfree s1 a =? 0) || bt_free s1 (bt_next s1 a))
    eqn:Ec.
  - pose proof (coalesce_extent s1 pre post a sz H1 Ppre Ppost L1) as X.
    rewrite Hpf1, Eprev, Rn, Zn in X.
    destruct (Z.eqb_spec (bt_get_prevfree s a) 0) as [Hpf|Hpf].
    + exact X.
    + rewrite (Epz Hpf) in X. exact X.
  - apply orb_false_iff in Ec. destruct Ec as (Ec1 & Ec2).
    apply negb_false_iff in Ec1. rewrite Hpf1 in Ec1.
    rewrite Hnx1, Rn in Ec2. rewrite Ec1, Ec2.
    replace (sz + 0 + 0) with sz by lia.
    rewrite Hsz1.
    destruct (h_append _ _ _ _ _ H1) as (A2 & H2).
    assert (KP2 : keeps_payload (pre ++ post) s1
                    (free_list_append s1 a (get_index sz))).
    { apply (h_append_kp s1 pre post (pre ++ post) a sz H1). sub_used. }
    exists pre, post.
    split; [exact H2|]. split.
    { apply public_app. split; [exact Ppre|].
      apply public_cons. split; [now right|exact Ppost]. }
    split.
    { apply (last_ok_keep s1 _ _ _ L1); [apply A2|apply A2|].
      apply last_block_status. }
    split; [apply keeps_used_refl|]. split; [apply keeps_used_refl|].
    split; [exact KP2|].
    destruct A2 as (A21 & A22 & A23 & A24 & A25).
    repeat split; assumption || lia.
Qed.

Lemma free_full (s : state) (pre post : list block) (a sz : Z) :
  hcore s (pre ++ mkBlock a sz Used :: post) ->
  public (pre ++ mkBlock a sz Used :: post) ->
  last_ok s (pre ++ mkBlock a sz Used :: post) ->
  freed s (free s (a + 4)) (pre ++ post) a sz.
Proof.
  intros H P L.
  exact (freed_at_freed _ _ _ _ _ _ _ (free_extent s pre post a sz H P L)).
Qed.

(** [free] of an allocated block keeps the invariant. *)
Lemma free_inv (s : state) (pre post : list block) (a sz : Z) :
  hcore s (pre ++ mkBlock a sz Used :: post) ->
  public (pre ++ mkBlock a sz Used :: post) ->
  last_ok s (pre ++ mkBlock a sz Used :: post) ->
  heap_ok (free s (a + 4)).
Proof.
  intros H P L. exact (freed_heap_ok _ _ _ _ _ (free_full s pre post a sz H P L)).
Qed.

(** * realloc *)

(** Whether [last] has to follow the block at [a]: no free right neighbour. *)
Lemma change_last_alone (s : state) (pre post : list block) (b : block) :
  hcore s (pre ++ b :: post) -> last_ok s (pre ++ b :: post) ->
  ((baddr b =? last s) = false
   /\ (last s = heap_end s \/ post <> [] /\ last s = last_block post))
  \/ ((baddr b =? last s) = true /\ post = []).
Proof.
  intros H L.
  destruct (tiles_split _ _ _ _ _ (h_tiles _ _ H)) as (_ & Tp & H16 & _).
  pose proof (tiles_le _ _ _ Tp) as Hle.
  unfold last_ok in L. rewrite last_block_mid in L.
  destruct post as [|n post0].
  - destruct (Z.eqb_spec (baddr b) (last s)) as [E|N].
    + right. now split.
    + left. split; [reflexivity|]. destruct L as [L|L]; [now left|congruence].
  - destruct (last_block_in _ _ _ Tp ltac:(discriminate)) as (Q1 & Q2).
    left. split.
    + destruct (Z.eqb_spec (baddr b) (last s)) as [E|N]; [|reflexivity].
      destruct L as [L|L]; lia.
    + destruct L as [L|L]; [now left|right]. split; [discriminate|exact L].
Qed.

(** The same when the right neighbour [n] is merged into the block. *)
Lemma change_last_merged (s : state) (pre post : list block) (b n : block) :
  hcore s (pre ++ b :: n :: post) -> last_ok s (pre ++ b :: n :: post) ->
  (((baddr b =? last s) || (baddr n =? last s)) = false
   /\ (last s = heap_end s \/ post <> [] /\ last s = last_block post))
  \/ (((baddr b =? last s) || (baddr n =? last s)) = true /\ post = []
      /\ last s = baddr n).
Proof.
  intros H L.
  destruct (tiles_split _ _ _ _ _ (h_tiles _ _ H)) as (_ & Tp & H16 & _).
  simpl in Tp. destruct Tp as (En & Hn16 & _ & Tp).
  pose proof (tiles_le _ _ _ Tp) as Hle.
  assert (E : last_block (pre ++ b :: n :: post)
              = match post with [] => baddr n | _ :: _ => last_block post end).
  { rewrite last_block_mid. apply (last_block_mid [] post n). }
  unfold last_ok in L. rewrite E in L. clear E.
  destruct post as [|m post0].
  - destruct L as [L|L].
    + left. split; [|now left].
      destruct (Z.eqb_spec (baddr b) (last s)); [lia|].
      destruct (Z.eqb_spec (baddr n) (last s)); [lia|reflexivity].
    + right. split; [|split; [reflexivity|exact L]].
      rewrite L, Z.eqb_refl. apply orb_true_r.
  - destruct (last_block_in _ _ _ Tp ltac:(discriminate)) as (Q1 & Q2).
    left. split.
    + destruct (Z.eqb_spec (baddr b) (last s)); [destruct L; lia|].
      destruct (Z.eqb_spec (baddr n) (last s)); [destruct L; lia|reflexivity].
    + destruct L as [L|L]; [now left|right]. split; [discriminate|exact L].
Qed.

(** Moving [last] to the block [b] when it became the last one. *)
Lemma finish_last (s0 s4 : state) (pre post : list block) (b : block)
      (cl : bool) :
  hcore s4 (pre ++ b :: post) ->
  last s4 = last s0 -> heap_end s4 = heap_end s0 ->
  (cl = false
   /\ (last s0 = heap_end s0 \/ post <> [] /\ last s0 = last_block post))
  \/ (cl = true /\ post = []) ->
  hcore (if cl then set_last s4 (baddr b) else s4) (pre ++ b :: post)
  /\ last_ok (if cl then set_last s4 (baddr b) else s4) (pre ++ b :: post)
  /\ same_anchors_but_last s4 (if cl then set_last s4 (baddr b) else s4)
  /\ mem (if cl then set_last s4 (baddr b) else s4) = mem s4.
Proof.
  intros H El Ee Hcl.
  destruct Hcl as [(-> & Hl)|(-> & ->)].
  - split; [exact H|]. split; [|split; [repeat split|reflexivity]].
    destruct Hl as [Hl|(Hp & Hl)]; [left; congruence|right].
    rewrite El, Hl, last_block_mid.
    destruct post; [contradiction|reflexivity].
  - split; [apply h_set_last; exact H|].
    split; [|split; [repeat split|reflexivity]].
    right. rewrite last_block_snoc. reflexivity.
Qed.

Lemma grows_but_last (s0 s1 s2 : state) :
  heap_start s1 = heap_start s0 -> heap_end s1 = heap_end s0 ->
  mem_brk s1 = mem_brk s0 -> mem_max_addr s1 = mem_max_addr s0 ->
  same_anchors_but_last s1 s2 -> grows s0 s2.
Proof.
  intros E1 E2 E3 E4 (A1 & A2 & A3 & A4).
  apply grows_anchors; congruence.
Qed.

(** The heap-end growth of [realloc]: the block and the fresh extension
    become one allocated block. *)
Lemma realloc_grow_full (s0 s1 : state) (pre run U : list block)
      (a sz asize : Z) :
  hcore s1 (pre ++ run) -> public pre ->
  run <> [] -> tiles a run (a + asize) ->
  Forall (fun b => bst b <> OnList) run ->
  keeps_used U pre -> keeps_used pre U ->
  keeps_payload (mkBlock a sz Used :: U) s0 s1 ->
  resized s0 (set_last (bt_make s1 a asize USED) a) U a sz asize a
  /\ same_anchors_but_last s1 (set_last (bt_make s1 a asize USED) a).
Proof.
  intros H Ppre Hne T Hno K1 K2 KP0.
  rewrite <- (app_nil_r run) in H.
  destruct H as (fl & C).
  destruct (run_geometry _ _ _ _ _ _ _ C Hne T) as (_ & _ & G3 & G4 & _).
  assert (H : hcore s1 (pre ++ run ++ [])) by (exists fl; exact C).
  destruct (h_make_used s1 pre run [] a asize asize USED H Hne T Hno
                        ltac:(lia) G3 (or_introl eq_refl)) as (F2 & H2).
  pose proof (h_make_frame s1 pre run [] a asize asize USED H Hne T
                ltac:(lia) G3 ltac:(unfold USED; lia)) as M2.
  rewrite Z.ltb_irrefl in H2. cbn [app] in H2.
  split.
  2:{ destruct F2 as (F21 & F22 & _ & _ & F25 & F26).
      repeat split; assumption. }
  exists (pre ++ [mkBlock a asize Used]).
  split; [apply h_set_last; exact H2|]. split.
  { apply public_app. split; [exact Ppre|].
    apply public_cons. split; [now left|constructor]. }
  split; [right; rewrite last_block_snoc; reflexivity|].
  split; [intros x szx Hin; apply in_or_app; left; exact (K1 _ _ Hin)|].
  split.
  { apply (keeps_payload_trans _ s0 s1).
    - apply (keeps_payload_mono U (mkBlock a sz Used :: U)); [|exact KP0].
      intros x szx Hin. now right.
    - apply (keeps_payload_trans _ s1 (bt_make s1 a asize USED));
        [|apply keeps_payload_mem; reflexivity].
      apply (h_make_kp s1 pre run [] U a asize asize USED H Hne T);
        [lia|exact G3|unfold USED; lia|].
      rewrite app_nil_r. exact K1. }
  split.
  { intros x szx Hin. apply in_app_or in Hin.
    destruct Hin as [Hin|[Hin|[]]]; [left; exact (K2 _ _ Hin)|].
    right. inversion Hin. reflexivity. }
  intros _. split.
  { exists asize. split; [|lia]. apply in_or_app. right. now left. }
  intros k Hk1 Hk2.
  change (mem (bt_make s1 a asize USED) (a + 4 + k) = mem s0 (a + 4 + k)).
  rewrite M2 by (try lia; unfold USED; intros E; discriminate E).
  apply (KP0 a sz); [now left|lia].
Qed.

(** The in-place paths of [realloc] on the run made of the block and, when
    it was free, its unlinked right neighbour. *)
Lemma realloc_inplace_full (s0 s1 : state) (pre rest post1 U : list block)
      (a sz T asize : Z) (cl : bool) :
  hcore s1 (pre ++ (mkBlock a sz Used :: rest) ++ post1) ->
  tiles a (mkBlock a sz Used :: rest) (a + T) ->
  Forall (fun b => bst b <> OnList) rest ->
  public pre -> public post1 ->
  asize <= T -> asize = 0 \/ (16 <= asize /\ asize mod 16 = 0) ->
  last s1 = last s0 -> heap_end s1 = heap_end s0 ->
  (cl = false
   /\ (last s0 = heap_end s0 \/ post1 <> [] /\ last s0 = last_block post1))
  \/ (cl = true /\ post1 = []) ->
  keeps_used U (pre ++ post1) -> keeps_used (pre ++ post1) U ->
  keeps_payload (mkBlock a sz Used :: U) s0 s1 ->
  heap_start s1 = heap_start s0 -> mem_brk s1 = mem_brk s0 ->
  mem_max_addr s1 = mem_max_addr s0 ->
  resized s0
    (let '(bp, s2) :=
       if ALIGNMENT <=? wrap64 (T - asize) then
         let s2 := bt_make s1 a asize
                           (Z.lor USED (bt_get_prevfree s1 a)) in
         let bp := bt_next s2 a in
         let s3 := bt_make s2 bp (wrap64 (T - asize)) FREE in
         (bp, free_list_append s3 bp (get_index (wrap64 (T - asize))))
       else
         (a, bt_make s1 a T (Z.lor USED (bt_get_prevfree s1 a))) in
     if cl then set_last s2 bp else s2) U a sz asize a
  /\ grows s0
    (let '(bp, s2) :=
       if ALIGNMENT <=? wrap64 (T - asize) then
         let s2 := bt_make s1 a asize
                           (Z.lor USED (bt_get_prevfree s1 a)) in
         let bp := bt_next s2 a in
         let s3 := bt_make s2 bp (wrap64 (T - asize)) FREE in
         (bp, free_list_append s3 bp (get_index (wrap64 (T - asize))))
       else
         (a, bt_make s1 a T (Z.lor USED (bt_get_prevfree s1 a))) in
     if cl then set_last s2 bp else s2).
Proof.
  intros H Trun Hrest Ppre Ppost Hle Hasz El Ee Hcl K1 K2 KP0 Es Eb Ex.
  set (run := mkBlock a sz Used :: rest) in *.
  assert (Hne : run <> []) by discriminate.
  assert (Hno : Forall (fun b => bst b <> OnList) run).
  { constructor; [discriminate|exact Hrest]. }
  destruct H as (fl & C).
  destruct (run_geometry _ _ _ _ _ _ _ C Hne Trun)
    as (G1 & G2 & G3 & G4 & _ & _).
  destruct (core_span _ _ _ C) as (S1 & S2 & S3 & S4).
  assert (H : hcore s1 (pre ++ run ++ post1)) by (exists fl; exact C).
  assert (Ha0 : 0 < a) by lia.
  assert (Hsz : 16 <= sz <= T).
  { simpl in Trun. destruct Trun as (_ & ? & _ & Tr).
    pose proof (tiles_le _ _ _ Tr). lia. }
  assert (Hw : wrap64 (T - asize) = T - asize).
  { apply wrap64_small. destruct Hasz as [->|?]; lia. }
  rewrite Hw. unfold ALIGNMENT.
  assert (Hfl : Z.lor USED (bt_get_prevfree s1 a) = 1
                \/ (Z.lor USED (bt_get_prevfree s1 a) = 3
                    /\ last_st Used pre <> Used)).
  { destruct (flags_used s1 a) as [(E & _)|(E & Hp)]; [now left|right].
    split; [exact E|].
    unfold run in H. cbn [app] in H.
    apply (h_pf_at _ _ _ _ H); [discriminate|exact Hp]. }
  assert (Hfr : 0 <= Z.lor USED (bt_get_prevfree s1 a) < 4)
    by (destruct Hfl as [E|(E & _)]; rewrite E; lia).
  assert (Hodd : Z.lor USED (bt_get_prevfree s1 a) mod 2 = 0 -> False)
    by (destruct Hfl as [E|(E & _)]; rewrite E; intros N; discriminate N).
  assert (KPU : keeps_payload U s0 s1).
  { apply (keeps_payload_mono U (mkBlock a sz Used :: U)); [|exact KP0].
    intros x szx Hin. now right. }
  assert (Fin : forall s4 preX b,
            hcore s4 (preX ++ b :: post1) -> public (preX ++ b :: post1) ->
            same_anchors s1 s4 ->
            keeps_used U (preX ++ b :: post1) -> keeps_payload U s1 s4 ->
            (forall x szx, In (mkBlock x szx Used) (preX ++ b :: post1) ->
                           In (mkBlock x szx Used) U \/ x = a) ->
            (asize <> 0 ->
             (exists sz', In (mkBlock a sz' Used) (preX ++ b :: post1)
                          /\ asize <= sz' < asize + 16)
             /\ forall k, 0 <= k < sz - 4 -> k < asize - 4 ->
                          mem s4 (a + 4 + k) = mem s1 (a + 4 + k)) ->
            resized s0 (if cl then set_last s4 (baddr b) else s4)
                    U a sz asize a
            /\ grows s0 (if cl then set_last s4 (baddr b) else s4)).
  { intros s4 preX b H4 P4 (A1 & A2 & A3 & A4 & A5) K4 KP4 O4 N4.
    destruct (finish_last s0 s4 preX post1 b cl H4 ltac:(congruence)
                          ltac:(congruence) Hcl) as (H5 & L5 & A5' & M5).
    split.
    - exists (preX ++ b :: post1).
      split; [exact H5|]. split; [exact P4|]. split; [exact L5|].
      split; [exact K4|]. split.
      { apply (keeps_payload_trans _ s0 s1); [exact KPU|].
        apply (keeps_payload_trans _ s1 s4); [exact KP4|].
        apply keeps_payload_mem. exact M5. }
      split; [exact O4|].
      intros Hnz. destruct (N4 Hnz) as (N41 & N42).
      split; [exact N41|]. intros k Hk1 Hk2.
      rewrite M5, (N42 k Hk1 Hk2).
      apply (KP0 a sz); [now left|lia].
    - apply (grows_but_last s0 s4 _);
        [congruence|congruence|congruence|congruence|exact A5']. }
  destruct (Z.leb_spec 16 (T - asize)) as [Hsplit|Hwhole].
  - destruct Hasz as [->|(Ha16 & Hamod)].
    + (* adjusted size 0: the block is given back to its list *)
      assert (Hfl' : Z.lor USED (bt_get_prevfree s1 a) = 1
                     \/ Z.lor USED (bt_get_prevfree s1 a) = 3) by tauto.
      destruct (bt_make_zero_spec s1 a _ Ha0 ltac:(lia) Hfl')
        as (F2 & M2 & Z2 & R2).
      assert (KP2 : keeps_payload U s1
                      (bt_make s1 a 0 (Z.lor USED (bt_get_prevfree s1 a)))).
      { apply (header_keeps_payload s1 _ (pre ++ run ++ post1) U a H);
          [|exact M2|].
        - exists sz, Used. apply in_or_app. right. now left.
        - intros x szx Hin. apply K1 in Hin. apply in_app_or in Hin.
          apply in_or_app. destruct Hin; [now left|right].
          apply in_or_app. now right. }
      set (s2 := bt_make s1 a 0 (Z.lor USED (bt_get_prevfree s1 a))) in *.
      pose proof (h_smash s1 s2 pre run post1 a T H Hne Trun Hno F2 M2) as H2.
      assert (Hn2 : bt_next s2 a = a).
      { unfold bt_next. rewrite Z2, Z.add_0_r, (sf_he _ _ F2).
        destruct (Z.leb_spec a (heap_end s1)); [reflexivity|lia]. }
      cbv zeta. rewrite Hn2, Z.sub_0_r.
      assert (T1r : tiles a [mkBlock a T Raw] (a + T)).
      { simpl. repeat split; assumption. }
      destruct (h_free_block s2 pre [mkBlock a T Raw] post1 a T H2
                             ltac:(discriminate) T1r
                             ltac:(constructor; [discriminate|constructor]))
        as (A4 & H4).
      pose proof (h_free_block_kp s2 pre [mkBlock a T Raw] post1 U a T H2
                    ltac:(discriminate) T1r
                    ltac:(constructor; [discriminate|constructor]) K1) as KP4.
      set (s4 := free_list_append (bt_make s2 a T FREE) a (get_index T)) in *.
      apply (Fin s4 pre (mkBlock a T OnList) H4).
      * apply public_app. split; [exact Ppre|].
        apply public_cons. split; [now right|exact Ppost].
      * eapply same_anchors_trans;
          [apply same_fields_anchors; exact F2|exact A4].
      * intros x szx Hin. apply K1 in Hin. apply in_app_or in Hin.
        apply in_or_app. destruct Hin; [now left|right; now right].
      * exact (keeps_payload_trans _ _ _ _ KP2 KP4).
      * intros x szx Hin. left. apply K2. apply in_app_or in Hin.
        apply in_or_app.
        destruct Hin as [Hin|[Hin|Hin]];
          [now left|discriminate Hin|now right].
      * intros N. now elim N.
    + (* the front is kept, the rest becomes a free block *)
      destruct (h_make_used s1 pre run post1 a T asize _ H Hne Trun Hno
                            ltac:(lia) Hamod Hfl) as (F2 & H2).
      pose proof (h_make_kp s1 pre run post1 U a T asize _ H Hne Trun
                    ltac:(lia) Hamod Hfr K1) as KP2.
      pose proof (h_make_frame s1 pre run post1 a T asize _ H Hne Trun
                    ltac:(lia) Hamod Hfr) as M2.
      set (s2 := bt_make s1 a asize (Z.lor USED (bt_get_prevfree s1 a))) in *.
      destruct (Z.ltb_spec asize T) as [_|?]; [|lia].
      cbn [app] in H2.
      destruct (h_next _ _ _ _ H2 ltac:(discriminate)) as (_ & Hn2 & _).
      cbn [baddr bsize] in Hn2. cbv zeta. rewrite Hn2.
      change (pre ++ mkBlock a asize Used
                  :: mkBlock (a + asize) (T - asize) Raw :: post1)
        with (pre ++ [mkBlock a asize Used]
                  ++ mkBlock (a + asize) (T - asize) Raw :: post1) in H2.
      rewrite app_assoc in H2.
      assert (T2 : tiles (a + asize) [mkBlock (a + asize) (T - asize) Raw]
                         (a + asize + (T - asize))).
      { simpl. repeat split; lia || zmod. }
      destruct (h_free_block s2 (pre ++ [mkBlock a asize Used])
                             [mkBlock (a + asize) (T - asize) Raw] post1
                             (a + asize) (T - asize) H2
                             ltac:(discriminate) T2
                             ltac:(constructor; [discriminate|constructor]))
        as (A4 & H4).
      assert (KP4 : keeps_payload (mkBlock a asize Used :: U) s2
                      (free_list_append
                         (bt_make s2 (a + asize) (T - asize) FREE)
                         (a + asize) (get_index (T - asize)))).
      { apply (h_free_block_kp s2 (pre ++ [mkBlock a asize Used])
                 [mkBlock (a + asize) (T - asize) Raw] post1 _
                 (a + asize) (T - asize) H2 ltac:(discriminate) T2
                 ltac:(constructor; [discriminate|constructor])).
        intros x szx [Hin|Hin].
        - inversion Hin; subst. apply in_or_app. left.
          apply in_or_app. right. now left.
        - apply K1 in Hin. apply in_app_or in Hin. apply in_or_app.
          destruct Hin; [left; apply in_or_app; now left|now right]. }
      set (s4 := free_list_append (bt_make s2 (a + asize) (T - asize) FREE)
                                  (a + asize) (get_index (T - asize))) in *.
      apply (Fin s4 (pre ++ [mkBlock a asize Used])
                 (mkBlock (a + asize) (T - asize) OnList) H4).
      * apply public_app. split.
        -- apply public_app. split; [exact Ppre|].
           apply public_cons. split; [now left|constructor].
        -- apply public_cons. split; [now right|exact Ppost].
      * eapply same_anchors_trans;
          [apply same_fields_anchors; exact F2|exact A4].
      * intros x szx Hin. apply K1 in Hin. apply in_app_or in Hin.
        apply in_or_app.
        destruct Hin; [left; apply in_or_app; now left|right; now right].
      * apply (keeps_payload_trans _ _ _ _ KP2).
        apply (keeps_payload_mono U (mkBlock a asize Used :: U));
          [|exact KP4].
        intros x szx Hin. now right.
      * intros x szx Hin. apply in_app_or in Hin.
        destruct Hin as [Hin|[Hin|Hin]].
        -- apply in_app_or in Hin. destruct Hin as [Hin|[Hin|[]]].
           ++ left. apply K2. apply in_or_app. now left.
           ++ right. inversion Hin. reflexivity.
        -- discriminate Hin.
        -- left. apply K2. apply in_or_app. now right.
      * intros _. split.
        -- exists asize. split; [|lia]. apply in_or_app. left.
           apply in_or_app. right. now left.
        -- intros k Hk1 Hk2.
           rewrite (KP4 a asize (a + 4 + k)); [|now left|lia].
           apply M2; try lia; intros N; elim (Hodd N).
  - (* the whole run is kept *)
    assert (Ea : asize = T).
    { destruct Hasz as [->|(? & ?)]; [lia|]. zmod. }
    subst asize.
    destruct (h_make_used s1 pre run post1 a T T _ H Hne Trun Hno
                          ltac:(lia) G3 Hfl) as (F2 & H2).
    pose proof (h_make_kp s1 pre run post1 U a T T _ H Hne Trun
                  ltac:(lia) G3 Hfr K1) as KP2.
    pose proof (h_make_frame s1 pre run post1 a T T _ H Hne Trun
                  ltac:(lia) G3 Hfr) as M2.
    rewrite Z.ltb_irrefl in H2. cbn [app] in H2.
    set (s2 := bt_make s1 a T (Z.lor USED (bt_get_prevfree s1 a))) in *.
    apply (Fin s2 pre (mkBlock a T Used) H2).
    + apply public_app. split; [exact Ppre|].
      apply public_cons. split; [now left|exact Ppost].
    + apply same_fields_anchors. exact F2.
    + intros x szx Hin. apply K1 in Hin. apply in_app_or in Hin.
      apply in_or_app. destruct Hin; [now left|right; now right].
    + exact KP2.
    + intros x szx Hin. apply in_app_or in Hin.
      destruct Hin as [Hin|[Hin|Hin]].
      * left. apply K2. apply in_or_app. now left.
      * right. inversion Hin. reflexivity.
      * left. apply K2. apply in_or_app. now right.
    + intros _. split.
      * exists T. split; [|lia]. apply in_or_app. right. now left.
      * intros k Hk1 Hk2. apply M2; try lia; intros N; elim (Hodd N).
Qed.

Lemma let_pair_some {A B C D : Type} (c : A * B) (ptr : C)
      (f : A -> B -> D) (p : C) (s' : D) :
  (let '(bp, s2) := c in Some (ptr, f bp s2)) = Some (p, s') ->
  p = ptr /\ s' = (let '(bp, s2) := c in f bp s2).
Proof.
  destruct c as [x y]. intros H. injection H as <- <-. now split.
Qed.


(** Blocks of a tiling other than one of them. *)
Lemma in_mid_other (l1 l2 : list block) (b b' : block) (h e : Z) :
  tiles h (l1 ++ b :: l2) e ->
  (In b' (l1 ++ l2) <-> In b' (l1 ++ b :: l2) /\ baddr b' <> baddr b).
Proof.
  intros T. destruct (tiles_split _ _ _ _ _ T) as (T1 & T2 & H16 & _).
  split.
  - intros Hin. split.
    + apply in_app_or in Hin. apply in_or_app.
      destruct Hin; [now left|right; now right].
    + apply in_app_or in Hin. destruct Hin as [Hin|Hin].
      * destruct (tiles_in _ _ _ _ T1 Hin) as (_ & ? & ? & _). lia.
      * destruct (tiles_in _ _ _ _ T2 Hin) as (? & _). lia.
  - intros (Hin & Hne). apply in_app_or in Hin. apply in_or_app.
    destruct Hin as [Hin|[Hin|Hin]]; [now left| |now right].
    subst b'. contradiction.
Qed.

(** The moving path of [realloc]: allocate, copy, free the old block.  The
    copy stays inside the payload of the new block because the length is
    below the adjusted size. *)
Lemma realloc_move_full (fuel : nat) (s : state) (pre post : list block)
      (a sz size fs np : Z) (s1 : state) :
  hcore s (pre ++ mkBlock a sz Used :: post) ->
  public (pre ++ mkBlock a sz Used :: post) ->
  last_ok s (pre ++ mkBlock a sz Used :: post) ->
  0 <= size < 2 ^ 64 ->
  sz <= fs -> fs < round_up (wrap64 (size + WSIZE)) ->
  malloc fuel s size = Some (np, s1) ->
  np mod 16 = 0 /\ grows s s1 /\ (np = 0 -> same_heap s s1)
  /\ (np <> 0 ->
      resized s (free (memcpy s1 np (a + 4) (wrap64 (fs - WSIZE))) (a + 4))
              (pre ++ post) a sz (round_up (wrap64 (size + WSIZE))) (np - 4)
      /\ grows s (free (memcpy s1 np (a + 4) (wrap64 (fs - WSIZE))) (a + 4))).
Proof.
  intros H P L Hsize Hfs Hlt Hm.
  destruct (tiles_one _ _ _ _ H) as (_ & G1 & G2 & G3 & G4 & G5).
  cbn [baddr bsize] in *.
  pose proof (h_tiles _ _ H) as T.
  destruct (malloc_spec_full _ _ _ _ _ _ H P L Hsize Hm)
    as (Hmod & Gr & Sh & bl1 & H1 & P1 & L1 & K1 & N1 & KP1 & O1 & Fr1 & _).
  split; [exact Hmod|]. split; [exact Gr|].
  split; [intros E; exact (proj1 (Sh E))|].
  intros Hnp.
  destruct (asize_cases size Hsize) as [E0|((_ & Ha64) & _)]; [lia|].
  set (asize := round_up (wrap64 (size + WSIZE))) in *.
  destruct (N1 Hnp ltac:(lia)) as (szn & Hin & Hge).
  specialize (Fr1 Hnp).
  destruct (in_split _ _ Hin) as (p1 & q1 & E1).
  rewrite (wrap64_small (fs - WSIZE)) by (unfold WSIZE; lia).
  set (s2 := memcpy s1 np (a + 4) (fs - WSIZE)).
  assert (F2 : same_fields s1 s2) by apply same_fields_set_mem.
  assert (Mcp : forall y, np <= y < np + (fs - 4) ->
                          mem s2 y = mem s1 (a + 4 + (y - np))).
  { intros y Hy. unfold s2, memcpy, WSIZE. simpl_state.
    destruct (Z.leb_spec np y); [|lia].
    destruct (Z.ltb_spec y (np + (fs - 4))); [reflexivity|lia]. }
  assert (Mfr : forall y, y < np \/ np + (fs - 4) <= y ->
                          mem s2 y = mem s1 y).
  { intros y Hy. unfold s2, memcpy, WSIZE. simpl_state.
    destruct (Z.leb_spec np y); [|reflexivity].
    destruct (Z.ltb_spec y (np + (fs - 4))); [lia|reflexivity]. }
  assert (H2 : hcore s2 bl1).
  { rewrite E1 in H1 |- *.
    apply (h_payload s1 s2 p1 q1 _ H1 eq_refl F2).
    intros y Hy. cbn [baddr bsize] in Hy. apply Mfr. lia. }
  assert (L2 : last_ok s2 bl1).
  { apply (last_ok_keep s1 s2 bl1 bl1 L1);
      [apply (sf_last _ _ F2)|apply (sf_he _ _ F2)|reflexivity]. }
  assert (Hold : In (mkBlock a sz Used) bl1).
  { apply K1. apply in_or_app. right. now left. }
  assert (Hna : np - 4 <> a).
  { intros E. apply (Fr1 sz). rewrite E. apply in_or_app. right. now left. }
  pose proof (h_tiles _ _ H1) as Tb1.
  destruct (in_split _ _ Hold) as (p2 & q2 & E2).
  rewrite E2 in H2, P1, L2.
  destruct (free_full s2 p2 q2 a sz H2 P1 L2)
    as (pre' & post' & fa & fsz & H' & P' & L' & Kf1 & Kf2 & KPf & Fa1 & Fa2
        & Q1 & Q2 & Q3 & Q4).
  rewrite E2 in Tb1.
  (* allocated blocks of the old heap other than the moved one *)
  assert (Hctx : forall x szx, In (mkBlock x szx Used) (pre ++ post) ->
            In (mkBlock x szx Used) (p2 ++ q2) /\ x <> np - 4
            /\ In (mkBlock x szx Used) (pre ++ mkBlock a sz Used :: post)).
  { intros x szx Hx.
    apply (in_mid_other pre post (mkBlock a sz Used) _ _ _ T) in Hx.
    destruct Hx as (Hx & Hxa). cbn [baddr] in Hxa.
    split; [|split; [|exact Hx]].
    - apply (in_mid_other p2 q2 (mkBlock a sz Used) _ _ _ Tb1).
      split; [rewrite <- E2; apply K1; exact Hx|exact Hxa].
    - intros ->. exact (Fr1 szx Hx). }
  assert (Hnew : In (mkBlock (np - 4) szn Used) (p2 ++ q2)).
  { apply (in_mid_other p2 q2 (mkBlock a sz Used) _ _ _ Tb1).
    split; [rewrite <- E2; exact Hin|exact Hna]. }
  split.
  - exists (pre' ++ mkBlock fa fsz OnList :: post').
    split; [exact H'|]. split; [exact P'|]. split; [exact L'|].
    split.
    { intros x szx Hx. destruct (Hctx x szx Hx) as (Hx2 & _).
      apply Kf1 in Hx2. apply in_app_or in Hx2. apply in_or_app.
      destruct Hx2; [now left|right; now right]. }
    split.
    { intros x szx y Hx Hy. destruct (Hctx x szx Hx) as (Hx2 & Hxn & Hxb).
      rewrite (KPf x szx y Hx2 Hy).
      rewrite Mfr; [exact (KP1 x szx y Hxb Hy)|].
      assert (Hx1 : In (mkBlock x szx Used) (p2 ++ mkBlock a sz Used :: q2)).
      { apply in_app_or in Hx2. apply in_or_app.
        destruct Hx2; [now left|right; now right]. }
      rewrite <- E2 in Hx1.
      destruct (tiles_apart _ _ _ _ _ (h_tiles _ _ H1) Hx1 Hin) as [E|[E|E]];
        [inversion E; contradiction| |]; cbn [baddr bsize] in E; lia. }
    split.
    { intros x szx Hx. apply in_app_or in Hx.
      assert (Hx' : In (mkBlock x szx Used) (pre' ++ post')).
      { apply in_or_app.
        destruct Hx as [Hx|[Hx|Hx]]; [now left|discriminate Hx|now right]. }
      apply Kf2 in Hx'.
      apply (in_mid_other p2 q2 (mkBlock a sz Used) _ _ _ Tb1) in Hx'.
      destruct Hx' as (Hx' & Hxa). cbn [baddr] in Hxa.
      rewrite <- E2 in Hx'.
      destruct (O1 _ _ Hx') as [Hb|Hb]; [left|now right].
      apply (in_mid_other pre post (mkBlock a sz Used) _ _ _ T).
      split; [exact Hb|exact Hxa]. }
    intros _. split.
    { exists szn. split; [|exact Hge].
      apply Kf1 in Hnew. apply in_app_or in Hnew. apply in_or_app.
      destruct Hnew; [now left|right; now right]. }
    intros k Hk1 Hk2.
    rewrite (KPf (np - 4) szn (np - 4 + 4 + k) Hnew) by lia.
    rewrite Mcp by lia.
    replace (a + 4 + (np - 4 + 4 + k - np)) with (a + 4 + k) by lia.
    apply (KP1 a sz); [|lia]. apply in_or_app. right. now left.
  - apply (grows_trans s s1 _ Gr).
    apply grows_anchors.
    + rewrite Q1. apply (sf_hs _ _ F2).
    + rewrite Q2. apply (sf_he _ _ F2).
    + rewrite Q3. apply F2.
    + rewrite Q4. apply F2.
Qed.

(** [realloc] of an allocated block with a nonzero size. *)
Lemma realloc_block_full (fuel : nat) (s : state) (pre post : list block)
      (a sz size p : Z) (s' : state) :
  hcore s (pre ++ mkBlock a sz Used :: post) ->
  public (pre ++ mkBlock a sz Used :: post) ->
  last_ok s (pre ++ mkBlock a sz Used :: post) ->
  0 <= size < 2 ^ 64 -> size <> 0 ->
  realloc fuel s (a + 4) size = Some (p, s') ->
  p mod 16 = 0 /\ grows s s' /\ (p = 0 -> same_heap s s')
  /\ (p <> 0 ->
      resized s s' (pre ++ post) a sz (round_up (wrap64 (size + WSIZE)))
              (p - 4)).
Proof.
  intros H P L Hsize Hnz Hr.
  destruct (h_next _ _ _ _ H ltac:(discriminate)) as (Hsz & Hnx & _).
  destruct (tiles_one _ _ _ _ H) as (T1 & G1 & G2 & G3 & G4 & G5).
  pose proof (h_hdr_at _ _ _ _ H) as (_ & Hused).
  cbn [baddr bsize bst] in *.
  destruct (h_bounds _ _ H) as (B1 & B2 & B3 & B4 & B5).
  assert (Hb : is_block (pre ++ mkBlock a sz Used :: post) a).
  { exists sz, Used. apply in_or_app. right. now left. }
  destruct (h_block_facts _ _ _ H Hb) as (Hpos & _ & _ & _ & Hamod).
  assert (Hp16 : (a + 4) mod 16 = 0) by zmod.
  pose proof P as P0.
  apply public_app in P. destruct P as (Ppre & P).
  apply public_cons in P. destruct P as (_ & Ppost).
  pose proof (asize_cases size Hsize) as Hasz.
  unfold realloc in Hr.
  destruct (Z.eqb_spec (a + 4) 0) as [?|_]; [lia|].
  destruct (Z.eqb_spec size 0) as [?|_]; [contradiction|].
  replace (bt_header (a + 4)) with a in Hr by (unfold bt_header, WSIZE; lia).
  cbv zeta in Hr.
  set (asize := round_up (wrap64 (size + WSIZE))) in *.
  rewrite Hnx, Hsz in Hr.
  assert (Hzero : forall s1, same_heap s s1 ->
            0 mod 16 = 0 /\ grows s s1 /\ (0 = 0 -> same_heap s s1)
            /\ (0 <> 0 -> resized s s1 (pre ++ post) a sz asize (0 - 4))).
  { intros s1 Sh. split; [reflexivity|]. split; [apply grows_same; exact Sh|].
    split; [intros _; exact Sh|intros N; now elim N]. }
  assert (Hown : forall s1,
            keeps_payload (pre ++ mkBlock a sz Used :: post) s s1 ->
            keeps_payload (mkBlock a sz Used :: pre ++ post) s s1).
  { intros s1 KP.
    apply (keeps_payload_mono (mkBlock a sz Used :: pre ++ post)
                              (pre ++ mkBlock a sz Used :: post) s s1);
      [sub_used|exact KP]. }
  assert (Hdone : forall s1,
            resized s s1 (pre ++ post) a sz asize a /\ grows s s1 ->
            (a + 4) mod 16 = 0 /\ grows s s1 /\ (a + 4 = 0 -> same_heap s s1)
            /\ (a + 4 <> 0 ->
                resized s s1 (pre ++ post) a sz asize (a + 4 - 4))).
  { intros s1 (R & G). split; [exact Hp16|]. split; [exact G|].
    split; [intros; lia|]. intros _.
    replace (a + 4 - 4) with a by lia. exact R. }
  assert (Hmoved : forall fs np s1,
            sz <= fs -> fs < asize -> malloc fuel s size = Some (np, s1) ->
            (if np =? 0 then Some (0, s1)
             else Some (np, free (memcpy s1 np (a + 4) (wrap64 (fs - WSIZE)))
                                 (a + 4))) = Some (p, s') ->
            p mod 16 = 0 /\ grows s s' /\ (p = 0 -> same_heap s s')
            /\ (p <> 0 -> resized s s' (pre ++ post) a sz asize (p - 4))).
  { intros fs np s1 Hfs Hlt Hm Hx.
    destruct (realloc_move_full _ _ _ _ _ _ _ fs _ _ H P0 L Hsize Hfs Hlt Hm)
      as (Hnp16 & Gr1 & Sh1 & Hmove).
    destruct (Z.eqb_spec np 0) as [->|Hnp]; injection Hx as <- <-.
    - exact (Hzero s1 (Sh1 eq_refl)).
    - destruct (Hmove Hnp) as (R & G).
      split; [exact Hnp16|]. split; [exact G|].
      split; [intros; contradiction|intros _; exact R]. }
  destruct (next_free_cases _ _ _ _ H ltac:(discriminate) Ppost)
    as [(Hnf & Hpost)|(Hnf & szn & post' & Epost & Hzn)];
    cbn [baddr bsize] in *; rewrite Hnf in Hr.
  - (* the right neighbour is not free *)
    rewrite andb_false_r, orb_false_r in Hr.
    pose proof (change_last_alone _ _ _ _ H L) as Hcl.
    cbn [baddr] in Hcl.
    destruct (Z.ltb_spec sz asize) as [Hlt|Hge].
    + destruct Hcl as [(Ecl & _)|(Ecl & Ep)]; rewrite Ecl in Hr.
      * (* move *)
        destruct (malloc fuel s size) as [[np s1]|] eqn:Hm;
          [|discriminate Hr].
        exact (Hmoved sz np s1 (Z.le_refl sz) Hlt eq_refl Hr).
      * (* grow at the heap end *)
        apply Z.eqb_eq in Ecl. subst post.
        assert (Hc : negb (last s =? 0) && bt_free s (last s) = false).
        { rewrite <- Ecl, Hused. apply andb_false_r. }
        destruct (h_next _ _ _ _ H ltac:(discriminate)) as (_ & _ & _ & He).
        cbn [baddr bsize] in He.
        destruct Hasz as [?|((Ha16 & Ha64) & Hamod16)]; [lia|].
        rewrite (wrap64_small (asize - sz)) in Hr by lia.
        destruct (Z.le_gt_cases (mem_brk s + (asize - sz)) (mem_max_addr s))
          as [Hfit|Hno].
        2:{ destruct (extend_heap_fail s _ Hno) as (s1 & Ex & Sh & _).
            rewrite Ex in Hr. cbn in Hr. injection Hr as <- <-.
            exact (Hzero s1 Sh). }
        pose proof (extend_heap_end_kp s _ (asize - sz) H Hc ltac:(zmod)
                      ltac:(zmod) Hfit) as KP.
        destruct (extend_heap_end s _ (asize - sz) H Hc ltac:(zmod)
                                  ltac:(zmod) Hfit)
          as (s1 & Ex & H1 & S1 & E1 & La1 & Bk1 & X1 & _).
        rewrite Ex in Hr, KP. cbn [snd] in KP.
        destruct (Z.eqb_spec (heap_end s) 0) as [?|_]; [lia|].
        injection Hr as <- <-.
        rewrite app_cons_assoc in H1.
        destruct (realloc_grow_full s s1 pre
                 [mkBlock a sz Used; mkBlock (heap_end s) (asize - sz) Used]
                 (pre ++ []) a sz asize H1 Ppre ltac:(discriminate))
          as (R & A).
        -- simpl. repeat split; lia || zmod.
        -- repeat constructor; discriminate.
        -- rewrite app_nil_r. apply keeps_used_refl.
        -- rewrite app_nil_r. apply keeps_used_refl.
        -- exact (Hown s1 KP).
        -- apply Hdone. split; [exact R|].
           destruct A as (A1 & A2 & A3 & A4). unfold grows.
           rewrite A1, A2, A3, A4. repeat split; try assumption; lia.
    + (* in place *)
      apply let_pair_some in Hr. destruct Hr as (-> & ->).
      apply Hdone.
      apply (realloc_inplace_full s s pre [] post (pre ++ post) a sz sz asize
                                  (a =? last s)); try assumption;
        try reflexivity.
      * constructor.
      * destruct Hasz as [?|((? & _) & ?)]; [now left|right; now split].
      * apply keeps_used_refl.
      * apply keeps_used_refl.
      * apply keeps_payload_refl.
  - (* the right neighbour is free *)
    rewrite andb_true_r, Hzn in Hr. rewrite Epost in H, L.
    pose proof (change_last_merged _ _ _ _ _ H L) as Hcl.
    cbn [baddr] in Hcl.
    pose proof H as H0.
    change (pre ++ mkBlock a sz Used :: mkBlock (a + sz) szn OnList :: post')
      with (pre ++ [mkBlock a sz Used]
                ++ mkBlock (a + sz) szn OnList :: post') in H.
    rewrite app_assoc in H.
    destruct (tiles_one _ _ _ _ H) as (_ & N1 & N2 & N3 & N4 & N5).
    cbn [baddr bsize] in *.
    rewrite (wrap64_small (sz + szn)) in Hr by lia.
    rewrite Epost in Ppost. apply public_cons in Ppost.
    destruct Ppost as (_ & Ppost').
    destruct (Z.ltb_spec (sz + szn) asize) as [Hlt|Hge].
    + destruct Hcl as [(Ecl & _)|(Ecl & Ep & Elast)]; rewrite Ecl in Hr.
      * (* move *)
        destruct (malloc fuel s size) as [[np s1]|] eqn:Hm;
          [|discriminate Hr].
        exact (Hmoved (sz + szn) np s1 ltac:(lia) Hlt eq_refl Hr).
      * (* grow at the heap end, absorbing the free neighbour *)
        subst post'.
        destruct Hasz as [?|((Ha16 & Ha64) & Hamod16)]; [lia|].
        rewrite (wrap64_small (asize - (sz + szn))) in Hr by lia.
        destruct (Z.le_gt_cases (mem_brk s + (asize - (sz + szn)))
                                (mem_max_addr s)) as [Hfit|Hno].
        2:{ destruct (extend_heap_fail s _ Hno) as (s1 & Ex & Sh & _).
            rewrite Ex in Hr. cbn in Hr. injection Hr as <- <-.
            exact (Hzero s1 Sh). }
        pose proof (extend_heap_absorb_kp s _ (a + sz) szn
                      (asize - (sz + szn)) H Elast ltac:(zmod) ltac:(zmod)
                      Hfit) as KP.
        destruct (extend_heap_absorb s _ (a + sz) szn (asize - (sz + szn))
                                     H Elast ltac:(zmod) ltac:(zmod) Hfit)
          as (s1 & Ex & H1 & S1 & E1 & La1 & Bk1 & X1 & _).
        rewrite Ex in Hr, KP. cbn [snd] in KP.
        destruct (Z.eqb_spec (a + sz) 0) as [?|_]; [lia|].
        injection Hr as <- <-.
        rewrite <- app_assoc in H1. cbn [app] in H1.
        destruct (realloc_grow_full s s1 pre
                 [mkBlock a sz Used;
                  mkBlock (a + sz) (szn + (asize - (sz + szn))) Used]
                 (pre ++ post) a sz asize H1 Ppre ltac:(discriminate))
          as (R & A).
        -- simpl. repeat split; lia || zmod.
        -- repeat constructor; discriminate.
        -- rewrite Epost. sub_used.
        -- rewrite Epost. sub_used.
        -- apply (keeps_payload_mono
                    (mkBlock a sz Used :: pre ++ post)
                    ((pre ++ [mkBlock a sz Used])
                       ++ [mkBlock (a + sz) szn OnList]) s s1);
             [rewrite Epost; sub_used|exact KP].
        -- apply Hdone. split; [exact R|].
           destruct A as (A1 & A2 & A3 & A4). unfold grows.
           rewrite A1, A2, A3, A4. repeat split; try assumption; lia.
    + (* in place, over the neighbour *)
      apply let_pair_some in Hr. destruct Hr as (-> & ->).
      destruct (h_delete _ _ _ _ _ H) as (A1 & H1).
      assert (KP1 : keeps_payload (mkBlock a sz Used :: pre ++ post) s
                      (free_list_delete s (a + sz) (get_index szn))).
      { apply (h_delete_kp s (pre ++ [mkBlock a sz Used]) post' _ _ _ H).
        rewrite Epost. sub_used. }
      set (s1 := free_list_delete s (a + sz) (get_index szn)) in *.
      rewrite <- app_assoc in H1. cbn [app] in H1.
      destruct A1 as (A11 & A12 & A13 & A14 & A15).
      apply Hdone.
      apply (realloc_inplace_full s s1 pre [mkBlock (a + sz) szn Unlinked]
                                  post' (pre ++ post) a sz (sz + szn) asize
                                  ((a =? last s) || (a + sz =? last s)));
        try assumption.
      * simpl. repeat split; lia || zmod.
      * constructor; [discriminate|constructor].
      * destruct Hasz as [?|((? & _) & ?)]; [now left|right; now split].
      * destruct Hcl as [Hcl|(E1 & E2 & _)]; [now left|right; now split].
      * rewrite Epost. sub_used.
      * rewrite Epost. sub_used.
Qed.

Lemma resized_heap_ok (s s' : state) (U : list block) (a sz asize b : Z) :
  resized s s' U a sz asize b -> heap_ok s'.
Proof.
  intros (bl' & H & P & L & _). apply heap_ok_iff. exists bl'.
  split; [exact H|split; [exact P|exact L]].
Qed.

Lemma realloc_block_inv (fuel : nat) (s : state) (pre post : list block)
      (a sz size p : Z) (s' : state) :
  hcore s (pre ++ mkBlock a sz Used :: post) ->
  public (pre ++ mkBlock a sz Used :: post) ->
  last_ok s (pre ++ mkBlock a sz Used :: post) ->
  0 <= size < 2 ^ 64 -> size <> 0 ->
  realloc fuel s (a + 4) size = Some (p, s') ->
  p mod 16 = 0 /\ heap_ok s'.
Proof.
  intros H P L Hsize Hnz Hr.
  destruct (realloc_block_full _ _ _ _ _ _ _ _ _ H P L Hsize Hnz Hr)
    as (Hmod & _ & Sh & R).
  split; [exact Hmod|].
  destruct (Z.eq_dec p 0) as [Hp|Hp].
  - apply heap_ok_iff. exists (pre ++ mkBlock a sz Used :: post).
    split; [apply (h_same_heap s); [exact H|exact (Sh Hp)]|].
    split; [exact P|apply (last_ok_same s); [exact L|exact (Sh Hp)]].
  - exact (resized_heap_ok _ _ _ _ _ _ _ (R Hp)).
Qed.

(** * calloc, client stores and all reachable states *)

Lemma calloc_full (fuel : nat) (s : state) (bl : list block)
      (nmemb size p : Z) (s' : state) :
  hcore s bl -> public bl -> last_ok s bl ->
  wrap64 (nmemb * size) <= 2 ^ 64 - 20 ->
  calloc fuel s nmemb size = Some (p, s') ->
  p mod 16 = 0 /\ grows s s' /\ (p = 0 -> same_heap s s')
  /\ exists bl',
      hcore s' bl' /\ public bl' /\ last_ok s' bl' /\ keeps_used bl bl'
      /\ keeps_payload bl s s'
      /\ (forall x sz, In (mkBlock x sz Used) bl' ->
                       In (mkBlock x sz Used) bl \/ x = p - 4)
      /\ (p <> 0 ->
          (exists sz, In (mkBlock (p - 4) sz Used) bl'
                      /\ wrap64 (nmemb * size) + 4 <= sz
                      /\ sz = round_up (wrap64 (nmemb * size) + 4))
          /\ (forall sz0, ~ In (mkBlock (p - 4) sz0 Used) bl)
          /\ forall y, p <= y -> y + 4 <= p + wrap64 (nmemb * size) ->
                       mem s' y = 0).
Proof.
  intros H P L Hb Hc. unfold calloc in Hc.
  pose proof (wrap64_range (nmemb * size)) as Hr.
  set (bytes := wrap64 (nmemb * size)) in *.
  destruct (malloc fuel s bytes) as [[np s1]|] eqn:Hm; [|discriminate Hc].
  destruct (malloc_spec_full _ _ _ _ _ _ H P L Hr Hm)
    as (Hmod & Gr & Sh & bl1 & H1 & P1 & L1 & K1 & N1 & KP1 & O1 & Fr1 & _).
  destruct (Z.eqb_spec np 0) as [->|Hnp]; cbn [negb] in Hc;
    injection Hc as <- <-.
  - split; [reflexivity|]. split; [exact Gr|].
    split; [intros E; exact (proj1 (Sh E))|].
    exists bl1. split; [exact H1|]. split; [exact P1|]. split; [exact L1|].
    split; [exact K1|]. split; [exact KP1|]. split; [exact O1|].
    intros N. now elim N.
  - split; [exact Hmod|].
    destruct (asize_exact bytes ltac:(lia)) as (Hge & H16).
    destruct (N1 Hnp ltac:(lia)) as (szn & Hin & Hle).
    specialize (Fr1 Hnp).
    destruct (in_split _ _ Hin) as (p1 & q1 & E1).
    set (s2 := memset s1 np 0 bytes).
    assert (F2 : same_fields s1 s2) by apply same_fields_set_mem.
    assert (Mfr : forall y, y < np \/ np + bytes <= y -> mem s2 y = mem s1 y).
    { intros y Hy. unfold s2, memset. simpl_state.
      destruct (Z.leb_spec np y); [|reflexivity].
      destruct (Z.ltb_spec y (np + bytes)); [lia|reflexivity]. }
    split.
    { apply (grows_trans s s1 _ Gr). apply grows_anchors; apply F2. }
    split; [intros; contradiction|].
    exists bl1. split.
    { rewrite E1 in H1 |- *.
      apply (h_payload s1 s2 p1 q1 _ H1 eq_refl F2).
      intros y Hy. cbn [baddr bsize] in Hy. apply Mfr. lia. }
    split; [exact P1|]. split.
    { apply (last_ok_keep s1 s2 bl1 bl1 L1);
        [apply (sf_last _ _ F2)|apply (sf_he _ _ F2)|reflexivity]. }
    split; [exact K1|]. split.
    { intros x sz y Hx Hy. rewrite Mfr; [exact (KP1 x sz y Hx Hy)|].
      pose proof (K1 _ _ Hx) as Hx1.
      destruct (tiles_apart _ _ _ _ _ (h_tiles _ _ H1) Hx1 Hin) as [E|[E|E]];
        [inversion E; subst; elim (Fr1 _ Hx)| |];
        cbn [baddr bsize] in E; lia. }
    split; [exact O1|]. intros _.
    split.
    { exists szn. split; [exact Hin|]. split; [lia|].
      destruct (tiles_in _ _ _ _ (h_tiles _ _ H1) Hin) as (_ & _ & _ & Hm16).
      cbn [bsize] in Hm16.
      apply (asize_block bytes szn); [lia|exact Hm16|exact Hle]. }
    split; [exact Fr1|].
    intros y Hy1 Hy2. unfold s2, memset. simpl_state.
    destruct (Z.leb_spec np y); [|lia].
    destruct (Z.ltb_spec y (np + bytes)); [|lia]. cbn [andb].
    destruct (Z.leb_spec (y + 4) (np + bytes)); [reflexivity|lia].
Qed.

Lemma calloc_inv (fuel : nat) (s : state) (bl : list block)
      (nmemb size p : Z) (s' : state) :
  hcore s bl -> public bl -> last_ok s bl ->
  wrap64 (nmemb * size) <= 2 ^ 64 - 20 ->
  calloc fuel s nmemb size = Some (p, s') ->
  p mod 16 = 0 /\ heap_ok s'.
Proof.
  intros H P L Hb Hc.
  destruct (calloc_full _ _ _ _ _ _ _ H P L Hb Hc)
    as (Hmod & _ & _ & bl' & H1 & P1 & L1 & _).
  split; [exact Hmod|]. apply heap_ok_iff. exists bl'.
  split; [exact H1|split; [exact P1|exact L1]].
Qed.

(** A store into the payload of an allocated block. *)
Lemma store_inv (s : state) (ptr a v : Z) :
  heap_ok s -> allocated s ptr = true ->
  ptr <= a < ptr + bt_size s (bt_header ptr) - 4 ->
  heap_ok (set_mem s (upd (mem s) a v)).
Proof.
  intros (bl & fl & C & P & L) Ha Hr.
  destruct (allocated_inv _ _ _ _ C P Ha) as (pre & sz & post & E).
  assert (H : hcore s bl) by (exists fl; exact C).
  rewrite E in H.
  destruct (h_next _ _ _ _ H ltac:(discriminate)) as (Hsz & _).
  cbn [baddr bsize] in Hsz. unfold bt_header, WSIZE in Hr.
  rewrite Hsz in Hr.
  set (s2 := set_mem s (upd (mem s) a v)).
  assert (F2 : same_fields s s2) by apply same_fields_set_mem.
  apply heap_ok_iff. exists bl. split; [|split; [exact P|]].
  - rewrite E.
    apply (h_payload s s2 pre post _ H eq_refl F2).
    intros y Hy. cbn [baddr bsize] in Hy. unfold s2, upd. simpl_state.
    destruct (Z.eqb_spec y a); [lia|reflexivity].
  - apply (last_ok_keep s s2 bl bl L);
      [apply (sf_last _ _ F2)|apply (sf_he _ _ F2)|reflexivity].
Qed.

(** Every public call keeps the invariant and returns an aligned pointer. *)
Lemma do_call_inv (fuel : nat) (s : state) (c : call) (p : Z) (s' : state) :
  heap_ok s -> valid_call s c -> do_call fuel s c = Some (p, s') ->
  p mod 16 = 0 /\ heap_ok s'.
Proof.
  intros (bl & fl & C & P & L) V Hc.
  assert (H : hcore s bl) by (exists fl; exact C).
  assert (Hok : heap_ok s) by (exists bl, fl; exact (conj C (conj P L))).
  destruct c as [size|ptr|ptr size|nmemb size]; cbn [do_call valid_call] in *.
  - destruct (malloc_spec _ _ _ _ _ _ H P L V Hc)
      as (Hmod & bl1 & H1 & P1 & L1 & _).
    split; [exact Hmod|]. apply heap_ok_iff. exists bl1.
    repeat split; assumption.
  - injection Hc as <- <-. split; [reflexivity|].
    destruct V as [->|Ha]; [exact Hok|].
    destruct (allocated_inv _ _ _ _ C P Ha) as (pre & sz & post & E).
    rewrite E in H, P, L.
    replace ptr with (ptr - 4 + 4) by lia.
    exact (free_inv s pre post (ptr - 4) sz H P L).
  - destruct V as (Vp & Vs).
    destruct Vp as [->|Ha].
    + unfold realloc in Hc. cbn in Hc.
      destruct (malloc_spec _ _ _ _ _ _ H P L Vs Hc)
        as (Hmod & bl1 & H1 & P1 & L1 & _).
      split; [exact Hmod|]. apply heap_ok_iff. exists bl1.
      repeat split; assumption.
    + destruct (allocated_inv _ _ _ _ C P Ha) as (pre & sz & post & E).
      rewrite E in H, P, L.
      remember (ptr - 4) as a eqn:Ea.
      assert (Eq : ptr = a + 4) by lia.
      clear Ea Ha. subst ptr.
      destruct (Z.eq_dec size 0) as [->|Hnz].
      * unfold realloc, malloc in Hc. rewrite Z.eqb_refl in Hc.
        destruct (a + 4 =? 0); injection Hc as <- <-.
        -- split; [reflexivity|exact Hok].
        -- split; [reflexivity|].
           exact (free_inv s pre post a sz H P L).
      * exact (realloc_block_inv _ _ _ _ _ _ _ _ _ H P L Vs Hnz Hc).
  - destruct V as (_ & _ & Vb).
    exact (calloc_inv _ _ _ _ _ _ _ H P L Vb Hc).
Qed.

(** The invariant holds in every reachable state. *)
Lemma reachable_heap_ok (s : state) : reachable s -> heap_ok s.
Proof.
  induction 1 as [s0 s Hf Hi|s c fuel r s' _ IH V Hc|s ptr a v _ IH Ha Hr _].
  - exists [], (fun _ => []). exact (mm_init_inv _ _ Hf Hi).
  - exact (proj2 (do_call_inv _ _ _ _ _ IH V Hc)).
  - exact (store_inv _ _ _ _ IH Ha Hr).
Qed.

(** Every public call returns once the scan has enough fuel. *)
Lemma do_call_total (fuel : nat) (s : state) (bl : list block)
      (fl : Z -> list Z) (c : call) :
  core s bl fl -> (enough_fuel fl <= fuel)%nat ->
  exists p s', do_call fuel s c = Some (p, s').
Proof.
  intros C Hf.
  assert (Hm : forall size, exists p s', malloc fuel s size = Some (p, s')).
  { intros size. destruct (malloc_total fuel s bl fl size C Hf) as ([p s'] & E).
    exists p, s'. exact E. }
  destruct c as [size|ptr|ptr size|nmemb size]; cbn [do_call].
  - apply Hm.
  - eexists _, _. reflexivity.
  - unfold realloc.
    destruct (ptr =? 0); [apply Hm|].
    destruct (size =? 0); [eexists _, _; reflexivity|].
    cbv zeta.
    destruct (_ <? _).
    + destruct (_ || _).
      * destruct (extend_heap s _) as [r s1].
        destruct (r =? 0); eexists _, _; reflexivity.
      * destruct (Hm size) as (np & s1 & ->).
        destruct (np =? 0); eexists _, _; reflexivity.
    + destruct (if ALIGNMENT <=? _ then _ else _) as [bp s2].
      eexists _, _. reflexivity.
  - unfold calloc. destruct (Hm (wrap64 (nmemb * size))) as (np & s1 & ->).
    destruct (negb (np =? 0)); eexists _, _; reflexivity.
Qed.

(** ** The example heaps are reachable *)

Lemma heap0_reachable : reachable heap0.
Proof.
  apply (reach_init fresh_heap heap0).
  - unfold fresh. vm_compute. repeat split; intros E; discriminate E.
  - unfold heap0. rewrite (surjective_pairing (mm_init fresh_heap)) at 1.
    f_equal.
Qed.

Lemma after_reachable (s : state) (c : call) :
  reachable s -> valid_call s c -> do_call 64 s c <> None ->
  reachable (after s c).
Proof.
  intros R V N. unfold after.
  destruct (do_call 64 s c) as [[p s']|] eqn:E; [|contradiction].
  exact (reach_call s c 64 p s' R V E).
Qed.

Ltac run_call :=
  apply after_reachable;
  [ | first [ right; vm_compute; reflexivity
            | split; [right; vm_compute; reflexivity
                     |vm_compute; split; [intros E; discriminate E|reflexivity]]
            | vm_compute; split; [intros E; discriminate E|reflexivity] ]
    | vm_compute; intros E; discriminate E ].

Lemma heap_tail_free_reachable : reachable heap_tail_free.
Proof. unfold heap_tail_free. do 2 run_call. exact heap0_reachable. Qed.

Lemma heap_ab_reachable : reachable heap_ab.
Proof. unfold heap_ab. do 3 run_call. exact heap0_reachable. Qed.

Lemma heap_ab_grown_reachable : reachable heap_ab_grown.
Proof. unfold heap_ab_grown. run_call. exact heap_ab_reachable. Qed.

Lemma heap_abcd_reachable : reachable heap_abcd.
Proof. unfold heap_abcd. do 5 run_call. exact heap0_reachable. Qed.

(** * Size classes: the claim *)

(** C9, as stated, fails: sizes below 16 fall into class 2, above the class
    of size 16.  The size 0 is one that [mm.c] passes to [get_index]: it is
    the adjusted size that [malloc] computes for a request of [2^64 - 4]
    bytes and hands to [find_fit]. *)
Lemma get_index_not_monotone :
  round_up (wrap64 (2 ^ 64 - 4 + WSIZE)) = 0
  /\ get_index 0 = 2 /\ get_index 16 = 0
  /\ ~ (forall s1 s2 : Z, 0 <= s1 -> s1 <= s2 ->
                          get_index s1 <= get_index s2).
Proof.
  split; [vm_compute; reflexivity|].
  split; [reflexivity|]. split; [reflexivity|].
  intros H.
  assert (E : get_index 0 <= get_index 16) by (apply H; lia).
  change (2 <= 0) in E. lia.
Qed.

(** C9 (amended): [get_index] is monotonic non-decreasing from every size
    that is 16 or at least 32 (so on all block sizes, which are multiples of
    16), and it agrees with the size-class table of the spec; every size
    below 16 and every size between 16 and 32 falls into class 2. *)
Theorem get_index_classes :
  (forall s1 s2 : Z,
      s1 = 16 \/ 32 <= s1 -> s1 <= s2 -> get_index s1 <= get_index s2)
  /\ get_index 16 = 0
  /\ get_index 32 = 1
  /\ (forall s, 32 < s <= 64 -> get_index s = 2)
  /\ (forall s, 64 < s <= 128 -> get_index s = 3)
  /\ (forall s, 128 < s <= 256 -> get_index s = 4)
  /\ (forall s, 256 < s <= 512 -> get_index s = 5)
  /\ (forall s, 512 < s <= 1024 -> get_index s = 6)
  /\ (forall s, 1024 < s <= 2048 -> get_index s = 7)
  /\ (forall s, 2048 < s -> get_index s = 8)
  /\ (forall s, s < 16 \/ 16 < s < 32 -> get_index s = 2).
Proof.
  split; [exact get_index_mono|].
  repeat split; try reflexivity; intros s Hs; case_get_index; lia.
Qed.

Lemma get_index_classes_witness :
  get_index 48 <= get_index 4096 /\ get_index 100 = 3 /\ get_index 20 = 2.
Proof.
  destruct get_index_classes
    as (Hm & _ & _ & _ & H3 & _ & _ & _ & _ & _ & Hlow).
  split; [apply Hm; lia|]. split; [apply H3; lia|apply Hlow; lia].
Defined.

(** * Physical-next lookup *)

Lemma bt_next_inside (s : state) (h : Z) :
  h + bt_size s h <= heap_end s -> bt_next s h = h + bt_size s h.
Proof.
  intros H. unfold bt_next. destruct (Z.leb_spec (h + bt_size s h) (heap_end s)); lia.
Qed.

Lemma bt_next_outside (s : state) (h : Z) :
  heap_end s < h + bt_size s h -> bt_next s h = 0.
Proof.
  intros H. unfold bt_next. destruct (Z.leb_spec (h + bt_size s h) (heap_end s)); lia.
Qed.

(** C7, as stated, fails: the block of [heap_ab] at 4220 ends exactly at
    [heap_end], and its physical-next lookup yields the epilogue. *)
Lemma bt_next_at_heap_end_not_none :
  ~ (forall (s : state) (h : Z),
        heap_end s <= h + bt_size s h -> bt_next s h = 0).
Proof.
  intros H.
  assert (E : bt_next heap_ab 4220 = 0).
  { apply H. vm_compute. discriminate. }
  vm_compute in E. discriminate E.
Qed.

(** C7 (amended): [bt_next h] is none exactly when [h + size] lies strictly
    beyond [heap_end]; when it meets [heap_end] the lookup yields [heap_end]
    itself, the address of the epilogue header. *)
Theorem bt_next_spec (s : state) (h : Z) :
  (heap_end s < h + bt_size s h -> bt_next s h = 0)
  /\ (h + bt_size s h <= heap_end s -> bt_next s h = h + bt_size s h)
  /\ (h + bt_size s h = heap_end s -> bt_next s h = heap_end s).
Proof.
  split; [apply bt_next_outside|].
  split; [apply bt_next_inside|].
  intros H. rewrite bt_next_inside; lia.
Qed.

Lemma bt_next_spec_witness :
  bt_next heap_ab 4220 = heap_end heap_ab
  /\ bt_next heap_ab 4188 = 4188 + bt_size heap_ab 4188.
Proof.
  destruct (bt_next_spec heap_ab 4220) as (_ & _ & H3).
  destruct (bt_next_spec heap_ab 4188) as (_ & H2 & _).
  split.
  - apply H3. vm_compute. reflexivity.
  - apply H2. vm_compute. discriminate.
Defined.

(** * Fit search: the claim *)

Lemma heap_s4_chain :
  chain heap_s4 (segregated_list heap_s4 2) [1004; 1068; 1116].
Proof. vm_compute. repeat split; discriminate. Qed.

Lemma heap_s4_sizes :
  bt_size heap_s4 1004 = 64 /\ bt_size heap_s4 1068 = 48
  /\ bt_size heap_s4 1116 = 80.
Proof. vm_compute. repeat split. Qed.

(** C2, as stated, fails: for the adjusted size 0, which [malloc] computes
    for the request [2^64 - 4], the scan starts at bucket 2; in [heap_ab] it
    returns none although bucket 1 holds the free block at 4188, whose size
    32 is at least 0. *)
Lemma find_fit_misses_lower_bucket :
  reachable heap_ab
  /\ valid_call heap_ab (Malloc (2 ^ 64 - 4))
  /\ round_up (wrap64 (2 ^ 64 - 4 + WSIZE)) = 0
  /\ get_index 0 = 2
  /\ find_fit 64 heap_ab 0 = Some 0
  /\ chain heap_ab (segregated_list heap_ab 1) [4188]
  /\ bt_free heap_ab 4188 = true
  /\ bt_size heap_ab 4188 = 32
  /\ 0 <= bt_size heap_ab 4188.
Proof.
  split; [exact heap_ab_reachable|].
  split; [cbn [valid_call]; lia|].
  vm_compute. repeat split; intros H; discriminate H.
Qed.

(** C2 (amended): [find_fit asize] scans the buckets from [get_index asize]
    upwards; in the first of them that holds a block of size at least
    [asize] it returns the smallest such block of that bucket; it returns
    none iff no scanned bucket holds such a block, which under the bucket
    classification I6 and for an adjusted size that is 16 or at least 32
    means that no bucket at all does.  With 64, 48 and 80 bytes on one
    bucket, a request of 48 picks the 48-byte block. *)
Theorem find_fit_best_fit :
  (forall (s : state) (asize : Z) (bk : Z -> list Z) (fuel : nat),
      (forall i, 0 <= i < NUM_LIST ->
                 chain s (segregated_list s i) (bk i)) ->
      (forall i, 0 <= i < NUM_LIST -> (length (bk i) < fuel)%nat) ->
      exists r,
        find_fit fuel s asize = Some r
        /\ (r <> 0 ->
            exists i,
              get_index asize <= i < NUM_LIST
              /\ In r (bk i)
              /\ asize <= bt_size s r
              /\ (forall b, In b (bk i) -> asize <= bt_size s b ->
                            bt_size s r <= bt_size s b)
              /\ (forall j b, get_index asize <= j < i -> In b (bk j) ->
                              bt_size s b < asize))
        /\ (r = 0 <->
            forall i b, get_index asize <= i < NUM_LIST -> In b (bk i) ->
                        bt_size s b < asize)
        /\ (asize = 16 \/ 32 <= asize ->
            (forall i b, 0 <= i < NUM_LIST -> In b (bk i) ->
                         get_index (bt_size s b) = i) ->
            (r = 0 <->
             forall i b, 0 <= i < NUM_LIST -> In b (bk i) ->
                         bt_size s b < asize)))
  /\ (chain heap_s4 (segregated_list heap_s4 2) [1004; 1068; 1116]
      /\ bt_size heap_s4 1004 = 64 /\ bt_size heap_s4 1068 = 48
      /\ bt_size heap_s4 1116 = 80
      /\ find_fit 64 heap_s4 48 = Some 1068).
Proof.
  split.
  - intros s asize bk fuel Hc Hl.
    pose proof (get_index_range asize) as Hgi.
    destruct (find_fit_loop_spec s asize bk fuel
                (Z.to_nat (NUM_LIST - get_index asize)) (get_index asize))
      as (r & Hr & Hz & Hnz).
    { intros i Hi. split; [apply Hc|apply Hl]; lia. }
    rewrite Z2Nat.id in Hz, Hnz by lia.
    replace (get_index asize + (NUM_LIST - get_index asize)) with NUM_LIST
      in Hz, Hnz by lia.
    exists r. split; [exact Hr|]. split; [exact Hnz|]. split; [exact Hz|].
    intros Ha Hcls. rewrite Hz. split.
    + intros Hall i b Hi Hin.
      destruct (Z.lt_ge_cases i (get_index asize)) as [Hlt|Hge].
      * apply get_index_lt_size; [assumption|].
        rewrite (Hcls i b Hi Hin). assumption.
      * apply (Hall i b); [lia|assumption].
    + intros Hall i b Hi Hin. apply (Hall i b); [lia|assumption].
  - split; [exact heap_s4_chain|].
    destruct heap_s4_sizes as (H1 & H2 & H3).
    split; [assumption|]. split; [assumption|]. split; [assumption|].
    vm_compute. reflexivity.
Qed.

Lemma find_fit_best_fit_witness :
  exists r, find_fit 64 heap_s4 64 = Some r /\ r <> 0.
Proof.
  destruct find_fit_best_fit as (H & _).
  destruct (H heap_s4 64
              (fun i => if i =? 2 then [1004; 1068; 1116] else []) 64%nat)
    as (r & Hr & _ & Hz & _).
  - intros i Hi. unfold NUM_LIST in Hi.
    assert (Hcases : i = 0 \/ i = 1 \/ i = 2 \/ i = 3 \/ i = 4 \/ i = 5
                     \/ i = 6 \/ i = 7 \/ i = 8) by lia.
    destruct Hcases as [->|[->|[->|[->|[->|[->|[->|[->| ->]]]]]]]];
      vm_compute; repeat split; try discriminate.
  - intros i Hi. destruct (i =? 2); simpl; lia.
  - exists r. split; [exact Hr|].
    intros Hr0. rewrite Hr0 in Hz.
    pose proof (proj1 Hz eq_refl 2 1004) as Hbad.
    assert (Hlt : bt_size heap_s4 1004 < 64).
    { apply Hbad; [vm_compute; split; [intros E; discriminate E|reflexivity]
                  |left; reflexivity]. }
    vm_compute in Hlt. discriminate Hlt.
Defined.

(** * Out of memory in realloc: the claim *)

(** C6: when the sbrk provider refuses the request made by
    [realloc(ptr, size)] ([ptr] non-null, [size] non-zero), [realloc]
    returns null and every part of the state is as before the call. *)
Theorem realloc_oom (fuel : nat) (s : state) (ptr size r : Z) (s' : state) :
  ptr <> 0 -> size <> 0 ->
  realloc fuel s ptr size = Some (r, s') ->
  (exists k, sbrk_log s' = (k, false) :: sbrk_log s) ->
  r = 0 /\ same_heap s s'.
Proof.
  intros Hp Hn H [k Hk].
  unfold realloc in H.
  destruct (Z.eqb_spec ptr 0); [contradiction|].
  destruct (Z.eqb_spec size 0); [contradiction|].
  match type of H with
  | (if ?c then _ else _) = _ => destruct c
  end.
  - match type of H with
    | (if ?c then _ else _) = _ => destruct c
    end.
    + match type of H with
      | context [extend_heap s ?k] =>
          destruct (extend_heap s k) as [r1 s1] eqn:E;
          pose proof (extend_heap_log _ _ _ _ E) as [Hl|(Hl & Hr & Hs)]
      end.
      * exfalso. destruct (r1 =? 0); inversion H; subst; simpl in Hk;
          rewrite ?bt_make_log in Hk; congruence.
      * subst r1. simpl in H. inversion H; subst. split; [reflexivity|assumption].
    + destruct (malloc fuel s size) as [[new_ptr s1]|] eqn:E; [|discriminate].
      pose proof (malloc_log _ _ _ _ _ E) as [Hl|[[k' Hl]|(k' & Hl & Hr & Hs)]].
      * exfalso. destruct (new_ptr =? 0); inversion H; subst;
          rewrite ?free_log in Hk; simpl in Hk; rewrite Hl in Hk;
          exact (cons_neq_self _ _ Hk).
      * exfalso. destruct (new_ptr =? 0); inversion H; subst;
          rewrite ?free_log in Hk; simpl in Hk; congruence.
      * subst new_ptr. simpl in H. inversion H; subst.
        split; [reflexivity|assumption].
  - exfalso. cbv zeta in H.
    assert (Hl : forall c : bool,
               sbrk_log (if c then free_list_delete s (bt_next s (bt_header ptr))
                                     (get_index (bt_size s (bt_next s (bt_header ptr))))
                         else s) = sbrk_log s).
    { intros []; [apply free_list_delete_log|reflexivity]. }
    match type of H with
    | context [if ALIGNMENT <=? ?x then _ else _] =>
        destruct (ALIGNMENT <=? x)
    end; cbv beta iota in H; inversion H; subst; clear H;
      match type of Hk with
      | context [sbrk_log (if ?c then _ else _)] => destruct c
      end;
      rewrite ?set_last_log, ?free_list_append_log, ?bt_make_log, Hl in Hk;
      exact (cons_neq_self _ _ Hk).
Qed.

Lemma heap_full_realloc :
  realloc 64 heap_full 4192 100
  = Some (result heap_full (Realloc 4192 100),
          after heap_full (Realloc 4192 100)).
Proof.
  unfold result, after, do_call.
  destruct (realloc 64 heap_full 4192 100) as [[r s']|] eqn:E;
    [reflexivity|].
  exfalso. vm_compute in E. discriminate E.
Qed.

Lemma realloc_oom_witness :
  result heap_full (Realloc 4192 100) = 0
  /\ same_heap heap_full (after heap_full (Realloc 4192 100)).
Proof.
  apply (realloc_oom 64 heap_full 4192 100).
  - intros E; discriminate E.
  - intros E; discriminate E.
  - exact heap_full_realloc.
  - exists 80. vm_compute. reflexivity.
Defined.

(** * Runs on concrete heaps *)

(** C4 (the code departs from it): in [heap_ab] the block at 4220 is the
    last block, is allocated and carries PREVFREE because the block at 4188
    is free, and I3 holds.  Growing it with [realloc] at the heap end
    rewrites its header with [USED] alone: afterwards the block at 4188 is
    still free, the PREVFREE bit of the block at 4220 is clear, and I3 is
    broken. *)
Theorem realloc_grow_at_end_drops_prevfree :
  reachable heap_ab
  /\ allocated heap_ab 4224 = true
  /\ heap_blocks heap_ab = [4188; 4220]
  /\ bt_free heap_ab 4188 = true
  /\ bt_get_prevfree heap_ab 4220 = PREVFREE
  /\ prevfree_ok heap_ab = true
  /\ result heap_ab (Realloc 4224 100) = 4224
  /\ heap_blocks heap_ab_grown = [4188; 4220]
  /\ bt_free heap_ab_grown 4188 = true
  /\ bt_get_prevfree heap_ab_grown 4220 = 0
  /\ prevfree_ok heap_ab_grown = false.
Proof. split; [exact heap_ab_reachable|]. vm_compute. repeat split. Qed.

(** C3 (the code departs from it): after the same [realloc], I4 still holds
    and the block at 4220 is allocated; freeing it does not merge it with its
    free left neighbour, and two adjacent free blocks remain. *)
Theorem free_after_grow_leaves_adjacent_free :
  reachable heap_ab_grown
  /\ no_adjacent_free heap_ab_grown = true
  /\ allocated heap_ab_grown 4224 = true
  /\ heap_blocks heap_ab_freed = [4188; 4220]
  /\ bt_next heap_ab_freed 4188 = 4220
  /\ bt_free heap_ab_freed 4188 = true
  /\ bt_free heap_ab_freed 4220 = true
  /\ no_adjacent_free heap_ab_freed = false.
Proof. split; [exact heap_ab_grown_reachable|]. vm_compute. repeat split. Qed.

(** C5 (the code departs from it): in [heap_abcd] the block at 4220 has size
    32 and its right neighbour at 4252 is free with size 32, and is not the
    last block.  [realloc] to 200 bytes moves the payload to a new block at
    4316; the bytes copied are not the 28 payload bytes of the old block but
    60 bytes, the old payload and the free neighbour up to its footer: the
    words of the new payload at offsets 28, 32, 36 and 56, which were 0
    before the call, now hold the neighbour's header, links and footer. *)
Theorem realloc_move_copies_free_neighbour :
  reachable heap_abcd
  /\ allocated heap_abcd 4224 = true
  /\ bt_size heap_abcd 4220 = 32
  /\ bt_next heap_abcd 4220 = 4252
  /\ bt_free heap_abcd 4252 = true
  /\ bt_size heap_abcd 4252 = 32
  /\ result heap_abcd (Realloc 4224 200) = 4320
  /\ map (mem heap_abcd) [4252; 4256; 4260; 4280] = [32; -1; -1; 32]
  /\ map (fun k => mem heap_abcd (4320 + k)) [28; 32; 36; 56; 60]
     = [0; 0; 0; 0; 0]
  /\ map (fun k => mem heap_abcd_moved (4320 + k)) [28; 32; 36; 56; 60]
     = [32; -1; -1; 32; 0].
Proof. split; [exact heap_abcd_reachable|]. vm_compute. repeat split. Qed.

(** C10, as stated, fails for the adjusted size 0, which [malloc] computes
    for the request [2^64 - 4]: in [heap_tail_free] the search finds nothing
    although the free last block has size 32, and the request sent to the
    provider wraps around to [2^64 - 32]. *)
Lemma find_fit_none_for_zero_size :
  reachable heap_tail_free
  /\ valid_call heap_tail_free (Malloc (2 ^ 64 - 4))
  /\ round_up (wrap64 (2 ^ 64 - 4 + WSIZE)) = 0
  /\ 0 mod 16 = 0
  /\ find_fit 64 heap_tail_free 0 = Some 0
  /\ heap_blocks heap_tail_free = [4188]
  /\ last heap_tail_free = 4188
  /\ bt_free heap_tail_free 4188 = true
  /\ bt_size heap_tail_free 4188 = 32
  /\ ~ bt_size heap_tail_free 4188 < 0
  /\ sbrk_log (after heap_tail_free (Malloc (2 ^ 64 - 4)))
     = (2 ^ 64 - 32, false) :: sbrk_log heap_tail_free.
Proof.
  split; [exact heap_tail_free_reachable|].
  split; [cbn [valid_call]; lia|].
  vm_compute. repeat split. intros H; discriminate H.
Qed.

(** * Claims that rest on the heap invariant *)

(** ** Alignment of returned pointers *)

(** C1, as stated, fails: a request of [2^64 - 4] bytes on [heap_free64],
    whose adjusted size wraps around to 0, returns the non-null pointer 4192
    into a block that stays free and on its bucket list.  After the client
    has written four words through that pointer, [malloc 40] follows the
    overwritten link to the address 4196 and returns 4200, which is 8
    modulo 16. *)
Lemma malloc_after_wrapped_request_misaligned :
  reachable heap_free64
  /\ valid_call heap_free64 (Malloc (2 ^ 64 - 4))
  /\ round_up (wrap64 (2 ^ 64 - 4 + WSIZE)) = 0
  /\ result heap_free64 (Malloc (2 ^ 64 - 4)) = 4192
  /\ reachable heap_wrapped
  /\ allocated heap_wrapped 4192 = false
  /\ bt_free heap_wrapped (bt_header 4192) = true
  /\ segregated_list heap_wrapped 2 = bt_header 4192
  /\ valid_call heap_scribbled (Malloc 40)
  /\ (exists s', do_call 64 heap_scribbled (Malloc 40) = Some (4200, s'))
  /\ 4200 mod 16 = 8.
Proof.
  assert (R : reachable heap_free64).
  { unfold heap_free64. do 2 run_call. exact heap0_reachable. }
  split; [exact R|].
  split; [cbn [valid_call]; lia|].
  split; [vm_compute; reflexivity|].
  split; [vm_compute; reflexivity|].
  split; [unfold heap_wrapped; run_call; exact R|].
  split; [vm_compute; reflexivity|].
  split; [vm_compute; reflexivity|].
  split; [vm_compute; reflexivity|].
  split; [cbn [valid_call]; lia|].
  split; [|reflexivity].
  exists (after heap_scribbled (Malloc 40)).
  assert (E : result heap_scribbled (Malloc 40) = 4200)
    by (vm_compute; reflexivity).
  unfold result, after in *.
  destruct (do_call 64 heap_scribbled (Malloc 40)) as [[p s']|];
    [rewrite E; reflexivity|discriminate E].
Qed.

(** C1 (amended): in every state reached after a successful [mm_init] by
    calls of a client that passes null or allocated pointers and writes into
    allocated blocks only, every public call returns (given fuel for the
    bucket scan), and the pointer it returns, null included, is congruent to
    0 modulo 16; this covers [malloc], [calloc] and [realloc] on all their
    paths. *)
Theorem returned_pointer_aligned (s : state) (c : call) :
  reachable s -> valid_call s c ->
  (exists fuel0, forall fuel, (fuel0 <= fuel)%nat ->
     exists p s', do_call fuel s c = Some (p, s'))
  /\ (forall fuel p s', do_call fuel s c = Some (p, s') -> p mod 16 = 0).
Proof.
  intros R V. pose proof (reachable_heap_ok s R) as Hok. split.
  - destruct Hok as (bl & fl & C & _). exists (enough_fuel fl).
    intros fuel Hf. exact (do_call_total fuel s bl fl c C Hf).
  - intros fuel p s' Hc. exact (proj1 (do_call_inv _ _ _ _ _ Hok V Hc)).
Qed.

Lemma returned_pointer_aligned_witness :
  (exists fuel0, forall fuel, (fuel0 <= fuel)%nat ->
     exists p s', do_call fuel heap_ab (Realloc 4224 100) = Some (p, s'))
  /\ (forall fuel p s',
        do_call fuel heap_ab (Realloc 4224 100) = Some (p, s') ->
        p mod 16 = 0).
Proof.
  apply (returned_pointer_aligned heap_ab (Realloc 4224 100)).
  - exact heap_ab_reachable.
  - split; [right; vm_compute; reflexivity|].
    vm_compute. split; [intros E; discriminate E|reflexivity].
Defined.

(** ** The miss path of malloc *)

(** The miss path of [malloc] when the block that [last] points at is free. *)
Lemma malloc_extend_absorbs_tail (fuel : nat) (s : state) (size : Z) :
  reachable s -> 0 < size < 2 ^ 64 ->
  find_fit fuel s (round_up (wrap64 (size + WSIZE))) = Some 0 ->
  last s <> 0 -> bt_free s (last s) = true ->
  exists p s' ok,
    malloc fuel s size = Some (p, s')
    /\ sbrk_log s'
       = (wrap64 (round_up (wrap64 (size + WSIZE)) - bt_size s (last s)), ok)
           :: sbrk_log s
    /\ (round_up (wrap64 (size + WSIZE)) <> 0 ->
        bt_size s (last s) < round_up (wrap64 (size + WSIZE))
        /\ wrap64 (round_up (wrap64 (size + WSIZE)) - bt_size s (last s))
           = round_up (wrap64 (size + WSIZE)) - bt_size s (last s))
    /\ (ok = true ->
        p = last s + 4 /\ last s' = last s
        /\ bt_size s' (last s) = round_up (wrap64 (size + WSIZE))
        /\ bt_free s' (last s) = false
        /\ heap_end s' = last s + round_up (wrap64 (size + WSIZE)))
    /\ (ok = false -> p = 0 /\ same_heap s s').
Proof.
  intros R Hsize Hff Hl0 Hlf.
  destruct (reachable_heap_ok s R) as (bl & fl & C & P & L).
  assert (H : hcore s bl) by (exists fl; exact C).
  assert (Hc : negb (last s =? 0) && bt_free s (last s) = true).
  { rewrite Hlf. destruct (Z.eqb_spec (last s) 0); [contradiction|].
    reflexivity. }
  destruct (last_free_inv _ _ H P L Hc) as (pre & szl & Ebl).
  rewrite Ebl in H.
  destruct (last_free_true _ _ _ _ H eq_refl) as (_ & Hz).
  destruct (tiles_one _ _ _ _ H) as (_ & G1 & G2 & G3 & G4 & G5).
  destruct (h_next _ _ _ _ H ltac:(discriminate)) as (_ & _ & _ & Hend).
  cbn [baddr bsize] in *.
  destruct (h_bounds _ _ H) as (B1 & B2 & B3 & B4 & B5).
  destruct (find_fit_core _ _ _ _ _ _ C Hff) as (_ & Hmiss).
  specialize (Hmiss eq_refl).
  assert (Hsz0 : 0 <= size < 2 ^ 64) by lia.
  pose proof (asize_cases size Hsz0) as Hasz.
  unfold malloc.
  destruct (Z.eqb_spec size 0) as [?|_]; [lia|].
  rewrite Hff. cbn [Z.eqb negb]. rewrite Hc, Hz.
  set (asize := round_up (wrap64 (size + WSIZE))) in *.
  assert (Hrefused : forall k, mem_max_addr s < mem_brk s + k ->
            exists p s' ok,
              (let '(block_ptr, s1) := extend_heap s k in
               if block_ptr =? 0 then Some (0, s1)
               else Some (bt_payload block_ptr, s1)) = Some (p, s')
              /\ sbrk_log s' = (k, ok) :: sbrk_log s
              /\ (ok = true ->
                  p = last s + 4 /\ last s' = last s
                  /\ bt_size s' (last s) = asize
                  /\ bt_free s' (last s) = false
                  /\ heap_end s' = last s + asize)
              /\ (ok = false -> p = 0 /\ same_heap s s')).
  { intros k Hk.
    destruct (extend_heap_fail s k Hk) as (s1 & Ex & Sh & Lg).
    exists 0, s1, false. rewrite Ex. cbn [Z.eqb].
    split; [reflexivity|]. split; [exact Lg|].
    split; [intros E; discriminate E|]. intros _. now split. }
  destruct Hasz as [Ha0|((Ha16 & Ha64) & Hamod)].
  - (* the adjusted size wrapped to 0 *)
    destruct (Hrefused (wrap64 (asize - szl))) as (p & s' & ok & Hm & Hrest).
    { rewrite Ha0. unfold wrap64.
      replace ((0 - szl) mod 2 ^ 64) with (2 ^ 64 - szl) by zmod. lia. }
    exists p, s', ok. split; [exact Hm|].
    destruct Hrest as (Lg & Hrest). split; [exact Lg|].
    split; [intros N; contradiction|exact Hrest].
  - assert (Hlt : szl < asize).
    { apply (Hmiss ltac:(zmod) (last s) szl). rewrite Ebl.
      apply in_or_app. right. now left. }
    assert (Hw : wrap64 (asize - szl) = asize - szl)
      by (apply wrap64_small; lia).
    rewrite Hw.
    destruct (Z.le_gt_cases (mem_brk s + (asize - szl)) (mem_max_addr s))
      as [Hfit|Hno].
    + destruct (extend_heap_absorb s pre (last s) szl (asize - szl) H eq_refl
                  ltac:(zmod) ltac:(zmod) Hfit)
        as (s1 & Ex & _ & _ & E1 & L1 & _ & _ & Lg & Z1 & R1).
      exists (last s + 4), s1, true. rewrite Ex.
      destruct (Z.eqb_spec (last s) 0) as [?|_]; [contradiction|].
      split; [reflexivity|]. split; [exact Lg|].
      split; [intros _; now split|].
      split; [|intros E; discriminate E].
      intros _. split; [reflexivity|]. split; [exact L1|].
      split; [rewrite Z1; lia|]. split; [exact R1|]. lia.
    + destruct (Hrefused (asize - szl) ltac:(lia))
        as (p & s' & ok & Hm & Lg & Hrest).
      exists p, s', ok. split; [exact Hm|]. split; [exact Lg|].
      split; [intros _; now split|exact Hrest].
Qed.

Lemma last_of_walk_positive (s : state) :
  reachable s -> heap_blocks s <> [] -> 0 < List.last (heap_blocks s) 0.
Proof.
  intros R Hne. destruct (reachable_heap_ok s R) as (bl & fl & C & P & L).
  rewrite (heap_blocks_inv _ _ _ C P) in *.
  destruct (exists_last Hne) as (l' & x & E). rewrite E, last_last.
  assert (Hx : In x (map baddr bl)).
  { rewrite E. apply in_or_app. right. now left. }
  apply in_map_iff in Hx. destruct Hx as (b & <- & Hb).
  destruct b as [x sz st]. cbn [baddr].
  assert (Hblk : is_block bl x) by (exists sz, st; exact Hb).
  destruct (core_block_facts _ _ _ x C Hblk) as (Hpos & _). exact Hpos.
Qed.

(** C8, as stated, fails: in [heap_stale] the physically last block, at
    4188, is free and has size 32, but [last] was left at the epilogue by
    the zero-byte extension of an earlier request of [2^64 - 4] bytes.  No
    block fits 112 bytes, and [malloc 100] asks the provider for 112 bytes,
    not for 112 - 32, and puts the new block at 4220, after the free one. *)
Lemma malloc_extend_ignores_free_tail :
  reachable heap_stale
  /\ heap_blocks heap_stale = [4188]
  /\ bt_free heap_stale 4188 = true
  /\ bt_size heap_stale 4188 = 32
  /\ last heap_stale = 4220 /\ heap_end heap_stale = 4220
  /\ round_up (wrap64 (100 + WSIZE)) = 112
  /\ find_fit 64 heap_stale 112 = Some 0
  /\ sbrk_log (after heap_stale (Malloc 100))
     = (112, true) :: sbrk_log heap_stale
  /\ result heap_stale (Malloc 100) = 4224
  /\ bt_free (after heap_stale (Malloc 100)) 4188 = true.
Proof.
  split.
  { unfold heap_stale. do 3 run_call. exact heap0_reachable. }
  vm_compute. repeat split.
Qed.

(** C8 (amended): when [find_fit] finds nothing for the adjusted size, the
    physically last block exists and is free, and [last] points at it,
    [malloc] calls the provider exactly once, for [asize - size(last)]
    bytes (computed modulo 2^64, and without wrap-around unless the adjusted
    size itself wrapped to 0); if the provider grants the request, the
    returned block starts at the last block, has size [asize], is allocated
    and ends the heap; if it refuses, null is returned and the heap is
    unchanged. *)
Theorem malloc_extend_absorbs_last_block (fuel : nat) (s : state)
        (size : Z) :
  reachable s -> 0 < size < 2 ^ 64 ->
  find_fit fuel s (round_up (wrap64 (size + WSIZE))) = Some 0 ->
  heap_blocks s <> [] ->
  bt_free s (List.last (heap_blocks s) 0) = true ->
  last s = List.last (heap_blocks s) 0 ->
  exists p s' ok,
    malloc fuel s size = Some (p, s')
    /\ sbrk_log s'
       = (wrap64 (round_up (wrap64 (size + WSIZE))
                  - bt_size s (List.last (heap_blocks s) 0)), ok)
           :: sbrk_log s
    /\ (round_up (wrap64 (size + WSIZE)) <> 0 ->
        bt_size s (List.last (heap_blocks s) 0)
        < round_up (wrap64 (size + WSIZE))
        /\ wrap64 (round_up (wrap64 (size + WSIZE))
                   - bt_size s (List.last (heap_blocks s) 0))
           = round_up (wrap64 (size + WSIZE))
             - bt_size s (List.last (heap_blocks s) 0))
    /\ (ok = true ->
        p = List.last (heap_blocks s) 0 + 4
        /\ last s' = List.last (heap_blocks s) 0
        /\ bt_size s' (List.last (heap_blocks s) 0)
           = round_up (wrap64 (size + WSIZE))
        /\ bt_free s' (List.last (heap_blocks s) 0) = false
        /\ heap_end s'
           = List.last (heap_blocks s) 0 + round_up (wrap64 (size + WSIZE)))
    /\ (ok = false -> p = 0 /\ same_heap s s').
Proof.
  intros R Hsize Hff Hne Hfree Hlast.
  pose proof (last_of_walk_positive s R Hne) as Hpos.
  rewrite <- Hlast in Hfree, Hpos |- *.
  apply (malloc_extend_absorbs_tail fuel s size R Hsize Hff);
    [lia|exact Hfree].
Qed.

Lemma malloc_extend_absorbs_last_block_witness :
  exists p s' ok,
    malloc 64 heap_tail_free 100 = Some (p, s')
    /\ sbrk_log s'
       = (wrap64 (round_up (wrap64 (100 + WSIZE))
                  - bt_size heap_tail_free
                            (List.last (heap_blocks heap_tail_free) 0)), ok)
           :: sbrk_log heap_tail_free
    /\ (round_up (wrap64 (100 + WSIZE)) <> 0 ->
        bt_size heap_tail_free (List.last (heap_blocks heap_tail_free) 0)
        < round_up (wrap64 (100 + WSIZE))
        /\ wrap64 (round_up (wrap64 (100 + WSIZE))
                   - bt_size heap_tail_free
                             (List.last (heap_blocks heap_tail_free) 0))
           = round_up (wrap64 (100 + WSIZE))
             - bt_size heap_tail_free
                       (List.last (heap_blocks heap_tail_free) 0))
    /\ (ok = true ->
        p = List.last (heap_blocks heap_tail_free) 0 + 4
        /\ last s' = List.last (heap_blocks heap_tail_free) 0
        /\ bt_size s' (List.last (heap_blocks heap_tail_free) 0)
           = round_up (wrap64 (100 + WSIZE))
        /\ bt_free s' (List.last (heap_blocks heap_tail_free) 0) = false
        /\ heap_end s'
           = List.last (heap_blocks heap_tail_free) 0
             + round_up (wrap64 (100 + WSIZE)))
    /\ (ok = false -> p = 0 /\ same_heap heap_tail_free s').
Proof.
  apply (malloc_extend_absorbs_last_block 64 heap_tail_free 100).
  - exact heap_tail_free_reachable.
  - lia.
  - vm_compute. reflexivity.
  - vm_compute. intros E; discriminate E.
  - vm_compute. reflexivity.
  - vm_compute. reflexivity.
Defined.

(** ** No fit means every free block is too small *)

(** C10, amended: when [find_fit] returns none for an adjusted size that is
    a nonzero multiple of 16, every free block of the heap is smaller than
    it; so when [last] is free the subtraction in the miss path of [malloc]
    does not underflow and the request sent to the provider is positive. *)
Theorem find_fit_none_all_smaller (fuel : nat) (s : state) (asize : Z) :
  reachable s -> 16 <= asize < 2 ^ 64 -> asize mod 16 = 0 ->
  find_fit fuel s asize = Some 0 ->
  (forall bt, In bt (heap_blocks s) -> bt_free s bt = true ->
              bt_size s bt < asize)
  /\ (last s <> 0 -> bt_free s (last s) = true ->
      0 < asize - bt_size s (last s)
      /\ wrap64 (asize - bt_size s (last s)) = asize - bt_size s (last s)).
Proof.
  intros R Ha Hm Hff.
  destruct (reachable_heap_ok s R) as (bl & fl & C & P & L).
  assert (H : hcore s bl) by (exists fl; exact C).
  destruct (find_fit_core _ _ _ _ _ _ C Hff) as (_ & Hmiss).
  specialize (Hmiss eq_refl ltac:(zmod)).
  assert (Hall : forall bt, In bt (heap_blocks s) -> bt_free s bt = true ->
                            0 <= bt_size s bt < asize).
  { intros bt Hin Hf. rewrite (heap_blocks_inv _ _ _ C P) in Hin.
    apply in_map_iff in Hin. destruct Hin as (b & <- & Hb).
    destruct (in_split _ _ Hb) as (pre & post & E). rewrite E in H.
    pose proof (h_hdr_at _ _ _ _ H) as Hh. unfold hdr_ok in Hh.
    destruct (tiles_one _ _ _ _ H) as (_ & _ & _ & G3 & _).
    destruct (public_status _ _ P Hb) as [Hs|Hs]; rewrite Hs in Hh.
    - destruct Hh as (_ & Hu). rewrite Hu in Hf. discriminate Hf.
    - destruct Hh as (Hz & _). rewrite Hz. split; [lia|].
      apply (Hmiss (baddr b) (bsize b)).
      destruct b as [x sz st]. simpl in *. subst st. exact Hb. }
  split.
  - intros bt Hin Hf. apply (Hall bt Hin Hf).
  - intros Hl0 Hlf.
    assert (Hc : negb (last s =? 0) && bt_free s (last s) = true).
    { rewrite Hlf. destruct (Z.eqb_spec (last s) 0); [contradiction|].
      reflexivity. }
    destruct (last_free_inv _ _ H P L Hc) as (pre & szl & Ebl).
    assert (Hin : In (last s) (heap_blocks s)).
    { rewrite (heap_blocks_inv _ _ _ C P), Ebl, map_app.
      apply in_or_app. right. now left. }
    pose proof (Hall _ Hin Hlf). split; [lia|].
    apply wrap64_small. lia.
Qed.

Lemma find_fit_none_all_smaller_witness :
  (forall bt, In bt (heap_blocks heap_tail_free) ->
              bt_free heap_tail_free bt = true ->
              bt_size heap_tail_free bt < 112)
  /\ (last heap_tail_free <> 0 ->
      bt_free heap_tail_free (last heap_tail_free) = true ->
      0 < 112 - bt_size heap_tail_free (last heap_tail_free)
      /\ wrap64 (112 - bt_size heap_tail_free (last heap_tail_free))
         = 112 - bt_size heap_tail_free (last heap_tail_free)).
Proof.
  apply (find_fit_none_all_smaller 64 heap_tail_free 112).
  - exact heap_tail_free_reachable.
  - lia.
  - reflexivity.
  - vm_compute. reflexivity.
Defined.

(** * Further properties of the allocator *)

(** ** Allocated pointers and blocks of the heap *)

Lemma used_block (s : state) (bl : list block) (x sz : Z) :
  hcore s bl -> In (mkBlock x sz Used) bl ->
  bt_size s x = sz /\ bt_free s x = false.
Proof.
  intros H Hin. destruct (in_split _ _ Hin) as (pre & post & E).
  rewrite E in H. exact (h_hdr_at _ _ _ _ H).
Qed.

Lemma allocated_used (s : state) (bl : list block) (p : Z) :
  hcore s bl -> public bl ->
  (allocated s p = true <-> exists sz, In (mkBlock (p - 4) sz Used) bl).
Proof.
  intros (fl & C) P. split.
  - intros Ha. destruct (allocated_inv _ _ _ _ C P Ha) as (pre & sz & post & E).
    exists sz. rewrite E. apply in_or_app. right. now left.
  - intros (sz & Hin). unfold allocated.
    rewrite (heap_blocks_inv _ _ _ C P). apply existsb_exists.
    exists (p - 4). split.
    + apply in_map_iff. exists (mkBlock (p - 4) sz Used). now split.
    + assert (H : hcore s bl) by (exists fl; exact C).
      destruct (used_block _ _ _ _ H Hin) as (_ & Hf).
      unfold bt_header, WSIZE. rewrite Z.eqb_refl, Hf. reflexivity.
Qed.

Lemma covers_blocks (s : state) (bl : list block) :
  forall a e,
    tiles a bl e -> Forall (hdr_ok s) bl ->
    Forall (fun b => bst b <> Raw) bl ->
    covers s a (map baddr bl) e.
Proof.
  induction bl as [|b bl IH]; intros a e; simpl.
  - intros E _ _. exact E.
  - intros (Ha & _ & _ & T) Hh Hr.
    inversion Hh as [|? ? Hb Hh']. inversion Hr as [|? ? Rb Hr'].
    split; [exact Ha|].
    assert (Hz : bt_size s (baddr b) = bsize b).
    { unfold hdr_ok in Hb. destruct (bst b); tauto || contradiction. }
    rewrite Hz. apply IH; assumption.
Qed.

Lemma block_header (s : state) (bl : list block) (fl : Z -> list Z)
      (b : block) :
  core s bl fl -> public bl -> In b bl ->
  bt_size s (baddr b) = bsize b
  /\ (bt_free s (baddr b) = true <-> bst b = OnList)
  /\ (bst b = OnList -> bt_size s (baddr b + bsize b - 4) = bsize b).
Proof.
  intros C P Hb. pose proof (c_hdr _ _ _ C) as Hh.
  rewrite Forall_forall in Hh. specialize (Hh _ Hb). unfold hdr_ok in Hh.
  destruct (public_status _ _ P Hb) as [E|E]; rewrite E in *.
  - destruct Hh as (Hz & Hf). split; [exact Hz|]. rewrite Hf.
    split; [split; intros N; discriminate N|intros N; discriminate N].
  - destruct Hh as (Hz & Hf & Hft). split; [exact Hz|]. rewrite Hf.
    split; [split; reflexivity|intros _; exact Hft].
Qed.

Lemma heap_block_in (s : state) (bl : list block) (fl : Z -> list Z)
      (bt : Z) :
  core s bl fl -> public bl ->
  (In bt (heap_blocks s) <-> exists b, In b bl /\ baddr b = bt).
Proof.
  intros C P. rewrite (heap_blocks_inv _ _ _ C P), in_map_iff.
  split; intros (b & H1 & H2); exists b; split; assumption.
Qed.

(** What the list-level relations say about allocated pointers. *)
Lemma kept_block (s s' : state) (bl bl' U : list block) (q : Z) :
  hcore s bl -> hcore s' bl' -> public bl' ->
  keeps_used U bl -> keeps_used U bl' -> keeps_payload U s s' ->
  (exists sz, In (mkBlock (q - 4) sz Used) U) ->
  allocated s' q = true
  /\ bt_size s' (bt_header q) = bt_size s (bt_header q)
  /\ forall y, q <= y < q + bt_size s (bt_header q) - 4 ->
               mem s' y = mem s y.
Proof.
  intros H H' P' K K' KP (sz & Hin).
  destruct (used_block _ _ _ _ H (K _ _ Hin)) as (Hz & _).
  destruct (used_block _ _ _ _ H' (K' _ _ Hin)) as (Hz' & _).
  unfold bt_header, WSIZE. rewrite Hz, Hz'.
  split; [apply (allocated_used s' bl' q H' P'); exists sz; exact (K' _ _ Hin)|].
  split; [reflexivity|].
  intros y Hy. apply (KP (q - 4) sz y Hin). lia.
Qed.

Lemma keeps_allocated (s s' : state) (bl bl' : list block) (q : Z) :
  hcore s bl -> public bl -> hcore s' bl' -> public bl' ->
  keeps_used bl bl' -> keeps_payload bl s s' ->
  allocated s q = true ->
  allocated s' q = true
  /\ bt_size s' (bt_header q) = bt_size s (bt_header q)
  /\ forall y, q <= y < q + bt_size s (bt_header q) - 4 ->
               mem s' y = mem s y.
Proof.
  intros H P H' P' K KP Ha.
  apply (kept_block s s' bl bl' bl q H H' P' (keeps_used_refl _) K KP).
  apply (allocated_used s bl q H P). exact Ha.
Qed.

(** The allocated blocks beside the one at [a]. *)
Lemma other_allocated (s : state) (pre post : list block) (a sz q : Z) :
  hcore s (pre ++ mkBlock a sz Used :: post) ->
  public (pre ++ mkBlock a sz Used :: post) ->
  ((exists szq, In (mkBlock (q - 4) szq Used) (pre ++ post))
   <-> allocated s q = true /\ q <> a + 4).
Proof.
  intros H P. pose proof (h_tiles _ _ H) as T. split.
  - intros (szq & Hin).
    apply (in_mid_other pre post (mkBlock a sz Used) _ _ _ T) in Hin.
    destruct Hin as (Hin & Hne). cbn [baddr] in Hne.
    split; [|lia]. apply (allocated_used s _ q H P). exists szq. exact Hin.
  - intros (Ha & Hne). apply (allocated_used s _ q H P) in Ha.
    destruct Ha as (szq & Hin). exists szq.
    apply (in_mid_other pre post (mkBlock a sz Used) _ _ _ T).
    split; [exact Hin|]. cbn [baddr]. lia.
Qed.

Lemma returns_some (A : Type) (o : option A) :
  match o with Some _ => true | None => false end = true -> o <> None.
Proof. destruct o; [intros _ E; discriminate E|intros E; discriminate E]. Qed.

Lemma malloc_run (s : state) (size : Z) :
  malloc 64 s size <> None ->
  malloc 64 s size = Some (result s (Malloc size), after s (Malloc size)).
Proof.
  intros N. unfold result, after, do_call.
  destruct (malloc 64 s size) as [[p s']|]; [reflexivity|contradiction].
Qed.

Lemma realloc_run (s : state) (ptr size : Z) :
  realloc 64 s ptr size <> None ->
  realloc 64 s ptr size
  = Some (result s (Realloc ptr size), after s (Realloc ptr size)).
Proof.
  intros N. unfold result, after, do_call.
  destruct (realloc 64 s ptr size) as [[p s']|]; [reflexivity|contradiction].
Qed.

Lemma calloc_run (s : state) (nmemb size : Z) :
  calloc 64 s nmemb size <> None ->
  calloc 64 s nmemb size
  = Some (result s (Calloc nmemb size), after s (Calloc nmemb size)).
Proof.
  intros N. unfold result, after, do_call.
  destruct (calloc 64 s nmemb size) as [[p s']|]; [reflexivity|contradiction].
Qed.

(** ** malloc *)

(** X1: A successful [malloc] returns the payload of a block that was not
    allocated before and is allocated now; the block holds the requested
    bytes and its size is exactly the request plus the header word, rounded
    up to a multiple of 16.  Every block allocated before is still
    allocated, with the same size and the same payload, and nothing else
    became allocated. *)
Theorem malloc_block (fuel : nat) (s : state) (size p : Z) (s' : state) :
  reachable s -> 0 < size <= 2 ^ 64 - 20 ->
  malloc fuel s size = Some (p, s') -> p <> 0 ->
  allocated s' p = true /\ allocated s p = false
  /\ size + 4 <= bt_size s' (bt_header p)
  /\ bt_size s' (bt_header p) = round_up (size + 4)
  /\ (forall q, allocated s q = true ->
        allocated s' q = true
        /\ bt_size s' (bt_header q) = bt_size s (bt_header q)
        /\ forall y, q <= y < q + bt_size s (bt_header q) - 4 ->
                     mem s' y = mem s y)
  /\ (forall q, allocated s' q = true -> q = p \/ allocated s q = true).
Proof.
  intros R Hsize Hm Hp.
  destruct (reachable_heap_ok s R) as (bl & fl & C & P & L).
  assert (H : hcore s bl) by (exists fl; exact C).
  assert (Hs0 : 0 <= size < 2 ^ 64) by lia.
  destruct (malloc_spec_full _ _ _ _ _ _ H P L Hs0 Hm)
    as (_ & _ & _ & bl' & H' & P' & L' & K & N & KP & O & Fr & _).
  assert (Hs1 : 0 <= size <= 2 ^ 64 - 20) by lia.
  destruct (asize_exact size Hs1) as (Hge & H16).
  assert (Hanz : round_up (wrap64 (size + WSIZE)) <> 0) by lia.
  destruct (N Hp Hanz) as (sz & Hin & Hle).
  destruct (used_block _ _ _ _ H' Hin) as (Hz & _).
  destruct (tiles_in _ _ _ _ (h_tiles _ _ H') Hin) as (_ & _ & _ & Hm16).
  cbn [bsize] in Hm16.
  split; [apply (allocated_used s' bl' p H' P'); exists sz; exact Hin|].
  split.
  { destruct (allocated s p) eqn:Ea; [|reflexivity].
    apply (allocated_used s bl p H P) in Ea. destruct Ea as (sz0 & Hin0).
    elim (Fr Hp sz0 Hin0). }
  split; [unfold bt_header, WSIZE; rewrite Hz; lia|].
  split.
  { unfold bt_header, WSIZE. rewrite Hz.
    exact (asize_block size sz Hs1 Hm16 Hle). }
  split; [intros q Hq; exact (keeps_allocated s s' bl bl' q H P H' P' K KP Hq)|].
  intros q Hq. apply (allocated_used s' bl' q H' P') in Hq.
  destruct Hq as (szq & Hinq).
  destruct (O _ _ Hinq) as [Hb|Hb]; [right|left; lia].
  apply (allocated_used s bl q H P). exists szq. exact Hb.
Qed.

Lemma malloc_block_witness :
  allocated (after heap_ab (Malloc 40)) (result heap_ab (Malloc 40)) = true
  /\ allocated heap_ab (result heap_ab (Malloc 40)) = false
  /\ 40 + 4 <= bt_size (after heap_ab (Malloc 40))
                       (bt_header (result heap_ab (Malloc 40)))
  /\ bt_size (after heap_ab (Malloc 40))
             (bt_header (result heap_ab (Malloc 40))) = round_up (40 + 4)
  /\ (forall q, allocated heap_ab q = true ->
        allocated (after heap_ab (Malloc 40)) q = true
        /\ bt_size (after heap_ab (Malloc 40)) (bt_header q)
           = bt_size heap_ab (bt_header q)
        /\ forall y, q <= y < q + bt_size heap_ab (bt_header q) - 4 ->
                     mem (after heap_ab (Malloc 40)) y = mem heap_ab y)
  /\ (forall q, allocated (after heap_ab (Malloc 40)) q = true ->
                q = result heap_ab (Malloc 40) \/ allocated heap_ab q = true).
Proof.
  apply (malloc_block 64 heap_ab 40).
  - exact heap_ab_reachable.
  - lia.
  - apply (malloc_run heap_ab 40). vm_compute. intros E; discriminate E.
  - vm_compute. intros E; discriminate E.
Defined.

(** X2: [malloc] returns null only when it has left the allocator state as it
    was: for a request of 0 bytes, or when the provider refused to grow the
    heap. *)
Theorem malloc_null_unchanged (fuel : nat) (s : state) (size : Z)
        (s' : state) :
  reachable s -> 0 <= size < 2 ^ 64 ->
  malloc fuel s size = Some (0, s') ->
  same_heap s s'
  /\ (size = 0 \/ exists k, sbrk_log s' = (k, false) :: sbrk_log s).
Proof.
  intros R Hsize Hm.
  destruct (reachable_heap_ok s R) as (bl & fl & C & P & L).
  assert (H : hcore s bl) by (exists fl; exact C).
  destruct (malloc_spec_full _ _ _ _ _ _ H P L Hsize Hm) as (_ & _ & Sh & _).
  exact (Sh eq_refl).
Qed.

Lemma heap_full_reachable : reachable heap_full.
Proof.
  unfold heap_full. run_call.
  apply (reach_init small_heap).
  - unfold fresh. vm_compute. repeat split; intros E; discriminate E.
  - rewrite (surjective_pairing (mm_init small_heap)) at 1. f_equal.
Qed.

Lemma malloc_null_unchanged_witness :
  same_heap heap_full (after heap_full (Malloc 100))
  /\ (100 = 0
      \/ exists k, sbrk_log (after heap_full (Malloc 100))
                   = (k, false) :: sbrk_log heap_full).
Proof.
  apply (malloc_null_unchanged 64 heap_full 100).
  - exact heap_full_reachable.
  - lia.
  - pose proof (malloc_run heap_full 100) as R.
    assert (E : result heap_full (Malloc 100) = 0) by (vm_compute; reflexivity).
    rewrite E in R. apply R. vm_compute. intros N; discriminate N.
Defined.

(** ** free *)

(** X3: [free] of an allocated pointer: the pointer is no longer allocated;
    every other allocated block keeps its status, size and payload, nothing
    becomes allocated, the heap bounds do not move and the provider is not
    called. *)
Theorem free_block (s : state) (p : Z) :
  reachable s -> allocated s p = true ->
  allocated (free s p) p = false
  /\ (forall q, q <> p -> allocated s q = true ->
        allocated (free s p) q = true
        /\ bt_size (free s p) (bt_header q) = bt_size s (bt_header q)
        /\ forall y, q <= y < q + bt_size s (bt_header q) - 4 ->
                     mem (free s p) y = mem s y)
  /\ (forall q, allocated (free s p) q = true -> allocated s q = true)
  /\ heap_start (free s p) = heap_start s
  /\ heap_end (free s p) = heap_end s
  /\ mem_brk (free s p) = mem_brk s
  /\ sbrk_log (free s p) = sbrk_log s.
Proof.
  intros R Ha.
  destruct (reachable_heap_ok s R) as (bl & fl & C & P & L).
  assert (H : hcore s bl) by (exists fl; exact C).
  destruct (allocated_inv _ _ _ _ C P Ha) as (pre & sz & post & E).
  rewrite E in H, P, L.
  pose proof (free_full s pre post (p - 4) sz H P L) as F.
  replace (p - 4 + 4) with p in F by lia.
  destruct F as (pre' & post' & fa & fsz & H' & P' & L' & K1 & K2 & KP
                 & F1 & F2 & E1 & E2 & E3 & E4).
  set (bl' := pre' ++ mkBlock fa fsz OnList :: post') in *.
  assert (Kbl' : keeps_used (pre' ++ post') bl') by (unfold bl'; sub_used).
  assert (Kbl : keeps_used (pre ++ post)
                           (pre ++ mkBlock (p - 4) sz Used :: post))
    by sub_used.
  assert (Hback : forall q, allocated (free s p) q = true ->
            exists szq, In (mkBlock (q - 4) szq Used) (pre ++ post)).
  { intros q Hq. apply (allocated_used _ bl' q H' P') in Hq.
    destruct Hq as (szq & Hin). exists szq. apply K2.
    unfold bl' in Hin. apply in_app_or in Hin. apply in_or_app.
    destruct Hin as [Hin|[Hin|Hin]]; [now left|discriminate Hin|now right]. }
  split.
  { destruct (allocated (free s p) p) eqn:Ea; [|reflexivity].
    apply Hback in Ea.
    apply (other_allocated s pre post (p - 4) sz p H P) in Ea.
    destruct Ea as (_ & Ne). lia. }
  split.
  { intros q Hne Hq.
    apply (kept_block s (free s p) _ bl' (pre ++ post) q H H' P' Kbl).
    - exact (keeps_used_trans _ _ _ K1 Kbl').
    - exact KP.
    - apply (other_allocated s pre post (p - 4) sz q H P).
      split; [exact Hq|lia]. }
  split.
  { intros q Hq. apply Hback in Hq.
    apply (other_allocated s pre post (p - 4) sz q H P) in Hq. apply Hq. }
  split; [exact E1|]. split; [exact E2|]. split; [exact E3|].
  apply free_log.
Qed.

Lemma free_block_witness :
  allocated (free heap_ab 4224) 4224 = false
  /\ (forall q, q <> 4224 -> allocated heap_ab q = true ->
        allocated (free heap_ab 4224) q = true
        /\ bt_size (free heap_ab 4224) (bt_header q)
           = bt_size heap_ab (bt_header q)
        /\ forall y, q <= y < q + bt_size heap_ab (bt_header q) - 4 ->
                     mem (free heap_ab 4224) y = mem heap_ab y)
  /\ (forall q, allocated (free heap_ab 4224) q = true ->
                allocated heap_ab q = true)
  /\ heap_start (free heap_ab 4224) = heap_start heap_ab
  /\ heap_end (free heap_ab 4224) = heap_end heap_ab
  /\ mem_brk (free heap_ab 4224) = mem_brk heap_ab
  /\ sbrk_log (free heap_ab 4224) = sbrk_log heap_ab.
Proof.
  apply (free_block heap_ab 4224).
  - exact heap_ab_reachable.
  - vm_compute. reflexivity.
Defined.

(** X4: [free] coalesces: the freed block becomes part of one free block of the
    heap that starts at the left neighbour when the freed header carried
    PREVFREE, and at the freed header otherwise, and whose size is the sum
    of the freed size, of the left neighbour's size in the first case, and
    of the right neighbour's size when that one was free. *)
Theorem free_coalesces (s : state) (p : Z) :
  reachable s -> allocated s p = true ->
  In (if bt_get_prevfree s (bt_header p) =? 0 then bt_header p
      else bt_prev s (bt_header p))
     (heap_blocks (free s p))
  /\ bt_free (free s p)
             (if bt_get_prevfree s (bt_header p) =? 0 then bt_header p
              else bt_prev s (bt_header p)) = true
  /\ bt_size (free s p)
             (if bt_get_prevfree s (bt_header p) =? 0 then bt_header p
              else bt_prev s (bt_header p))
     = bt_size s (bt_header p)
       + (if bt_get_prevfree s (bt_header p) =? 0 then 0
          else bt_size s (bt_prev s (bt_header p)))
       + (if bt_free s (bt_next s (bt_header p))
          then bt_size s (bt_next s (bt_header p)) else 0).
Proof.
  intros R Ha.
  destruct (reachable_heap_ok s R) as (bl & fl & C & P & L).
  assert (H : hcore s bl) by (exists fl; exact C).
  destruct (allocated_inv _ _ _ _ C P Ha) as (pre & sz & post & E).
  rewrite E in H, P, L.
  destruct (h_next _ _ _ _ H ltac:(discriminate)) as (Hz & Hn & _).
  cbn [baddr bsize] in Hz, Hn.
  pose proof (free_extent s pre post (p - 4) sz H P L) as F.
  replace (p - 4 + 4) with p in F by lia.
  unfold bt_header, WSIZE. rewrite Hn, Hz.
  set (fa := if bt_get_prevfree s (p - 4) =? 0 then p - 4
             else bt_prev s (p - 4)) in *.
  set (fsz := sz + (if bt_get_prevfree s (p - 4) =? 0 then 0
                    else bt_size s (bt_prev s (p - 4)))
              + (if bt_free s (p - 4 + sz) then bt_size s (p - 4 + sz)
                 else 0)) in *.
  destruct F as (pre' & post' & (fl' & C') & P' & _).
  pose proof (core_hdr_at _ _ _ _ _ C') as Hh.
  destruct Hh as (Hfz & Hff & _). cbn [baddr bsize] in Hfz, Hff.
  split.
  { apply (heap_block_in _ _ fl' fa C' P').
    exists (mkBlock fa fsz OnList). split; [|reflexivity].
    apply in_or_app. right. now left. }
  split; [exact Hff|exact Hfz].
Qed.

Lemma free_coalesces_witness :
  In (if bt_get_prevfree heap_ab (bt_header 4224) =? 0 then bt_header 4224
      else bt_prev heap_ab (bt_header 4224))
     (heap_blocks (free heap_ab 4224))
  /\ bt_free (free heap_ab 4224)
             (if bt_get_prevfree heap_ab (bt_header 4224) =? 0
              then bt_header 4224
              else bt_prev heap_ab (bt_header 4224)) = true
  /\ bt_size (free heap_ab 4224)
             (if bt_get_prevfree heap_ab (bt_header 4224) =? 0
              then bt_header 4224
              else bt_prev heap_ab (bt_header 4224))
     = bt_size heap_ab (bt_header 4224)
       + (if bt_get_prevfree heap_ab (bt_header 4224) =? 0 then 0
          else bt_size heap_ab (bt_prev heap_ab (bt_header 4224)))
       + (if bt_free heap_ab (bt_next heap_ab (bt_header 4224))
          then bt_size heap_ab (bt_next heap_ab (bt_header 4224)) else 0).
Proof.
  apply (free_coalesces heap_ab 4224).
  - exact heap_ab_reachable.
  - vm_compute. reflexivity.
Defined.

(** ** calloc *)

(** X5: A successful [calloc] returns a fresh allocated block that holds the
    [nmemb * size] bytes (the product taken modulo 2^64, as the code
    computes it, without a check for overflow), whose size is that count
    plus the header word rounded up to a multiple of 16, and whose payload
    words are zero over that length; the blocks allocated before are
    untouched. *)
Theorem calloc_block (fuel : nat) (s : state) (nmemb size p : Z)
        (s' : state) :
  reachable s -> wrap64 (nmemb * size) <= 2 ^ 64 - 20 ->
  calloc fuel s nmemb size = Some (p, s') -> p <> 0 ->
  allocated s' p = true /\ allocated s p = false
  /\ wrap64 (nmemb * size) + 4 <= bt_size s' (bt_header p)
  /\ bt_size s' (bt_header p) = round_up (wrap64 (nmemb * size) + 4)
  /\ (forall y, p <= y -> y + 4 <= p + wrap64 (nmemb * size) ->
                mem s' y = 0)
  /\ (forall q, allocated s q = true ->
        allocated s' q = true
        /\ bt_size s' (bt_header q) = bt_size s (bt_header q)
        /\ forall y, q <= y < q + bt_size s (bt_header q) - 4 ->
                     mem s' y = mem s y).
Proof.
  intros R Hb Hc Hp.
  destruct (reachable_heap_ok s R) as (bl & fl & C & P & L).
  assert (H : hcore s bl) by (exists fl; exact C).
  destruct (calloc_full _ _ _ _ _ _ _ H P L Hb Hc)
    as (_ & _ & _ & bl' & H' & P' & L' & K & KP & O & N).
  destruct (N Hp) as ((sz & Hin & Hle & Hex) & Fr & Z0).
  destruct (used_block _ _ _ _ H' Hin) as (Hz & _).
  split; [apply (allocated_used s' bl' p H' P'); exists sz; exact Hin|].
  split.
  { destruct (allocated s p) eqn:Ea; [|reflexivity].
    apply (allocated_used s bl p H P) in Ea. destruct Ea as (sz0 & Hin0).
    elim (Fr sz0 Hin0). }
  split; [unfold bt_header, WSIZE; rewrite Hz; exact Hle|].
  split; [unfold bt_header, WSIZE; rewrite Hz; exact Hex|].
  split; [exact Z0|].
  intros q Hq. exact (keeps_allocated s s' bl bl' q H P H' P' K KP Hq).
Qed.

Lemma calloc_block_witness :
  allocated (after heap_ab (Calloc 3 8)) (result heap_ab (Calloc 3 8)) = true
  /\ allocated heap_ab (result heap_ab (Calloc 3 8)) = false
  /\ wrap64 (3 * 8) + 4
     <= bt_size (after heap_ab (Calloc 3 8))
                (bt_header (result heap_ab (Calloc 3 8)))
  /\ bt_size (after heap_ab (Calloc 3 8))
             (bt_header (result heap_ab (Calloc 3 8)))
     = round_up (wrap64 (3 * 8) + 4)
  /\ (forall y, result heap_ab (Calloc 3 8) <= y ->
                y + 4 <= result heap_ab (Calloc 3 8) + wrap64 (3 * 8) ->
                mem (after heap_ab (Calloc 3 8)) y = 0)
  /\ (forall q, allocated heap_ab q = true ->
        allocated (after heap_ab (Calloc 3 8)) q = true
        /\ bt_size (after heap_ab (Calloc 3 8)) (bt_header q)
           = bt_size heap_ab (bt_header q)
        /\ forall y, q <= y < q + bt_size heap_ab (bt_header q) - 4 ->
                     mem (after heap_ab (Calloc 3 8)) y = mem heap_ab y).
Proof.
  apply (calloc_block 64 heap_ab 3 8).
  - exact heap_ab_reachable.
  - vm_compute. intros E; discriminate E.
  - apply (calloc_run heap_ab 3 8). apply returns_some.
    vm_compute. reflexivity.
  - vm_compute. intros E; discriminate E.
Defined.

(** ** realloc *)

(** X6: A successful [realloc] of an allocated pointer to a nonzero size returns
    an allocated block whose size is the request plus the header word,
    rounded up to a multiple of 16, and that starts with the old payload,
    up to the smaller of the old payload size and the request, whether the
    block stayed in place, grew at the heap end or was moved; the other
    allocated blocks are untouched and nothing else became allocated. *)
Theorem realloc_keeps_content (fuel : nat) (s : state) (p size q : Z)
        (s' : state) :
  reachable s -> allocated s p = true -> 0 < size <= 2 ^ 64 - 20 ->
  realloc fuel s p size = Some (q, s') -> q <> 0 ->
  allocated s' q = true
  /\ size + 4 <= bt_size s' (bt_header q)
  /\ bt_size s' (bt_header q) = round_up (size + 4)
  /\ (forall k, 0 <= k < bt_size s (bt_header p) - 4 -> k < size ->
                mem s' (q + k) = mem s (p + k))
  /\ (forall r, r <> p -> allocated s r = true ->
        allocated s' r = true
        /\ bt_size s' (bt_header r) = bt_size s (bt_header r)
        /\ forall y, r <= y < r + bt_size s (bt_header r) - 4 ->
                     mem s' y = mem s y)
  /\ (forall r, allocated s' r = true ->
                r = q \/ (r <> p /\ allocated s r = true)).
Proof.
  intros R Ha Hsize Hr Hq.
  destruct (reachable_heap_ok s R) as (bl & fl & C & P & L).
  assert (H : hcore s bl) by (exists fl; exact C).
  destruct (allocated_inv _ _ _ _ C P Ha) as (pre & sz & post & E).
  rewrite E in H, P, L.
  assert (Hmid : In (mkBlock (p - 4) sz Used)
                    (pre ++ mkBlock (p - 4) sz Used :: post))
    by (apply in_or_app; right; now left).
  destruct (used_block _ _ _ _ H Hmid) as (Hz & _).
  assert (Hs0 : 0 <= size < 2 ^ 64) by lia.
  assert (Hnz : size <> 0) by lia.
  replace p with (p - 4 + 4) in Hr by lia.
  destruct (realloc_block_full _ _ _ _ _ _ _ _ _ H P L Hs0 Hnz Hr)
    as (_ & _ & _ & Rz).
  destruct (Rz Hq) as (bl' & H' & P' & L' & K & KP & O & N).
  assert (Hs1 : 0 <= size <= 2 ^ 64 - 20) by lia.
  destruct (asize_exact size Hs1) as (Hge & H16).
  assert (Hanz : round_up (wrap64 (size + WSIZE)) <> 0) by lia.
  destruct (N Hanz) as ((sz' & Hin & Hle) & Cn).
  destruct (used_block _ _ _ _ H' Hin) as (Hz' & _).
  destruct (tiles_in _ _ _ _ (h_tiles _ _ H') Hin) as (_ & _ & _ & Hm16).
  cbn [bsize] in Hm16.
  assert (Kbl : keeps_used (pre ++ post)
                           (pre ++ mkBlock (p - 4) sz Used :: post))
    by sub_used.
  split; [apply (allocated_used s' bl' q H' P'); exists sz'; exact Hin|].
  split; [unfold bt_header, WSIZE; rewrite Hz'; lia|].
  split.
  { unfold bt_header, WSIZE. rewrite Hz'.
    exact (asize_block size sz' Hs1 Hm16 Hle). }
  split.
  { intros k Hk1 Hk2. unfold bt_header, WSIZE in Hk1. rewrite Hz in Hk1.
    replace (q + k) with (q - 4 + 4 + k) by lia.
    replace (p + k) with (p - 4 + 4 + k) by lia.
    apply Cn; lia. }
  split.
  { intros r Hne Hra.
    apply (kept_block s s' _ bl' (pre ++ post) r H H' P' Kbl K KP).
    apply (other_allocated s pre post (p - 4) sz r H P).
    split; [exact Hra|lia]. }
  intros r Hra. apply (allocated_used s' bl' r H' P') in Hra.
  destruct Hra as (szr & Hinr).
  destruct (O _ _ Hinr) as [Hb|Hb]; [right|left; lia].
  assert (Hx : exists szq, In (mkBlock (r - 4) szq Used) (pre ++ post))
    by (exists szr; exact Hb).
  apply (other_allocated s pre post (p - 4) sz r H P) in Hx.
  destruct Hx as (Hx1 & Hx2). split; [lia|exact Hx1].
Qed.

Lemma realloc_keeps_content_witness :
  allocated (after heap_abcd (Realloc 4224 200))
            (result heap_abcd (Realloc 4224 200)) = true
  /\ 200 + 4 <= bt_size (after heap_abcd (Realloc 4224 200))
                        (bt_header (result heap_abcd (Realloc 4224 200)))
  /\ bt_size (after heap_abcd (Realloc 4224 200))
             (bt_header (result heap_abcd (Realloc 4224 200)))
     = round_up (200 + 4)
  /\ (forall k, 0 <= k < bt_size heap_abcd (bt_header 4224) - 4 -> k < 200 ->
                mem (after heap_abcd (Realloc 4224 200))
                    (result heap_abcd (Realloc 4224 200) + k)
                = mem heap_abcd (4224 + k))
  /\ (forall r, r <> 4224 -> allocated heap_abcd r = true ->
        allocated (after heap_abcd (Realloc 4224 200)) r = true
        /\ bt_size (after heap_abcd (Realloc 4224 200)) (bt_header r)
           = bt_size heap_abcd (bt_header r)
        /\ forall y, r <= y < r + bt_size heap_abcd (bt_header r) - 4 ->
                     mem (after heap_abcd (Realloc 4224 200)) y
                     = mem heap_abcd y)
  /\ (forall r, allocated (after heap_abcd (Realloc 4224 200)) r = true ->
                r = result heap_abcd (Realloc 4224 200)
                \/ (r <> 4224 /\ allocated heap_abcd r = true)).
Proof.
  apply (realloc_keeps_content 64 heap_abcd 4224 200).
  - exact heap_abcd_reachable.
  - vm_compute. reflexivity.
  - lia.
  - apply (realloc_run heap_abcd 4224 200). apply returns_some.
    vm_compute. reflexivity.
  - vm_compute. intros E; discriminate E.
Defined.

(** ** The heap bounds *)

Lemma do_call_run (s : state) (c : call) :
  do_call 64 s c <> None ->
  do_call 64 s c = Some (result s c, after s c).
Proof.
  intros N. unfold result, after.
  destruct (do_call 64 s c) as [[p s']|]; [reflexivity|contradiction].
Qed.

(** X7: No call moves the start of the heap or shrinks the heap: the heap end
    only moves up, by exactly what the call obtained from the provider, so
    that [free] never gives memory back and no byte obtained from the
    provider is left outside the heap. *)
Theorem heap_only_grows (fuel : nat) (s : state) (c : call) (p : Z)
        (s' : state) :
  reachable s -> valid_call s c -> do_call fuel s c = Some (p, s') ->
  grows s s'.
Proof.
  intros R V Hc.
  destruct (reachable_heap_ok s R) as (bl & fl & C & P & L).
  assert (H : hcore s bl) by (exists fl; exact C).
  assert (Hfree : forall ptr, allocated s ptr = true -> grows s (free s ptr)).
  { intros ptr Ha.
    destruct (allocated_inv _ _ _ _ C P Ha) as (pre & sz & post & E).
    rewrite E in H, P, L.
    pose proof (free_full s pre post (ptr - 4) sz H P L) as F.
    replace (ptr - 4 + 4) with ptr in F by lia.
    destruct F as (pre' & post' & fa & fsz & _ & _ & _ & _ & _ & _
                   & _ & _ & E1 & E2 & E3 & E4).
    exact (grows_anchors _ _ E1 E2 E3 E4). }
  destruct c as [size|ptr|ptr size|nmemb size]; cbn [do_call valid_call] in *.
  - destruct (malloc_spec_full _ _ _ _ _ _ H P L V Hc) as (_ & G & _).
    exact G.
  - injection Hc as <- <-.
    destruct V as [->|Ha]; [apply grows_refl|exact (Hfree ptr Ha)].
  - destruct V as (Vp & Vs).
    destruct Vp as [->|Ha].
    + unfold realloc in Hc. cbn in Hc.
      destruct (malloc_spec_full _ _ _ _ _ _ H P L Vs Hc) as (_ & G & _).
      exact G.
    + destruct (Z.eq_dec size 0) as [->|Hnz].
      * unfold realloc in Hc. rewrite Z.eqb_refl in Hc.
        destruct (ptr =? 0).
        -- unfold malloc in Hc. rewrite Z.eqb_refl in Hc.
           injection Hc as <- <-. apply grows_refl.
        -- injection Hc as <- <-. exact (Hfree ptr Ha).
      * destruct (allocated_inv _ _ _ _ C P Ha) as (pre & sz & post & E).
        rewrite E in H, P, L.
        replace ptr with (ptr - 4 + 4) in Hc by lia.
        destruct (realloc_block_full _ _ _ _ _ _ _ _ _ H P L Vs Hnz Hc)
          as (_ & G & _).
        exact G.
  - destruct V as (_ & _ & Vb).
    destruct (calloc_full _ _ _ _ _ _ _ H P L Vb Hc) as (_ & G & _).
    exact G.
Qed.

Lemma heap_only_grows_witness :
  grows heap_ab (after heap_ab (Malloc 100)).
Proof.
  apply (heap_only_grows 64 heap_ab (Malloc 100)
                         (result heap_ab (Malloc 100))).
  - exact heap_ab_reachable.
  - unfold valid_call. lia.
  - apply (do_call_run heap_ab (Malloc 100)). apply returns_some.
    vm_compute. reflexivity.
Defined.

(** ** The shape of the heap between calls *)

(** X8: Between calls the walk of [mm_checkheap] covers the heap: the blocks it
    visits lie end to end from [heap_start] to [heap_end], each header sits
    12 bytes past a 16-byte boundary and holds a size that is a positive
    multiple of 16; the word at [heap_end] is the allocated epilogue of
    size 0, and the heap lies inside the provider's region. *)
Theorem heap_walk_tiles (s : state) :
  reachable s ->
  covers s (heap_start s) (heap_blocks s) (heap_end s)
  /\ (forall bt, In bt (heap_blocks s) ->
        bt mod 16 = 12 /\ 16 <= bt_size s bt /\ bt_size s bt mod 16 = 0)
  /\ bt_size s (heap_end s) = 0 /\ bt_free s (heap_end s) = false
  /\ heap_end s <= mem_brk s <= mem_max_addr s.
Proof.
  intros R. destruct (reachable_heap_ok s R) as (bl & fl & C & P & L).
  pose proof (c_tiles _ _ _ C) as T.
  destruct (c_bounds _ _ _ C) as (_ & B2 & B3 & B4 & _).
  split.
  { rewrite (heap_blocks_inv _ _ _ C P).
    apply covers_blocks;
      [exact T|exact (c_hdr _ _ _ C)|exact (public_no_raw _ P)]. }
  split.
  { intros bt Hin. apply (heap_block_in s bl fl bt C P) in Hin.
    destruct Hin as (b & Hb & <-).
    destruct (tiles_in _ _ _ _ T Hb) as (_ & _ & H16 & Hm).
    destruct (tiles_mod _ _ _ T B2) as (_ & Hall).
    destruct (block_header _ _ _ _ C P Hb) as (Hz & _).
    rewrite Hz. split; [exact (Hall _ Hb)|]. split; assumption. }
  destruct (c_epi _ _ _ C) as (E1 & E2).
  split; [exact E1|]. split; [exact E2|]. split; assumption.
Qed.

Lemma heap_walk_tiles_witness :
  covers heap_ab (heap_start heap_ab) (heap_blocks heap_ab) (heap_end heap_ab)
  /\ (forall bt, In bt (heap_blocks heap_ab) ->
        bt mod 16 = 12 /\ 16 <= bt_size heap_ab bt
        /\ bt_size heap_ab bt mod 16 = 0)
  /\ bt_size heap_ab (heap_end heap_ab) = 0
  /\ bt_free heap_ab (heap_end heap_ab) = false
  /\ heap_end heap_ab <= mem_brk heap_ab <= mem_max_addr heap_ab.
Proof. exact (heap_walk_tiles heap_ab heap_ab_reachable). Defined.

(** X9: Between calls every bucket is a well-formed doubly linked list, without
    repetition, of exactly the free blocks of the heap whose size falls in
    the bucket's class. *)
Theorem free_lists_exact (s : state) (i : Z) :
  reachable s -> 0 <= i < NUM_LIST ->
  exists l,
    dll s (segregated_list s i) l /\ NoDup l
    /\ forall a, In a l <->
                 In a (heap_blocks s) /\ bt_free s a = true
                 /\ get_index (bt_size s a) = i.
Proof.
  intros R Hi. destruct (reachable_heap_ok s R) as (bl & fl & C & P & L).
  destruct (c_lists _ _ _ C i Hi) as (D & N & M).
  exists (fl i). split; [exact D|]. split; [exact N|].
  intros a. rewrite M. split.
  - intros (sz & Hin & Hg).
    destruct (block_header _ _ _ _ C P Hin) as (Hz & Hf & _).
    cbn [baddr bsize bst] in Hz, Hf.
    split.
    { apply (heap_block_in s bl fl a C P).
      exists (mkBlock a sz OnList). split; [exact Hin|reflexivity]. }
    split; [apply Hf; reflexivity|rewrite Hz; exact Hg].
  - intros (Hin & Hf & Hg).
    apply (heap_block_in s bl fl a C P) in Hin.
    destruct Hin as (b & Hb & Eb).
    destruct (block_header _ _ _ _ C P Hb) as (Hz & Hfb & _).
    destruct b as [x sz st]. cbn [baddr bsize bst] in *. subst x.
    rewrite (proj1 Hfb Hf) in Hb.
    exists sz. split; [exact Hb|rewrite <- Hz; exact Hg].
Qed.

Lemma free_lists_exact_witness :
  exists l,
    dll heap_ab (segregated_list heap_ab 1) l /\ NoDup l
    /\ forall a, In a l <->
                 In a (heap_blocks heap_ab) /\ bt_free heap_ab a = true
                 /\ get_index (bt_size heap_ab a) = 1.
Proof.
  apply (free_lists_exact heap_ab 1).
  - exact heap_ab_reachable.
  - unfold NUM_LIST. lia.
Defined.

(** X10: PREVFREE is sound between calls: a block whose header carries the flag
    has a predecessor, found by [bt_prev] through the footer just below the
    header; that predecessor is a free block of the heap and the block
    itself is its physical successor. *)
Theorem prevfree_sound (s : state) (bt : Z) :
  reachable s -> In bt (heap_blocks s) -> bt_get_prevfree s bt <> 0 ->
  In (bt_prev s bt) (heap_blocks s)
  /\ bt_free s (bt_prev s bt) = true
  /\ bt_next s (bt_prev s bt) = bt.
Proof.
  intros R Hin Hpf.
  destruct (reachable_heap_ok s R) as (bl & fl & C & P & L).
  apply (heap_block_in s bl fl bt C P) in Hin.
  destruct Hin as (b & Hb & Eb).
  destruct (in_split _ _ Hb) as (pre & post & E).
  assert (Hraw : bst b <> Raw).
  { destruct (public_status _ _ P Hb) as [-> | ->]; discriminate. }
  rewrite E in C. rewrite <- Eb in Hpf.
  pose proof (core_pf_at _ _ _ _ _ C Hraw Hpf) as Hl.
  destruct (last_st_not_used pre Hl) as (pre' & pv & Epre & Hpv).
  rewrite Epre, <- app_assoc in C. cbn [app] in C.
  rewrite E, Epre, <- app_assoc in P. cbn [app] in P.
  assert (Hin : In pv (pre' ++ pv :: b :: post))
    by (apply in_or_app; right; now left).
  assert (Hon : bst pv = OnList).
  { destruct (public_status _ _ P Hin) as [N|N]; [contradiction|exact N]. }
  assert (Hraw' : bst pv <> Raw) by (rewrite Hon; discriminate).
  destruct (core_next _ _ _ _ _ C Hraw') as (Hz & Hn & _ & Hadj).
  destruct (block_header _ _ _ _ C P Hin) as (_ & Hf & Hft).
  destruct (tiles_in _ _ _ _ (c_tiles _ _ _ C) Hin) as (Hlo & _).
  assert (Hprev : bt_prev s bt = baddr pv).
  { unfold bt_prev. rewrite <- Eb, <- Hadj.
    rewrite (Hft Hon).
    replace (baddr pv + bsize pv - bsize pv) with (baddr pv) by lia.
    destruct (Z.leb_spec (heap_start s) (baddr pv)); [reflexivity|lia]. }
  rewrite Hprev.
  split.
  { apply (heap_block_in s _ fl (baddr pv) C P). exists pv.
    split; [exact Hin|reflexivity]. }
  split; [apply Hf; exact Hon|].
  rewrite Hn, Hadj. exact Eb.
Qed.

Lemma prevfree_sound_witness :
  In (bt_prev heap_ab 4220) (heap_blocks heap_ab)
  /\ bt_free heap_ab (bt_prev heap_ab 4220) = true
  /\ bt_next heap_ab (bt_prev heap_ab 4220) = 4220.
Proof.
  apply (prevfree_sound heap_ab 4220).
  - exact heap_ab_reachable.
  - vm_compute. right. left. reflexivity.
  - vm_compute. intros E; discriminate E.
Defined.

(** X11: Between calls every free block of the heap carries a footer with the
    size of its header, so that [bt_prev] of the address that follows it
    leads back to the block. *)
Theorem free_block_footer (s : state) (bt : Z) :
  reachable s -> In bt (heap_blocks s) -> bt_free s bt = true ->
  bt_size s (bt_footer s bt) = bt_size s bt
  /\ bt_next s bt = bt + bt_size s bt
  /\ bt_prev s (bt_next s bt) = bt.
Proof.
  intros R Hin Hf.
  destruct (reachable_heap_ok s R) as (bl & fl & C & P & L).
  apply (heap_block_in s bl fl bt C P) in Hin.
  destruct Hin as (b & Hb & Eb).
  destruct (block_header _ _ _ _ C P Hb) as (Hz & Hfb & Hft).
  rewrite Eb in Hz, Hfb.
  pose proof (Hft (proj1 Hfb Hf)) as Hfoot. rewrite Eb in Hfoot.
  destruct (tiles_in _ _ _ _ (c_tiles _ _ _ C) Hb) as (Hlo & Hhi & H16 & _).
  rewrite Eb in Hlo, Hhi.
  assert (Hn : bt_next s bt = bt + bsize b).
  { unfold bt_next. rewrite Hz.
    destruct (Z.leb_spec (bt + bsize b) (heap_end s)); [reflexivity|lia]. }
  unfold bt_footer. rewrite Hn, Hz.
  split; [exact Hfoot|]. split; [reflexivity|].
  unfold bt_prev. rewrite Hfoot.
  replace (bt + bsize b - bsize b) with bt by lia.
  destruct (Z.leb_spec (heap_start s) bt); [reflexivity|lia].
Qed.

Lemma free_block_footer_witness :
  bt_size heap_ab (bt_footer heap_ab 4188) = bt_size heap_ab 4188
  /\ bt_next heap_ab 4188 = 4188 + bt_size heap_ab 4188
  /\ bt_prev heap_ab (bt_next heap_ab 4188) = 4188.
Proof.
  apply (free_block_footer heap_ab 4188).
  - exact heap_ab_reachable.
  - vm_compute. left. reflexivity.
  - vm_compute. reflexivity.
Defined.



(** ** mm_init *)

Lemma mm_init_fields (s0 s : state) :
  0 < mem_brk s0 -> mm_init s0 = (0, s) ->
  heap_start s = mem_brk s0 + 92 /\ heap_end s = mem_brk s0 + 92
  /\ last s = 0 /\ mem_brk s = mem_brk s0 + 104
  /\ mem_max_addr s = mem_max_addr s0
  /\ (forall i, 0 <= i < NUM_LIST -> segregated_list s i = 0)
  /\ bt_size s (heap_end s) = 0 /\ bt_free s (heap_end s) = false
  /\ sbrk_log s = (32, true) :: (72, true) :: sbrk_log s0.
Proof.
  intros Fr1 H. unfold mm_init in H.
  destruct (mem_sbrk s0 (8 * NUM_LIST)) as [[p1|] s1] eqn:E1;
    [|inversion H].
  destruct (mem_sbrk_some _ _ _ _ E1)
    as (_ & B1 & L1 & M1 & _ & _ & _ & _ & X1 & G1).
  destruct (clear_lists_fields (Z.to_nat NUM_LIST) 0 s1)
    as (CM & CB & CX & _ & CG).
  pose proof (clear_lists_seg (Z.to_nat NUM_LIST) 0 s1) as CS.
  set (s2 := clear_lists (Z.to_nat NUM_LIST) 0 s1) in *.
  destruct (mem_sbrk s2 (2 * ALIGNMENT)) as [[p|] s3] eqn:E3;
    [|inversion H].
  destruct (mem_sbrk_some _ _ _ _ E3)
    as (Hp & B3 & L3 & M3 & _ & _ & _ & S3 & X3 & G3).
  unfold NUM_LIST, ALIGNMENT in *.
  assert (Hpv : p = mem_brk s0 + 72) by lia.
  cbv zeta in H.
  set (s4 := set_heap_start s3 p) in *.
  change (heap_start s4) with p in H.
  set (s5 := PUT s4 p 0) in *.
  destruct (PUT_spec s4 p 0) as (F5 & _ & _). fold s5 in F5.
  assert (Hs5 : heap_start s5 = p) by (rewrite (sf_hs _ _ F5); reflexivity).
  rewrite Hs5 in H.
  assert (Hp0 : 0 < p) by lia.
  assert (H20 : 16 <= 20 < 2 ^ 31 - 3) by lia.
  destruct (bt_make_used_spec s5 p 20 USED Hp0 H20 eq_refl
                              (or_introl eq_refl))
    as (F6 & _).
  pose proof (bt_make_log s5 p 20 USED) as G6.
  set (s6 := bt_make s5 p 20 USED) in *.
  assert (Hs6 : heap_start s6 = p).
  { rewrite (sf_hs _ _ F6). exact Hs5. }
  rewrite Hs6 in H.
  destruct (PUT_spec s6 (p + 4 * 5) (PACK 0 USED)) as (F7 & _ & M7).
  pose proof (PUT_log s6 (p + 4 * 5) (PACK 0 USED)) as G7.
  set (s7 := PUT s6 (p + 4 * 5) (PACK 0 USED)) in *.
  assert (Hs7 : heap_start s7 = p).
  { rewrite (sf_hs _ _ F7). exact Hs6. }
  assert (Hg7 : segregated_list s7 = segregated_list s2).
  { destruct F7 as (_ & _ & _ & -> & _). destruct F6 as (_ & _ & _ & -> & _).
    destruct F5 as (_ & _ & _ & -> & _). unfold s4. simpl_state. exact S3. }
  assert (Hb7 : mem_brk s7 = mem_brk s0 + 104).
  { destruct F7 as (_ & _ & _ & _ & -> & _).
    destruct F6 as (_ & _ & _ & _ & -> & _).
    destruct F5 as (_ & _ & _ & _ & -> & _). unfold s4. simpl_state. lia. }
  assert (Hx7 : mem_max_addr s7 = mem_max_addr s0).
  { destruct F7 as (_ & _ & _ & _ & _ & ->).
    destruct F6 as (_ & _ & _ & _ & _ & ->).
    destruct F5 as (_ & _ & _ & _ & _ & ->). unfold s4. simpl_state. congruence. }
  assert (Hl7 : sbrk_log s7 = (32, true) :: (72, true) :: sbrk_log s0).
  { rewrite G7, G6. unfold s5. rewrite PUT_log. unfold s4. simpl_state.
    rewrite G3, CG, G1. reflexivity. }
  rewrite Hs7 in H. simpl_state.
  inversion H; subst s; clear H. simpl_state.
  split; [lia|]. split; [lia|]. split; [reflexivity|].
  split; [exact Hb7|]. split; [exact Hx7|].
  split.
  { intros i Hi. rewrite Hg7, CS.
    destruct (Z.leb_spec 0 i), (Z.ltb_spec i (0 + Z.of_nat (Z.to_nat 9)));
      cbn [andb]; lia. }
  rewrite bt_size_word, bt_free_word. simpl_state.
  replace (p + 20) with (p + 4 * 5) by lia. rewrite M7.
  split; [reflexivity|]. split; [reflexivity|exact Hl7].
Qed.

Lemma mm_init_runs (s0 : state) :
  mem_brk s0 + 104 <= mem_max_addr s0 -> fst (mm_init s0) = 0.
Proof.
  intros Hcap. unfold mm_init.
  destruct (mem_sbrk s0 (8 * NUM_LIST)) as [[p1|] s1] eqn:E1.
  - destruct (mem_sbrk_some _ _ _ _ E1)
      as (_ & B1 & _ & _ & _ & _ & _ & _ & X1 & _).
    destruct (clear_lists_fields (Z.to_nat NUM_LIST) 0 s1)
      as (_ & CB & CX & _ & _).
    set (s2 := clear_lists (Z.to_nat NUM_LIST) 0 s1) in *.
    destruct (mem_sbrk s2 (2 * ALIGNMENT)) as [[p|] s3] eqn:E3;
      [reflexivity|].
    destruct (mem_sbrk_none _ _ _ E3) as (N & _).
    unfold NUM_LIST, ALIGNMENT in *. lia.
  - destruct (mem_sbrk_none _ _ _ E1) as (N & _).
    unfold NUM_LIST in *. lia.
Qed.

(** X13: [mm_init] on a provider with at least 104 bytes left succeeds: it takes
    72 bytes for the bucket table and 32 bytes for the prologue and the
    epilogue, clears every bucket, and leaves an empty heap that starts 92
    bytes above the old break, with nothing allocated. *)
Theorem mm_init_success (s0 : state) :
  fresh s0 -> mem_brk s0 + 104 <= mem_max_addr s0 ->
  exists s,
    mm_init s0 = (0, s) /\ reachable s
    /\ heap_start s = mem_brk s0 + 92 /\ heap_end s = heap_start s
    /\ last s = 0 /\ mem_brk s = mem_brk s0 + 104
    /\ (forall i, 0 <= i < NUM_LIST -> segregated_list s i = 0)
    /\ heap_blocks s = [] /\ (forall p, allocated s p = false)
    /\ sbrk_log s = (32, true) :: (72, true) :: sbrk_log s0.
Proof.
  intros Fr Hcap. exists (snd (mm_init s0)).
  assert (E : mm_init s0 = (0, snd (mm_init s0))).
  { rewrite <- (mm_init_runs s0 Hcap). apply surjective_pairing. }
  destruct (mm_init_fields s0 _ (proj1 Fr) E)
    as (F1 & F2 & F3 & F4 & _ & F6 & _ & _ & F9).
  destruct (mm_init_inv s0 _ Fr E) as (C & P & _).
  assert (Hb : heap_blocks (snd (mm_init s0)) = [])
    by exact (heap_blocks_inv _ _ _ C P).
  split; [exact E|]. split; [exact (reach_init s0 _ Fr E)|].
  split; [exact F1|]. split; [congruence|]. split; [exact F3|].
  split; [exact F4|]. split; [exact F6|]. split; [exact Hb|].
  split; [|exact F9].
  intros p. unfold allocated. rewrite Hb. reflexivity.
Qed.

Lemma mm_init_success_witness :
  exists s,
    mm_init fresh_heap = (0, s) /\ reachable s
    /\ heap_start s = mem_brk fresh_heap + 92 /\ heap_end s = heap_start s
    /\ last s = 0 /\ mem_brk s = mem_brk fresh_heap + 104
    /\ (forall i, 0 <= i < NUM_LIST -> segregated_list s i = 0)
    /\ heap_blocks s = [] /\ (forall p, allocated s p = false)
    /\ sbrk_log s = (32, true) :: (72, true) :: sbrk_log fresh_heap.
Proof.
  apply (mm_init_success fresh_heap).
  - unfold fresh. vm_compute. repeat split; intros E; discriminate E.
  - vm_compute. intros E; discriminate E.
Defined.

Lemma clear_lists_last (n : nat) :
  forall (i0 : Z) (s : state), last (clear_lists n i0 s) = last s.
Proof.
  induction n as [|n IH]; intros i0 s; [reflexivity|].
  cbn [clear_lists]. rewrite IH. reflexivity.
Qed.

(** X14: [mm_init] on a provider with less than 104 bytes left returns -1.
    When even the 72 bytes of the bucket table do not fit, the provider is
    asked once and refuses, and the break and the heap globals
    [heap_start], [heap_end] and [last] are what they were.  When only the
    second request fails, the 72 bytes of the table stay taken, its nine
    bucket heads have been set to null, and [heap_start] is left at the
    failure value -1. *)
Theorem mm_init_failure (s0 : state) :
  mem_max_addr s0 < mem_brk s0 + 104 ->
  fst (mm_init s0) = -1
  /\ heap_end (snd (mm_init s0)) = heap_end s0
  /\ last (snd (mm_init s0)) = last s0
  /\ ((mem_max_addr s0 < mem_brk s0 + 72
       /\ mem_brk (snd (mm_init s0)) = mem_brk s0
       /\ heap_start (snd (mm_init s0)) = heap_start s0
       /\ sbrk_log (snd (mm_init s0)) = (72, false) :: sbrk_log s0)
      \/ (mem_brk s0 + 72 <= mem_max_addr s0
          /\ mem_brk (snd (mm_init s0)) = mem_brk s0 + 72
          /\ heap_start (snd (mm_init s0)) = -1
          /\ (forall i, 0 <= i < NUM_LIST ->
                        segregated_list (snd (mm_init s0)) i = 0)
          /\ sbrk_log (snd (mm_init s0))
             = (32, false) :: (72, true) :: sbrk_log s0)).
Proof.
  intros Hcap. unfold mm_init.
  destruct (mem_sbrk s0 (8 * NUM_LIST)) as [[p1|] s1] eqn:E1.
  - destruct (mem_sbrk_some _ _ _ _ E1)
      as (_ & B1 & L1 & M1 & _ & He1 & Hl1 & _ & X1 & G1).
    destruct (clear_lists_fields (Z.to_nat NUM_LIST) 0 s1)
      as (CM & CB & CX & CE & CG).
    pose proof (clear_lists_seg (Z.to_nat NUM_LIST) 0 s1) as CS.
    pose proof (clear_lists_last (Z.to_nat NUM_LIST) 0 s1) as CL.
    set (s2 := clear_lists (Z.to_nat NUM_LIST) 0 s1) in *.
    destruct (mem_sbrk s2 (2 * ALIGNMENT)) as [[p|] s3] eqn:E3.
    + destruct (mem_sbrk_some _ _ _ _ E3) as (_ & _ & L3 & _).
      unfold NUM_LIST, ALIGNMENT in *. lia.
    + destruct (mem_sbrk_none _ _ _ E3) as (_ & Sh & G3).
      destruct Sh as (_ & _ & She & Shl & Shs & _ & _ & Sb & _).
      unfold NUM_LIST, ALIGNMENT in *. cbn [fst snd]. simpl_state.
      split; [reflexivity|]. split; [congruence|]. split; [congruence|].
      right. split; [lia|]. split; [lia|]. split; [reflexivity|].
      split; [|rewrite G3, CG, G1; reflexivity].
      intros i Hi. rewrite Shs, CS.
      destruct (Z.leb_spec 0 i), (Z.ltb_spec i (0 + Z.of_nat (Z.to_nat 9)));
        cbn [andb]; lia.
  - destruct (mem_sbrk_none _ _ _ E1) as (N & Sh & G1).
    destruct Sh as (_ & Shs & She & Shl & _ & _ & _ & Sb & _).
    unfold NUM_LIST in *. cbn [fst snd].
    split; [reflexivity|]. split; [exact She|]. split; [exact Shl|].
    left. split; [lia|]. split; [exact Sb|]. split; [exact Shs|exact G1].
Qed.

Lemma mm_init_failure_witness :
  fst (mm_init heap_full) = -1
  /\ heap_end (snd (mm_init heap_full)) = heap_end heap_full
  /\ last (snd (mm_init heap_full)) = last heap_full
  /\ ((mem_max_addr heap_full < mem_brk heap_full + 72
       /\ mem_brk (snd (mm_init heap_full)) = mem_brk heap_full
       /\ heap_start (snd (mm_init heap_full)) = heap_start heap_full
       /\ sbrk_log (snd (mm_init heap_full))
          = (72, false) :: sbrk_log heap_full)
      \/ (mem_brk heap_full + 72 <= mem_max_addr heap_full
          /\ mem_brk (snd (mm_init heap_full)) = mem_brk heap_full + 72
          /\ heap_start (snd (mm_init heap_full)) = -1
          /\ (forall i, 0 <= i < NUM_LIST ->
                        segregated_list (snd (mm_init heap_full)) i = 0)
          /\ sbrk_log (snd (mm_init heap_full))
             = (32, false) :: (72, true) :: sbrk_log heap_full)).
Proof.
  apply (mm_init_failure heap_full). vm_compute. reflexivity.
Defined.

(** ** Sizes, boundary tags and links *)

(** X15: [round_up] returns the least multiple of 16 that is not below its
    argument, as long as that multiple fits 64 bits; above [2^64 - 16] the
    sum wraps around and the result is 0. *)
Theorem round_up_least (x : Z) :
  0 <= x < 2 ^ 64 ->
  (x <= 2 ^ 64 - 16 ->
   round_up x mod 16 = 0 /\ x <= round_up x < x + 16)
  /\ (2 ^ 64 - 16 < x -> round_up x = 0).
Proof.
  intros Hx. rewrite round_up_spec by exact Hx. unfold wrap64.
  change (2 ^ 64) with 18446744073709551616 in *.
  split; intros H; zmod.
Qed.

Lemma round_up_least_witness :
  (100 <= 2 ^ 64 - 16 ->
   round_up 100 mod 16 = 0 /\ 100 <= round_up 100 < 100 + 16)
  /\ (2 ^ 64 - 16 < 100 -> round_up 100 = 0).
Proof. apply (round_up_least 100). lia. Defined.

(** X16: [bt_make] writes a header that reads back as the given size and flags.
    A free block also gets a footer with the size and PREVFREE is set in
    the header that follows; an allocated block gets no footer, so its last
    payload word is kept, and PREVFREE is cleared in the header that
    follows.  Size and USED bit of the following header are kept, a
    following address beyond [heap_end] is not written, and no other word
    changes. *)
Theorem bt_make_tags (s : state) (a size flags : Z) :
  0 < a -> 16 <= size < 2 ^ 31 - 3 -> size mod 4 = 0 -> 0 <= flags < 4 ->
  bt_size (bt_make s a size flags) a = size
  /\ bt_used (bt_make s a size flags) a = flags mod 2
  /\ bt_get_prevfree (bt_make s a size flags) a = flags - flags mod 2
  /\ (flags mod 2 = 0 ->
      bt_footer (bt_make s a size flags) a = a + size - 4
      /\ bt_size (bt_make s a size flags) (a + size - 4) = size)
  /\ (flags mod 2 = 1 ->
      mem (bt_make s a size flags) (a + size - 4) = mem s (a + size - 4))
  /\ (a + size <= heap_end s ->
      bt_get_prevfree (bt_make s a size flags) (a + size)
      = (if flags mod 2 =? 0 then PREVFREE else 0)
      /\ bt_size (bt_make s a size flags) (a + size) = bt_size s (a + size)
      /\ bt_free (bt_make s a size flags) (a + size)
         = bt_free s (a + size))
  /\ (heap_end s < a + size ->
      mem (bt_make s a size flags) (a + size) = mem s (a + size))
  /\ (forall y, y <> a -> y <> a + size -> y <> a + size - 4 ->
                mem (bt_make s a size flags) y = mem s y).
Proof.
  intros Ha Hs Hm Hf.
  assert (Hc : (flags = 1 \/ flags = 3) \/ (flags = 0 \/ flags = 2)) by lia.
  destruct Hc as [Hc|Hc].
  - destruct (bt_make_used_spec s a size flags Ha Hs Hm Hc)
      as (_ & M1 & M2 & Z1 & R1 & P1 & Z2 & R2 & P2).
    assert (Hodd : flags mod 2 = 1) by (destruct Hc; subst flags; reflexivity).
    rewrite Hodd. cbn [Z.eqb].
    split; [exact Z1|].
    split.
    { rewrite bt_used_word. rewrite bt_free_word in R1.
      destruct (Z.eqb_spec (mem (bt_make s a size flags) a mod 2) 0);
        [discriminate R1|zmod]. }
    split; [exact P1|].
    split; [intros N; lia|].
    split; [intros _; apply M1; lia|].
    split; [intros Hle; split; [exact (P2 Hle)|split; assumption]|].
    split; [intros Hgt; apply (M2 Hgt); lia|].
    intros y Y1 Y2 _. apply M1; assumption.
  - destruct (bt_make_free_spec s a size flags Ha Hs Hm Hc)
      as (_ & M1 & M2 & Z1 & R1 & P1 & Z3 & Z2 & R2 & P2).
    assert (Hev : flags mod 2 = 0) by (destruct Hc; subst flags; reflexivity).
    rewrite Hev. cbn [Z.eqb].
    split; [exact Z1|].
    split.
    { rewrite bt_used_word. rewrite bt_free_word in R1.
      apply Z.eqb_eq in R1. exact R1. }
    split; [rewrite P1; lia|].
    split.
    { intros _. unfold bt_footer. rewrite Z1. split; [reflexivity|exact Z3]. }
    split; [intros N; lia|].
    split; [intros Hle; split; [exact (P2 Hle)|split; assumption]|].
    split; [intros Hgt; apply (M2 Hgt); lia|].
    exact M1.
Qed.

Lemma bt_make_tags_witness :
  bt_size (bt_make heap_ab 4188 32 0) 4188 = 32
  /\ bt_used (bt_make heap_ab 4188 32 0) 4188 = 0 mod 2
  /\ bt_get_prevfree (bt_make heap_ab 4188 32 0) 4188 = 0 - 0 mod 2
  /\ (0 mod 2 = 0 ->
      bt_footer (bt_make heap_ab 4188 32 0) 4188 = 4188 + 32 - 4
      /\ bt_size (bt_make heap_ab 4188 32 0) (4188 + 32 - 4) = 32)
  /\ (0 mod 2 = 1 ->
      mem (bt_make heap_ab 4188 32 0) (4188 + 32 - 4)
      = mem heap_ab (4188 + 32 - 4))
  /\ (4188 + 32 <= heap_end heap_ab ->
      bt_get_prevfree (bt_make heap_ab 4188 32 0) (4188 + 32)
      = (if 0 mod 2 =? 0 then PREVFREE else 0)
      /\ bt_size (bt_make heap_ab 4188 32 0) (4188 + 32)
         = bt_size heap_ab (4188 + 32)
      /\ bt_free (bt_make heap_ab 4188 32 0) (4188 + 32)
         = bt_free heap_ab (4188 + 32))
  /\ (heap_end heap_ab < 4188 + 32 ->
      mem (bt_make heap_ab 4188 32 0) (4188 + 32) = mem heap_ab (4188 + 32))
  /\ (forall y, y <> 4188 -> y <> 4188 + 32 -> y <> 4188 + 32 - 4 ->
                mem (bt_make heap_ab 4188 32 0) y = mem heap_ab y).
Proof.
  apply (bt_make_tags heap_ab 4188 32 0); [lia|lia|reflexivity|lia].
Defined.

(** X17: Links of a free block are stored as word offsets from [heap_start] and
    read back as the block they were set to, for every word-aligned target
    less than 2^31 bytes above [heap_start]; the target [heap_start - 4]
    reads back as null.  Setting one link leaves the other one alone. *)
Theorem free_links_round_trip (s : state) (p n : Z) :
  (n - heap_start s) mod 4 = 0 -> 0 <= n - heap_start s < 2 ^ 31 ->
  get_free_next (set_free_next s p n) p = n
  /\ get_free_prev (set_free_prev s p n) p = n
  /\ get_free_next (set_free_next s p (heap_start s - 4)) p = 0
  /\ get_free_prev (set_free_prev s p (heap_start s - 4)) p = 0
  /\ get_free_prev (set_free_next s p n) p = get_free_prev s p
  /\ get_free_next (set_free_prev s p n) p = get_free_next s p.
Proof.
  intros Hm Hr.
  destruct (set_free_next_spec s p n) as (F1 & M1 & N1 & _).
  destruct (set_free_prev_spec s p n) as (F2 & M2 & N2 & _).
  destruct (set_free_next_spec s p (heap_start s - 4)) as (_ & _ & _ & N3).
  destruct (set_free_prev_spec s p (heap_start s - 4)) as (_ & _ & _ & N4).
  split; [exact (N1 Hm Hr)|]. split; [exact (N2 Hm Hr)|].
  split; [exact (N3 eq_refl)|]. split; [exact (N4 eq_refl)|].
  split.
  - apply get_free_prev_frame; [exact (sf_hs _ _ F1)|apply M1; lia].
  - apply get_free_next_frame; [exact (sf_hs _ _ F2)|apply M2; lia].
Qed.

Lemma free_links_round_trip_witness :
  get_free_next (set_free_next heap_ab 4188 4220) 4188 = 4220
  /\ get_free_prev (set_free_prev heap_ab 4188 4220) 4188 = 4220
  /\ get_free_next (set_free_next heap_ab 4188 (heap_start heap_ab - 4)) 4188
     = 0
  /\ get_free_prev (set_free_prev heap_ab 4188 (heap_start heap_ab - 4)) 4188
     = 0
  /\ get_free_prev (set_free_next heap_ab 4188 4220) 4188
     = get_free_prev heap_ab 4188
  /\ get_free_next (set_free_prev heap_ab 4188 4220) 4188
     = get_free_next heap_ab 4188.
Proof.
  apply (free_links_round_trip heap_ab 4188 4220).
  - vm_compute. reflexivity.
  - vm_compute. split; [intros E; discriminate E|reflexivity].
Defined.

(** ** Bucket lists *)

Lemma append_front_facts (s : state) (a i : Z) :
  (a - heap_start s) mod 4 = 0 -> 0 <= a - heap_start s < 2 ^ 31 ->
  segregated_list s i = 0
  \/ ((segregated_list s i - heap_start s) mod 4 = 0
      /\ 0 <= segregated_list s i - heap_start s < 2 ^ 31
      /\ (segregated_list s i + 16 <= a \/ a + 16 <= segregated_list s i)) ->
  heap_start (free_list_append s a i) = heap_start s
  /\ segregated_list (free_list_append s a i) i = a
  /\ (forall j, j <> i ->
        segregated_list (free_list_append s a i) j = segregated_list s j)
  /\ get_free_next (free_list_append s a i) a = segregated_list s i
  /\ get_free_prev (free_list_append s a i) a = 0
  /\ (segregated_list s i <> 0 ->
      get_free_prev (free_list_append s a i) (segregated_list s i) = a
      /\ get_free_next (free_list_append s a i) (segregated_list s i)
         = get_free_next s (segregated_list s i))
  /\ (forall y, y <> a + 4 -> y <> a + 8 -> y <> segregated_list s i + 8 ->
        mem (free_list_append s a i) y = mem s y).
Proof.
  intros Ha1 Ha2 Hh. unfold free_list_append. cbv zeta.
  destruct (set_free_prev_spec s a (heap_start s - 4)) as (F1 & M1 & _ & P1).
  specialize (P1 eq_refl).
  set (s1 := set_free_prev s a (heap_start s - 4)) in *.
  assert (Hs1 : segregated_list s1 i = segregated_list s i)
    by exact (sf_seg _ _ i F1).
  pose proof (sf_hs _ _ F1) as Hh1.
  rewrite Hs1. set (h := segregated_list s i) in *.
  destruct (Z.eqb_spec h 0) as [Hz|Hnz].
  - destruct (set_free_next_spec s1 a (heap_start s1 - 4))
      as (F2 & M2 & _ & N2).
    specialize (N2 eq_refl).
    set (s2 := set_free_next s1 a (heap_start s1 - 4)) in *.
    pose proof (sf_hs _ _ F2) as Hh2.
    destruct (set_seg_fields s2 i a) as ((A3 & _) & M3 & G3 & O3).
    set (s3 := set_seg s2 i a) in *.
    split; [congruence|]. split; [exact G3|].
    split.
    { intros j Hj. rewrite (O3 j Hj), (sf_seg _ _ j F2).
      exact (sf_seg _ _ j F1). }
    split.
    { rewrite Hz, <- N2.
      apply get_free_next_frame; [exact A3|rewrite M3; reflexivity]. }
    split.
    { rewrite <- P1.
      apply get_free_prev_frame; [congruence|].
      rewrite M3. apply M2. lia. }
    split; [intros N; contradiction|].
    intros y Y1 Y2 _. rewrite M3, M2, M1 by assumption. reflexivity.
  - destruct Hh as [Hh|(Hm & Hr & Hap)]; [contradiction|].
    destruct (set_free_prev_spec s1 h a) as (F2 & M2 & P2 & _).
    rewrite Hh1 in P2. specialize (P2 Ha1 Ha2).
    set (s2 := set_free_prev s1 h a) in *.
    pose proof (sf_hs _ _ F2) as Hh2.
    assert (Hs2 : segregated_list s2 i = h).
    { rewrite (sf_seg _ _ i F2). exact Hs1. }
    rewrite Hs2.
    destruct (set_free_next_spec s2 a h) as (F3 & M3 & N3 & _).
    rewrite Hh2, Hh1 in N3. specialize (N3 Hm Hr).
    set (s3 := set_free_next s2 a h) in *.
    pose proof (sf_hs _ _ F3) as Hh3.
    destruct (set_seg_fields s3 i a) as ((A4 & _) & M4 & G4 & O4).
    set (s4 := set_seg s3 i a) in *.
    split; [congruence|]. split; [exact G4|].
    split.
    { intros j Hj.
      rewrite (O4 j Hj), (sf_seg _ _ j F3), (sf_seg _ _ j F2).
      exact (sf_seg _ _ j F1). }
    split.
    { rewrite <- N3.
      apply get_free_next_frame; [exact A4|rewrite M4; reflexivity]. }
    split.
    { rewrite <- P1.
      apply get_free_prev_frame; [congruence|].
      rewrite M4, M3, M2 by lia. reflexivity. }
    split.
    { intros _. split.
      - rewrite <- P2.
        apply get_free_prev_frame; [congruence|].
        rewrite M4, M3 by lia. reflexivity.
      - apply get_free_next_frame; [congruence|].
        rewrite M4, M3, M2, M1 by lia. reflexivity. }
    intros y Y1 Y2 Y3. rewrite M4, M3, M2, M1 by assumption. reflexivity.
Qed.

(** X18: [free_list_append] puts the block at the front of its bucket: the
    bucket head becomes the block, the block's next link is the old head
    (null for an empty bucket) and its previous link is null; the old head,
    if any, gets the block as predecessor and keeps its own next link.  The
    other buckets and all words but these three links are unchanged. *)
Theorem free_list_append_front (s : state) (a i : Z) :
  (a - heap_start s) mod 4 = 0 -> 0 <= a - heap_start s < 2 ^ 31 ->
  segregated_list s i = 0
  \/ ((segregated_list s i - heap_start s) mod 4 = 0
      /\ 0 <= segregated_list s i - heap_start s < 2 ^ 31
      /\ (segregated_list s i + 16 <= a \/ a + 16 <= segregated_list s i)) ->
  segregated_list (free_list_append s a i) i = a
  /\ (forall j, j <> i ->
        segregated_list (free_list_append s a i) j = segregated_list s j)
  /\ get_free_next (free_list_append s a i) a = segregated_list s i
  /\ get_free_prev (free_list_append s a i) a = 0
  /\ (segregated_list s i <> 0 ->
      get_free_prev (free_list_append s a i) (segregated_list s i) = a
      /\ get_free_next (free_list_append s a i) (segregated_list s i)
         = get_free_next s (segregated_list s i))
  /\ (forall y, y <> a + 4 -> y <> a + 8 -> y <> segregated_list s i + 8 ->
        mem (free_list_append s a i) y = mem s y).
Proof.
  intros Ha1 Ha2 Hh. exact (proj2 (append_front_facts s a i Ha1 Ha2 Hh)).
Qed.

Lemma free_list_append_front_witness :
  segregated_list (free_list_append heap_ab 4220 1) 1 = 4220
  /\ (forall j, j <> 1 ->
        segregated_list (free_list_append heap_ab 4220 1) j
        = segregated_list heap_ab j)
  /\ get_free_next (free_list_append heap_ab 4220 1) 4220
     = segregated_list heap_ab 1
  /\ get_free_prev (free_list_append heap_ab 4220 1) 4220 = 0
  /\ (segregated_list heap_ab 1 <> 0 ->
      get_free_prev (free_list_append heap_ab 4220 1)
                    (segregated_list heap_ab 1) = 4220
      /\ get_free_next (free_list_append heap_ab 4220 1)
                       (segregated_list heap_ab 1)
         = get_free_next heap_ab (segregated_list heap_ab 1))
  /\ (forall y, y <> 4220 + 4 -> y <> 4220 + 8 ->
                y <> segregated_list heap_ab 1 + 8 ->
        mem (free_list_append heap_ab 4220 1) y = mem heap_ab y).
Proof.
  apply (free_list_append_front heap_ab 4220 1).
  - vm_compute. reflexivity.
  - vm_compute. split; [intros E; discriminate E|reflexivity].
  - right. vm_compute.
    split; [reflexivity|].
    split; [split; [intros E; discriminate E|reflexivity]|].
    left. intros E; discriminate E.
Defined.

(** X19: Deleting a block right after it was put on a bucket restores the
    bucket table: every bucket head is what it was, and the old head of the
    bucket again has no predecessor and its old successor.  Only the link
    words of the block and the previous link of the old head were
    written. *)
Theorem free_list_delete_undoes_append (s : state) (a i : Z) :
  (a - heap_start s) mod 4 = 0 -> 0 <= a - heap_start s < 2 ^ 31 ->
  segregated_list s i = 0
  \/ ((segregated_list s i - heap_start s) mod 4 = 0
      /\ 0 <= segregated_list s i - heap_start s < 2 ^ 31
      /\ (segregated_list s i + 16 <= a \/ a + 16 <= segregated_list s i)) ->
  (forall j, segregated_list (free_list_delete (free_list_append s a i) a i) j
             = segregated_list s j)
  /\ (segregated_list s i <> 0 ->
      get_free_prev (free_list_delete (free_list_append s a i) a i)
                    (segregated_list s i) = 0
      /\ get_free_next (free_list_delete (free_list_append s a i) a i)
                       (segregated_list s i)
         = get_free_next s (segregated_list s i))
  /\ (forall y, y <> a + 4 -> y <> a + 8 -> y <> segregated_list s i + 8 ->
        mem (free_list_delete (free_list_append s a i) a i) y = mem s y).
Proof.
  intros Ha1 Ha2 Hh.
  destruct (append_front_facts s a i Ha1 Ha2 Hh)
    as (Hs & G & O & N & P & Hd & M).
  set (s1 := free_list_append s a i) in *.
  set (h := segregated_list s i) in *.
  unfold free_list_delete. rewrite G, N, Z.eqb_refl. cbn [andb negb].
  destruct (Z.eqb_spec h 0) as [Hz|Hnz].
  - destruct (set_seg_fields s1 i 0) as (_ & M2 & G2 & O2).
    split.
    { intros j. destruct (Z.eq_dec j i) as [->|Hj].
      - rewrite G2. symmetry. exact Hz.
      - rewrite (O2 j Hj). exact (O j Hj). }
    split; [intros E; contradiction|].
    intros y Y1 Y2 Y3. rewrite M2. exact (M y Y1 Y2 Y3).
  - destruct Hh as [Hh|(Hm & Hr & Hap)]; [contradiction|].
    destruct (Hd Hnz) as (Hd1 & Hd2).
    destruct (set_free_prev_spec s1 h (heap_start s1 - 4))
      as (F2 & M2 & _ & P2).
    specialize (P2 eq_refl).
    set (s2 := set_free_prev s1 h (heap_start s1 - 4)) in *.
    pose proof (sf_hs _ _ F2) as Hh2.
    assert (N2 : get_free_next s2 a = h).
    { rewrite <- N. apply get_free_next_frame; [exact Hh2|apply M2; lia]. }
    rewrite N2.
    destruct (set_seg_fields s2 i h) as ((A3 & _) & M3 & G3 & O3).
    split.
    { intros j. destruct (Z.eq_dec j i) as [->|Hj].
      - exact G3.
      - rewrite (O3 j Hj), (sf_seg _ _ j F2). exact (O j Hj). }
    split.
    { intros _. split.
      - rewrite <- P2.
        apply get_free_prev_frame; [exact A3|rewrite M3; reflexivity].
      - rewrite <- Hd2.
        apply get_free_next_frame; [congruence|].
        rewrite M3. apply M2. lia. }
    intros y Y1 Y2 Y3. rewrite M3, M2 by assumption. exact (M y Y1 Y2 Y3).
Qed.

Lemma free_list_delete_undoes_append_witness :
  (forall j,
      segregated_list (free_list_delete (free_list_append heap_ab 4220 1)
                                        4220 1) j
      = segregated_list heap_ab j)
  /\ (segregated_list heap_ab 1 <> 0 ->
      get_free_prev (free_list_delete (free_list_append heap_ab 4220 1)
                                      4220 1)
                    (segregated_list heap_ab 1) = 0
      /\ get_free_next (free_list_delete (free_list_append heap_ab 4220 1)
                                         4220 1)
                       (segregated_list heap_ab 1)
         = get_free_next heap_ab (segregated_list heap_ab 1))
  /\ (forall y, y <> 4220 + 4 -> y <> 4220 + 8 ->
                y <> segregated_list heap_ab 1 + 8 ->
        mem (free_list_delete (free_list_append heap_ab 4220 1) 4220 1) y
        = mem heap_ab y).
Proof.
  apply (free_list_delete_undoes_append heap_ab 4220 1).
  - vm_compute. reflexivity.
  - vm_compute. split; [intros E; discriminate E|reflexivity].
  - right. vm_compute.
    split; [reflexivity|].
    split; [split; [intros E; discriminate E|reflexivity]|].
    left. intros E; discriminate E.
Defined.

(** ** Requests whose adjusted size wraps around *)

Lemma asize_wraps (size : Z) :
  2 ^ 64 - 20 < size <= 2 ^ 64 - 4 -> round_up (wrap64 (size + WSIZE)) = 0.
Proof.
  intros Hs. rewrite round_up_spec by apply wrap64_range.
  unfold wrap64, WSIZE. change (2 ^ 64) with 18446744073709551616 in *.
  zmod.
Qed.

Lemma asize_tiny (size : Z) :
  2 ^ 64 - 4 < size < 2 ^ 64 -> round_up (wrap64 (size + WSIZE)) = 16.
Proof.
  intros Hs. rewrite round_up_spec by apply wrap64_range.
  unfold wrap64, WSIZE. change (2 ^ 64) with 18446744073709551616 in *.
  zmod.
Qed.

(** X20: [malloc] does not check the adjusted size for overflow.  For a request
    within 20 bytes of 2^64 a non-null result is not a block of that size:
    up to [2^64 - 4] the adjusted size is 0, nothing is allocated and the
    returned pointer is not an allocated pointer; above, the adjusted size
    is 16 and the result is a block of 16 bytes.  With an adjusted size of
    0 the result is null only when the last block of the heap is free. *)
Theorem malloc_size_overflow (fuel : nat) (s : state) (size p : Z)
        (s' : state) :
  reachable s -> 2 ^ 64 - 20 < size < 2 ^ 64 ->
  malloc fuel s size = Some (p, s') ->
  (size <= 2 ^ 64 - 4 ->
   (forall q, allocated s' q = allocated s q)
   /\ (p <> 0 -> allocated s' p = false)
   /\ (p = 0 -> last s <> 0 /\ bt_free s (last s) = true))
  /\ (2 ^ 64 - 4 < size -> p <> 0 ->
      allocated s' p = true /\ bt_size s' (bt_header p) = 16).
Proof.
  intros R Hsize Hm.
  destruct (reachable_heap_ok s R) as (bl & fl & C & P & L).
  assert (H : hcore s bl) by (exists fl; exact C).
  assert (Hs0 : 0 <= size < 2 ^ 64) by lia.
  destruct (malloc_spec_full _ _ _ _ _ _ H P L Hs0 Hm)
    as (_ & _ & _ & bl' & H' & P' & L' & K & N & KP & O & Fr & Zero).
  split.
  - intros Hle.
    assert (Hlo : 2 ^ 64 - 20 < size <= 2 ^ 64 - 4) by lia.
    destruct (Zero (asize_wraps size Hlo)) as (-> & Hnull).
    assert (Hsame : forall q, allocated s' q = allocated s q).
    { intros q.
      pose proof (allocated_used s' bl q H' P') as I1.
      pose proof (allocated_used s bl q H P) as I2.
      destruct (allocated s' q), (allocated s q); try reflexivity.
      - symmetry. apply I2, I1. reflexivity.
      - apply I1, I2. reflexivity. }
    split; [exact Hsame|]. split.
    + intros Hp. rewrite Hsame.
      destruct (allocated s p) eqn:Ea; [|reflexivity].
      apply (allocated_used s bl p H P) in Ea. destruct Ea as (sz0 & Hin0).
      elim (Fr Hp sz0 Hin0).
    + intros Hp. specialize (Hnull Hp).
      apply andb_true_iff in Hnull. destruct Hnull as (Hn1 & Hn2).
      split; [|exact Hn2].
      apply negb_true_iff in Hn1. apply Z.eqb_neq. exact Hn1.
  - intros Hhi Hp.
    assert (Hhi' : 2 ^ 64 - 4 < size < 2 ^ 64) by lia.
    pose proof (asize_tiny size Hhi') as Ha.
    assert (Hanz : round_up (wrap64 (size + WSIZE)) <> 0) by lia.
    destruct (N Hp Hanz) as (sz & Hin & Hle).
    destruct (used_block _ _ _ _ H' Hin) as (Hz & _).
    destruct (tiles_in _ _ _ _ (h_tiles _ _ H') Hin) as (_ & _ & _ & Hm16).
    cbn [bsize] in Hm16.
    split; [apply (allocated_used s' bl' p H' P'); exists sz; exact Hin|].
    unfold bt_header, WSIZE. rewrite Hz. rewrite Ha in Hle. zmod.
Qed.

Lemma malloc_size_overflow_witness :
  (2 ^ 64 - 4 <= 2 ^ 64 - 4 ->
   (forall q, allocated (after heap_ab (Malloc (2 ^ 64 - 4))) q
              = allocated heap_ab q)
   /\ (result heap_ab (Malloc (2 ^ 64 - 4)) <> 0 ->
       allocated (after heap_ab (Malloc (2 ^ 64 - 4)))
                 (result heap_ab (Malloc (2 ^ 64 - 4))) = false)
   /\ (result heap_ab (Malloc (2 ^ 64 - 4)) = 0 ->
       last heap_ab <> 0 /\ bt_free heap_ab (last heap_ab) = true))
  /\ (2 ^ 64 - 4 < 2 ^ 64 - 4 ->
      result heap_ab (Malloc (2 ^ 64 - 4)) <> 0 ->
      allocated (after heap_ab (Malloc (2 ^ 64 - 4)))
                (result heap_ab (Malloc (2 ^ 64 - 4))) = true
      /\ bt_size (after heap_ab (Malloc (2 ^ 64 - 4)))
                 (bt_header (result heap_ab (Malloc (2 ^ 64 - 4)))) = 16).
Proof.
  apply (malloc_size_overflow 64 heap_ab (2 ^ 64 - 4)).
  - exact heap_ab_reachable.
  - lia.
  - apply (malloc_run heap_ab (2 ^ 64 - 4)). apply returns_some.
    vm_compute. reflexivity.
Defined.

(** ** The last block and termination *)

(** X21: Between calls [last] is the header of the physically last block of the
    heap, null when the heap is empty; the one exception is a [last] left
    at the epilogue by a zero-byte extension. *)
Theorem last_is_last_block (s : state) :
  reachable s ->
  last s = heap_end s \/ last s = List.last (heap_blocks s) 0.
Proof.
  intros R. destruct (reachable_heap_ok s R) as (bl & fl & C & P & L).
  rewrite (heap_blocks_inv _ _ _ C P). exact L.
Qed.

Lemma last_is_last_block_witness :
  last heap_ab = heap_end heap_ab
  \/ last heap_ab = List.last (heap_blocks heap_ab) 0.
Proof. exact (last_is_last_block heap_ab heap_ab_reachable). Defined.

Lemma filter_cons_length {A : Type} (f : A -> bool) (x : A) (l : list A) :
  length (filter f (x :: l))
  = ((if f x then 1 else 0) + length (filter f l))%nat.
Proof. cbn [filter]. destruct (f x); reflexivity. Qed.

(** The bucket lists hold no more blocks than the heap. *)
Lemma bucket_lengths (s : state) (bl : list block) (fl : Z -> list Z) :
  core s bl fl -> (enough_fuel fl <= S (length bl))%nat.
Proof.
  intros C.
  set (cls := fun i (b : block) => get_index (bsize b) =? i).
  assert (Hone : forall i, 0 <= i < NUM_LIST ->
            (length (fl i) <= length (filter (cls i) bl))%nat).
  { intros i Hi. destruct (c_lists _ _ _ C i Hi) as (_ & Nd & M).
    rewrite <- (length_map baddr (filter (cls i) bl)).
    apply NoDup_incl_length; [exact Nd|].
    intros a Ha. apply M in Ha. destruct Ha as (sz & Hin & Hg).
    apply in_map_iff. exists (mkBlock a sz OnList). split; [reflexivity|].
    apply filter_In. split; [exact Hin|].
    unfold cls. cbn [bsize]. apply Z.eqb_eq. exact Hg. }
  assert (Hsum : forall l : list block,
            (length (filter (cls 0%Z) l) + length (filter (cls 1%Z) l)
             + length (filter (cls 2%Z) l) + length (filter (cls 3%Z) l)
             + length (filter (cls 4%Z) l) + length (filter (cls 5%Z) l)
             + length (filter (cls 6%Z) l) + length (filter (cls 7%Z) l)
             + length (filter (cls 8%Z) l) <= length l)%nat).
  { induction l as [|b l IH]; [cbn; lia|].
    rewrite !filter_cons_length. cbn [length]. unfold cls at 1 3 5 7 9 11 13 15 17.
    remember (get_index (bsize b)) as g eqn:Eg. clear Eg.
    destruct (Z.eqb_spec g 0) as [->|]; [cbn; lia|].
    destruct (Z.eqb_spec g 1) as [->|]; [cbn; lia|].
    destruct (Z.eqb_spec g 2) as [->|]; [cbn; lia|].
    destruct (Z.eqb_spec g 3) as [->|]; [cbn; lia|].
    destruct (Z.eqb_spec g 4) as [->|]; [cbn; lia|].
    destruct (Z.eqb_spec g 5) as [->|]; [cbn; lia|].
    destruct (Z.eqb_spec g 6) as [->|]; [cbn; lia|].
    destruct (Z.eqb_spec g 7) as [->|]; [cbn; lia|].
    destruct (Z.eqb_spec g 8) as [->|]; cbn; lia. }
  unfold enough_fuel. specialize (Hsum bl).
  pose proof (Hone 0 ltac:(unfold NUM_LIST; lia)).
  pose proof (Hone 1 ltac:(unfold NUM_LIST; lia)).
  pose proof (Hone 2 ltac:(unfold NUM_LIST; lia)).
  pose proof (Hone 3 ltac:(unfold NUM_LIST; lia)).
  pose proof (Hone 4 ltac:(unfold NUM_LIST; lia)).
  pose proof (Hone 5 ltac:(unfold NUM_LIST; lia)).
  pose proof (Hone 6 ltac:(unfold NUM_LIST; lia)).
  pose proof (Hone 7 ltac:(unfold NUM_LIST; lia)).
  pose proof (Hone 8 ltac:(unfold NUM_LIST; lia)).
  lia.
Qed.

(** X22: Every call that passes null or an allocated pointer returns, in
    every state reached by such calls and by client stores into allocated
    blocks: the scan of [find_fit] follows bucket lists that end, and it
    needs no more steps per bucket than the heap has blocks, plus one. *)
Theorem calls_return (fuel : nat) (s : state) (c : call) :
  reachable s -> valid_call s c -> (length (heap_blocks s) < fuel)%nat ->
  exists p s', do_call fuel s c = Some (p, s').
Proof.
  intros R _ Hf. destruct (reachable_heap_ok s R) as (bl & fl & C & P & L).
  apply (do_call_total fuel s bl fl c C).
  pose proof (bucket_lengths s bl fl C) as Hb.
  rewrite (heap_blocks_inv _ _ _ C P), length_map in Hf. lia.
Qed.

Lemma calls_return_witness :
  exists p s', do_call 3 heap_ab (Malloc 40) = Some (p, s').
Proof.
  apply (calls_return 3 heap_ab (Malloc 40)).
  - exact heap_ab_reachable.
  - cbn [valid_call]. lia.
  - vm_compute. reflexivity.
Defined.
